(* ===== verification/_CoqProject ===== *)
-Q . S2P
Prelude.v
Utf8.v
Types.v
Effects.v
Journal.v
Extension.v
Session.v
Plugins.v
Router.v
Persistence.v
SubRoutineCache.v
Engine.v
GovTypes.v
Signals.v
Trace.v
Hooks.v
Finalize.v
Dispatch.v
Transition.v
Executor.v
EngineThread.v
Builder.v
Guards.v
Aggregators.v
Subroutines.v
Tools.v
Telemetry.v
StdPlugins.v
Instances.v
Frames.v
Termination.v
Invariants.v
Lifecycle.v
Ordering.v
StreamSpec.v
TransitionSpec.v
ExtensionSpec.v
Rollback.v
RollbackSpec.v
AggregatorSpec.v
GuardSpec.v
JournalSpec.v
SignalSpec.v
PersistenceSpec.v
ThreadSpec.v
ExecutorSpec.v
StdSpec.v
Profile.v
PluginSpec.v
Projection.v
ProjectionSpec.v
Sse.v
Provider.v
ProviderSpec.v
SystemTools.v
SystemToolsSpec.v
Settings.v
SettingsSpec.v
Extensions.v
Memory.v
UserTools.v
Skills.v
UserToolsSpec.v
Derive.v
DeriveSpec.v
DesktopShell.v
ExtensionsSpec.v
DesktopSessions.v
DesktopCommands.v
DesktopSessionsSpec.v
DesktopCommandsSpec.v
EffectLoop.v
EffectExecutor.v
PluginKit.v
Tooling.v
ProfileSpec.v
EffectLoopSpec.v
ConversationSpec.v
Terminal.v
TerminalSpec.v
