(* ===== verification/Prelude.v ===== *)
(** * Brioche: a verified model of the plugin kernel and of the shell around it

    Brioche runs an agent as a pure state machine: an engine ([BriocheEngine]) receives
    one input at a time for one session, runs the plugins registered on the hooks of that
    input, moves a hierarchical automaton and returns a list of effects for a shell to
    execute.  Governance traits police the plugins: interceptors, an aggregator of
    decisions, effect constraints, rollback of extension state, a consistency verifier, a
    failover handler.  The shell owns the engine thread, journals the inputs, executes the
    effects (calls to the model, tools, saves), persists sessions and projects what
    happens onto a user interface; the desktop application keeps several sessions,
    settings, secrets, skills, memory and user tools around it.

    ** How the parts interact

    [Transition.transition] consumes an [EngineInput] and yields [Effect]s.  The engine
    thread (EngineThread) takes inputs from channels and signals from the event bus
    (Signals), writes each input to the journal (Journal), runs the transition, sends the
    effects with a snapshot to the effect loop (EffectLoop), which spawns one task per
    effect; a task runs a method of the executor (Executor, EffectExecutor), which calls
    the model (Provider, Sse), the tools (SystemTools, UserTools), the store (Persistence,
    SubRoutineCache) or the projection (Projection), and sends the answer back as an
    input.  DesktopShell decides what history the model is sent and which tools it is
    offered; DesktopSessions creates, saves, loads and switches the sessions.

    ** How the model reads

    A Rust type is one Rocq type: structs are records, enums inductive types in a module of
    their own ([AgentState.Idle]).  [u64] and [usize] are [N], [i16] is [Z]; additions the
    code leaves unchecked wrap ([wrapping_add], [next_phase]) as in the release profiles.
    A [String] is its UTF-8 byte sequence; a [BTreeMap] or [HashMap] is a [gmap], read in
    key order through [btree_to_list] where the code iterates.  A method taking [&mut S] is
    a [State S A], a function from the state to a result and the state; [?] is the bind
    [<-?], which stops at an [Err] and keeps the state reached, so partial effects of
    failing methods are visible.  One transition threads [Kernel]: engine, session, effect
    buffer.  A trait object is the record or function of its methods; plugins are arbitrary
    functions of the storage they borrow, so theorems about the engine quantify over all
    plugins.  Threads and tasks that run concurrently (signals, engine thread and watchdog,
    rate limiter, effect loop, background saves) are step functions on a shared state; an
    interleaving is a list of labels, and theorems quantify over all of them.  Files,
    clocks, processes, HTTP and random keys act on an abstract world.

    Not in the source, hence parameters: [std::any] values with their [TypeId]s and the
    postcard codec (classes [AnyUniverse], [BriocheExtensionType], whose laws are the
    documented behaviour of downcasts), the state of the rollback policy (class
    [CycleRollbackPolicy]), MessagePack, CRC-32 and Zstd ([PersistCodec]), the LRU crate
    (interface [LruCache]), JSON, URL and IP parsing, the AEAD cipher, [{:?}] output put in
    messages.  Instances.v gives concrete ones, with which the
    witnesses compute.

    ** The files

    - Prelude: results, state passing, relations respected by a computation ([respects]),
      stable sorting, ordered maps, text.  Utf8: [String::from_utf8_lossy].
    - The kernel, brioche-core/src: Types, Effects ([types/*.rs]), Extension
      ([extension.rs] and the vtable brioche-macro derives), Session, Plugins (the trait
      contracts of brioche-governance), Router, Engine, Trace, Hooks, Finalize, Dispatch
      (the files of those names under [engine/]), Transition, Builder.
    - The default governance, brioche-governance-default/src: GovTypes, Guards,
      Aggregators, Subroutines, Tools, Telemetry, Rollback, Profile; brioche-std:
      StdPlugins; brioche-plugin-kit and the shell builder: PluginKit.
    - The shell runtime, brioche-shell-runtime/src: Journal, Signals, EngineThread,
      Executor (tool batches, retries, snapshots), EffectLoop (tasks, permits, rebuild
      barrier, shutdown), EffectExecutor (the methods of the default executor, background
      saves, telemetry payloads).
    - Persistence, brioche-shell-persistence/src: Persistence, SubRoutineCache, Settings
      (with secrets and profiles), Extensions (registry, context engine, footer), Memory,
      UserTools, Skills.
    - Projection: brioche-shell-projection/src.  Sse, Provider: brioche-provider-openai.
      SystemTools: brioche-tools-system.
    - The desktop application, brioche-desktop/src: DesktopShell ([commands/shell.rs]),
      DesktopSessions ([state.rs], [commands/session/]), DesktopCommands (the other files of
      [commands/]).  The terminal application, agent-terminal/src and brioche-reedline/src:
      Terminal.
    - The procedural macros, brioche-macro/src: Derive (types as the syntax they read).
      Tooling: the lints, the documentation generator and the playground.
    - Frames, Termination, Invariants, Lifecycle, Ordering: the proof library of
      the kernel.  Frames shows once what hooks cannot touch; a relation that ignores the
      effect buffer, the policy and the storage ([KernelFrame]), or also the history
      ([HistoryFrame]) or the automaton ([DispatchFrame]) is then respected by whole
      phases.  Lifecycle holds the abstract automaton.
    - The [*Spec] files: the properties of the file they are named after, with witnesses.

    ** What is shown

    - TransitionSpec: [transition] is total and satisfies the recursive
      equation of the code; the dispatch refines the abstract automaton; failure is
      terminal; sessions reachable from new ones are well nested; configuration is
      immutable; effects are policed and bounded; the state stack and history edits.
      The routes are ordered.
    - ExtensionSpec, RollbackSpec: type safety and restart of the type-erased storage; what
      a rollback restores, proved against the interface [FrameGuard] the guards implement.
    - StreamSpec, GuardSpec, PluginSpec, AggregatorSpec, StdSpec,
      ProfileSpec: streaming and the default
      components, inside the kernel where the claim is about both.
    - JournalSpec, ThreadSpec, SignalSpec: the journal is a queue; an input in flight is
      recoverable; signals are neither lost nor repeated.  ExecutorSpec, EffectLoopSpec:
      tool rounds are answered; concurrency is bounded and no effect
      lost; the shutdown drains the loop; background saves are durable.
    - PersistenceSpec: saves are crash safe, saved sessions reload, and when
      they do not.  SettingsSpec, ExtensionsSpec, UserToolsSpec: secrets are
      sealed, profiles consistent, compression bounded, templates confined.
    - ProjectionSpec, ProviderSpec, SystemToolsSpec: frames, event
      parsing independent of the network's cuts, every model call concluded, the sandbox.
      ConversationSpec: kernel and client keep the same conversation.
    - ExtensionsSpec, DesktopSessionsSpec, DesktopCommandsSpec: what is sent to the model; the
      active session always exists; what loading and clearing a session do to the disk;
      profiles and settings survive; what a change of the settings replaces.  TerminalSpec: what
      the terminal displays, and which model hears the user.
    - DeriveSpec: in a program that compiles, persisted state is ordered all the way down.
      Tooling: what a passing check means; what is reported.
      ProfileSpec: the shells the applications build do not journal.

    ** Bounds and fuel

    [transition] recurses on the child of a sub-routine, which is removed from the registry
    first: the number of registered sub-routines plus one is enough, and more changes
    nothing (Termination).  The UTF-8 decoder, the SSE line loop ([feed_loop]) and the
    segmentation of text ([segment_loop]) recurse with the length of their input, the
    journal scan with the bytes in use, the retry loop with the retries left plus one;
    each is proved to be enough where it is used.

    ** Not modelled

    Panics and non-termination of plugins; [tracing] output; the [Send]/[Sync] markers;
    serde of the data types; how threads and tasks are started (what [BriocheShell::new]
    starts is in EffectExecutor); the windows of the desktop application; the drawing and
    argument parsing of the terminal application; of the procedural macros, the tokens they
    copy and the spans of their errors. *)

(** ** Shared notation, monads, ordering and automation *)
From Stdlib Require Export Strings.Ascii Strings.String Strings.Byte.
From stdpp Require Export base tactics list gmap strings pretty numbers sorting option fin_maps.

(** ** Results: Rust's [Result<A, E>] *)

Inductive result (A E : Type) : Type :=
  | Ok (a : A)
  | Err (e : E).
Arguments Ok {A E} a.
Arguments Err {A E} e.

#[global] Instance result_eq_dec {A E} `{EqDecision A, EqDecision E} : EqDecision (result A E).
Proof. solve_decision. Defined.

Definition result_bind {A B E} (r : result A E) (f : A → result B E) : result B E :=
  match r with Ok a => f a | Err e => Err e end.

Definition is_ok {A E} (r : result A E) : bool :=
  match r with Ok _ => true | Err _ => false end.

(** ** Explicit state passing: a method taking [&mut S] is a [State S A] *)

Definition State (S A : Type) : Type := S → A * S.

Definition ret {S A} (a : A) : State S A := λ s, (a, s).
Definition bind {S A B} (m : State S A) (f : A → State S B) : State S B :=
  λ s, f (m s).1 (m s).2.
Definition gets {S A} (f : S → A) : State S A := λ s, (f s, s).
Definition modify {S} (f : S → S) : State S unit := λ s, (tt, f s).

Declare Scope kernel_scope.
Delimit Scope kernel_scope with kernel.
Notation "x '<-!' m ';;' k" := (bind m (λ x, k))
  (at level 100, m at next level, right associativity) : kernel_scope.
Notation "m ';;!' k" := (bind m (λ _, k))
  (at level 100, right associativity) : kernel_scope.
#[global] Open Scope kernel_scope.

(** Running a fallible state computation and propagating its error: Rust's [?]. *)
Definition bind_ok {S A B E} (m : State S (result A E)) (f : A → State S (result B E)) :
    State S (result B E) :=
  bind m (λ r, match r with Ok a => f a | Err e => ret (Err e) end).
Notation "x '<-?' m ';;' k" := (bind_ok m (λ x, k))
  (at level 100, m at next level, right associativity) : kernel_scope.

Fixpoint for_each {S A} (l : list A) (body : A → State S unit) : State S unit :=
  match l with
  | [] => ret tt
  | x :: l' => body x ;;! for_each l' body
  end.

(** ** Frame reasoning: a computation whose every step stays inside a relation *)

Definition respects {S A} (R : relation S) (m : State S A) : Prop := ∀ s, R s (m s).2.

Section respects.
Context {S : Type} (R : relation S) `{!Reflexive R, !Transitive R}.

Lemma respects_ret {A} (a : A) : respects R (ret a).
Proof using All. intros s. reflexivity. Qed.

Lemma respects_gets {A} (f : S → A) : respects R (gets f).
Proof using All. intros s. reflexivity. Qed.

Lemma respects_bind {A B} (m : State S A) (f : A → State S B) :
  respects R m → (∀ a, respects R (f a)) → respects R (bind m f).
Proof using All. intros Hm Hf s. unfold bind. etrans; [apply Hm|apply Hf]. Qed.

Lemma respects_bind_ok {A B E} (m : State S (result A E)) (f : A → State S (result B E)) :
  respects R m → (∀ a, respects R (f a)) → respects R (bind_ok m f).
Proof using All.
  intros Hm Hf. apply respects_bind; [done|]. intros [a|e]; [apply Hf|apply respects_ret].
Qed.

Lemma respects_for_each {A} (l : list A) (body : A → State S unit) :
  (∀ x, x ∈ l → respects R (body x)) → respects R (for_each l body).
Proof using All.
  induction l as [|x l IH]; intros Hb; cbn; [apply respects_ret|].
  apply respects_bind; [apply Hb; left|]. intros _. apply IH. intros y Hy. apply Hb. by right.
Qed.
End respects.

Lemma respects_modify {S} (R : relation S) (f : S → S) :
  (∀ s, R s (f s)) → respects R (modify f).
Proof. intros Hf s. apply Hf. Qed.

Lemma respects_weaken {S A} (R R' : relation S) (m : State S A) :
  (∀ s s', R s s' → R' s s') → respects R m → respects R' m.
Proof. intros HR Hm s. apply HR, Hm. Qed.

(** Unary invariants are the relation "if it held before, it holds after". *)
Definition keeps {S} (P : S → Prop) : relation S := λ s s', P s → P s'.

#[global] Instance keeps_refl {S} (P : S → Prop) : Reflexive (keeps P).
Proof. intros s H. exact H. Qed.
#[global] Instance keeps_trans {S} (P : S → Prop) : Transitive (keeps P).
Proof. intros s1 s2 s3 H12 H23 H. auto. Qed.

(** An observable that a computation leaves alone. *)
Definition same {S B} (obs : S → B) : relation S := λ s s', obs s' = obs s.

#[global] Instance same_refl {S B} (obs : S → B) : Reflexive (same obs).
Proof. intros s. reflexivity. Qed.
#[global] Instance same_trans {S B} (obs : S → B) : Transitive (same obs).
Proof. unfold same. intros s1 s2 s3. congruence. Qed.

(** Walk through a computation: binds, returns and case splits.  Guarded by
    syntax, so that a call to another method is left to that method's lemma,
    found in the hint database [kernel]. *)
Create HintDb kernel discriminated.

Ltac respects_step :=
  lazymatch goal with
  | |- respects _ (bind _ _) => apply respects_bind; [try apply _..| |intros ?]
  | |- respects _ (bind_ok _ _) => apply respects_bind_ok; [try apply _..| |intros ?]
  | |- respects _ (ret _) => apply respects_ret; apply _
  | |- respects _ (gets _) => apply respects_gets; apply _
  | |- respects _ (for_each _ _) => apply respects_for_each; [try apply _..|intros ? ?]
  | |- respects _ (match ?x with _ => _ end) => destruct x
  | |- respects _ _ => solve [eauto with kernel typeclass_instances nocore]
  end.
Ltac respects_auto := repeat (cbv zeta; respects_step).

(** Running a bind whose first step is known. *)
Lemma bind_pair {S A B} (m : State S A) (f : A → State S B) s :
  bind m f s = f (m s).1 (m s).2.
Proof. done. Qed.
Lemma bind_ok_Ok {S A B E} (m : State S (result A E)) (f : A → State S (result B E)) s a s' :
  m s = (Ok a, s') → bind_ok m f s = f a s'.
Proof. intros H. unfold bind_ok, bind. by rewrite H. Qed.
Lemma bind_ok_Err {S A B E} (m : State S (result A E)) (f : A → State S (result B E)) s e s' :
  m s = (Err e, s') → bind_ok m f s = (Err e, s').
Proof. intros H. unfold bind_ok, bind. by rewrite H. Qed.

(** ** Machine integers: [u64] and [usize] are [N], [i16] is [Z] *)

Definition u64_modulus : N := (2 ^ 64)%N.
Definition u64_max : N := (u64_modulus - 1)%N.
Definition wrapping_add (a b : N) : N := ((a + b) mod u64_modulus)%N.
Definition saturating_mul (a b : N) : N := N.min (a * b) u64_max.
Definition is_u64 (n : N) : Prop := (n < u64_modulus)%N.

Lemma wrapping_add_small a b : (a + b < u64_modulus)%N → wrapping_add a b = (a + b)%N.
Proof. intros H. apply N.mod_small, H. Qed.

Lemma wrapping_add_u64 a b : is_u64 (wrapping_add a b).
Proof. apply N.mod_lt. done. Qed.

(** ** Stable sorting: [slice::sort_by] *)

Section sort_by.
Context {A : Type} (cmp : A → A → comparison).

Fixpoint sort_insert (x : A) (l : list A) : list A :=
  match l with
  | [] => [x]
  | y :: l' => match cmp x y with
               | Gt => y :: sort_insert x l'
               | _ => x :: y :: l'
               end
  end.

Definition sort_by (l : list A) : list A := foldr sort_insert [] l.

Definition cmp_le (x y : A) : Prop := cmp x y ≠ Gt.

Lemma sort_insert_permutation x l : sort_insert x l ≡ₚ x :: l.
Proof.
  induction l as [|y l IH]; cbn; [done|].
  destruct (cmp x y); [done|done|]. rewrite IH. apply Permutation_swap.
Qed.

Lemma sort_by_permutation l : sort_by l ≡ₚ l.
Proof. induction l as [|x l IH]; cbn; [done|]. by rewrite sort_insert_permutation, IH. Qed.

Lemma sort_by_length l : length (sort_by l) = length l.
Proof. by rewrite sort_by_permutation. Qed.

Section sorted.
Context (cmp_antisym : ∀ x y, cmp x y = CompOpp (cmp y x)).
Context (cmp_trans : ∀ x y z, cmp_le x y → cmp_le y z → cmp_le x z).

Lemma cmp_gt_le x y : cmp x y = Gt → cmp_le y x.
Proof using cmp_antisym. intros H. unfold cmp_le. rewrite cmp_antisym, H. done. Qed.

Lemma sort_insert_sorted x l : StronglySorted cmp_le l → StronglySorted cmp_le (sort_insert x l).
Proof using All.
  induction 1 as [|y l Hl IH Hy]; cbn; [by repeat constructor|].
  destruct (cmp x y) eqn:E.
  1,2: constructor; [by constructor|]; constructor; [unfold cmp_le; congruence|];
    eapply Forall_impl; [exact Hy|]; intros z; apply cmp_trans; unfold cmp_le; congruence.
  constructor; [done|]. rewrite sort_insert_permutation. constructor; [by apply cmp_gt_le|done].
Qed.

Lemma sort_by_sorted l : StronglySorted cmp_le (sort_by l).
Proof using All. induction l as [|x l IH]; cbn; [constructor|]. by apply sort_insert_sorted. Qed.

(** Elements that compare equal keep their order. *)
Lemma sort_insert_stable x l (k : A) :
  StronglySorted cmp_le l →
  filter (λ y, cmp k y = Eq) (sort_insert x l) = filter (λ y, cmp k y = Eq) (x :: l).
Proof using All.
  induction 1 as [|y l Hl IH Hy]; [done|].
  cbn [sort_insert]. destruct (cmp x y) eqn:E; [done|done|].
  rewrite filter_cons, IH, !filter_cons.
  destruct (decide (cmp k y = Eq)) as [Hky|], (decide (cmp k x = Eq)) as [Hkx|]; try done.
  exfalso. apply (cmp_trans x k y).
  - unfold cmp_le. rewrite cmp_antisym, Hkx. done.
  - unfold cmp_le. rewrite Hky. done.
  - done.
Qed.

Lemma sort_by_stable l (k : A) :
  filter (λ y, cmp k y = Eq) (sort_by l) = filter (λ y, cmp k y = Eq) l.
Proof using All.
  induction l as [|x l IH]; [done|]. cbn [sort_by foldr].
  rewrite sort_insert_stable by apply sort_by_sorted.
  change (foldr sort_insert [] l) with (sort_by l). by rewrite !filter_cons, IH.
Qed.
End sorted.
End sort_by.

(** ** Ordered maps: [BTreeMap<String, V>] iterates in key order *)

Definition key_cmp {V} (p q : string * V) : comparison := String.compare p.1 q.1.

Definition btree_to_list {V} (m : gmap string V) : list (string * V) :=
  sort_by key_cmp (map_to_list m).
Definition btree_values {V} (m : gmap string V) : list V := (btree_to_list m).*2.
Definition btree_keys {V} (m : gmap string V) : list string := (btree_to_list m).*1.

Lemma string_compare_le_trans (s1 s2 s3 : string) :
  String.compare s1 s2 ≠ Gt → String.compare s2 s3 ≠ Gt → String.compare s1 s3 ≠ Gt.
Proof.
  assert (∀ a b, String.compare a b ≠ Gt ↔ String.le a b) as H.
  { intros a b. unfold String.le, String.leb. destruct (String.compare a b); naive_solver. }
  rewrite !H. apply transitivity.
Qed.

Lemma string_compare_refl (s : string) : String.compare s s = Eq.
Proof. pose proof (String.compare_antisym s s) as H. by destruct (String.compare s s). Qed.

(** Comparing by a text first. *)
Section by_text.
Context {A : Type} (key : A → string) (c : A → A → comparison).

Definition text_then (x y : A) : comparison :=
  match String.compare (key x) (key y) with Eq => c x y | o => o end.

Lemma text_then_antisym x y : c x y = CompOpp (c y x) → text_then x y = CompOpp (text_then y x).
Proof.
  unfold text_then. rewrite (String.compare_antisym (key x) (key y)). by destruct (String.compare (key y) (key x)).
Qed.

Lemma text_then_trans x y z :
  (cmp_le c x y → cmp_le c y z → cmp_le c x z) →
  cmp_le text_then x y → cmp_le text_then y z → cmp_le text_then x z.
Proof.
  unfold cmp_le, text_then. intros Hc Hxy Hyz.
  destruct (String.compare (key x) (key y)) eqn:E1, (String.compare (key y) (key z)) eqn:E2; try done.
  - apply String.compare_eq_iff in E1 as ->. rewrite E2. auto.
  - apply String.compare_eq_iff in E1 as ->. by rewrite E2.
  - apply String.compare_eq_iff in E2 as <-. by rewrite E1.
  - destruct (String.compare (key x) (key z)) eqn:E3; [|done|].
    + apply String.compare_eq_iff in E3. rewrite <- E3, String.compare_antisym, E1 in E2. done.
    + exfalso. apply (string_compare_le_trans (key x) (key y) (key z)); congruence.
Qed.
End by_text.

Lemma btree_to_list_permutation {V} (m : gmap string V) : btree_to_list m ≡ₚ map_to_list m.
Proof. apply sort_by_permutation. Qed.

Lemma btree_to_list_sorted {V} (m : gmap string V) :
  StronglySorted (cmp_le key_cmp) (btree_to_list m).
Proof.
  apply sort_by_sorted.
  - intros x y. apply String.compare_antisym.
  - intros x y z. apply string_compare_le_trans.
Qed.

Lemma elem_of_btree_to_list {V} (m : gmap string V) k v :
  (k, v) ∈ btree_to_list m ↔ m !! k = Some v.
Proof. by rewrite btree_to_list_permutation, elem_of_map_to_list. Qed.

Lemma elem_of_btree_values {V} (m : gmap string V) v :
  v ∈ btree_values m ↔ ∃ k, m !! k = Some v.
Proof.
  unfold btree_values. rewrite list_elem_of_fmap. split.
  - intros ([k w] & -> & Hk). exists k. by apply elem_of_btree_to_list.
  - intros [k Hk]. exists (k, v). by rewrite elem_of_btree_to_list.
Qed.

Lemma btree_values_empty {V} : btree_values (∅ : gmap string V) = [].
Proof. unfold btree_values, btree_to_list. by rewrite map_to_list_empty. Qed.

Lemma btree_values_nil {V} (m : gmap string V) : btree_values m = [] ↔ m = ∅.
Proof.
  split; [|intros ->; apply btree_values_empty]. intros H. apply map_eq. intros k.
  rewrite lookup_empty. destruct (m !! k) as [v|] eqn:E; [|done].
  assert (v ∈ btree_values m) as Hv by (apply elem_of_btree_values; eauto).
  rewrite H in Hv. by apply not_elem_of_nil in Hv.
Qed.

Lemma btree_keys_NoDup {V} (m : gmap string V) : NoDup (btree_keys m).
Proof. unfold btree_keys. rewrite btree_to_list_permutation. apply NoDup_fst_map_to_list. Qed.

Definition string_le (a b : string) : Prop := String.compare a b ≠ Gt.

Lemma btree_keys_sorted {V} (m : gmap string V) : StronglySorted string_le (btree_keys m).
Proof.
  unfold btree_keys. induction (btree_to_list_sorted m) as [|p l _ IH Hp]; cbn; constructor; [done|].
  by apply Forall_fmap.
Qed.

(** Values that carry their key. *)
Lemma btree_values_keys {V} (key : V → string) (m : gmap string V) :
  (∀ k v, m !! k = Some v → key v = k) → key <$> btree_values m = btree_keys m.
Proof.
  intros H. unfold btree_values, btree_keys. rewrite <- list_fmap_compose.
  apply list_fmap_ext. intros i [k v] Hi%list_elem_of_lookup_2. cbn. apply H.
  by apply elem_of_btree_to_list.
Qed.

(** ** Vectors used as stacks: [Vec::push] appends, [Vec::pop] takes the last element *)

Fixpoint vec_pop {A} (l : list A) : option (list A * A) :=
  match l with
  | [] => None
  | x :: l' => match vec_pop l' with
               | None => Some ([], x)
               | Some (l'', y) => Some (x :: l'', y)
               end
  end.

Lemma vec_pop_snoc {A} (l : list A) x : vec_pop (l ++ [x]) = Some (l, x).
Proof. induction l as [|y l IH]; cbn; [done|]. by rewrite IH. Qed.

Lemma vec_pop_Some {A} (l l' : list A) x : vec_pop l = Some (l', x) ↔ l = l' ++ [x].
Proof.
  split; [|intros ->; apply vec_pop_snoc]. destruct l as [|z l _] using rev_ind; [done|].
  rewrite vec_pop_snoc. by intros [= -> ->].
Qed.

Lemma vec_pop_None {A} (l : list A) : vec_pop l = None ↔ l = [].
Proof.
  split; [|by intros ->]. destruct l as [|z l _] using rev_ind; [done|]. by rewrite vec_pop_snoc.
Qed.

(** ** Lists *)

Lemma Forall_list_filter {A} (P Q : A → Prop) `{!∀ x, Decision (Q x)} l :
  Forall P l → Forall P (filter Q l).
Proof. rewrite !Forall_forall. intros HP x Hx. apply list_elem_of_filter in Hx as [_ Hx]. auto. Qed.

Lemma filter_fmap {A B} (f : A → B) (Q : B → Prop) `{!∀ x, Decision (Q x)} (l : list A) :
  filter Q (f <$> l) = f <$> filter (λ x, Q (f x)) l.
Proof.
  induction l as [|x l IH]; [done|]. cbn [fmap list_fmap]. rewrite !filter_cons.
  destruct (decide (Q (f x))); cbn; by rewrite IH.
Qed.

Lemma filter_true {A} (Q : A → Prop) `{!∀ x, Decision (Q x)} (l : list A) :
  Forall Q l → filter Q l = l.
Proof. induction 1 as [|x l Hx _ IH]; [done|]. by rewrite filter_cons_True, IH. Qed.

Lemma sublist_filter_mono {A} (Q : A → Prop) `{!∀ x, Decision (Q x)} (l k : list A) :
  l `sublist_of` k → filter Q l `sublist_of` filter Q k.
Proof.
  induction 1 as [|x l k _ IH|x l k _ IH]; [done|..]; rewrite ?filter_cons;
    case_decide; by try constructor.
Qed.

Lemma lookup_two_sublist {A} (l : list A) i j x y :
  l !! i = Some x → l !! j = Some y → i < j → [x; y] `sublist_of` l.
Proof.
  revert i j. induction l as [|z l IH]; intros i j Hi Hj Hlt; [done|].
  destruct j as [|j]; [lia|]. destruct i as [|i]; cbn in *.
  - simplify_eq. constructor. apply sublist_cons_l.
    apply list_elem_of_lookup_2, list_elem_of_split in Hj as (l1 & l2 & ->).
    exists l1, l2. split; [done|apply sublist_nil_l].
  - constructor. eapply IH; [done..|lia].
Qed.
