(* ===== verification/Utf8.v ===== *)
(** * UTF-8 decoding: the standard library's [String::from_utf8_lossy]

    The kernel turns every stream chunk into text with [from_utf8_lossy]
    (engine/dispatch.rs, engine/trace.rs).  The decoder is the one of
    [core::str::lossy]: a well-formed sequence is copied, a maximal ill-formed
    prefix is replaced by U+FFFD. *)
From S2P Require Import Prelude.

#[global] Instance byte_eq_dec : EqDecision byte := Byte.byte_eq_dec.

(** Bytes as stored ([Vec<u8>], [Bytes]); a Rocq [string] is the byte sequence of a Rust [String]. *)
Abbreviation bytes := (list byte).

Fixpoint string_of_bytes (l : bytes) : string :=
  match l with
  | [] => EmptyString
  | b :: l' => String (ascii_of_byte b) (string_of_bytes l')
  end.

Definition byte_in (lo hi : N) (b : byte) : bool :=
  (N.leb lo (Byte.to_N b) && N.leb (Byte.to_N b) hi)%bool.

Definition is_cont (o : option byte) : bool :=
  match o with Some b => byte_in 0x80 0xBF b | None => false end.

(** Range of the second byte of a three or four byte sequence. *)
Definition second_ok (b0 : byte) (o : option byte) : bool :=
  match o with
  | None => false
  | Some b1 =>
      if byte_in 0xE0 0xE0 b0 then byte_in 0xA0 0xBF b1
      else if byte_in 0xE1 0xEC b0 then byte_in 0x80 0xBF b1
      else if byte_in 0xED 0xED b0 then byte_in 0x80 0x9F b1
      else if byte_in 0xEE 0xEF b0 then byte_in 0x80 0xBF b1
      else if byte_in 0xF0 0xF0 b0 then byte_in 0x90 0xBF b1
      else if byte_in 0xF1 0xF3 b0 then byte_in 0x80 0xBF b1
      else if byte_in 0xF4 0xF4 b0 then byte_in 0x80 0x8F b1
      else false
  end.

Definition char_width (b : byte) : nat :=
  if byte_in 0x00 0x7F b then 1
  else if byte_in 0xC2 0xDF b then 2
  else if byte_in 0xE0 0xEF b then 3
  else if byte_in 0xF0 0xF4 b then 4
  else 0.

(** One step: is the next sequence well formed, and how many bytes does it span? *)
Definition next_seq (b0 : byte) (l : bytes) : bool * nat :=
  match char_width b0 with
  | 1 => (true, 1)
  | 2 => if is_cont (l !! 0) then (true, 2) else (false, 1)
  | 3 => if negb (second_ok b0 (l !! 0)) then (false, 1)
         else if is_cont (l !! 1) then (true, 3) else (false, 2)
  | 4 => if negb (second_ok b0 (l !! 0)) then (false, 1)
         else if negb (is_cont (l !! 1)) then (false, 2)
         else if is_cont (l !! 2) then (true, 4) else (false, 3)
  | _ => (false, 1)
  end.

(** U+FFFD, the replacement character. *)
Definition replacement : bytes := [xef; xbf; xbd]%byte.

Fixpoint lossy_go (fuel : nat) (l : bytes) : bytes :=
  match fuel, l with
  | S fuel', b0 :: l' =>
      let '(good, n) := next_seq b0 l' in
      (if good then take n l else replacement) ++ lossy_go fuel' (drop n l)
  | _, _ => []
  end.

Definition lossy (l : bytes) : bytes := lossy_go (length l) l.
Definition from_utf8_lossy (l : bytes) : string := string_of_bytes (lossy l).

Fixpoint valid_go (fuel : nat) (l : bytes) : bool :=
  match fuel, l with
  | _, [] => true
  | S fuel', b0 :: l' =>
      let '(good, n) := next_seq b0 l' in good && valid_go fuel' (drop n l)
  | O, _ :: _ => false
  end.

(** [str::from_utf8(l).is_ok()] *)
Definition valid_utf8 (l : bytes) : bool := valid_go (length l) l.

(** ** Progress and fuel *)

Lemma next_seq_pos b l : 1 ≤ (next_seq b l).2.
Proof. unfold next_seq. repeat case_match; cbn; lia. Qed.

Lemma next_seq_fits b l : (next_seq b l).1 = true → (next_seq b l).2 ≤ S (length l).
Proof.
  unfold next_seq, is_cont. intros H.
  destruct l as [|b1 [|b2 [|b3 l]]]; cbn in *; repeat case_match; cbn in *; try done; try lia.
Qed.

Lemma lossy_go_fuel l f1 f2 : length l ≤ f1 → length l ≤ f2 → lossy_go f1 l = lossy_go f2 l.
Proof.
  revert l f2. induction f1 as [|f1 IH]; intros [|b l] [|f2] H1 H2; cbn in *; try lia; try done.
  pose proof (next_seq_pos b l) as Hp. destruct (next_seq b l) as [g n]; cbn in *.
  f_equal. apply IH; destruct n as [|n]; cbn; try lia; rewrite length_drop; lia.
Qed.

Lemma valid_go_fuel l f1 f2 : length l ≤ f1 → length l ≤ f2 → valid_go f1 l = valid_go f2 l.
Proof.
  revert l f2. induction f1 as [|f1 IH]; intros [|b l] [|f2] H1 H2; cbn in *; try lia; try done.
  pose proof (next_seq_pos b l) as Hp. destruct (next_seq b l) as [g n]; cbn in *.
  f_equal. apply IH; destruct n as [|n]; cbn; try lia; rewrite length_drop; lia.
Qed.

Lemma lossy_cons b l :
  lossy (b :: l) = (if (next_seq b l).1 then take (next_seq b l).2 (b :: l) else replacement)
                   ++ lossy (drop (next_seq b l).2 (b :: l)).
Proof.
  unfold lossy at 1. cbn [length lossy_go].
  pose proof (next_seq_pos b l) as Hp. destruct (next_seq b l) as [g n]; cbn [fst snd] in *.
  f_equal. apply lossy_go_fuel; rewrite length_drop; cbn; lia.
Qed.

Lemma valid_cons b l :
  valid_utf8 (b :: l) = ((next_seq b l).1 && valid_utf8 (drop (next_seq b l).2 (b :: l)))%bool.
Proof.
  unfold valid_utf8 at 1. cbn [length valid_go].
  pose proof (next_seq_pos b l) as Hp. destruct (next_seq b l) as [g n]; cbn [fst snd] in *.
  f_equal. apply valid_go_fuel; rewrite length_drop; cbn; lia.
Qed.

(** Induction on the decoded sequences of a byte string. *)
Lemma seq_ind (P : bytes → Prop) :
  P [] → (∀ b l, P (drop (next_seq b l).2 (b :: l)) → P (b :: l)) → ∀ l, P l.
Proof.
  intros Hnil Hcons l. remember (length l) as n eqn:Hn. revert l Hn.
  induction (lt_wf n) as [n _ IH]; intros [|b l] ->; [done|].
  apply Hcons. eapply IH; [|done]. pose proof (next_seq_pos b l). rewrite length_drop; cbn; lia.
Qed.

(** A well-formed sequence is recognised from its own bytes, whatever follows. *)
Lemma next_seq_prefix b l n r :
  next_seq b l = (true, n) → next_seq b (take (n - 1) l ++ r) = (true, n).
Proof.
  unfold next_seq. intros H.
  destruct (char_width b) as [|[|[|[|[|w]]]]]; try done; try (by simplify_eq).
  all: destruct l as [|b1 [|b2 [|b3 l]]]; cbn in *; repeat case_match; simplify_eq; cbn in *;
    try done; repeat case_match; simplify_eq; try done; congruence.
Qed.

Lemma next_seq_app b l1 l2 :
  (next_seq b l1).1 = true → next_seq b (l1 ++ l2) = next_seq b l1.
Proof.
  intros H. destruct (next_seq b l1) as [g n] eqn:E; cbn in *; subst g.
  pose proof (next_seq_prefix b l1 n (drop (n - 1) l1 ++ l2) E) as Hp.
  by rewrite app_assoc, take_drop in Hp.
Qed.

Lemma lossy_app l1 l2 : valid_utf8 l1 = true → lossy (l1 ++ l2) = l1 ++ lossy l2.
Proof.
  induction l1 as [|b l1 IH] using seq_ind; intros Hv; [done|].
  rewrite valid_cons in Hv. apply andb_prop in Hv as [Hg Hv].
  rewrite <- app_comm_cons, lossy_cons, (next_seq_app _ _ _ Hg), Hg.
  pose proof (next_seq_fits _ _ Hg) as Hf.
  rewrite app_comm_cons, take_app_le, drop_app_le by (cbn; lia).
  rewrite IH by done. by rewrite app_assoc, take_drop.
Qed.

(** Well-formed text is decoded to itself. *)
Lemma lossy_valid l : valid_utf8 l = true → lossy l = l.
Proof. intros Hv. rewrite <- (app_nil_r l) at 1. rewrite lossy_app by done. apply app_nil_r. Qed.

Lemma valid_app l1 l2 : valid_utf8 l1 = true → valid_utf8 (l1 ++ l2) = valid_utf8 l2.
Proof.
  induction l1 as [|b l1 IH] using seq_ind; intros Hv; [done|].
  rewrite valid_cons in Hv. apply andb_prop in Hv as [Hg Hv].
  pose proof (next_seq_fits _ _ Hg) as Hf.
  rewrite <- app_comm_cons, valid_cons, (next_seq_app _ _ _ Hg), Hg.
  rewrite app_comm_cons, drop_app_le by (cbn; lia). cbn [andb]. by apply IH.
Qed.

Lemma valid_seq b l n :
  next_seq b l = (true, n) → valid_utf8 (take n (b :: l)) = true.
Proof.
  intros H. pose proof (next_seq_pos b l) as Hp. rewrite H in Hp. destruct n as [|n]; [cbn in Hp; lia|].
  cbn [take]. rewrite valid_cons. pose proof (next_seq_prefix b l (S n) [] H) as Hq.
  replace (S n - 1) with n in Hq by lia. rewrite app_nil_r in Hq. rewrite Hq. cbn.
  rewrite drop_ge; [done|]. rewrite length_take; lia.
Qed.

(** The decoder's output is always well formed. *)
Lemma valid_lossy l : valid_utf8 (lossy l) = true.
Proof.
  induction l as [|b l IH] using seq_ind; [done|].
  rewrite lossy_cons. destruct (next_seq b l) as [[] n] eqn:E; cbn [fst snd] in *.
  - rewrite valid_app; [done|]. by apply valid_seq.
  - by rewrite valid_app.
Qed.

Lemma string_of_bytes_app l1 l2 :
  string_of_bytes (l1 ++ l2) = (string_of_bytes l1 +:+ string_of_bytes l2)%string.
Proof.
  induction l1 as [|b l1 IH]; [done|]. cbn. by rewrite IH.
Qed.

Lemma from_utf8_lossy_app l1 l2 :
  valid_utf8 l1 = true →
  from_utf8_lossy (l1 ++ l2) = (string_of_bytes l1 +:+ from_utf8_lossy l2)%string.
Proof. intros H. unfold from_utf8_lossy. by rewrite lossy_app, string_of_bytes_app. Qed.

Lemma from_utf8_lossy_valid l : valid_utf8 l = true → from_utf8_lossy l = string_of_bytes l.
Proof. intros H. unfold from_utf8_lossy. by rewrite lossy_valid. Qed.

(** *** Appending strings *)

Lemma string_app_assoc (a b c : string) : (a +:+ (b +:+ c))%string = ((a +:+ b) +:+ c)%string.
Proof. induction a as [|x a IH]; [done|]. exact (f_equal (String x) IH). Qed.

Lemma string_app_nil_r (a : string) : (a +:+ "")%string = a.
Proof. induction a as [|x a IH]; [done|]. exact (f_equal (String x) IH). Qed.

(** The text of a list of chunks decoded one by one, as the stream handler does. *)
Fixpoint text_of_chunks (cs : list bytes) : string :=
  match cs with
  | [] => ""
  | c :: cs' => from_utf8_lossy c +:+ text_of_chunks cs'
  end.

Lemma text_of_valid_chunks cs :
  Forall (λ c, valid_utf8 c = true) cs → text_of_chunks cs = string_of_bytes (concat cs).
Proof.
  induction 1 as [|c cs Hc _ IH]; [done|]. cbn.
  by rewrite string_of_bytes_app, IH, from_utf8_lossy_valid.
Qed.

(** The bytes of a string: [str::as_bytes]. *)
Fixpoint bytes_of_string (s : string) : bytes :=
  match s with
  | EmptyString => []
  | String a s' => byte_of_ascii a :: bytes_of_string s'
  end.

Lemma bytes_of_string_of_bytes l : bytes_of_string (string_of_bytes l) = l.
Proof. induction l as [|b l IH]; cbn; [done|]. by rewrite byte_of_ascii_of_byte, IH. Qed.

Lemma string_of_bytes_of_string s : string_of_bytes (bytes_of_string s) = s.
Proof. induction s as [|a s IH]; cbn; [done|]. by rewrite ascii_of_byte_of_ascii, IH. Qed.

Lemma length_bytes_of_string s : length (bytes_of_string s) = String.length s.
Proof. induction s as [|a s IH]; cbn; [done|]. by rewrite IH. Qed.
