(* ===== verification/Types.v ===== *)
(** * Kernel data types (brioche-core/src/types/)

    One Rocq type per Rust type.  An enum lives in a module of its own name so
    that its constructors read as in the source ([AgentState.Idle]).  Integers
    [u64] and [usize] are [N]; a [String] is its byte sequence. *)
From S2P Require Import Prelude Utf8.

(** ** types/mod.rs: constants *)

Definition DEFAULT_TOOL_TIMEOUT_MS : N := 30000%N.
Definition INITIAL_GENERATION_ID : N := 1%N.
Definition MAX_STATE_STACK_DEPTH : nat := 128.
Definition TRACE_LOG_CAPACITY : nat := 128.
Definition MAX_INLINE_CHUNK : nat := 4096.

(** ** types/fundamental.rs *)

Record SubRoutineHandle := { handle_id : string }.
Record PluginSource := { source_name : string }.
Record TaskId := { task_name : string }.

Definition SubRoutineHandle_new (id : string) : SubRoutineHandle := {| handle_id := id |}.

#[global] Instance SubRoutineHandle_eq_dec : EqDecision SubRoutineHandle.
Proof. solve_decision. Defined.
#[global] Instance PluginSource_eq_dec : EqDecision PluginSource.
Proof. solve_decision. Defined.
#[global] Instance TaskId_eq_dec : EqDecision TaskId.
Proof. solve_decision. Defined.

Module PluginError.
Inductive PluginError : Type :=
  | Soft (plugin_name message : string)
  | Fatal (plugin_name message : string).
End PluginError.
Abbreviation PluginError := PluginError.PluginError.

#[global] Instance PluginError_eq_dec : EqDecision PluginError.
Proof. solve_decision. Defined.

Definition PluginError_to_string (e : PluginError) : string :=
  match e with
  | PluginError.Soft p m => "soft error in plugin " +:+ p +:+ ": " +:+ m
  | PluginError.Fatal p m => "fatal error in plugin " +:+ p +:+ ": " +:+ m
  end.

Abbreviation PluginResult A := (result A PluginError).

Module HistoryOperation.
Inductive HistoryOperation : Type := Insert | Replace | Truncate.
End HistoryOperation.
Abbreviation HistoryOperation := HistoryOperation.HistoryOperation.

#[global] Instance HistoryOperation_eq_dec : EqDecision HistoryOperation.
Proof. solve_decision. Defined.

Definition HistoryOperation_to_string (o : HistoryOperation) : string :=
  match o with
  | HistoryOperation.Insert => "insert"
  | HistoryOperation.Replace => "replace"
  | HistoryOperation.Truncate => "truncate"
  end.

Module BriocheError.
Inductive BriocheError : Type :=
  | InvalidStateTransition (msg : string)
  | HistoryIndexOutOfBounds (operation : HistoryOperation) (index len : N)
  | StorageAccess (msg : string)
  | Serialization (msg : string)
  | PluginNotFound (msg : string)
  | Other (msg : string).
End BriocheError.
Abbreviation BriocheError := BriocheError.BriocheError.

#[global] Instance BriocheError_eq_dec : EqDecision BriocheError.
Proof. solve_decision. Defined.

Definition BriocheError_to_string (e : BriocheError) : string :=
  match e with
  | BriocheError.InvalidStateTransition m => "invalid state transition: " +:+ m
  | BriocheError.HistoryIndexOutOfBounds op i len =>
      "history index out of bounds: " +:+ HistoryOperation_to_string op +:+ " at "
        +:+ pretty i +:+ " (len=" +:+ pretty len +:+ ")"
  | BriocheError.StorageAccess m => "storage access failed: " +:+ m
  | BriocheError.Serialization m => "serialization failed: " +:+ m
  | BriocheError.PluginNotFound m => "plugin not found: " +:+ m
  | BriocheError.Other m => "other error: " +:+ m
  end.

Module EpochAction.
Inductive EpochAction : Type :=
  | Proceed
  | Block (reason : string).
End EpochAction.
Abbreviation EpochAction := EpochAction.EpochAction.

(** ** types/tool.rs *)

Record ToolCallDescriptor := {
  tool_id : string;
  tool_name : string;
  arguments : string;
  timeout_ms : option N
}.

#[global] Instance ToolCallDescriptor_eq_dec : EqDecision ToolCallDescriptor.
Proof. solve_decision. Defined.

Record ActiveToolCall := {
  active_tool_id : string;
  active_tool_name : string;
  active_arguments : string;
  active_timeout_ms : N
}.

#[global] Instance ActiveToolCall_eq_dec : EqDecision ActiveToolCall.
Proof. solve_decision. Defined.

Definition seal_single (d : ToolCallDescriptor) (default_timeout_ms : N) : ActiveToolCall :=
  {| active_tool_id := tool_id d;
     active_tool_name := tool_name d;
     active_arguments := arguments d;
     active_timeout_ms :=
       match timeout_ms d with Some t => t | None => default_timeout_ms end |}.

Definition seal (ds : list ToolCallDescriptor) (default_timeout_ms : N) : list ActiveToolCall :=
  map (λ d, seal_single d default_timeout_ms) ds.

Module ToolOutcome.
Inductive ToolOutcome : Type :=
  | Success (s : string)
  | BusinessError (s : string)
  | SystemError (s : string)
  | TimeoutWithPartialData (partial_output : option string).
End ToolOutcome.
Abbreviation ToolOutcome := ToolOutcome.ToolOutcome.

#[global] Instance ToolOutcome_eq_dec : EqDecision ToolOutcome.
Proof. solve_decision. Defined.

Definition tool_outcome_to_string (o : ToolOutcome) : string :=
  match o with
  | ToolOutcome.Success s | ToolOutcome.BusinessError s | ToolOutcome.SystemError s => s
  | ToolOutcome.TimeoutWithPartialData (Some s) => s
  | ToolOutcome.TimeoutWithPartialData None => ""
  end.

Record ToolResultDTO := {
  result_tool_id : string;
  result_tool_name : string;
  outcome : ToolOutcome
}.

#[global] Instance ToolResultDTO_eq_dec : EqDecision ToolResultDTO.
Proof. solve_decision. Defined.

Record TruncatedToolResult := {
  truncated : bool;
  original_len : N;
  preview : bytes
}.

(** [str::is_char_boundary]: both ends, or a byte that does not continue a character. *)
Definition is_char_boundary (content : bytes) (i : nat) : bool :=
  match i with
  | O => true
  | _ => match content !! i with
         | None => bool_decide (i = length content)
         | Some b => negb (is_cont (Some b))
         end
  end.

(** [content.get(..limit)] is [None] when [limit] is not a character boundary. *)
Definition str_get_prefix (content : bytes) (limit : nat) : option bytes :=
  if is_char_boundary content limit then Some (take limit content) else None.

Definition TruncatedToolResult_from_content (content : bytes) (max_bytes : nat) :
    TruncatedToolResult :=
  let limit := Nat.min max_bytes (length content) in
  {| truncated := true;
     original_len := N.of_nat (length content);
     preview := match str_get_prefix content limit with
                | Some s => s
                | None => []
                end |}.

(** ** types/session.rs: chat messages and mechanical states *)

Module ChatMessage.
Inductive ChatMessage : Type :=
  | System (content : string)
  | User (content : string)
  | Assistant (content : string) (reasoning : option string)
      (tool_calls : list ToolCallDescriptor)
  | ToolRequest (id name arguments : string)
  | ToolResult (id content : string).
End ChatMessage.
Abbreviation ChatMessage := ChatMessage.ChatMessage.

#[global] Instance ChatMessage_eq_dec : EqDecision ChatMessage.
Proof. solve_decision. Defined.

Module AgentState.
Inductive AgentState : Type :=
  | Idle
  | Predicting (generation_id : N)
  | ExecutingTools (generation_id : N)
  | SubRoutine (handle : SubRoutineHandle)
  | Failure.
End AgentState.
Abbreviation AgentState := AgentState.AgentState.

#[global] Instance AgentState_eq_dec : EqDecision AgentState.
Proof. solve_decision. Defined.

Definition AgentState_generation_id (s : AgentState) : option N :=
  match s with
  | AgentState.Predicting g | AgentState.ExecutingTools g => Some g
  | _ => None
  end.

Module AgentStateTag.
Inductive AgentStateTag : Type := Idle | Predicting | ExecutingTools | SubRoutine | Failure.
End AgentStateTag.
Abbreviation AgentStateTag := AgentStateTag.AgentStateTag.

#[global] Instance AgentStateTag_eq_dec : EqDecision AgentStateTag.
Proof. solve_decision. Defined.

Definition AgentStateTag_from (s : AgentState) : AgentStateTag :=
  match s with
  | AgentState.Idle => AgentStateTag.Idle
  | AgentState.Predicting _ => AgentStateTag.Predicting
  | AgentState.ExecutingTools _ => AgentStateTag.ExecutingTools
  | AgentState.SubRoutine _ => AgentStateTag.SubRoutine
  | AgentState.Failure => AgentStateTag.Failure
  end.

Record SessionSnapshot := {
  current_state : AgentStateTag;
  state_stack_depth : N
}.

#[global] Instance SessionSnapshot_eq_dec : EqDecision SessionSnapshot.
Proof. solve_decision. Defined.
