(* ===== verification/Effects.v ===== *)
(** * Inputs, effects and decisions (types/runtime.rs, types/effect.rs, types/trace.rs) *)
From S2P Require Import Prelude Utf8 Types.

(** ** types/runtime.rs: streaming *)

Record ExecutionPath := { nodes : list string }.

#[global] Instance ExecutionPath_eq_dec : EqDecision ExecutionPath.
Proof. solve_decision. Defined.

Module StreamEvent.
Inductive StreamEvent : Type :=
  | TextChunk (path : ExecutionPath) (chunk : bytes)
  | ToolCallStart (path : ExecutionPath) (id name : string)
  | ToolArgumentChunk (path : ExecutionPath) (id : string) (chunk : bytes)
  | ToolCallDone (path : ExecutionPath)
  | Done
  | Pass.
End StreamEvent.
Abbreviation StreamEvent := StreamEvent.StreamEvent.

#[global] Instance StreamEvent_eq_dec : EqDecision StreamEvent.
Proof. solve_decision. Defined.

Module StreamAction.
Inductive StreamAction : Type :=
  | Pass
  | Hold
  | OffloadTask (task_id : string) (payload : bytes).
End StreamAction.
Abbreviation StreamAction := StreamAction.StreamAction.

Record EpochState := { current_generation : N }.

#[global] Instance EpochState_eq_dec : EqDecision EpochState.
Proof. solve_decision. Defined.

(** The [BTreeMap] of partially built descriptors, by tool id. *)
Record StreamToolAccumulator := { pending : gmap string ToolCallDescriptor }.

#[global] Instance StreamToolAccumulator_eq_dec : EqDecision StreamToolAccumulator.
Proof. solve_decision. Defined.

(** ** types/effect.rs *)

Module EngineInput.
Inductive EngineInput : Type :=
  | UserMessage (content : string)
  | LlmStream (event : StreamEvent)
  | ToolCallsResult (generation_id : N) (results : list ToolResultDTO)
  | RestoreSubRoutine (handle : SubRoutineHandle) (head_blob : bytes).
End EngineInput.
Abbreviation EngineInput := EngineInput.EngineInput.

#[global] Instance EngineInput_eq_dec : EqDecision EngineInput.
Proof. solve_decision. Defined.

Module HistoryEdit.
Inductive HistoryEdit : Type :=
  | Insert (index : N) (message : ChatMessage)
  | Replace (index : N) (message : ChatMessage)
  | Truncate (keep_last : N).
End HistoryEdit.
Abbreviation HistoryEdit := HistoryEdit.HistoryEdit.

#[global] Instance HistoryEdit_eq_dec : EqDecision HistoryEdit.
Proof. solve_decision. Defined.

Module InconsistencySource.
Inductive InconsistencySource : Type :=
  | Kernel (module : string)
  | Plugin (name : string).
End InconsistencySource.
Abbreviation InconsistencySource := InconsistencySource.InconsistencySource.

#[global] Instance InconsistencySource_eq_dec : EqDecision InconsistencySource.
Proof. solve_decision. Defined.

Module UiWidget.
Inductive UiWidget : Type :=
  | TextChunk (trace_id text : string)
  | Error (code message : string)
  | CriticalError (component : string) (detail : option string)
  | SystemDegraded (plugin : string)
  | NetworkError (reason : string)
  | Status (status : string)
  | SubRoutineTimeout (handle : SubRoutineHandle) (limit_ms : N)
  | SubRoutineLoaded (handle : SubRoutineHandle)
  | PendingTask (task_id status : string)
  | Test (msg : string)
  | Custom (widget_type : string) (payload_json : bytes).
End UiWidget.
Abbreviation UiWidget := UiWidget.UiWidget.

#[global] Instance UiWidget_eq_dec : EqDecision UiWidget.
Proof. solve_decision. Defined.

Module ErrorCode.
Inductive ErrorCode : Type :=
  | NetworkUnavailable
  | OperationCancelled
  | StateInconsistency
  | EpochMismatch
  | PluginFaulted.
End ErrorCode.
Abbreviation ErrorCode := ErrorCode.ErrorCode.

#[global] Instance ErrorCode_eq_dec : EqDecision ErrorCode.
Proof. solve_decision. Defined.

Module ErrorDetail.
Inductive ErrorDetail : Type :=
  | HistoryIndexOutOfBounds (operation : HistoryOperation) (index len : N)
  | MissingToolTimeout (default_timeout_ms : N)
  | EffectNotAllowed (hook effect_variant : string)
  | EffectsDroppedAfterRebuildRoutes (count : N)
  | SubRoutineLifecycleFailed (guard_name : string)
  | StateInconsistent (source : InconsistencySource)
  | PluginEvalFailed (plugin_name reason : string)
  | TransitionFailed (reason : string)
  | HookConstraintFailed (reason : string)
  | EpochGuardRejected (reason : string).
End ErrorDetail.
Abbreviation ErrorDetail := ErrorDetail.ErrorDetail.

#[global] Instance ErrorDetail_eq_dec : EqDecision ErrorDetail.
Proof. solve_decision. Defined.

Module Effect.
Inductive Effect : Type :=
  | CallLlmNetwork
  | ExecuteTools (calls : list ActiveToolCall)
  | ForwardToUi (widget : UiWidget)
  | Error (code : ErrorCode) (detail : ErrorDetail)
  | SaveSession
  | SavePluginBlob (plugin_id : PluginSource) (data : bytes)
  | TriggerSummarization
  | ExecuteCpuTask (task_id : TaskId) (payload : bytes)
  | TriggerGc
  | SystemIdle
  | PluginFault (plugin_name : PluginSource) (error : PluginError)
  | RebuildRoutes
  | SubRoutineRestored (handle : SubRoutineHandle).
End Effect.
Abbreviation Effect := Effect.Effect.

#[global] Instance Effect_eq_dec : EqDecision Effect.
Proof. solve_decision. Defined.

Module PolicyDecision.
Inductive PolicyDecision : Type :=
  | Allow
  | Block (reason : string)
  | MutateHistory (edits : list HistoryEdit)
  | RequestEffect (effect : Effect)
  | OverrideTransition (effects : list Effect).
End PolicyDecision.
Abbreviation PolicyDecision := PolicyDecision.PolicyDecision.

#[global] Instance PolicyDecision_eq_dec : EqDecision PolicyDecision.
Proof. solve_decision. Defined.

Definition widget_type (w : UiWidget) : string :=
  match w with
  | UiWidget.TextChunk _ _ => "text_chunk"
  | UiWidget.Error _ _ => "error"
  | UiWidget.CriticalError _ _ => "critical_error"
  | UiWidget.SystemDegraded _ => "system_degraded"
  | UiWidget.NetworkError _ => "network_error"
  | UiWidget.Status _ => "status"
  | UiWidget.SubRoutineTimeout _ _ => "subroutine_timeout"
  | UiWidget.SubRoutineLoaded _ => "subroutine_loaded"
  | UiWidget.PendingTask _ _ => "pending_task"
  | UiWidget.Test _ => "test"
  | UiWidget.Custom t _ => t
  end.

Definition InconsistencySource_to_string (s : InconsistencySource) : string :=
  match s with
  | InconsistencySource.Kernel m => "kernel::" +:+ m
  | InconsistencySource.Plugin n => "plugin::" +:+ n
  end.

Definition ErrorDetail_to_string (d : ErrorDetail) : string :=
  match d with
  | ErrorDetail.HistoryIndexOutOfBounds op i len =>
      "history " +:+ HistoryOperation_to_string op +:+ " index " +:+ pretty i
        +:+ " out of bounds (len=" +:+ pretty len +:+ ")"
  | ErrorDetail.MissingToolTimeout t =>
      "Missing timeout, applied default " +:+ pretty t +:+ " ms"
  | ErrorDetail.EffectNotAllowed hook variant =>
      "Effect " +:+ variant +:+ " not allowed on hook " +:+ hook
  | ErrorDetail.EffectsDroppedAfterRebuildRoutes n =>
      pretty n +:+ " effect(s) dropped after RebuildRoutes"
  | ErrorDetail.SubRoutineLifecycleFailed g =>
      "Sub-routine lifecycle guard '" +:+ g +:+ "' failed"
  | ErrorDetail.StateInconsistent s =>
      "State inconsistent: " +:+ InconsistencySource_to_string s
  | ErrorDetail.PluginEvalFailed p r => "Plugin '" +:+ p +:+ "' eval failed: " +:+ r
  | ErrorDetail.TransitionFailed r => "Transition failed: " +:+ r
  | ErrorDetail.HookConstraintFailed r => "Hook constraint failed: " +:+ r
  | ErrorDetail.EpochGuardRejected r => "Epoch guard rejected: " +:+ r
  end.

(** *** EffectBit and [effect_to_bitmask] *)

Module EffectBit.
Definition CALL_LLM_NETWORK : N := N.shiftl 1 0.
Definition EXECUTE_TOOLS : N := N.shiftl 1 1.
Definition FORWARD_TO_UI : N := N.shiftl 1 2.
Definition ERROR : N := N.shiftl 1 3.
Definition SAVE_SESSION : N := N.shiftl 1 4.
Definition SAVE_PLUGIN_BLOB : N := N.shiftl 1 5.
Definition TRIGGER_SUMMARIZATION : N := N.shiftl 1 6.
Definition EXECUTE_CPU_TASK : N := N.shiftl 1 7.
Definition TRIGGER_GC : N := N.shiftl 1 8.
Definition SYSTEM_IDLE : N := N.shiftl 1 9.
Definition PLUGIN_FAULT : N := N.shiftl 1 10.
Definition REBUILD_ROUTES : N := N.shiftl 1 11.
Definition SUB_ROUTINE_RESTORED : N := N.shiftl 1 12.
End EffectBit.

Definition effect_to_bitmask (e : Effect) : N :=
  match e with
  | Effect.CallLlmNetwork => N.shiftl 1 0
  | Effect.ExecuteTools _ => N.shiftl 1 1
  | Effect.ForwardToUi _ => N.shiftl 1 2
  | Effect.Error _ _ => N.shiftl 1 3
  | Effect.SaveSession => N.shiftl 1 4
  | Effect.SavePluginBlob _ _ => N.shiftl 1 5
  | Effect.TriggerSummarization => N.shiftl 1 6
  | Effect.ExecuteCpuTask _ _ => N.shiftl 1 7
  | Effect.TriggerGc => N.shiftl 1 8
  | Effect.SystemIdle => N.shiftl 1 9
  | Effect.PluginFault _ _ => N.shiftl 1 10
  | Effect.RebuildRoutes => N.shiftl 1 11
  | Effect.SubRoutineRestored _ => N.shiftl 1 12
  end.

(** [format!("{:?}", std::mem::discriminant(effect))]: the declaration index of
    the variant, as the standard library prints it. *)
Definition effect_discriminant (e : Effect) : N :=
  match e with
  | Effect.CallLlmNetwork => 0
  | Effect.ExecuteTools _ => 1
  | Effect.ForwardToUi _ => 2
  | Effect.Error _ _ => 3
  | Effect.SaveSession => 4
  | Effect.SavePluginBlob _ _ => 5
  | Effect.TriggerSummarization => 6
  | Effect.ExecuteCpuTask _ _ => 7
  | Effect.TriggerGc => 8
  | Effect.SystemIdle => 9
  | Effect.PluginFault _ _ => 10
  | Effect.RebuildRoutes => 11
  | Effect.SubRoutineRestored _ => 12
  end%N.

Definition effect_variant_debug (e : Effect) : string :=
  "Discriminant(" +:+ pretty (effect_discriminant e) +:+ ")".

(** ** types/trace.rs *)

Record RollbackEvent := {
  hook_name : string;
  was_rollback : bool;
  frame_weight : N;
  budget_exceeded : bool
}.

Record RollbackEventLog := { events : list RollbackEvent }.

Record TransitionTrace := {
  source_plugin : string;
  decision : PolicyDecision;
  epoch : N
}.

Record TransitionTraceLog := { entries : list TransitionTrace }.

Record SupersededTransitionTrace := {
  superseded_source_plugin : string;
  attempted_decision : PolicyDecision;
  preempted_by : string;
  superseded_epoch : N
}.

Record SupersededTransitionTraceLog := { superseded_entries : list SupersededTransitionTrace }.

Definition CAPACITY : nat := 128.

(** [Vec::remove(0)] when full, then [push]: a bounded FIFO. *)
Definition ring_push {A} (l : list A) (x : A) : list A :=
  (if bool_decide (CAPACITY ≤ length l) then tail l else l) ++ [x].

Definition TransitionTraceLog_push (log : TransitionTraceLog) (t : TransitionTrace) :
    TransitionTraceLog :=
  {| entries := ring_push (entries log) t |}.

Definition TransitionTraceLog_take_entries (log : TransitionTraceLog) :
    list TransitionTrace * TransitionTraceLog :=
  (entries log, {| entries := [] |}).

Definition SupersededTransitionTraceLog_push (log : SupersededTransitionTraceLog)
    (t : SupersededTransitionTrace) : SupersededTransitionTraceLog :=
  {| superseded_entries := ring_push (superseded_entries log) t |}.

Definition SupersededTransitionTraceLog_take_entries (log : SupersededTransitionTraceLog) :
    list SupersededTransitionTrace * SupersededTransitionTraceLog :=
  (superseded_entries log, {| superseded_entries := [] |}).

#[global] Instance RollbackEvent_eq_dec : EqDecision RollbackEvent.
Proof. solve_decision. Defined.
#[global] Instance RollbackEventLog_eq_dec : EqDecision RollbackEventLog.
Proof. solve_decision. Defined.
#[global] Instance TransitionTrace_eq_dec : EqDecision TransitionTrace.
Proof. solve_decision. Defined.
#[global] Instance TransitionTraceLog_eq_dec : EqDecision TransitionTraceLog.
Proof. solve_decision. Defined.
#[global] Instance SupersededTransitionTrace_eq_dec : EqDecision SupersededTransitionTrace.
Proof. solve_decision. Defined.
#[global] Instance SupersededTransitionTraceLog_eq_dec : EqDecision SupersededTransitionTraceLog.
Proof. solve_decision. Defined.

(** ** Tests on effects used by the kernel ([matches!]) *)

Definition is_rebuild (e : Effect) : bool :=
  match e with Effect.RebuildRoutes => true | _ => false end.
Definition is_fault (e : Effect) : bool :=
  match e with Effect.PluginFault _ _ => true | _ => false end.
(** Effects no constraint can veto. *)
Definition always_allowed (e : Effect) : bool :=
  match e with
  | Effect.Error _ _ | Effect.PluginFault _ _ | Effect.SystemIdle => true
  | _ => false
  end.

(** ** Lemmas *)

Lemma ring_push_bound {A} (l : list A) x :
  length l ≤ CAPACITY → length (ring_push l x) ≤ CAPACITY.
Proof.
  unfold ring_push, CAPACITY. intros H. rewrite length_app. cbn [length].
  case_bool_decide; [destruct l; cbn [tail length] in *; lia|lia].
Qed.

(** The buffer holds the most recent [CAPACITY] entries, oldest first. *)
Definition last_n {A} (n : nat) (l : list A) : list A := drop (length l - n) l.

Lemma ring_push_last_n {A} (l : list A) x :
  ring_push (last_n CAPACITY l) x = last_n CAPACITY (l ++ [x]).
Proof.
  unfold ring_push, last_n. rewrite length_drop, length_app. cbn [length].
  rewrite drop_app_le by (unfold CAPACITY; lia).
  case_bool_decide as H.
  - f_equal. destruct (drop _ l) as [|y l'] eqn:E.
    + assert (length (drop (length l - CAPACITY) l) = 0) as H' by (by rewrite E).
      rewrite length_drop in H'. unfold CAPACITY in *. lia.
    + apply (f_equal length) in E as E'. rewrite length_drop in E'. cbn in E'.
      replace (length l + 1 - CAPACITY) with (length l - CAPACITY + 1) by (unfold CAPACITY in *; lia).
      rewrite <- drop_drop, E. done.
  - replace (length l + 1 - CAPACITY) with 0 by lia.
    replace (length l - CAPACITY) with 0 by lia. done.
Qed.

Lemma ring_push_foldl {A} (l : list A) :
  foldl ring_push [] l = last_n CAPACITY l.
Proof.
  induction l as [|x l IH] using rev_ind; [done|].
  by rewrite foldl_app, IH, <- ring_push_last_n.
Qed.

Lemma effect_to_bitmask_inj_discriminant e1 e2 :
  effect_to_bitmask e1 = effect_to_bitmask e2 ↔ effect_discriminant e1 = effect_discriminant e2.
Proof. destruct e1, e2; split; intros H; vm_compute in H |- *; congruence. Qed.
