(* ===== verification/Journal.v ===== *)
(** * The transition journal (brioche-shell-runtime/src/transition_journal.rs)

    A ring buffer of [JOURNAL_CAPACITY_BYTES] bytes in which the engine thread
    records each input before the transition.  The array is a [gmap] whose absent
    cells are the zeros it was allocated with.  The postcard codec of inputs is a
    pair of parameters, as in the rest of the library.  The reader's [while] loop
    takes fuel; JournalSpec.v proves one unit more than the number of recorded
    entries enough, in every journal the writer can produce. *)
From S2P Require Import Prelude Utf8 Types Effects.

Definition JOURNAL_CAPACITY_BYTES : N := 1048576%N.
Definition MAX_ENTRY_BYTES : N := 4096%N.
Definition OVERSIZED_MARK : N := 4294967295%N.

(** ** Little-endian integers: [to_le_bytes], [from_le_bytes] *)

Definition byte_of_N (n : N) : byte :=
  match Byte.of_N (n mod 256) with Some b => b | None => x00 end.

Fixpoint to_le_bytes (width : nat) (n : N) : bytes :=
  match width with
  | O => []
  | S w => byte_of_N n :: to_le_bytes w (n / 256)
  end.

Fixpoint from_le_bytes (l : bytes) : N :=
  match l with
  | [] => 0%N
  | b :: l' => (Byte.to_N b + 256 * from_le_bytes l')%N
  end.

(** ** The ring *)

Definition ring_next (pos : N) : N := ((pos + 1) mod JOURNAL_CAPACITY_BYTES)%N.

Definition ring_get (buffer : gmap N byte) (pos : N) : byte :=
  match buffer !! pos with Some b => b | None => x00 end.

Fixpoint write_loop (buffer : gmap N byte) (pos : N) (data : bytes) : gmap N byte :=
  match data with
  | [] => buffer
  | b :: data' => write_loop (<[pos := b]> buffer) (ring_next pos) data'
  end.

Definition write_bytes (buffer : gmap N byte) (start : N) (data : bytes) : gmap N byte :=
  write_loop buffer (start mod JOURNAL_CAPACITY_BYTES) data.

Fixpoint read_loop (buffer : gmap N byte) (pos : N) (n : nat) : bytes :=
  match n with
  | O => []
  | S n' => ring_get buffer pos :: read_loop buffer (ring_next pos) n'
  end.

Definition read_bytes (buffer : gmap N byte) (start : N) (n : nat) : bytes :=
  read_loop buffer (start mod JOURNAL_CAPACITY_BYTES) n.

(** ** The journal *)

Module JournalEntry.
Inductive JournalEntry : Type :=
  | Input (input : EngineInput)
  | Oversized (truncated_bytes : N).
End JournalEntry.
Abbreviation JournalEntry := JournalEntry.JournalEntry.

Record TransitionJournal := {
  buffer : gmap N byte;
  write_index : N;
  ack_index : N
}.

Definition TransitionJournal_new : TransitionJournal :=
  {| buffer := ∅; write_index := 0; ack_index := 0 |}.

(** The number of bytes between the two indices, and what the writer takes for
    the room left. *)
Definition unacknowledged_bytes (j : TransitionJournal) : N :=
  if (ack_index j <=? write_index j)%N then (write_index j - ack_index j)%N
  else (JOURNAL_CAPACITY_BYTES - (ack_index j - write_index j))%N.

Definition journal_available (j : TransitionJournal) : N :=
  if (ack_index j <=? write_index j)%N
  then (JOURNAL_CAPACITY_BYTES - (write_index j - ack_index j))%N
  else (ack_index j - write_index j)%N.

Definition append_oversized (truncated_bytes : N) (j : TransitionJournal) : TransitionJournal :=
  let b := write_bytes (buffer j) (write_index j) (to_le_bytes 4 OVERSIZED_MARK) in
  let write_pos := ((write_index j + 4) mod JOURNAL_CAPACITY_BYTES)%N in
  {| buffer := write_bytes b write_pos (to_le_bytes 8 truncated_bytes);
     write_index := ((write_pos + 8) mod JOURNAL_CAPACITY_BYTES)%N;
     ack_index := ack_index j |}.

Definition acknowledge_all (j : TransitionJournal) : TransitionJournal :=
  {| buffer := buffer j; write_index := write_index j; ack_index := write_index j |}.

Section codec.
Context (to_allocvec : EngineInput → result bytes string).
Context (from_bytes : bytes → result EngineInput string).

Definition append (input : EngineInput) (j : TransitionJournal) : TransitionJournal :=
  match to_allocvec input with
  | Err _ => append_oversized 0 j
  | Ok serialized =>
      let len := N.of_nat (length serialized) in
      if (MAX_ENTRY_BYTES <? len)%N then append_oversized len j
      else if (journal_available j <? 4 + len)%N then j
      else
        let b := write_bytes (buffer j) (write_index j) (to_le_bytes 4 len) in
        let write_pos := ((write_index j + 4) mod JOURNAL_CAPACITY_BYTES)%N in
        {| buffer := write_bytes b write_pos serialized;
           write_index := ((write_pos + len) mod JOURNAL_CAPACITY_BYTES)%N;
           ack_index := ack_index j |}
  end.

(** The entry whose header is at [read_pos], and the position after it. *)
Definition read_entry (b : gmap N byte) (read_pos : N) : JournalEntry * N :=
  let len := from_le_bytes (read_bytes b read_pos 4) in
  let read_pos := ((read_pos + 4) mod JOURNAL_CAPACITY_BYTES)%N in
  if (len =? OVERSIZED_MARK)%N then
    (JournalEntry.Oversized (from_le_bytes (read_bytes b read_pos 8)),
     ((read_pos + 8) mod JOURNAL_CAPACITY_BYTES)%N)
  else
    (match from_bytes (read_bytes b read_pos (N.to_nat len)) with
     | Ok input => JournalEntry.Input input
     | Err _ => JournalEntry.Oversized len
     end,
     ((read_pos + len) mod JOURNAL_CAPACITY_BYTES)%N).

Fixpoint read_entries (fuel : nat) (b : gmap N byte) (read_pos write_pos : N) :
    option (list JournalEntry) :=
  if (read_pos =? write_pos)%N then Some []
  else match fuel with
       | O => None
       | S fuel' =>
           let '(entry, next) := read_entry b read_pos in
           match read_entries fuel' b next write_pos with
           | Some entries => Some (entry :: entries)
           | None => None
           end
       end.

Definition read_unacknowledged (fuel : nat) (j : TransitionJournal) :
    option (list JournalEntry) :=
  read_entries fuel (buffer j) (ack_index j) (write_index j).
End codec.
