(* ===== verification/Extension.v ===== *)
(** * Extension storage (brioche-core/src/extension.rs)

    [Any] and [TypeId] are the standard library's; the encoder behind
    [serialize] is the postcard crate, a parameter of each extension type.  The
    rollback policy is owned by the storage while a hook runs, so the storage is
    parameterised by the policy's state type [P]; its methods form the class
    [CycleRollbackPolicy] (brioche-governance/src/lib.rs), the one the storage
    calls back the class [CowObserver]. *)
From S2P Require Import Prelude Utf8 Types Effects.

Module SnapshotStrategy.
Inductive SnapshotStrategy : Type := FullClone | NoSnapshot | Incremental | CriticalFullClone.
End SnapshotStrategy.
Abbreviation SnapshotStrategy := SnapshotStrategy.SnapshotStrategy.

#[global] Instance SnapshotStrategy_eq_dec : EqDecision SnapshotStrategy.
Proof. solve_decision. Defined.

(** ** Type-erased values: [std::any] *)

Class AnyUniverse := {
  Any : Type;
  TypeId : Type;
  TypeId_eq_dec :: EqDecision TypeId;
  TypeId_countable :: Countable TypeId;
  type_id_of : Any → TypeId
}.

(** The sealed trait [BriocheExtensionType] with the [std::any] and [postcard]
    operations its derived code calls. *)
Class BriocheExtensionType {U : AnyUniverse} (T : Type) := {
  EXT_ID : string;
  TypeId_of : TypeId;
  snapshot_strategy : SnapshotStrategy;
  default : T;
  to_any : T → Any;
  downcast : Any → option T;
  postcard_to_stdvec : T → result bytes string;
  postcard_from_bytes : bytes → option T;
  size_of_val : T → N;
  downcast_to_any x : downcast (to_any x) = Some x;
  downcast_Some a x : downcast a = Some x → a = to_any x;
  downcast_is_Some a : is_Some (downcast a) ↔ type_id_of a = TypeId_of
}.
Arguments EXT_ID {U} T {_}.
Arguments TypeId_of {U} T {_}.
Arguments snapshot_strategy {U} T {_}.
Arguments default {U} T {_}.
Arguments downcast {U} T {_} _.

Record ExtVTable {U : AnyUniverse} := {
  ext_id : string;
  serialize : Any → result bytes string;
  deserialize : bytes → result Any string;
  clone_box : Any → Any;
  estimated_weight_bytes : Any → N;
  strategy : SnapshotStrategy;
  default_construct : Any
}.
Arguments ExtVTable U : clear implicits.

(** The code [#[derive(BriocheExtensionType)]] emits. *)
Definition build_vtable {U : AnyUniverse} (T : Type) `{!BriocheExtensionType T} : ExtVTable U := {|
  ext_id := EXT_ID T;
  serialize any :=
    match downcast T any with
    | Some this => match postcard_to_stdvec this with
                   | Ok b => Ok b
                   | Err e => Err ("postcard: " +:+ e)
                   end
    | None => Err "downcast failed"
    end;
  deserialize b :=
    match postcard_from_bytes (T := T) b with
    | Some v => Ok (to_any v)
    | None => Err "deserialize failed"
    end;
  clone_box any :=
    match downcast T any with
    | Some this => to_any this
    | None => to_any (default T)
    end;
  estimated_weight_bytes any :=
    match downcast T any with
    | Some this => match postcard_to_stdvec this with
                   | Ok v => N.of_nat (length v)
                   | Err _ => size_of_val this
                   end
    | None => 0%N
    end;
  strategy := snapshot_strategy T;
  default_construct := to_any (default T)
|}.

(** ** The storage *)

Record ExtensionStorage {U : AnyUniverse} {P : Type} := {
  hot_map : gmap TypeId Any;
  cold_snapshot : gmap string bytes;
  registry : gmap TypeId (ExtVTable U);
  ext_id_to_type_id : gmap string TypeId;
  rollback_policy : option P;
  snapshotted_this_hook : gset TypeId
}.
Arguments ExtensionStorage U P : clear implicits.

(** A [CowBudgetPolicy]: the budget of a hook, by its name. *)
Definition CowBudgetPolicy : Type := string → N.

(** The one method the storage itself calls back. *)
Class CowObserver (U : AnyUniverse) (P : Type) := {
  on_mutation : TypeId → ExtVTable U → Any → P → P
}.

Class CycleRollbackPolicy (U : AnyUniverse) (P : Type) := {
  cow_observer :: CowObserver U P;
  begin_hook : string → P → P;
  commit_hook : P → ExtensionStorage U P → P * ExtensionStorage U P;
  rollback_hook : P → ExtensionStorage U P → P * ExtensionStorage U P;
  is_budget_exceeded : P → bool;
  set_cow_budget_policy : CowBudgetPolicy → P → P
}.

Section storage.
Context {U : AnyUniverse} {P : Type} `{!CowObserver U P}.
Implicit Types e : ExtensionStorage U P.

Definition ExtensionStorage_new : ExtensionStorage U P := {|
  hot_map := ∅;
  cold_snapshot := ∅;
  registry := ∅;
  ext_id_to_type_id := ∅;
  rollback_policy := None;
  snapshotted_this_hook := ∅
|}.

Definition set_hot_map (f : gmap TypeId Any → gmap TypeId Any) e : ExtensionStorage U P := {|
  hot_map := f (hot_map e);
  cold_snapshot := cold_snapshot e;
  registry := registry e;
  ext_id_to_type_id := ext_id_to_type_id e;
  rollback_policy := rollback_policy e;
  snapshotted_this_hook := snapshotted_this_hook e
|}.

Definition set_cold_snapshot (f : gmap string bytes → gmap string bytes) e :
    ExtensionStorage U P := {|
  hot_map := hot_map e;
  cold_snapshot := f (cold_snapshot e);
  registry := registry e;
  ext_id_to_type_id := ext_id_to_type_id e;
  rollback_policy := rollback_policy e;
  snapshotted_this_hook := snapshotted_this_hook e
|}.

Definition set_cow (p : option P) (seen : gset TypeId) e : ExtensionStorage U P := {|
  hot_map := hot_map e;
  cold_snapshot := cold_snapshot e;
  registry := registry e;
  ext_id_to_type_id := ext_id_to_type_id e;
  rollback_policy := p;
  snapshotted_this_hook := seen
|}.

Definition register (T : Type) `{!BriocheExtensionType T} e : ExtensionStorage U P := {|
  hot_map := hot_map e;
  cold_snapshot := cold_snapshot e;
  registry := <[TypeId_of T := build_vtable T]> (registry e);
  ext_id_to_type_id := <[EXT_ID T := TypeId_of T]> (ext_id_to_type_id e);
  rollback_policy := rollback_policy e;
  snapshotted_this_hook := snapshotted_this_hook e
|}.

(** [if !self.registry.contains_key(&type_id) { self.register::<T>() }] *)
Definition ensure_registered (T : Type) `{!BriocheExtensionType T} e : ExtensionStorage U P :=
  match registry e !! TypeId_of T with
  | Some _ => e
  | None => register T e
  end.

Definition insert_ext {T : Type} `{!BriocheExtensionType T} (value : T) e :
    result unit BriocheError * ExtensionStorage U P :=
  let tid := TypeId_of T in
  let e := ensure_registered T e in
  match registry e !! tid with
  | Some vtable =>
      if decide (strategy vtable = SnapshotStrategy.NoSnapshot) then
        (Ok tt, set_hot_map (insert tid (to_any value)) e)
      else
        match serialize vtable (to_any value) with
        | Ok blob =>
            (Ok tt, set_hot_map (insert tid (to_any value))
                      (set_cold_snapshot (insert (ext_id vtable) blob) e))
        | Err err => (Err (BriocheError.Serialization err), e)
        end
  | None => (Err (BriocheError.StorageAccess ("missing vtable for " +:+ EXT_ID T)), e)
  end.

Definition get_ext (T : Type) `{!BriocheExtensionType T} e : option T :=
  hot_map e !! TypeId_of T ≫= downcast T.

(** Called on every mutable borrow; only the first one of a hook reaches the policy. *)
Definition notify_cow_on_first_mutation (tid : TypeId) e : ExtensionStorage U P :=
  match rollback_policy e with
  | None => e
  | Some policy =>
      if decide (tid ∈ snapshotted_this_hook e) then e
      else
        match registry e !! tid, hot_map e !! tid with
        | Some vtable, Some current =>
            set_cow (Some (on_mutation tid vtable current policy))
              ({[tid]} ∪ snapshotted_this_hook e) e
        | _, _ => e
        end
  end.

Definition get_mut (T : Type) `{!BriocheExtensionType T} e : option T * ExtensionStorage U P :=
  let e := notify_cow_on_first_mutation (TypeId_of T) e in
  (hot_map e !! TypeId_of T ≫= downcast T, e).

(** The value a missing entry is created with: cold blob if it decodes, else the default. *)
Definition restored_value (T : Type) `{!BriocheExtensionType T} e : Any :=
  match registry e !! TypeId_of T with
  | Some vtable =>
      match cold_snapshot e !! ext_id vtable with
      | Some blob => match deserialize vtable blob with
                     | Ok val => val
                     | Err _ => default_construct vtable
                     end
      | None => default_construct vtable
      end
  | None => to_any (default T)
  end.

(** The borrow [&mut T] is the value read; writing through it is [write_ext]. *)
Definition get_or_insert_default (T : Type) `{!BriocheExtensionType T} e :
    T * ExtensionStorage U P :=
  let tid := TypeId_of T in
  let e := ensure_registered T e in
  let e := match hot_map e !! tid with
           | Some _ => e
           | None => set_hot_map (insert tid (restored_value T e)) e
           end in
  let e := notify_cow_on_first_mutation tid e in
  match hot_map e !! tid ≫= downcast T with
  | Some val => (val, e)
  | None => (default T, e)
  end.

(** A write through the borrow; a leaked fallback value is not in the map. *)
Definition write_ext {T : Type} `{!BriocheExtensionType T} (x : T) e : ExtensionStorage U P :=
  match hot_map e !! TypeId_of T ≫= downcast T with
  | Some _ => set_hot_map (insert (TypeId_of T) (to_any x)) e
  | None => e
  end.

Definition update_ext {T : Type} `{!BriocheExtensionType T} (f : T → T) e : ExtensionStorage U P :=
  let '(x, e) := get_or_insert_default T e in write_ext (f x) e.

Definition hydrate_plugin (id : string) (blob : bytes) e : bool * ExtensionStorage U P :=
  match ext_id_to_type_id e !! id with
  | None => (false, e)
  | Some tid =>
      match registry e !! tid with
      | None => (false, e)
      | Some vtable =>
          let value := match deserialize vtable blob with
                       | Ok val => val
                       | Err _ => default_construct vtable
                       end in
          (true, set_cold_snapshot (insert id blob) (set_hot_map (insert tid value) e))
      end
  end.

Definition restore_cold_snapshot (snapshot : gmap string bytes) e : ExtensionStorage U P :=
  set_cold_snapshot (λ _, snapshot) e.

Definition attach_rollback_policy (p : P) e : ExtensionStorage U P := set_cow (Some p) ∅ e.

Definition detach_rollback_policy e : option P * ExtensionStorage U P :=
  (rollback_policy e, set_cow None ∅ e).

Definition restore_boxed (tid : TypeId) (value : Any) e : ExtensionStorage U P :=
  set_hot_map (insert tid value) e.

Definition evict_from_hot (T : Type) `{!BriocheExtensionType T} e : bool * ExtensionStorage U P :=
  (bool_decide (is_Some (hot_map e !! TypeId_of T)), set_hot_map (delete (TypeId_of T)) e).
End storage.

(** ** Well-formedness *)

(** A vtable filed under [tid] builds, decodes and clones values of that type. *)
Record vtable_wf {U : AnyUniverse} (tid : TypeId) (vt : ExtVTable U) : Prop := {
  vtable_default : type_id_of (default_construct vt) = tid;
  vtable_deserialize b a : deserialize vt b = Ok a → type_id_of a = tid;
  vtable_clone a : type_id_of a = tid → clone_box vt a = a
}.

(** Every hot value has the type it is filed under. *)
Record ext_wf {U : AnyUniverse} {P : Type} (e : ExtensionStorage U P) : Prop := {
  wf_hot tid a : hot_map e !! tid = Some a → type_id_of a = tid;
  wf_registry tid vt : registry e !! tid = Some vt → vtable_wf tid vt
}.

(** A [TypeId] names one type, so its registry entry is that type's vtable. *)
Definition registered_as {U : AnyUniverse} {P : Type} (T : Type) `{!BriocheExtensionType T}
    (e : ExtensionStorage U P) : Prop :=
  registry e !! TypeId_of T = None ∨ registry e !! TypeId_of T = Some (build_vtable T).

Section facts.
Context {U : AnyUniverse} {P : Type} `{!CowObserver U P}.
Implicit Types e : ExtensionStorage U P.

Lemma type_id_to_any T `{!BriocheExtensionType T} (x : T) :
  type_id_of (to_any x) = TypeId_of T.
Proof. apply downcast_is_Some. rewrite downcast_to_any. eauto. Qed.

Lemma downcast_typed T `{!BriocheExtensionType T} a :
  type_id_of a = TypeId_of T → ∃ x, downcast T a = Some x ∧ a = to_any x.
Proof.
  intros H. apply downcast_is_Some in H as [x Hx]. exists x. split; [done|].
  by apply downcast_Some.
Qed.

Lemma build_vtable_wf T `{!BriocheExtensionType T} : vtable_wf (TypeId_of T) (build_vtable T).
Proof.
  split; cbn.
  - apply type_id_to_any.
  - intros b a. destruct (postcard_from_bytes b); intros [= <-]. apply type_id_to_any.
  - intros a H. destruct (downcast_typed T a H) as (x & -> & ->). done.
Qed.

(** *** What the copy-on-write notification may touch *)

Lemma hot_map_notify tid e : hot_map (notify_cow_on_first_mutation tid e) = hot_map e.
Proof. unfold notify_cow_on_first_mutation. by repeat case_match. Qed.
Lemma cold_snapshot_notify tid e :
  cold_snapshot (notify_cow_on_first_mutation tid e) = cold_snapshot e.
Proof. unfold notify_cow_on_first_mutation. by repeat case_match. Qed.
Lemma registry_notify tid e : registry (notify_cow_on_first_mutation tid e) = registry e.
Proof. unfold notify_cow_on_first_mutation. by repeat case_match. Qed.
Lemma ids_notify tid e :
  ext_id_to_type_id (notify_cow_on_first_mutation tid e) = ext_id_to_type_id e.
Proof. unfold notify_cow_on_first_mutation. by repeat case_match. Qed.

Lemma hot_map_ensure T `{!BriocheExtensionType T} e :
  hot_map (ensure_registered T e) = hot_map e.
Proof. unfold ensure_registered. by case_match. Qed.
Lemma cold_snapshot_ensure T `{!BriocheExtensionType T} e :
  cold_snapshot (ensure_registered T e) = cold_snapshot e.
Proof. unfold ensure_registered. by case_match. Qed.
Lemma policy_ensure T `{!BriocheExtensionType T} e :
  rollback_policy (ensure_registered T e) = rollback_policy e.
Proof. unfold ensure_registered. by case_match. Qed.

Lemma ensure_lookup T `{!BriocheExtensionType T} e :
  is_Some (registry (ensure_registered T e) !! TypeId_of T).
Proof.
  unfold ensure_registered. destruct (registry e !! TypeId_of T) eqn:E; [eauto|].
  cbn. rewrite lookup_insert_eq. eauto.
Qed.

Lemma ensure_registered_as T `{!BriocheExtensionType T} e :
  registered_as T e → registry (ensure_registered T e) !! TypeId_of T = Some (build_vtable T).
Proof.
  unfold ensure_registered. intros [H|H]; rewrite H; [|done]. cbn. apply lookup_insert_eq.
Qed.

(** *** Preservation of well-formedness *)

Lemma ext_new_wf : ext_wf (ExtensionStorage_new (P := P)).
Proof. split; cbn; intros tid x H; by rewrite lookup_empty in H. Qed.

Lemma ext_wf_set_hot tid a e :
  ext_wf e → type_id_of a = tid → ext_wf (set_hot_map (insert tid a) e).
Proof.
  intros [Hh Hr] Ha. split; cbn; [|done]. intros tid' a'.
  rewrite lookup_insert. case_decide; [naive_solver|apply Hh].
Qed.

Lemma ext_wf_hot_registry e e' :
  hot_map e' = hot_map e → registry e' = registry e → ext_wf e → ext_wf e'.
Proof. intros Hh Hr [? ?]. split; [rewrite Hh|rewrite Hr]; done. Qed.

Lemma ext_wf_ensure T `{!BriocheExtensionType T} e :
  ext_wf e → ext_wf (ensure_registered T e).
Proof.
  intros [Hh Hr]. unfold ensure_registered. destruct (registry e !! _) eqn:E; [done|].
  split; cbn; [done|]. intros tid vt. rewrite lookup_insert. case_decide as Hd.
  - intros [= <-]. subst tid. apply build_vtable_wf.
  - apply Hr.
Qed.

Lemma ext_wf_notify tid e : ext_wf e → ext_wf (notify_cow_on_first_mutation tid e).
Proof. apply ext_wf_hot_registry; [apply hot_map_notify|apply registry_notify]. Qed.

Lemma ext_wf_insert T `{!BriocheExtensionType T} (x : T) e :
  ext_wf e → ext_wf (insert_ext x e).2.
Proof.
  intros H. unfold insert_ext. pose proof (ext_wf_ensure T e H) as He.
  repeat case_match; cbn; try done.
  - apply ext_wf_set_hot; [done|apply type_id_to_any].
  - apply ext_wf_set_hot; [by apply (ext_wf_hot_registry (ensure_registered T e))|].
    apply type_id_to_any.
Qed.

Lemma restored_value_typed T `{!BriocheExtensionType T} e :
  ext_wf e → type_id_of (restored_value T e) = TypeId_of T.
Proof.
  intros [_ Hr]. unfold restored_value. destruct (registry e !! _) as [vt|] eqn:E.
  - destruct (Hr _ _ E) as [Hd Hde _]. repeat case_match; eauto.
  - apply type_id_to_any.
Qed.

(** The storage [get_or_insert_default] returns, without its value. *)
Definition borrow_ext (T : Type) `{!BriocheExtensionType T} e : ExtensionStorage U P :=
  let e := ensure_registered T e in
  notify_cow_on_first_mutation (TypeId_of T)
    (match hot_map e !! TypeId_of T with
     | Some _ => e
     | None => set_hot_map (insert (TypeId_of T) (restored_value T e)) e
     end).

Lemma ext_wf_borrow T `{!BriocheExtensionType T} e : ext_wf e → ext_wf (borrow_ext T e).
Proof.
  intros H. apply ext_wf_notify. pose proof (ext_wf_ensure T e H) as He.
  case_match; [done|]. apply ext_wf_set_hot; [done|]. by apply restored_value_typed.
Qed.

(** The borrow is never a leaked fallback: the value read is the stored one. *)
Lemma get_or_insert_default_spec T `{!BriocheExtensionType T} e :
  ext_wf e →
  ∃ x, get_or_insert_default T e = (x, borrow_ext T e) ∧ get_ext T (borrow_ext T e) = Some x.
Proof.
  intros H. pose proof (ext_wf_borrow T e H) as [Hh _].
  unfold get_or_insert_default. fold (borrow_ext T e). unfold get_ext.
  destruct (hot_map (borrow_ext T e) !! TypeId_of T) as [a|] eqn:E.
  - destruct (downcast_typed T a (Hh _ _ E)) as (x & Hx & ->). exists x.
    cbn. by rewrite downcast_to_any.
  - exfalso. unfold borrow_ext in E. rewrite hot_map_notify in E.
    destruct (hot_map (ensure_registered T e) !! TypeId_of T) eqn:E'; [congruence|].
    cbn in E. by rewrite lookup_insert_eq in E.
Qed.

Lemma get_or_insert_default_snd T `{!BriocheExtensionType T} e :
  (get_or_insert_default T e).2 = borrow_ext T e.
Proof. unfold get_or_insert_default. fold (borrow_ext T e). by case_match. Qed.

Lemma cold_snapshot_borrow T `{!BriocheExtensionType T} e :
  cold_snapshot (borrow_ext T e) = cold_snapshot e.
Proof.
  unfold borrow_ext. rewrite cold_snapshot_notify, <- (cold_snapshot_ensure T e). by case_match.
Qed.

Lemma hot_map_borrow_ne T `{!BriocheExtensionType T} e tid :
  tid ≠ TypeId_of T → hot_map (borrow_ext T e) !! tid = hot_map e !! tid.
Proof.
  intros H. unfold borrow_ext. rewrite hot_map_notify, hot_map_ensure.
  case_match; cbn; rewrite ?hot_map_ensure; [done|]. by rewrite lookup_insert_ne.
Qed.

Lemma get_ext_borrow T `{!BriocheExtensionType T} e x :
  get_ext T e = Some x → get_ext T (borrow_ext T e) = Some x.
Proof.
  unfold get_ext, borrow_ext. rewrite hot_map_notify, hot_map_ensure.
  destruct (hot_map e !! TypeId_of T) eqn:E; cbn; [|done].
  by rewrite hot_map_ensure, E.
Qed.

Lemma hot_map_insert_ne T `{!BriocheExtensionType T} (x : T) e tid :
  tid ≠ TypeId_of T → hot_map (insert_ext x e).2 !! tid = hot_map e !! tid.
Proof.
  intros H. rewrite <- (hot_map_ensure T e). unfold insert_ext.
  repeat case_match; cbn; by rewrite ?lookup_insert_ne.
Qed.

(** *** The registry *)

Lemma registry_insert_ext T `{!BriocheExtensionType T} (x : T) e :
  registry (insert_ext x e).2 = registry (ensure_registered T e).
Proof. unfold insert_ext. by repeat case_match. Qed.
Lemma registry_borrow T `{!BriocheExtensionType T} e :
  registry (borrow_ext T e) = registry (ensure_registered T e).
Proof. unfold borrow_ext. rewrite registry_notify. by case_match. Qed.
Lemma registry_write T `{!BriocheExtensionType T} (x : T) e :
  registry (write_ext x e) = registry e.
Proof. unfold write_ext. by case_match. Qed.

Lemma registered_as_ext T `{!BriocheExtensionType T} e e' :
  registry e' = registry e → registered_as T e → registered_as T e'.
Proof. unfold registered_as. by intros ->. Qed.
Lemma registered_as_ensure T `{!BriocheExtensionType T} e :
  registered_as T e → registered_as T (ensure_registered T e).
Proof. intros H. right. by apply ensure_registered_as. Qed.
Lemma registered_as_ensure_ne T T' `{!BriocheExtensionType T, !BriocheExtensionType T'} e :
  TypeId_of T' ≠ TypeId_of T → registered_as T e → registered_as T (ensure_registered T' e).
Proof.
  intros Hne H. unfold registered_as, ensure_registered in *. case_match; [done|]. cbn.
  by rewrite lookup_insert_ne.
Qed.

Lemma insert_ext_ok T `{!BriocheExtensionType T} (x : T) e :
  registered_as T e → is_ok (postcard_to_stdvec x) = true → is_ok (insert_ext x e).1 = true.
Proof.
  intros H Hx. unfold insert_ext. rewrite (ensure_registered_as _ _ H). cbn [strategy build_vtable].
  case_decide; [done|]. cbn [serialize build_vtable]. rewrite downcast_to_any.
  by destruct (postcard_to_stdvec x).
Qed.

Lemma get_ext_insert T `{!BriocheExtensionType T} (x : T) e :
  is_ok (insert_ext x e).1 = true → get_ext T (insert_ext x e).2 = Some x.
Proof.
  intros H. assert (hot_map (insert_ext x e).2 !! TypeId_of T = Some (to_any x)) as Hx.
  { revert H. unfold insert_ext. repeat case_match; cbn; intros; try done; apply lookup_insert_eq. }
  unfold get_ext. rewrite Hx. apply downcast_to_any.
Qed.

Lemma get_or_insert_hit T `{!BriocheExtensionType T} e x :
  ext_wf e → get_ext T e = Some x → get_or_insert_default T e = (x, borrow_ext T e).
Proof.
  intros Hwf Hx. destruct (get_or_insert_default_spec T e Hwf) as (y & -> & Hy).
  apply (get_ext_borrow T) in Hx. congruence.
Qed.

Lemma get_ext_hot T `{!BriocheExtensionType T} e x :
  hot_map e !! TypeId_of T = Some (to_any x) → get_ext T e = Some x.
Proof. unfold get_ext. intros ->. apply downcast_to_any. Qed.

Lemma ext_wf_write T `{!BriocheExtensionType T} (x : T) e : ext_wf e → ext_wf (write_ext x e).
Proof.
  intros H. unfold write_ext. case_match; [|done].
  apply ext_wf_set_hot; [done|apply type_id_to_any].
Qed.

Lemma ext_wf_update T `{!BriocheExtensionType T} (f : T → T) e :
  ext_wf e → ext_wf (update_ext f e).
Proof.
  intros H. unfold update_ext. destruct (get_or_insert_default T e) as [x e'] eqn:E.
  apply ext_wf_write. rewrite <- (f_equal snd E : _ = e'). cbn.
  rewrite get_or_insert_default_snd. by apply ext_wf_borrow.
Qed.

Lemma get_ext_write T `{!BriocheExtensionType T} (x y : T) e :
  get_ext T e = Some y → get_ext T (write_ext x e) = Some x.
Proof.
  unfold get_ext, write_ext. intros H. rewrite H. cbn.
  rewrite lookup_insert_eq. apply downcast_to_any.
Qed.

(** Read, modify, write through the borrow. *)
Lemma update_ext_spec T `{!BriocheExtensionType T} (f : T → T) e :
  ext_wf e →
  ∃ x, get_or_insert_default T e = (x, borrow_ext T e) ∧
    get_ext T (update_ext f e) = Some (f x) ∧
    update_ext f e = set_hot_map (insert (TypeId_of T) (to_any (f x))) (borrow_ext T e).
Proof.
  intros H. destruct (get_or_insert_default_spec T e H) as (x & Hx & Hg). exists x.
  unfold update_ext. rewrite Hx. split; [done|]. split; [by eapply get_ext_write|].
  unfold write_ext. unfold get_ext in Hg. by rewrite Hg.
Qed.

Lemma get_ext_update_ne T T' `{!BriocheExtensionType T, !BriocheExtensionType T'}
    (f : T → T) e :
  ext_wf e → TypeId_of T' ≠ TypeId_of T → get_ext T' (update_ext f e) = get_ext T' e.
Proof.
  intros H Hne. destruct (update_ext_spec T f e H) as (x & _ & _ & ->).
  unfold get_ext. cbn. rewrite lookup_insert_ne by done. by rewrite hot_map_borrow_ne.
Qed.
End facts.
