(* ===== verification/Session.v ===== *)
(** * Sessions: the hierarchical automaton (brioche-core/src/types/session.rs) *)
From S2P Require Import Prelude Utf8 Types Effects Extension.

Record Session {U : AnyUniverse} {P : Type} := {
  session_id : string;
  history : list ChatMessage;
  persisted_msg_count : N;
  state : AgentState;
  state_stack : list AgentState;
  extensions : ExtensionStorage U P;
  active_tools : list ActiveToolCall;
  pending_assistant_text : string
}.
Arguments Session U P : clear implicits.

(** Live sub-routine sessions, a [BTreeMap] keyed by handle. *)
Record SessionRegistry {U : AnyUniverse} {P : Type} := { sessions : gmap string (Session U P) }.
Arguments SessionRegistry U P : clear implicits.

Section session.
Context {U : AnyUniverse} {P : Type} `{!CycleRollbackPolicy U P}.
Implicit Types s : Session U P.
Implicit Types r : SessionRegistry U P.

Definition Session_new (id : string) : Session U P := {|
  session_id := id;
  history := [];
  persisted_msg_count := 0%N;
  state := AgentState.Idle;
  state_stack := [];
  extensions := ExtensionStorage_new;
  active_tools := [];
  pending_assistant_text := ""
|}.

Definition set_history (f : list ChatMessage → list ChatMessage) s : Session U P := {|
  session_id := session_id s; history := f (history s);
  persisted_msg_count := persisted_msg_count s; state := state s;
  state_stack := state_stack s; extensions := extensions s;
  active_tools := active_tools s; pending_assistant_text := pending_assistant_text s |}.

Definition set_state (st : AgentState) (stack : list AgentState) s : Session U P := {|
  session_id := session_id s; history := history s;
  persisted_msg_count := persisted_msg_count s; state := st;
  state_stack := stack; extensions := extensions s;
  active_tools := active_tools s; pending_assistant_text := pending_assistant_text s |}.

Definition set_extensions (e : ExtensionStorage U P) s : Session U P := {|
  session_id := session_id s; history := history s;
  persisted_msg_count := persisted_msg_count s; state := state s;
  state_stack := state_stack s; extensions := e;
  active_tools := active_tools s; pending_assistant_text := pending_assistant_text s |}.

Definition set_active_tools (ts : list ActiveToolCall) s : Session U P := {|
  session_id := session_id s; history := history s;
  persisted_msg_count := persisted_msg_count s; state := state s;
  state_stack := state_stack s; extensions := extensions s;
  active_tools := ts; pending_assistant_text := pending_assistant_text s |}.

Definition set_pending_text (t : string) s : Session U P := {|
  session_id := session_id s; history := history s;
  persisted_msg_count := persisted_msg_count s; state := state s;
  state_stack := state_stack s; extensions := extensions s;
  active_tools := active_tools s; pending_assistant_text := t |}.

(** *** The state stack *)

Definition push_state (new_state : AgentState) : State (Session U P) (result unit BriocheError) :=
  λ s,
    match new_state with
    | AgentState.Failure =>
        (Err (BriocheError.InvalidStateTransition "cannot push Failure onto state stack"), s)
    | _ =>
        if decide (MAX_STATE_STACK_DEPTH ≤ length (state_stack s)) then
          (Err (BriocheError.InvalidStateTransition
                  ("state stack depth exceeds maximum " +:+ pretty MAX_STATE_STACK_DEPTH)), s)
        else (Ok tt, set_state new_state (state_stack s ++ [state s]) s)
    end.

Definition pop_state : State (Session U P) (result AgentState BriocheError) :=
  λ s,
    match vec_pop (state_stack s) with
    | Some (stack, prev) => (Ok (state s), set_state prev stack s)
    | None => (Err (BriocheError.InvalidStateTransition "state stack is empty"), s)
    end.

Definition snapshot s : SessionSnapshot := {|
  current_state := AgentStateTag_from (state s);
  state_stack_depth := N.of_nat (length (state_stack s))
|}.

Definition persist_assistant_text s : Session U P :=
  if decide (pending_assistant_text s = "") then s
  else
    set_pending_text ""
      (set_history (λ h, h ++ [ChatMessage.Assistant (pending_assistant_text s) None []]) s).

(** *** History edits: applied one by one, up to the first invalid index *)

Definition apply_edit (edit : HistoryEdit) (h : list ChatMessage) :
    result (list ChatMessage) BriocheError :=
  let len := N.of_nat (length h) in
  match edit with
  | HistoryEdit.Insert index message =>
      if decide (len < index)%N then
        Err (BriocheError.HistoryIndexOutOfBounds HistoryOperation.Insert index len)
      else Ok (take (N.to_nat index) h ++ message :: drop (N.to_nat index) h)
  | HistoryEdit.Replace index message =>
      if decide (len ≤ index)%N then
        Err (BriocheError.HistoryIndexOutOfBounds HistoryOperation.Replace index len)
      else Ok (<[N.to_nat index := message]> h)
  | HistoryEdit.Truncate keep_last =>
      let keep := N.to_nat (N.min keep_last len) in
      Ok (drop (length h - keep) h)
  end.

Fixpoint apply_history_edits (edits : list HistoryEdit) :
    State (Session U P) (result unit BriocheError) :=
  λ s,
    match edits with
    | [] => (Ok tt, s)
    | edit :: edits' =>
        match apply_edit edit (history s) with
        | Ok h => apply_history_edits edits' (set_history (λ _, h) s)
        | Err err => (Err err, s)
        end
    end.

(** *** The registry *)

Definition SessionRegistry_new : SessionRegistry U P := {| sessions := ∅ |}.

Definition registry_insert (h : SubRoutineHandle) s r : SessionRegistry U P :=
  {| sessions := <[handle_id h := s]> (sessions r) |}.

Definition registry_remove (h : SubRoutineHandle) r : option (Session U P) * SessionRegistry U P :=
  (sessions r !! handle_id h, {| sessions := delete (handle_id h) (sessions r) |}).

Definition registry_contains (h : SubRoutineHandle) r : bool :=
  bool_decide (is_Some (sessions r !! handle_id h)).

Definition registry_get_mut (h : SubRoutineHandle) r : option (Session U P) :=
  sessions r !! handle_id h.

Definition registry_handles r : list SubRoutineHandle :=
  SubRoutineHandle_new <$> btree_keys (sessions r).

(** ** Facts *)

(** The stack never outgrows its bound, and no state below the top is [Failure]. *)
Record session_wf s : Prop := {
  wf_depth : length (state_stack s) ≤ MAX_STATE_STACK_DEPTH;
  wf_live : state s ≠ AgentState.Failure;
  wf_stack : AgentState.Failure ∉ state_stack s
}.

Lemma session_new_wf id : session_wf (Session_new id).
Proof. split; cbn; [lia|done|apply not_elem_of_nil]. Qed.

Lemma session_wf_ext s s' :
  state s' = state s → state_stack s' = state_stack s → session_wf s → session_wf s'.
Proof. intros H1 H2 [? ? ?]. split; congruence. Qed.

Lemma push_state_ok new_state s s' :
  push_state new_state s = (Ok tt, s') →
  new_state ≠ AgentState.Failure ∧ length (state_stack s) < MAX_STATE_STACK_DEPTH ∧
  s' = set_state new_state (state_stack s ++ [state s]) s.
Proof.
  unfold push_state. destruct new_state; repeat case_decide; intros ?; simplify_eq;
    split_and!; first [done|lia].
Qed.

Lemma push_state_err new_state s err s' :
  push_state new_state s = (Err err, s') → s' = s.
Proof. unfold push_state. destruct new_state; repeat case_decide; intros ?; by simplify_eq. Qed.

Lemma push_state_wf new_state : respects (keeps session_wf) (push_state new_state).
Proof.
  intros s Hwf. destruct (push_state new_state s) as [[[]|err] s'] eqn:E; cbn.
  - apply push_state_ok in E as (Hn & Hl & ->). destruct Hwf as [Hd Hs Hst]. split; cbn; [|done|].
    + rewrite length_app. cbn. lia.
    + rewrite elem_of_app, list_elem_of_singleton. intros [?|?]; [done|congruence].
  - by apply push_state_err in E as ->.
Qed.

Lemma pop_state_ok s st s' :
  pop_state s = (Ok st, s') →
  ∃ stack prev, state_stack s = stack ++ [prev] ∧ st = state s ∧ s' = set_state prev stack s.
Proof.
  unfold pop_state. destruct (vec_pop (state_stack s)) as [[stack prev]|] eqn:E; [|done].
  apply vec_pop_Some in E. intros [= <- <-]. eauto.
Qed.

Lemma pop_state_snoc s stack prev :
  state_stack s = stack ++ [prev] → pop_state s = (Ok (state s), set_state prev stack s).
Proof. intros H. unfold pop_state. by rewrite H, vec_pop_snoc. Qed.

Lemma pop_state_nil s :
  state_stack s = [] →
  pop_state s = (Err (BriocheError.InvalidStateTransition "state stack is empty"), s).
Proof. intros H. unfold pop_state. by rewrite H. Qed.

Lemma pop_state_wf : respects (keeps session_wf) pop_state.
Proof.
  intros s Hwf. destruct (pop_state s) as [[st|err] s'] eqn:E; cbn.
  - apply pop_state_ok in E as (stack & prev & Hst & _ & ->).
    destruct Hwf as [Hd Hs Hf]. rewrite Hst in Hd, Hf.
    rewrite length_app in Hd. rewrite elem_of_app, list_elem_of_singleton in Hf.
    split; cbn; [cbn in Hd; lia|naive_solver|naive_solver].
  - unfold pop_state in E. repeat case_match; by simplify_eq.
Qed.

(** *** Edits as a fold, and what an error leaves behind *)

Definition edits_fold (edits : list HistoryEdit) (h : list ChatMessage) :
    result (list ChatMessage) BriocheError :=
  foldl (λ acc edit, result_bind acc (apply_edit edit)) (Ok h) edits.

Lemma edits_fold_err edits err :
  foldl (λ acc edit, result_bind acc (apply_edit edit)) (Err err) edits = Err err.
Proof. induction edits; cbn; auto. Qed.

Lemma set_history_twice f g s : set_history f (set_history g s) = set_history (λ h, f (g h)) s.
Proof. done. Qed.

Lemma set_history_id s : set_history (λ _, history s) s = s.
Proof. by destruct s. Qed.

Lemma apply_history_edits_ok edits s h :
  edits_fold edits (history s) = Ok h →
  apply_history_edits edits s = (Ok tt, set_history (λ _, h) s).
Proof.
  revert s. induction edits as [|edit edits IH]; intros s; cbn.
  - unfold edits_fold; cbn. intros [= <-]. by rewrite set_history_id.
  - unfold edits_fold; cbn. destruct (apply_edit edit (history s)) as [h'|err].
    + intros H. rewrite (IH (set_history (λ _, h') s)) by done. done.
    + by rewrite edits_fold_err.
Qed.

(** The failing edit's prefix stays applied. *)
Lemma apply_history_edits_err edits s err :
  edits_fold edits (history s) = Err err →
  ∃ pre edit post h, edits = pre ++ edit :: post ∧
    edits_fold pre (history s) = Ok h ∧ apply_edit edit h = Err err ∧
    apply_history_edits edits s = (Err err, set_history (λ _, h) s).
Proof.
  revert s. induction edits as [|edit edits IH]; intros s; [done|].
  unfold edits_fold; cbn. destruct (apply_edit edit (history s)) as [h'|err'] eqn:E.
  - intros H. destruct (IH (set_history (λ _, h') s) H) as (pre & ed & post & h & -> & H1 & H2 & H3).
    exists (edit :: pre), ed, post, h. split_and!; [done| |done|].
    + unfold edits_fold; cbn. by rewrite E.
    + by rewrite H3.
  - rewrite edits_fold_err. intros [= <-]. exists [], edit, edits, (history s).
    split_and!; [done|done|done|by rewrite set_history_id].
Qed.

Lemma apply_history_edits_frame edits :
  respects (λ s s', ∃ h, s' = set_history (λ _, h) s) (apply_history_edits edits).
Proof.
  intros s. destruct (edits_fold edits (history s)) as [h|err] eqn:E.
  - rewrite (apply_history_edits_ok _ _ _ E). eauto.
  - destruct (apply_history_edits_err _ _ _ E) as (? & ? & ? & h & _ & _ & _ & ->). eauto.
Qed.

Lemma apply_edit_length edit h h' :
  apply_edit edit h = Ok h' →
  length h' = match edit with
              | HistoryEdit.Insert _ _ => S (length h)
              | HistoryEdit.Replace _ _ => length h
              | HistoryEdit.Truncate k => N.to_nat (N.min k (N.of_nat (length h)))
              end.
Proof.
  destruct edit; cbn; try case_decide; intros [= <-].
  - rewrite length_app; cbn. rewrite length_take, length_drop. lia.
  - by rewrite length_insert.
  - rewrite length_drop. lia.
Qed.
End session.
