(* ===== verification/Plugins.v ===== *)
(** * Governance trait contracts (brioche-governance/src/lib.rs, brioche-core/src/plugin.rs)

    A trait object is a record of its methods.  Hooks take [&self] and
    [&mut ExtensionStorage]: they are functions of the storage that return it
    changed.  Only the traits that take [&mut Session] can reach session fields
    other than the storage. *)
From S2P Require Import Prelude Utf8 Types Effects Extension Session.

(** [ordered_capability_header!]: every hook has a name and a priority. *)
Record Hook {F : Type} := {
  name : string;
  priority : Z;
  hook : F
}.
Arguments Hook F : clear implicits.

Section traits.
Context (U : AnyUniverse) (P : Type).
Let Ext := ExtensionStorage U P.

Definition OnInputPlugin : Type :=
  Hook (EngineInput → State Ext (PluginResult PolicyDecision)).

Definition BeforePredictionPlugin : Type :=
  Hook (list ChatMessage → State Ext (PluginResult PolicyDecision)).

Definition OnStreamEventPlugin : Type :=
  Hook (StreamEvent → State Ext (PluginResult StreamAction)).

Definition AfterPredictionPlugin : Type := Hook (State Ext (PluginResult unit)).

(** [calls: &mut Vec<_>] is threaded beside the storage. *)
Definition OnToolCallsPlugin : Type :=
  Hook (State (Ext * list ToolCallDescriptor) (PluginResult unit)).

Definition OnToolResultPlugin : Type :=
  Hook (State (Ext * list ToolResultDTO) (PluginResult unit)).

Definition OnErrorPlugin : Type :=
  Hook (PluginError → State Ext (PluginResult PolicyDecision)).

Definition EpochInterceptorPlugin : Type :=
  EngineInput → State Ext (PluginResult EpochAction).

(** [handle_subroutine(parent, child, input)] *)
Definition SubRoutineHandlerPlugin : Type :=
  EngineInput → State (Session U P * Session U P) (PluginResult (option (list Effect))).

Definition SubRoutineHydratorPlugin : Type := bytes → result (Session U P) BriocheError.

Definition ConsistencyVerifierPlugin : Type :=
  Session U P → PluginResult (option PolicyDecision).

Definition DecisionAggregatorPlugin : Type :=
  list PolicyDecision → State Ext (PluginResult PolicyDecision).

Record HookEffectConstraint := {
  is_allowed_fast : N → N → bool;
  is_allowed_fallback : string → string → bool
}.

(** [on_exit(handle, parent, registry)] *)
Definition SubRoutineLifecycleGuardPlugin : Type :=
  SubRoutineHandle → State (Session U P * SessionRegistry U P) (PluginResult (list Effect)).

Definition GovernanceFailoverHandlerPlugin : Type :=
  Effect → State (Session U P) (PluginResult (option (list Effect))).
End traits.
Arguments is_allowed_fast _ _ _ : assert.
Arguments is_allowed_fallback _ _ _ : assert.
