(* ===== verification/Router.v ===== *)
(** * Pre-computed routes (brioche-core/src/engine/router.rs) *)
From S2P Require Import Prelude Utf8 Types Effects Extension Session Plugins.

(** ** Definitions *)

(** The sort key: priority, then name; [sort_by] is stable. *)
Definition route_cmp (a b : nat * Z * string) : comparison :=
  match (a.1.2 ?= b.1.2)%Z with
  | Eq => String.compare a.2 b.2
  | c => c
  end.

Definition indexed {F} (plugins : list (Hook F)) : list (nat * Z * string) :=
  imap (λ i p, (i, priority p, name p)) plugins.

Definition collect_route {F} (plugins : list (Hook F)) : list nat :=
  (λ t, t.1.1) <$> sort_by route_cmp (indexed plugins).

(** Is the hook at flattened position [start + index] active? Missing entries are. *)
Definition mask_active (active_mask : list bool) (start index : nat) : bool :=
  match active_mask !! (start + index) with
  | Some is_active => is_active
  | None => true
  end.

Definition collect_active_mask {F} (plugins : list (Hook F)) (active_mask : list bool)
    (offset : nat) : list nat * nat :=
  let start := offset in
  let kept := filter (λ t, mask_active active_mask start t.1.1 = true) (indexed plugins) in
  ((λ t, t.1.1) <$> sort_by route_cmp kept, offset + length plugins).

Record UnifiedRoutingTable := {
  route_on_input : list nat;
  route_before_prediction : list nat;
  route_on_stream_event : list nat;
  route_after_prediction : list nat;
  route_on_tool_calls : list nat;
  route_on_tool_result : list nat;
  route_on_error : list nat
}.

Record PluginRouter {U : AnyUniverse} {P : Type} := {
  on_input_plugins : list (OnInputPlugin U P);
  before_prediction_plugins : list (BeforePredictionPlugin U P);
  on_stream_event_plugins : list (OnStreamEventPlugin U P);
  after_prediction_plugins : list (AfterPredictionPlugin U P);
  on_tool_calls_plugins : list (OnToolCallsPlugin U P);
  on_tool_result_plugins : list (OnToolResultPlugin U P);
  on_error_plugins : list (OnErrorPlugin U P);
  routing_table : UnifiedRoutingTable
}.
Arguments PluginRouter U P : clear implicits.

Section router.
Context {U : AnyUniverse} {P : Type}.

Definition from_hooks
    (on_input : list (OnInputPlugin U P))
    (before_prediction : list (BeforePredictionPlugin U P))
    (on_stream_event : list (OnStreamEventPlugin U P))
    (after_prediction : list (AfterPredictionPlugin U P))
    (on_tool_calls : list (OnToolCallsPlugin U P))
    (on_tool_result : list (OnToolResultPlugin U P))
    (on_error : list (OnErrorPlugin U P)) : UnifiedRoutingTable := {|
  route_on_input := collect_route on_input;
  route_before_prediction := collect_route before_prediction;
  route_on_stream_event := collect_route on_stream_event;
  route_after_prediction := collect_route after_prediction;
  route_on_tool_calls := collect_route on_tool_calls;
  route_on_tool_result := collect_route on_tool_result;
  route_on_error := collect_route on_error
|}.

Definition with_table (r : PluginRouter U P) (t : UnifiedRoutingTable) : PluginRouter U P := {|
  on_input_plugins := on_input_plugins r;
  before_prediction_plugins := before_prediction_plugins r;
  on_stream_event_plugins := on_stream_event_plugins r;
  after_prediction_plugins := after_prediction_plugins r;
  on_tool_calls_plugins := on_tool_calls_plugins r;
  on_tool_result_plugins := on_tool_result_plugins r;
  on_error_plugins := on_error_plugins r;
  routing_table := t
|}.

Definition rebuild_routes_by_mask (active_mask : list bool) (r : PluginRouter U P) :
    PluginRouter U P :=
  let offset := 0 in
  let '(r1, offset) := collect_active_mask (on_input_plugins r) active_mask offset in
  let '(r2, offset) := collect_active_mask (before_prediction_plugins r) active_mask offset in
  let '(r3, offset) := collect_active_mask (on_stream_event_plugins r) active_mask offset in
  let '(r4, offset) := collect_active_mask (after_prediction_plugins r) active_mask offset in
  let '(r5, offset) := collect_active_mask (on_tool_calls_plugins r) active_mask offset in
  let '(r6, offset) := collect_active_mask (on_tool_result_plugins r) active_mask offset in
  let '(r7, _) := collect_active_mask (on_error_plugins r) active_mask offset in
  with_table r {|
    route_on_input := r1;
    route_before_prediction := r2;
    route_on_stream_event := r3;
    route_after_prediction := r4;
    route_on_tool_calls := r5;
    route_on_tool_result := r6;
    route_on_error := r7
  |}.

(** Every route index points at a plugin. *)
Definition route_ok {F} (plugins : list (Hook F)) (route : list nat) : Prop :=
  Forall (λ i, i < length plugins) route ∧ NoDup route.

Record router_wf (r : PluginRouter U P) : Prop := {
  wf_on_input : route_ok (on_input_plugins r) (route_on_input (routing_table r));
  wf_before : route_ok (before_prediction_plugins r) (route_before_prediction (routing_table r));
  wf_stream : route_ok (on_stream_event_plugins r) (route_on_stream_event (routing_table r));
  wf_after : route_ok (after_prediction_plugins r) (route_after_prediction (routing_table r));
  wf_tool_calls : route_ok (on_tool_calls_plugins r) (route_on_tool_calls (routing_table r));
  wf_tool_result : route_ok (on_tool_result_plugins r) (route_on_tool_result (routing_table r));
  wf_on_error : route_ok (on_error_plugins r) (route_on_error (routing_table r))
}.
End router.

(** ** The order of a route *)

Lemma route_cmp_antisym a b : route_cmp a b = CompOpp (route_cmp b a).
Proof.
  unfold route_cmp. rewrite Z.compare_antisym.
  destruct (Z.compare b.1.2 a.1.2); cbn; try done. apply String.compare_antisym.
Qed.

Lemma route_cmp_le_iff a b :
  cmp_le route_cmp a b ↔
  (a.1.2 < b.1.2)%Z ∨ a.1.2 = b.1.2 ∧ String.compare a.2 b.2 ≠ Gt.
Proof.
  unfold cmp_le, route_cmp. destruct (Z.compare_spec a.1.2 b.1.2) as [H|H|H].
  - split; [by right|]. intros [?|[_ ?]]; [lia|done].
  - split; [by left|done].
  - split; [done|]. intros [?|[? _]]; lia.
Qed.

Lemma route_cmp_trans a b c :
  cmp_le route_cmp a b → cmp_le route_cmp b c → cmp_le route_cmp a c.
Proof.
  rewrite !route_cmp_le_iff. intros [?|[? H1]] [?|[? H2]]; try (left; lia).
  right. split; [lia|]. by eapply string_compare_le_trans.
Qed.

(** Stable sorting commutes with filtering. *)
Section sort_filter.
Context {A : Type} (cmp : A → A → comparison).
Context (cmp_antisym : ∀ x y, cmp x y = CompOpp (cmp y x)).
Context (cmp_trans : ∀ x y z, cmp_le cmp x y → cmp_le cmp y z → cmp_le cmp x z).
Context (Q : A → Prop) `{!∀ x, Decision (Q x)}.

Lemma sort_insert_head x l : Forall (cmp_le cmp x) l → sort_insert cmp x l = x :: l.
Proof. destruct 1 as [|y l Hy _]; [done|]. cbn. unfold cmp_le in Hy. by destruct (cmp x y). Qed.

Lemma filter_sort_insert x l :
  StronglySorted (cmp_le cmp) l →
  filter Q (sort_insert cmp x l) =
  if decide (Q x) then sort_insert cmp x (filter Q l) else filter Q l.
Proof using All.
  induction 1 as [|y l Hl IH Hy]; cbn [sort_insert]; [by rewrite filter_cons|].
  assert (cmp_le cmp x y → filter Q (x :: y :: l) =
    if decide (Q x) then sort_insert cmp x (filter Q (y :: l)) else filter Q (y :: l)) as Hle.
  { intros Hxy. rewrite filter_cons. case_decide; [|done]. rewrite sort_insert_head; [done|].
    apply Forall_list_filter. constructor; [done|]. eapply Forall_impl; [exact Hy|]. eauto. }
  destruct (cmp x y) eqn:E; [apply Hle; unfold cmp_le; congruence..|].
  rewrite !filter_cons, IH. repeat case_decide; cbn; by rewrite ?E.
Qed.

Lemma sort_by_filter l : sort_by cmp (filter Q l) = filter Q (sort_by cmp l).
Proof using All.
  induction l as [|x l IH]; [done|]. cbn [sort_by foldr]. change (foldr _ _ l) with (sort_by cmp l).
  rewrite filter_sort_insert by (by apply sort_by_sorted). rewrite filter_cons.
  case_decide; cbn [sort_by foldr]; [|done].
  change (foldr _ _ (filter Q l)) with (sort_by cmp (filter Q l)). by rewrite IH.
Qed.
End sort_filter.

Lemma indexed_fst {F} (plugins : list (Hook F)) :
  (λ t : nat * Z * string, t.1.1) <$> indexed plugins = seq 0 (length plugins).
Proof.
  unfold indexed. rewrite fmap_imap. unfold compose. cbn.
  rewrite (imap_seq_0 plugins (λ i, i)). apply list_fmap_id.
Qed.

Lemma collect_route_permutation {F} (plugins : list (Hook F)) :
  collect_route plugins ≡ₚ seq 0 (length plugins).
Proof. unfold collect_route. by rewrite sort_by_permutation, indexed_fst. Qed.

(** A rebuilt route is the initial route with the inactive hooks struck out. *)
Lemma collect_active_mask_filter {F} (plugins : list (Hook F)) mask offset :
  (collect_active_mask plugins mask offset).1 =
  filter (λ i, mask_active mask offset i = true) (collect_route plugins).
Proof.
  unfold collect_active_mask, collect_route; cbn.
  rewrite sort_by_filter by (apply route_cmp_antisym || apply route_cmp_trans).
  by rewrite filter_fmap.
Qed.
