(* ===== verification/Persistence.v ===== *)
(** * Session persistence (brioche-shell-persistence/src, session callback of
      brioche-shell-builder/src/builder.rs)

    The data transfer objects, the codec helpers, the Redb storage, the loader and
    the garbage collector.  MessagePack, CRC-32 and Zstd are parameters (class
    [PersistCodec]); a Redb database is its three tables, and a transaction either
    commits all its writes or, when the database reports a fault, none of them.
    [save_session] is written in the three steps between which other tasks run:
    read the store, commit, advance the watermark. *)
From S2P Require Import Prelude Utf8 Types Effects Extension Session Router.

(** ** dto.rs *)

Module SessionSchemaVersion.
Inductive SessionSchemaVersion : Type := V1.
End SessionSchemaVersion.
Abbreviation SessionSchemaVersion := SessionSchemaVersion.SessionSchemaVersion.

Module FlattenedAgentState.
Inductive FlattenedAgentState : Type :=
  | Idle
  | Predicting (generation_id : N)
  | ExecutingTools (generation_id : N)
  | SubRoutine (handle : string)
  | Failure.
End FlattenedAgentState.
Abbreviation FlattenedAgentState := FlattenedAgentState.FlattenedAgentState.

#[global] Instance FlattenedAgentState_eq_dec : EqDecision FlattenedAgentState.
Proof. solve_decision. Defined.

Definition flatten_state (s : AgentState) : FlattenedAgentState :=
  match s with
  | AgentState.Idle => FlattenedAgentState.Idle
  | AgentState.Predicting g => FlattenedAgentState.Predicting g
  | AgentState.ExecutingTools g => FlattenedAgentState.ExecutingTools g
  | AgentState.SubRoutine h => FlattenedAgentState.SubRoutine (handle_id h)
  | AgentState.Failure => FlattenedAgentState.Failure
  end.

Definition unflatten_state (s : FlattenedAgentState) : AgentState :=
  match s with
  | FlattenedAgentState.Idle => AgentState.Idle
  | FlattenedAgentState.Predicting g => AgentState.Predicting g
  | FlattenedAgentState.ExecutingTools g => AgentState.ExecutingTools g
  | FlattenedAgentState.SubRoutine h => AgentState.SubRoutine (SubRoutineHandle_new h)
  | FlattenedAgentState.Failure => AgentState.Failure
  end.

Record SessionHeadDTO := {
  version : SessionSchemaVersion;
  head_id : string;
  parent_id : option string;
  head_state : FlattenedAgentState;
  head_state_stack : list FlattenedAgentState;
  head_extensions : gmap string bytes;
  head_persisted_msg_count : N;
  compaction_index : N;
  checksum : option N
}.

Definition set_checksum (c : option N) (d : SessionHeadDTO) : SessionHeadDTO :=
  {| version := version d; head_id := head_id d; parent_id := parent_id d;
     head_state := head_state d; head_state_stack := head_state_stack d;
     head_extensions := head_extensions d;
     head_persisted_msg_count := head_persisted_msg_count d;
     compaction_index := compaction_index d; checksum := c |}.

Definition set_watermark (n : N) (d : SessionHeadDTO) : SessionHeadDTO :=
  {| version := version d; head_id := head_id d; parent_id := parent_id d;
     head_state := head_state d; head_state_stack := head_state_stack d;
     head_extensions := head_extensions d; head_persisted_msg_count := n;
     compaction_index := compaction_index d; checksum := checksum d |}.

Section dto.
Context {U : AnyUniverse} {P : Type} `{!CycleRollbackPolicy U P}.

Definition from_session (session : Session U P) : SessionHeadDTO :=
  {| version := SessionSchemaVersion.V1;
     head_id := session_id session;
     parent_id := None;
     head_state := flatten_state (state session);
     head_state_stack := flatten_state <$> state_stack session;
     head_extensions := cold_snapshot (extensions session);
     head_persisted_msg_count := persisted_msg_count session;
     compaction_index := 0;
     checksum := None |}.

Definition to_session (d : SessionHeadDTO) (hist : list ChatMessage) : Session U P :=
  let session := Session_new (head_id d) in
  {| session_id := session_id session;
     history := hist;
     persisted_msg_count := head_persisted_msg_count d;
     state := unflatten_state (head_state d);
     state_stack := unflatten_state <$> head_state_stack d;
     extensions := restore_cold_snapshot (head_extensions d) (extensions session);
     active_tools := active_tools session;
     pending_assistant_text := pending_assistant_text session |}.
End dto.

(** ** storage/error.rs; the shell's own error (brioche-shell-runtime/src/shell.rs) *)

Module PersistenceError.
Inductive PersistenceError : Type :=
  | Redb (msg : string)
  | Serialization (msg : string)
  | SessionNotFound (msg : string)
  | Compression (msg : string)
  | GcInterrupted (msg : string).
End PersistenceError.
Abbreviation PersistenceError := PersistenceError.PersistenceError.

Definition PersistenceError_to_string (e : PersistenceError) : string :=
  match e with
  | PersistenceError.Redb m => "redb error: " +:+ m
  | PersistenceError.Serialization m => "serialization error: " +:+ m
  | PersistenceError.SessionNotFound m => "session not found: " +:+ m
  | PersistenceError.Compression m => "compression error: " +:+ m
  | PersistenceError.GcInterrupted m => "gc interrupted: " +:+ m
  end.

Module ShellError.
Inductive ShellError : Type :=
  | EngineDisconnected
  | ChannelSend
  | EffectExecution (msg : string)
  | RebuildInProgress.
End ShellError.
Abbreviation ShellError := ShellError.ShellError.

#[global] Instance ShellError_eq_dec : EqDecision ShellError.
Proof. solve_decision. Defined.

(** ** The crates called: rmp_serde, crc32fast, zstd *)

Class PersistCodec := {
  head_to_vec : SessionHeadDTO → result bytes string;
  head_from_slice : bytes → result SessionHeadDTO string;
  message_to_vec : ChatMessage → result bytes string;
  message_from_slice : bytes → result ChatMessage string;
  crc32 : bytes → N;
  zstd_encode_all : bytes → result bytes string;
  zstd_decode_all : bytes → result bytes string
}.

(** What is relied on: decoding inverts encoding. *)
Class PersistCodecLaws `{!PersistCodec} := {
  head_decode_encode d b : head_to_vec d = Ok b → head_from_slice b = Ok d;
  message_decode_encode m b : message_to_vec m = Ok b → message_from_slice b = Ok m;
  zstd_decode_encode b c : zstd_encode_all b = Ok c → zstd_decode_all c = Ok b
}.

Definition map_err {A E F} (f : E → F) (r : result A E) : result A F :=
  match r with Ok a => Ok a | Err e => Err (f e) end.

(** ** storage/codec.rs *)

Definition COMPRESSION_THRESHOLD : N := 1024%N.
Definition MAX_HEAD_BYTES : N := (64 * 1024 * 1024)%N.
Definition FLAG_UNCOMPRESSED : byte := x00.
Definition FLAG_COMPRESSED : byte := x01.

(** [{:#010x}]: ["0x"] and eight lower-case hexadecimal digits. *)
Definition hex_digit (n : N) : ascii :=
  ascii_of_N (if (n <? 10)%N then 48 + n else 87 + n)%N.
Fixpoint hex_digits (width : nat) (n : N) : string :=
  match width with
  | O => ""
  | S w => hex_digits w (n / 16) +:+ String (hex_digit (n mod 16)) ""
  end.
Definition hex_u32 (n : N) : string := "0x" +:+ hex_digits 8 n.

(** Slicing [&v[start..]] panics when [start] is past the end. *)
Definition slice_from {A} (l : list A) (start : N) : option (list A) :=
  if (start <=? N.of_nat (length l))%N then Some (drop (N.to_nat start) l) else None.

Definition extract_delta {U P} (session : Session U P) : option (list ChatMessage) :=
  slice_from (history session) (persisted_msg_count session).

Section codec.
Context `{!PersistCodec}.

Definition serialize_head (d : SessionHeadDTO) : result bytes PersistenceError :=
  let d := set_checksum None d in
  result_bind (map_err PersistenceError.Serialization (head_to_vec d)) (λ checksum_bytes,
    let d := set_checksum (Some (crc32 checksum_bytes)) d in
    map_err PersistenceError.Serialization (head_to_vec d)).

Definition deserialize_head (blob : bytes) : result SessionHeadDTO PersistenceError :=
  let len := N.of_nat (length blob) in
  if (MAX_HEAD_BYTES <? len)%N then
    Err (PersistenceError.Serialization
      ("session head blob too large: " +:+ pretty len +:+ " bytes (max "
         +:+ pretty MAX_HEAD_BYTES +:+ ")"))
  else
    result_bind (map_err PersistenceError.Serialization (head_from_slice blob)) (λ d,
      match version d with
      | SessionSchemaVersion.V1 =>
          match checksum d with
          | None => Ok d
          | Some expected =>
              result_bind (map_err PersistenceError.Serialization
                             (head_to_vec (set_checksum None d))) (λ checksum_bytes,
                let actual := crc32 checksum_bytes in
                if (actual =? expected)%N then Ok d
                else Err (PersistenceError.Serialization
                  ("session head checksum mismatch: expected " +:+ hex_u32 expected
                     +:+ ", got " +:+ hex_u32 actual)))
          end
      end).

Definition serialize_message (msg : ChatMessage) : result bytes PersistenceError :=
  map_err PersistenceError.Serialization (message_to_vec msg).

Definition deserialize_message (blob : bytes) : result ChatMessage PersistenceError :=
  map_err PersistenceError.Serialization (message_from_slice blob).

Definition maybe_compress (data : bytes) : result bytes PersistenceError :=
  if (COMPRESSION_THRESHOLD <? N.of_nat (length data))%N then
    result_bind (map_err PersistenceError.Compression (zstd_encode_all data)) (λ compressed,
      Ok (FLAG_COMPRESSED :: compressed))
  else Ok (FLAG_UNCOMPRESSED :: data).

Definition maybe_decompress (data : bytes) : result bytes PersistenceError :=
  match data with
  | x01 :: rest => map_err PersistenceError.Compression (zstd_decode_all rest)
  | x00 :: rest => Ok rest
  | _ => Ok data
  end.

(** The two compositions every table entry goes through. *)
Definition encode_head (d : SessionHeadDTO) : result bytes PersistenceError :=
  result_bind (serialize_head d) maybe_compress.
Definition decode_head (b : bytes) : result SessionHeadDTO PersistenceError :=
  result_bind (maybe_decompress b) deserialize_head.
Definition encode_message (msg : ChatMessage) : result bytes PersistenceError :=
  result_bind (serialize_message msg) maybe_compress.
Definition decode_message (b : bytes) : result ChatMessage PersistenceError :=
  result_bind (maybe_decompress b) deserialize_message.
End codec.

(** ** storage/schema.rs, storage/redb.rs *)

Record Redb := {
  sessions_table : gmap string bytes;
  messages_table : gmap (string * N) bytes;
  blobs_table : gmap string bytes
}.

Definition Redb_create : Redb :=
  {| sessions_table := ∅; messages_table := ∅; blobs_table := ∅ |}.

Record SessionStoreEntry := { entry_head : SessionHeadDTO; entry_messages : list ChatMessage }.

Record RedbStorage := { db : Redb; session_store : gmap string SessionStoreEntry }.

Definition set_db (d : Redb) (st : RedbStorage) : RedbStorage :=
  {| db := d; session_store := session_store st |}.
Definition set_store (f : gmap string SessionStoreEntry → gmap string SessionStoreEntry)
    (st : RedbStorage) : RedbStorage :=
  {| db := db st; session_store := f (session_store st) |}.

(** A table is iterated in the order of its keys. *)
Definition message_key_cmp (p q : (string * N) * bytes) : comparison :=
  match String.compare p.1.1 q.1.1 with
  | Eq => N.compare p.1.2 q.1.2
  | c => c
  end.
Definition table_iter (t : gmap (string * N) bytes) : list ((string * N) * bytes) :=
  sort_by message_key_cmp (map_to_list t).

Definition update_session (entry : SessionStoreEntry) (st : RedbStorage) : RedbStorage :=
  set_store (insert (head_id (entry_head entry)) entry) st.

(** What the database answers to [begin_write] or [commit]. *)
Definition db_fault : Type := option string.

Definition transaction {A} (fault : db_fault) (write : Redb → Redb) (a : A)
    (st : RedbStorage) : result A PersistenceError * RedbStorage :=
  match fault with
  | Some e => (Err (PersistenceError.Redb e), st)
  | None => (Ok a, set_db (write (db st)) st)
  end.

Definition insert_session (sid : string) (blob : bytes) (d : Redb) : Redb :=
  {| sessions_table := <[sid := blob]> (sessions_table d);
     messages_table := messages_table d; blobs_table := blobs_table d |}.

Definition insert_messages (batch : list ((string * N) * bytes)) (d : Redb) : Redb :=
  {| sessions_table := sessions_table d;
     messages_table := foldl (λ t kv, <[kv.1 := kv.2]> t) (messages_table d) batch;
     blobs_table := blobs_table d |}.

Definition insert_blob (pid : string) (data : bytes) (d : Redb) : Redb :=
  {| sessions_table := sessions_table d; messages_table := messages_table d;
     blobs_table := <[pid := data]> (blobs_table d) |}.

Definition remove_messages (keys : list (string * N)) (d : Redb) : Redb :=
  {| sessions_table := sessions_table d;
     messages_table := foldl (λ t k, delete k t) (messages_table d) keys;
     blobs_table := blobs_table d |}.

Definition as_u32 (n : N) : N := (n mod 4294967296)%N.

Section storage.
Context `{!PersistCodec}.

(** The loop over [enumerate()]: the first message that does not encode stops it. *)
Fixpoint message_batch (sid : string) (index : N) (messages : list ChatMessage) :
    result (list ((string * N) * bytes)) PersistenceError :=
  match messages with
  | [] => Ok []
  | msg :: messages' =>
      result_bind (encode_message msg) (λ compressed,
      result_bind (message_batch sid (index + 1)%N messages') (λ batch,
        Ok (((sid, as_u32 index), compressed) :: batch)))
  end.

Definition save_session_dto (fault : db_fault) (d : SessionHeadDTO) (st : RedbStorage) :
    result unit PersistenceError * RedbStorage :=
  match encode_head d with
  | Err e => (Err e, st)
  | Ok compressed => transaction fault (insert_session (head_id d) compressed) tt st
  end.

Definition load_session (sid : string) (st : RedbStorage) :
    result (option SessionHeadDTO) PersistenceError :=
  match sessions_table (db st) !! sid with
  | None => Ok None
  | Some bytes => result_bind (decode_head bytes) (λ d, Ok (Some d))
  end.

Definition save_messages (fault : db_fault) (sid : string) (messages : list ChatMessage)
    (start_index : N) (st : RedbStorage) : result unit PersistenceError * RedbStorage :=
  match message_batch sid start_index messages with
  | Err e => (Err e, st)
  | Ok batch => transaction fault (insert_messages batch) tt st
  end.

Definition load_message (sid : string) (index : N) (st : RedbStorage) :
    result (option ChatMessage) PersistenceError :=
  match messages_table (db st) !! (sid, index) with
  | None => Ok None
  | Some bytes => result_bind (decode_message bytes) (λ m, Ok (Some m))
  end.

(** The scan, then the sort by index. *)
Fixpoint scan_messages (sid : string) (rows : list ((string * N) * bytes)) :
    result (list (N * ChatMessage)) PersistenceError :=
  match rows with
  | [] => Ok []
  | ((key_sid, idx), v) :: rows' =>
      if decide (key_sid = sid) then
        result_bind (decode_message v) (λ msg,
        result_bind (scan_messages sid rows') (λ results, Ok ((idx, msg) :: results)))
      else scan_messages sid rows'
  end.

Definition load_messages_for_session (sid : string) (st : RedbStorage) :
    result (list (N * ChatMessage)) PersistenceError :=
  result_bind (scan_messages sid (table_iter (messages_table (db st)))) (λ results,
    Ok (sort_by (λ p q, N.compare p.1 q.1) results)).

(** The blocking twin of the async method, with the same body. *)
Definition load_messages_for_session_sync (sid : string) (st : RedbStorage) :
    result (list (N * ChatMessage)) PersistenceError :=
  result_bind (scan_messages sid (table_iter (messages_table (db st)))) (λ results,
    Ok (sort_by (λ p q, N.compare p.1 q.1) results)).

(** storage/gc.rs: [GcRunner].  Tokens are numbered; the current one is behind a mutex, and
    the runs that took an earlier one still look at that. *)
Record GcRunner := { gc_token : nat; gc_cancelled : gset nat }.
Definition GcRunner_new : GcRunner := {| gc_token := 0; gc_cancelled := ∅ |}.
Definition gc_cancel (r : GcRunner) : GcRunner :=
  {| gc_token := S (gc_token r); gc_cancelled := {[gc_token r]} ∪ gc_cancelled r |}.
Definition is_cancelled (token : nat) (r : GcRunner) : bool := bool_decide (token ∈ gc_cancelled r).

(** The row before which a scan that took [token] stops, given the runner at each of its
    checks. *)
Definition stops_before (token : nat) (checks : list GcRunner) : option nat :=
  fst <$> list_find (λ r, is_cancelled token r = true) checks.

(** storage/gc.rs: the scan stops when the token is cancelled, here after
    [cancelled_after] rows; what was collected until then is removed. *)
Definition stale_keys (sid : string) (index : N) (rows : list ((string * N) * bytes)) :
    list (string * N) :=
  (filter (λ kv : (string * N) * bytes, kv.1.1 = sid ∧ (kv.1.2 < index)%N) rows).*1.

Definition run_gc (cancelled_after : option nat) (fault : db_fault) (sid : string) (index : N)
    (st : RedbStorage) : result N PersistenceError * RedbStorage :=
  let rows := table_iter (messages_table (db st)) in
  let scanned := match cancelled_after with None => rows | Some n => take n rows end in
  let to_remove := stale_keys sid index scanned in
  transaction fault (remove_messages to_remove) (N.of_nat (length to_remove)) st.

Definition delete_messages_below (fault : db_fault) (sid : string) (index : N) :=
  run_gc None fault sid index.

(** *** [Persistence for RedbStorage] *)

(** A failed save: the task panicked on the slice, or returned an error. *)
Inductive SaveFailure : Type :=
  | Panicked
  | Failed (e : ShellError).

(** First step: the entry as the store holds it. *)
Definition save_begin (sid : string) (st : RedbStorage) : result SessionStoreEntry SaveFailure :=
  match session_store st !! sid with
  | Some entry => Ok entry
  | None => Err (Failed (ShellError.EffectExecution ("session " +:+ sid +:+ " not found in store")))
  end.

(** Second step: head and new messages in one transaction. *)
Definition save_commit (fault : db_fault) (sid : string) (entry : SessionStoreEntry)
    (st : RedbStorage) : result N SaveFailure * RedbStorage :=
  let head := entry_head entry in
  let start_index := head_persisted_msg_count head in
  let failed e := Err (Failed (ShellError.EffectExecution (PersistenceError_to_string e))) in
  match slice_from (entry_messages entry) start_index with
  | None => (Err Panicked, st)
  | Some delta =>
      match encode_head head with
      | Err e => (failed e, st)
      | Ok head_compressed =>
          match message_batch sid start_index delta with
          | Err e => (failed e, st)
          | Ok batch =>
              match transaction fault
                      (λ d, insert_messages batch (insert_session sid head_compressed d))
                      (N.of_nat (length (entry_messages entry))) st with
              | (Ok n, st') => (Ok n, st')
              | (Err e, st') => (failed e, st')
              end
          end
      end
  end.

(** Third step: the watermark of whatever entry the store holds by then. *)
Definition save_advance (sid : string) (new_count : N) (st : RedbStorage) : RedbStorage :=
  set_store (alter (λ e, {| entry_head := set_watermark new_count (entry_head e);
                            entry_messages := entry_messages e |}) sid) st.

Definition save_session (fault : db_fault) (sid : string) (st : RedbStorage) :
    result unit SaveFailure * RedbStorage :=
  match save_begin sid st with
  | Err e => (Err e, st)
  | Ok entry =>
      match save_commit fault sid entry st with
      | (Err e, st') => (Err e, st')
      | (Ok new_count, st') => (Ok tt, save_advance sid new_count st')
      end
  end.

Definition save_plugin_blob (fault : db_fault) (pid : string) (data : bytes) (st : RedbStorage) :
    result unit ShellError * RedbStorage :=
  match transaction fault (insert_blob pid data) tt st with
  | (Ok _, st') => (Ok tt, st')
  | (Err e, st') => (Err (ShellError.EffectExecution (PersistenceError_to_string e)), st')
  end.

Definition gc (cancelled_after : option nat) (fault : db_fault) (sid : string) (st : RedbStorage) :
    result N ShellError * RedbStorage :=
  match session_store st !! sid with
  | None => (Ok 0%N, st)
  | Some entry =>
      match run_gc cancelled_after fault sid (compaction_index (entry_head entry)) st with
      | (Ok n, st') => (Ok n, st')
      | (Err e, st') => (Err (ShellError.EffectExecution (PersistenceError_to_string e)), st')
      end
  end.

(** ** storage/load.rs and the hydrator of lib.rs *)

Definition load_session_full (sid : string) (st : RedbStorage) :
    result (option (SessionHeadDTO * list ChatMessage)) PersistenceError :=
  result_bind (load_session sid st) (λ head,
    match head with
    | None => Ok None
    | Some h => result_bind (load_messages_for_session sid st) (λ messages, Ok (Some (h, messages.*2)))
    end).
End storage.

Section hydrate.
Context `{!PersistCodec} {U : AnyUniverse} {P : Type} `{!CycleRollbackPolicy U P}.

Definition hydrate (st : RedbStorage) (head_blob : bytes) : result (Session U P) BriocheError :=
  match deserialize_head head_blob with
  | Err e => Err (BriocheError.Serialization (PersistenceError_to_string e))
  | Ok d =>
      match load_messages_for_session (head_id d) st with
      | Err e => Err (BriocheError.Other (PersistenceError_to_string e))
      | Ok messages => Ok (to_session d messages.*2)
      end
  end.

(** ** brioche-shell-builder/src/builder.rs: the callback run after each transition

    [can_read] and [can_write]: whether [try_read] and [try_write] get the lock. *)
Definition session_callback (can_read can_write : bool) (session : Session U P) (st : RedbStorage) :
    Session U P * RedbStorage :=
  let session :=
    match session_store st !! session_id session with
    | Some existing =>
        if can_read then
          {| session_id := session_id session; history := history session;
             persisted_msg_count :=
               N.max (persisted_msg_count session) (head_persisted_msg_count (entry_head existing));
             state := state session; state_stack := state_stack session;
             extensions := extensions session; active_tools := active_tools session;
             pending_assistant_text := pending_assistant_text session |}
        else session
    | None => session
    end in
  let entry := {| entry_head := from_session session; entry_messages := history session |} in
  (session, if can_write then set_store (insert (session_id session) entry) st else st).

(** The session a factory starts from, once the engine is built. *)
Definition session_factory_with_head (sid : string) (initial_history : option (list ChatMessage))
    (initial_head : option SessionHeadDTO) : Session U P :=
  match initial_head with
  | Some head => to_session head (match initial_history with Some h => h | None => [] end)
  | None =>
      match initial_history with
      | Some h => set_history (λ _, h) (Session_new sid)
      | None => Session_new sid
      end
  end.
End hydrate.
