(* ===== verification/SubRoutineCache.v ===== *)
(** * The two-tier sub-routine cache (brioche-shell-persistence/src/storage/cache.rs)
      and the loaders that fill it (storage/load.rs)

    The LRU tier is the [lru] crate, seen through the interface [LruCache]; its
    documented behaviour is [LruLaws], and [ListLru] is an implementation with
    which the witnesses compute. *)
From S2P Require Import Prelude Utf8 Types Effects Extension Session Persistence.

(** ** The crate [lru] *)

Class LruCache (V : Type) := {
  lru : Type;
  lru_new : nat → lru;
  lru_peek : string → lru → option V;
  lru_pop : string → lru → option V * lru;
  lru_put : string → V → lru → lru;
  lru_len : lru → nat
}.
Arguments lru V {_}.

Class LruLaws (V : Type) `{!LruCache V} := {
  lru_peek_new k n : lru_peek k (lru_new (V:=V) n) = None;
  lru_peek_put k v (l : lru V) : lru_peek k (lru_put k v l) = Some v;
  lru_peek_put_ne k k' v (l : lru V) :
    k ≠ k' → lru_peek k' (lru_put k v l) = lru_peek k' l ∨ lru_peek k' (lru_put k v l) = None;
  lru_pop_peek k (l : lru V) : (lru_pop k l).1 = lru_peek k l;
  lru_peek_pop k (l : lru V) : lru_peek k (lru_pop k l).2 = None;
  lru_peek_pop_ne k k' (l : lru V) : k ≠ k' → lru_peek k' (lru_pop k l).2 = lru_peek k' l
}.

(** ** storage/cache.rs *)

Section cache.
Context `{!LruCache SessionHeadDTO}.

Record SubRoutineCache := {
  l1_visible : gmap string SessionHeadDTO;
  l2_lru : lru SessionHeadDTO
}.

Definition SubRoutineCache_new (l2_capacity : nat) : SubRoutineCache :=
  {| l1_visible := ∅; l2_lru := lru_new l2_capacity |}.

Definition cache_get (id : string) (c : SubRoutineCache) : option SessionHeadDTO :=
  match l1_visible c !! id with
  | Some d => Some d
  | None => lru_peek id (l2_lru c)
  end.

Definition promote_to_l1 (id : string) (c : SubRoutineCache) :
    option SessionHeadDTO * SubRoutineCache :=
  match lru_pop id (l2_lru c) with
  | (Some d, l) => (l1_visible c !! id, {| l1_visible := <[id := d]> (l1_visible c); l2_lru := l |})
  | (None, l) => (None, {| l1_visible := l1_visible c; l2_lru := l |})
  end.

Definition demote_to_l2 (id : string) (c : SubRoutineCache) : SubRoutineCache :=
  match l1_visible c !! id with
  | Some d => {| l1_visible := delete id (l1_visible c); l2_lru := lru_put id d (l2_lru c) |}
  | None => c
  end.

Definition cache_insert (id : string) (d : SessionHeadDTO) (c : SubRoutineCache) : SubRoutineCache :=
  {| l1_visible := l1_visible c; l2_lru := lru_put id d (l2_lru c) |}.

Definition cache_contains (id : string) (c : SubRoutineCache) : bool :=
  match l1_visible c !! id with
  | Some _ => true
  | None => match lru_peek id (l2_lru c) with Some _ => true | None => false end
  end.

(** [or_else] pops the second tier only when the first holds nothing. *)
Definition cache_remove (id : string) (c : SubRoutineCache) :
    option SessionHeadDTO * SubRoutineCache :=
  match l1_visible c !! id with
  | Some d => (Some d, {| l1_visible := delete id (l1_visible c); l2_lru := l2_lru c |})
  | None => let '(r, l) := lru_pop id (l2_lru c) in
            (r, {| l1_visible := l1_visible c; l2_lru := l |})
  end.

Definition l1_len (c : SubRoutineCache) : nat := size (l1_visible c).
Definition l2_len (c : SubRoutineCache) : nat := lru_len (l2_lru c).

(** ** storage/load.rs *)

Context `{!PersistCodec}.

Definition load_subroutine (st : RedbStorage) (handle : string) (c : SubRoutineCache) :
    result (option SessionHeadDTO) PersistenceError * SubRoutineCache :=
  match cache_get handle c with
  | Some d => (Ok (Some d), c)
  | None =>
      match load_session handle st with
      | Ok (Some d) => (Ok (Some d), cache_insert handle d c)
      | r => (r, c)
      end
  end.

(** The loop of [LazySessionLoader::load]; [?] leaves what was cached so far. *)
Fixpoint prefetch (st : RedbStorage) (states : list FlattenedAgentState) (c : SubRoutineCache) :
    result unit PersistenceError * SubRoutineCache :=
  match states with
  | [] => (Ok tt, c)
  | FlattenedAgentState.SubRoutine child_id :: states' =>
      if cache_contains child_id c then prefetch st states' c
      else match load_session child_id st with
           | Ok (Some child) => prefetch st states' (cache_insert child_id child c)
           | Ok None => prefetch st states' c
           | Err e => (Err e, c)
           end
  | _ :: states' => prefetch st states' c
  end.

Definition lazy_load (st : RedbStorage) (sid : string) (c : SubRoutineCache) :
    result (option (SessionHeadDTO * list ChatMessage)) PersistenceError * SubRoutineCache :=
  match load_session_full sid st with
  | Err e => (Err e, c)
  | Ok None => (Ok None, c)
  | Ok (Some (head, messages)) =>
      match prefetch st (head_state head :: head_state_stack head) c with
      | (Ok _, c') => (Ok (Some (head, messages)), c')
      | (Err e, c') => (Err e, c')
      end
  end.
End cache.
Arguments SubRoutineCache {_}.

(** ** A list implementation: most recently used first *)

Module ListLru.
Section list_lru.
Context {V : Type}.

Record list_lru := { capacity : nat; items : list (string * V) }.

Fixpoint assoc (k : string) (l : list (string * V)) : option V :=
  match l with
  | [] => None
  | (k', v) :: l' => if decide (k' = k) then Some v else assoc k l'
  end.

Definition without (k : string) (l : list (string * V)) : list (string * V) :=
  filter (λ p : string * V, p.1 ≠ k) l.

#[global] Instance ListLru : LruCache V := {
  lru := list_lru;
  lru_new n := {| capacity := n; items := [] |};
  lru_peek k l := assoc k (items l);
  lru_pop k l := (assoc k (items l), {| capacity := capacity l; items := without k (items l) |});
  lru_put k v l := {| capacity := capacity l;
                      items := (k, v) :: take (pred (capacity l)) (without k (items l)) |};
  lru_len l := length (items l)
}.

Lemma assoc_without k l : assoc k (without k l) = None.
Proof.
  induction l as [|[k' v] l IH]; [done|]. unfold without. rewrite filter_cons. cbn.
  destruct (decide (k' ≠ k)); cbn; [by rewrite decide_False|done].
Qed.

Lemma assoc_without_ne k k' l : k ≠ k' → assoc k' (without k l) = assoc k' l.
Proof.
  intros Hk. induction l as [|[k2 v] l IH]; [done|]. unfold without. rewrite filter_cons. cbn.
  destruct (decide (k2 ≠ k)) as [|Hn]; cbn; [by rewrite <- IH|].
  apply dec_stable in Hn as ->. by rewrite decide_False.
Qed.

Lemma assoc_take k n l : assoc k (take n l) = assoc k l ∨ assoc k (take n l) = None.
Proof.
  revert n. induction l as [|[k' v] l IH]; intros [|n]; cbn; try by auto.
  destruct (decide (k' = k)); auto.
Qed.

#[global] Instance ListLru_laws : LruLaws V.
Proof.
  split; cbn.
  - done.
  - intros k v l. by rewrite decide_True.
  - intros k k' v l Hk. rewrite decide_False by done. destruct (assoc_take k' (pred (capacity l))
      (without k (items l))) as [->| ->]; [left; by apply assoc_without_ne|by right].
  - done.
  - intros k l. apply assoc_without.
  - intros k k' l. apply assoc_without_ne.
Qed.
End list_lru.
Arguments list_lru : clear implicits.
End ListLru.
