(* ===== verification/Engine.v ===== *)
(** * The engine's state (brioche-core/src/engine.rs)

    [BriocheEngine] with its three components, and the state threaded through one
    transition: engine, session and effect buffer. *)
From S2P Require Import Prelude Utf8 Types Effects Extension Session Plugins Router.

(** The extension types the kernel itself stores.  They are distinct Rust types,
    hence distinct [TypeId]s; defaults and strategies are those of their
    [#[derive(Default)]] and [#[brioche(..)]] attributes. *)
Class KernelTypes (U : AnyUniverse) := {
  kt_snapshot :: BriocheExtensionType SessionSnapshot;
  kt_epoch :: BriocheExtensionType EpochState;
  kt_accumulator :: BriocheExtensionType StreamToolAccumulator;
  kt_trace_log :: BriocheExtensionType TransitionTraceLog;
  kt_superseded_log :: BriocheExtensionType SupersededTransitionTraceLog;
  kt_rollback_log :: BriocheExtensionType RollbackEventLog;
  kt_distinct : NoDup [TypeId_of SessionSnapshot; TypeId_of EpochState;
    TypeId_of StreamToolAccumulator; TypeId_of TransitionTraceLog;
    TypeId_of SupersededTransitionTraceLog; TypeId_of RollbackEventLog];
  kt_epoch_default : default EpochState = {| current_generation := 0%N |};
  kt_accumulator_default : default StreamToolAccumulator = {| pending := ∅ |};
  kt_trace_default : default TransitionTraceLog = {| entries := [] |};
  kt_superseded_default : default SupersededTransitionTraceLog = {| superseded_entries := [] |};
  kt_rollback_default : default RollbackEventLog = {| events := [] |};
  kt_snapshot_strategy : snapshot_strategy SessionSnapshot = SnapshotStrategy.FullClone;
  kt_epoch_strategy : snapshot_strategy EpochState = SnapshotStrategy.CriticalFullClone;
  kt_accumulator_strategy :
    snapshot_strategy StreamToolAccumulator = SnapshotStrategy.NoSnapshot
}.

Record GovernanceKernel {U : AnyUniverse} {P : Type} := {
  epoch_interceptors : list (EpochInterceptorPlugin U P);
  subroutine_handler : option (SubRoutineHandlerPlugin U P);
  subroutine_hydrator : option (SubRoutineHydratorPlugin U P);
  consistency_verifier : option (ConsistencyVerifierPlugin U P);
  decision_aggregator : option (DecisionAggregatorPlugin U P);
  hook_effect_constraint : option HookEffectConstraint;
  cycle_rollback_policy : option P;
  subroutine_lifecycle_guard : option (SubRoutineLifecycleGuardPlugin U P);
  governance_failover_handler : option (GovernanceFailoverHandlerPlugin U P);
  default_tool_timeout_ms : N
}.
Arguments GovernanceKernel U P : clear implicits.

Record RoutineManager {U : AnyUniverse} {P : Type} := {
  subroutines : SessionRegistry U P;
  next_generation_id : N
}.
Arguments RoutineManager U P : clear implicits.

Record BriocheEngine {U : AnyUniverse} {P : Type} := {
  router : PluginRouter U P;
  governance : GovernanceKernel U P;
  routines : RoutineManager U P
}.
Arguments BriocheEngine U P : clear implicits.

Record PreTransitionState := {
  was_subroutine : bool;
  pre_handle : option SubRoutineHandle
}.

Module InputResult.
Inductive InputResult : Type :=
  | Allow
  | Block (detail : ErrorDetail)
  | OverrideTransition (effects : list Effect) (source : PluginSource)
  | Accumulated (effects : list Effect).
End InputResult.
Abbreviation InputResult := InputResult.InputResult.

(** What one transition threads: [&mut self], [&mut Session], [&mut Vec<Effect>]. *)
Record Kernel {U : AnyUniverse} {P : Type} := {
  engine : BriocheEngine U P;
  session : Session U P;
  effects : list Effect
}.
Arguments Kernel U P : clear implicits.

Section engine.
Context {U : AnyUniverse} {P : Type} `{!CycleRollbackPolicy U P}.

Definition RoutineManager_new : RoutineManager U P :=
  {| subroutines := SessionRegistry_new; next_generation_id := 1%N |}.

Definition set_policy (p : option P) (g : GovernanceKernel U P) : GovernanceKernel U P := {|
  epoch_interceptors := epoch_interceptors g;
  subroutine_handler := subroutine_handler g;
  subroutine_hydrator := subroutine_hydrator g;
  consistency_verifier := consistency_verifier g;
  decision_aggregator := decision_aggregator g;
  hook_effect_constraint := hook_effect_constraint g;
  cycle_rollback_policy := p;
  subroutine_lifecycle_guard := subroutine_lifecycle_guard g;
  governance_failover_handler := governance_failover_handler g;
  default_tool_timeout_ms := default_tool_timeout_ms g
|}.

Definition set_router (r : PluginRouter U P) (en : BriocheEngine U P) : BriocheEngine U P :=
  {| router := r; governance := governance en; routines := routines en |}.
Definition set_engine_policy (p : option P) (en : BriocheEngine U P) : BriocheEngine U P :=
  {| router := router en; governance := set_policy p (governance en); routines := routines en |}.
Definition set_routines (r : RoutineManager U P) (en : BriocheEngine U P) : BriocheEngine U P :=
  {| router := router en; governance := governance en; routines := r |}.
Definition set_subroutines (r : SessionRegistry U P) (en : BriocheEngine U P) :
    BriocheEngine U P :=
  set_routines {| subroutines := r; next_generation_id := next_generation_id (routines en) |} en.

(** *** Public accessors *)

Definition create_subroutine (h : SubRoutineHandle) (s : Session U P) (en : BriocheEngine U P) :
    BriocheEngine U P :=
  set_subroutines (registry_insert h s (subroutines (routines en))) en.

Definition remove_subroutine (h : SubRoutineHandle) (en : BriocheEngine U P) :
    option (Session U P) * BriocheEngine U P :=
  let '(s, r) := registry_remove h (subroutines (routines en)) in (s, set_subroutines r en).

Definition rebuild_routes (active_mask : list bool) (en : BriocheEngine U P) : BriocheEngine U P :=
  set_router (rebuild_routes_by_mask active_mask (router en)) en.

(** *** Kernel steps *)

Definition push_effect (e : Effect) : State (Kernel U P) unit :=
  modify (λ k, {| engine := engine k; session := session k; effects := effects k ++ [e] |}).
Definition extend_effects (es : list Effect) : State (Kernel U P) unit :=
  modify (λ k, {| engine := engine k; session := session k; effects := effects k ++ es |}).
Definition map_effects (f : list Effect → list Effect) : State (Kernel U P) unit :=
  modify (λ k, {| engine := engine k; session := session k; effects := f (effects k) |}).

(** Run a session method inside the kernel. *)
Definition on_session {A} (m : State (Session U P) A) : State (Kernel U P) A :=
  λ k, let '(a, s) := m (session k) in
       (a, {| engine := engine k; session := s; effects := effects k |}).
Definition modify_session (f : Session U P → Session U P) : State (Kernel U P) unit :=
  on_session (modify f).

(** Run a storage method on [session.extensions]. *)
Definition on_ext {A} (m : State (ExtensionStorage U P) A) : State (Session U P) A :=
  λ s, let '(a, e) := m (extensions s) in (a, set_extensions e s).

Definition modify_engine (f : BriocheEngine U P → BriocheEngine U P) : State (Kernel U P) unit :=
  modify (λ k, {| engine := f (engine k); session := session k; effects := effects k |}).

Definition plugin_fault (plugin_name : string) (error : PluginError) : Effect :=
  Effect.PluginFault {| source_name := plugin_name |} error.

Definition capture_pre_transition_state (s : Session U P) : PreTransitionState :=
  match state s with
  | AgentState.SubRoutine h => {| was_subroutine := true; pre_handle := Some h |}
  | _ => {| was_subroutine := false; pre_handle := None |}
  end.

(** Effects that follow from the state the dispatch ends in. *)
Definition append_state_effects : State (Kernel U P) unit :=
  push_effect Effect.SaveSession ;;!
  s <-! gets session ;;
  match state s with
  | AgentState.Predicting _ => push_effect Effect.CallLlmNetwork
  | AgentState.ExecutingTools _ => push_effect (Effect.ExecuteTools (active_tools s))
  | AgentState.Idle => push_effect Effect.SystemIdle
  | AgentState.SubRoutine _ | AgentState.Failure => ret tt
  end.

(** [rposition]: the last [RebuildRoutes], if any. *)
Definition last_rebuild (es : list Effect) : option nat :=
  foldl (λ acc p, if is_rebuild p.2 then Some p.1 else acc) None (imap pair es).

Definition ensure_rebuildroutes_last (es : list Effect) : list Effect :=
  match last_rebuild es with
  | None => es
  | Some pos =>
      let dropped := length es - (pos + 1) in
      if decide (dropped = 0) then es
      else
        take (pos + 2)
          (take pos es
           ++ Effect.Error ErrorCode.StateInconsistency
                (ErrorDetail.EffectsDroppedAfterRebuildRoutes (N.of_nat dropped))
           :: drop pos es)
  end.

Definition validate_hook_effects (g : GovernanceKernel U P) (hook_index : N) (hook_name : string)
    (es : list Effect) : list Effect :=
  match hook_effect_constraint g with
  | None => es
  | Some constraint =>
      map (λ effect,
        if always_allowed effect then effect
        else if is_allowed_fast constraint hook_index (effect_to_bitmask effect) then effect
        else
          let variant := effect_variant_debug effect in
          if is_allowed_fallback constraint hook_name variant then effect
          else Effect.Error ErrorCode.StateInconsistency
                 (ErrorDetail.EffectNotAllowed hook_name variant)) es
  end.
End engine.
