(* ===== verification/GovTypes.v ===== *)
(** * State kept by the default governance (brioche-core/src/types/runtime.rs,
    brioche-governance-default/src/)

    The signals the shell injects, the extension types the default guards and
    plugins own, and the class that says they are types of the universe. *)
From S2P Require Import Prelude Utf8 Types Effects Extension Session Plugins Router Engine.

(** ** types/runtime.rs: separate channels *)

Module SystemSignal.
Inductive SystemSignal : Type :=
  | NetworkUnavailable (reason : string)
  | OperationCancelled
  | Tick (elapsed_ms : N)
  | EngineUnresponsive (procedure : string).
End SystemSignal.
Abbreviation SystemSignal := SystemSignal.SystemSignal.

Module ToolStatus.
Inductive ToolStatus : Type :=
  | Running
  | Completed (outcome : ToolOutcome).
End ToolStatus.
Abbreviation ToolStatus := ToolStatus.ToolStatus.

Module AsyncTaskResult.
Inductive AsyncTaskResult : Type :=
  | SummarizationDone (summary : ChatMessage) (watermark : N)
  | CpuTaskDone (task_id : string) (task_result : bytes)
  | ToolStatusCheck (task_id : string) (status : ToolStatus).
End AsyncTaskResult.
Abbreviation AsyncTaskResult := AsyncTaskResult.AsyncTaskResult.

Module GovernanceNotification.
Inductive GovernanceNotification : Type :=
  | PluginFaulted (plugin_name : string) (error : PluginError).
End GovernanceNotification.
Abbreviation GovernanceNotification := GovernanceNotification.GovernanceNotification.

Record SignalBuffer := {
  system_signals : list SystemSignal;
  governance_notifications : list GovernanceNotification;
  async_task_results : list AsyncTaskResult
}.

(** ** input_guards.rs *)

Record DepthState := { current_depth : N }.

(** The [BTreeMap] from tool id to accumulated text. *)
Record JsonArgumentAccumulatorState := {
  accumulated_args : gmap string string;
  total_fragments : N
}.

(** ** error_safety.rs *)

Record PluginFaultKey := { faulted_plugin : string; error_kind : string }.

#[global] Instance PluginFaultKey_eq_dec : EqDecision PluginFaultKey.
Proof. solve_decision. Defined.
#[global] Instance PluginFaultKey_countable : Countable PluginFaultKey.
Proof.
  apply (inj_countable' (λ k, (faulted_plugin k, error_kind k))
    (λ p, {| faulted_plugin := p.1; error_kind := p.2 |})). by intros [].
Defined.

Record QuarantineState := {
  quarantined : gset string;
  fault_counts : gmap PluginFaultKey N
}.

Record RecoveryState := {
  consecutive_recoveries : N;
  last_error : option string;
  inputs_blocked : N
}.

(** ** subroutines.rs, timeouts.rs *)

(** Keyed by the handle's id. *)
Record SubRoutineExitState := { exit_counts : gmap string N }.

(** Per handle, the tick it started at and its limit. *)
Record SubRoutineTimerState := {
  last_tick_ms : N;
  timers : gmap string (N * N)
}.

(** ** negotiation_broker.rs, tree_decision_aggregator.rs *)

Record NegotiationState := {
  current_phase : N;
  phase_decisions : list PolicyDecision;
  settled : bool
}.

Module DecisionCondition.
Inductive DecisionCondition : Type :=
  | AnyBlock
  | AnyOverride
  | AllAllow
  | CountExceeds (n : N).
End DecisionCondition.
Abbreviation DecisionCondition := DecisionCondition.DecisionCondition.

Module DecisionNode.
Inductive DecisionNode : Type :=
  | Leaf (decision : PolicyDecision)
  | Branch (condition : DecisionCondition) (if_true if_false : DecisionNode).
End DecisionNode.
Abbreviation DecisionNode := DecisionNode.DecisionNode.

Record DecisionTreeState := {
  root : option DecisionNode;
  evaluation_count : N
}.

(** ** tool_pipeline.rs *)

Record ToolResultFormatterState := { formatted_count : N }.

Record ToolExecutionTelemetry := {
  completed_count : N;
  failed_count : N;
  total_duration_ms : N;
  start_timestamps : gmap string N;
  total_calls : N
}.

(** ** The types of the universe

    Defaults are those of [#[derive(Default)]]; the [TypeId]s are distinct from
    each other and from the kernel's. *)

Class GovernanceTypes (U : AnyUniverse) `{!KernelTypes U} := {
  gt_signals :: BriocheExtensionType SignalBuffer;
  gt_depth :: BriocheExtensionType DepthState;
  gt_json :: BriocheExtensionType JsonArgumentAccumulatorState;
  gt_quarantine :: BriocheExtensionType QuarantineState;
  gt_recovery :: BriocheExtensionType RecoveryState;
  gt_exit :: BriocheExtensionType SubRoutineExitState;
  gt_timer :: BriocheExtensionType SubRoutineTimerState;
  gt_negotiation :: BriocheExtensionType NegotiationState;
  gt_tree :: BriocheExtensionType DecisionTreeState;
  gt_formatter :: BriocheExtensionType ToolResultFormatterState;
  gt_telemetry :: BriocheExtensionType ToolExecutionTelemetry;
  gt_distinct : NoDup [TypeId_of SessionSnapshot; TypeId_of EpochState;
    TypeId_of SignalBuffer; TypeId_of DepthState; TypeId_of JsonArgumentAccumulatorState;
    TypeId_of QuarantineState; TypeId_of RecoveryState; TypeId_of SubRoutineExitState;
    TypeId_of SubRoutineTimerState; TypeId_of NegotiationState; TypeId_of DecisionTreeState;
    TypeId_of ToolResultFormatterState; TypeId_of ToolExecutionTelemetry];
  gt_negotiation_default : default NegotiationState =
    {| current_phase := 0%N; phase_decisions := []; settled := false |};
  gt_tree_default : default DecisionTreeState = {| root := None; evaluation_count := 0%N |};
  gt_quarantine_default : default QuarantineState = {| quarantined := ∅; fault_counts := ∅ |};
  gt_recovery_default : default RecoveryState =
    {| consecutive_recoveries := 0%N; last_error := None; inputs_blocked := 0%N |}
}.
