(* ===== verification/Signals.v ===== *)
(** * Signal channels between the shell and the engine thread
      (brioche-shell-runtime/src/signal_adapter.rs, unified_event_bus.rs)

    A tokio channel is the list of the values in it, oldest first.  The unified
    bus runs next to a producer task; its phases are the points between which
    other tasks run. *)
From S2P Require Import Prelude Utf8 Types Effects Extension Session Plugins Router Engine GovTypes.

#[global] Instance SystemSignal_eq_dec : EqDecision SystemSignal.
Proof. solve_decision. Defined.
#[global] Instance GovernanceNotification_eq_dec : EqDecision GovernanceNotification.
Proof. solve_decision. Defined.
#[global] Instance ToolStatus_eq_dec : EqDecision ToolStatus.
Proof. solve_decision. Defined.
#[global] Instance AsyncTaskResult_eq_dec : EqDecision AsyncTaskResult.
Proof. solve_decision. Defined.

(** brioche-core/src/types/runtime.rs: the same three vectors as [SignalBuffer]. *)
Record SignalDrainBatch := {
  batch_signals : list SystemSignal;
  batch_notifications : list GovernanceNotification;
  batch_results : list AsyncTaskResult
}.

Definition empty_batch : SignalDrainBatch :=
  {| batch_signals := []; batch_notifications := []; batch_results := [] |}.

Definition batch_to_buffer (b : SignalDrainBatch) : SignalBuffer :=
  {| system_signals := batch_signals b;
     governance_notifications := batch_notifications b;
     async_task_results := batch_results b |}.

(** The three receivers. *)
Record Sources := {
  system_rx : list SystemSignal;
  governance_rx : list GovernanceNotification;
  async_rx : list AsyncTaskResult
}.

Definition Sources_new : Sources := {| system_rx := []; governance_rx := []; async_rx := [] |}.

(** The loop over [try_recv] shared by the adapters and the multiplexer: it takes
    everything, in order, and leaves the channel empty. *)
Fixpoint try_recv_all {A} (drained rx : list A) : list A * list A :=
  match rx with
  | [] => (drained, [])
  | x :: rx' => try_recv_all (drained ++ [x]) rx'
  end.

(** ** signal_adapter.rs: the adapters

    The three adapters differ only in what they carry.  A bounded channel whose capacity is
    positive ([mpsc::channel] panics on zero): what is queued, and whether the receiver is
    still there. *)
Record AdapterChannel (A : Type) := { adapter_capacity : nat; adapter_queue : list A; receiver_alive : bool }.
Arguments adapter_capacity {A}.
Arguments adapter_queue {A}.
Arguments receiver_alive {A}.

Definition SystemSignalAdapter : Type := AdapterChannel SystemSignal.
Definition AsyncTaskResultAdapter : Type := AdapterChannel AsyncTaskResult.
Definition GovernanceNotificationAdapter : Type := AdapterChannel GovernanceNotification.

Definition adapter_new {A} (n : nat) : AdapterChannel A := {| adapter_capacity := n; adapter_queue := []; receiver_alive := true |}.
Definition SystemSignalAdapter_new : nat → SystemSignalAdapter := adapter_new.
Definition AsyncTaskResultAdapter_new : nat → AsyncTaskResultAdapter := adapter_new.
Definition GovernanceNotificationAdapter_new : nat → GovernanceNotificationAdapter := adapter_new.

Definition set_queued {A} (q : list A) (c : AdapterChannel A) : AdapterChannel A :=
  {| adapter_capacity := adapter_capacity c; adapter_queue := q; receiver_alive := receiver_alive c |}.

Inductive TrySendError (A : Type) : Type := FullChannel (x : A) | ClosedChannel (x : A).
Arguments FullChannel {A}.
Arguments ClosedChannel {A}.

Definition try_send {A} (x : A) (c : AdapterChannel A) : result unit (TrySendError A) * AdapterChannel A :=
  if negb (receiver_alive c) then (Err (ClosedChannel x), c)
  else if length (adapter_queue c) <? adapter_capacity c then (Ok tt, set_queued (adapter_queue c ++ [x]) c)
  else (Err (FullChannel x), c).

(** [send]: it waits while the channel is full, and gives the value back when the receiver is
    gone. *)
Definition adapter_send {A} (x : A) (c : AdapterChannel A) : option (result unit A * AdapterChannel A) :=
  match try_send x c with
  | (Ok _, c) => Some (Ok tt, c)
  | (Err (ClosedChannel x), c) => Some (Err x, c)
  | (Err (FullChannel _), _) => None
  end.

Definition adapter_drain {A} (c : AdapterChannel A) : list A * AdapterChannel A :=
  let '(drained, rx) := try_recv_all [] (adapter_queue c) in (drained, set_queued rx c).

Definition SystemSignalAdapter_send : SystemSignal → SystemSignalAdapter →
    option (result unit SystemSignal * SystemSignalAdapter) := adapter_send.
Definition SystemSignalAdapter_try_send : SystemSignal → SystemSignalAdapter →
    result unit (TrySendError SystemSignal) * SystemSignalAdapter := try_send.
Definition SystemSignalAdapter_drain : SystemSignalAdapter → list SystemSignal * SystemSignalAdapter :=
  adapter_drain.
Definition AsyncTaskResultAdapter_send : AsyncTaskResult → AsyncTaskResultAdapter →
    option (result unit AsyncTaskResult * AsyncTaskResultAdapter) := adapter_send.
Definition AsyncTaskResultAdapter_try_send : AsyncTaskResult → AsyncTaskResultAdapter →
    result unit (TrySendError AsyncTaskResult) * AsyncTaskResultAdapter := try_send.
Definition AsyncTaskResultAdapter_drain : AsyncTaskResultAdapter →
    list AsyncTaskResult * AsyncTaskResultAdapter := adapter_drain.
Definition GovernanceNotificationAdapter_send : GovernanceNotification → GovernanceNotificationAdapter →
    option (result unit GovernanceNotification * GovernanceNotificationAdapter) := adapter_send.
Definition GovernanceNotificationAdapter_try_send : GovernanceNotification → GovernanceNotificationAdapter →
    result unit (TrySendError GovernanceNotification) * GovernanceNotificationAdapter := try_send.
Definition GovernanceNotificationAdapter_drain : GovernanceNotificationAdapter →
    list GovernanceNotification * GovernanceNotificationAdapter := adapter_drain.

Definition drop_receiver {A} (c : AdapterChannel A) : AdapterChannel A :=
  {| adapter_capacity := adapter_capacity c; adapter_queue := []; receiver_alive := false |}.

(** ** signal_adapter.rs: [SignalMultiplexer] *)

Definition SignalMultiplexer_drain (s : Sources) : SignalDrainBatch * Sources :=
  let '(signals, rx1) := try_recv_all [] (system_rx s) in
  let '(notifications, rx2) := try_recv_all [] (governance_rx s) in
  let '(results, rx3) := try_recv_all [] (async_rx s) in
  ({| batch_signals := signals; batch_notifications := notifications; batch_results := results |},
   {| system_rx := rx1; governance_rx := rx2; async_rx := rx3 |}).

(** ** unified_event_bus.rs *)

Module EngineEnvelope.
Inductive EngineEnvelope : Type :=
  | Input (input : EngineInput)
  | Signal (signal : SystemSignal)
  | TaskResult (r : AsyncTaskResult)
  | Governance (notification : GovernanceNotification).
End EngineEnvelope.
Abbreviation EngineEnvelope := EngineEnvelope.EngineEnvelope.

Definition ENVELOPE_CAPACITY : nat := 256.

(** The producer: about to lock the receivers, waiting with them locked, or
    holding a batch that is not in the channel yet. *)
Inductive ProducerPhase : Type :=
  | Locking
  | Waiting
  | Sending (batch : list EngineEnvelope).

Record UnifiedEventBus := {
  envelope_rx : list (list EngineEnvelope);
  sources : Sources;
  phase : ProducerPhase
}.

Definition UnifiedEventBus_new : UnifiedEventBus :=
  {| envelope_rx := []; sources := Sources_new; phase := Locking |}.

Definition rest_of_batch (s : Sources) : list EngineEnvelope :=
  (EngineEnvelope.Signal <$> (try_recv_all [] (system_rx s)).1)
    ++ (EngineEnvelope.Governance <$> (try_recv_all [] (governance_rx s)).1)
    ++ (EngineEnvelope.TaskResult <$> (try_recv_all [] (async_rx s)).1).

(** [tokio::select!] takes the head of any channel that has one. *)
Inductive select_first (s : Sources) : EngineEnvelope → Sources → Prop :=
  | select_signal x rx : system_rx s = x :: rx →
      select_first s (EngineEnvelope.Signal x)
        {| system_rx := rx; governance_rx := governance_rx s; async_rx := async_rx s |}
  | select_governance x rx : governance_rx s = x :: rx →
      select_first s (EngineEnvelope.Governance x)
        {| system_rx := system_rx s; governance_rx := rx; async_rx := async_rx s |}
  | select_result x rx : async_rx s = x :: rx →
      select_first s (EngineEnvelope.TaskResult x)
        {| system_rx := system_rx s; governance_rx := governance_rx s; async_rx := rx |}.

Inductive producer_step : UnifiedEventBus → UnifiedEventBus → Prop :=
  | producer_locks b : phase b = Locking →
      producer_step b {| envelope_rx := envelope_rx b; sources := sources b; phase := Waiting |}
  | producer_batches b first s' : phase b = Waiting → select_first (sources b) first s' →
      producer_step b {| envelope_rx := envelope_rx b; sources := Sources_new;
                         phase := Sending (first :: rest_of_batch s') |}
  | producer_sends b batch : phase b = Sending batch →
      length (envelope_rx b) < ENVELOPE_CAPACITY →
      producer_step b {| envelope_rx := envelope_rx b ++ [batch]; sources := sources b;
                         phase := Locking |}.

(** The three vectors, filled from the envelopes in order. *)
Definition push_envelope (b : SignalDrainBatch) (e : EngineEnvelope) : SignalDrainBatch :=
  match e with
  | EngineEnvelope.Signal x =>
      {| batch_signals := batch_signals b ++ [x]; batch_notifications := batch_notifications b;
         batch_results := batch_results b |}
  | EngineEnvelope.Governance x =>
      {| batch_signals := batch_signals b; batch_notifications := batch_notifications b ++ [x];
         batch_results := batch_results b |}
  | EngineEnvelope.TaskResult x =>
      {| batch_signals := batch_signals b; batch_notifications := batch_notifications b;
         batch_results := batch_results b ++ [x] |}
  | EngineEnvelope.Input _ => b
  end.

(** [drain]: the receivers are locked while the producer waits, so [try_lock]
    fails then; otherwise they are drained directly when the channel is empty. *)
Definition UnifiedEventBus_drain (b : UnifiedEventBus) : SignalDrainBatch * UnifiedEventBus :=
  match envelope_rx b with
  | [] =>
      match phase b with
      | Waiting => (empty_batch, b)
      | _ =>
          let '(batch, s) := SignalMultiplexer_drain (sources b) in
          (batch, {| envelope_rx := []; sources := s; phase := phase b |})
      end
  | batches =>
      (foldl push_envelope empty_batch (concat batches),
       {| envelope_rx := []; sources := sources b; phase := phase b |})
  end.
