(* ===== verification/Trace.v ===== *)
(** * Tool-call accumulation, sealing and trace logs (brioche-core/src/engine/trace.rs) *)
From S2P Require Import Prelude Utf8 Types Effects Extension Session Plugins Router Engine.

Section trace.
Context {U : AnyUniverse} {P : Type} `{!CycleRollbackPolicy U P, !KernelTypes U}.
Let Ext := ExtensionStorage U P.

(** ** ToolCallAccumulator *)

Definition started (id tname : string) : ToolCallDescriptor :=
  {| tool_id := id; tool_name := tname; arguments := ""; timeout_ms := None |}.

Definition append_argument (text : string) (d : ToolCallDescriptor) : ToolCallDescriptor :=
  {| tool_id := tool_id d; tool_name := tool_name d;
     arguments := arguments d +:+ text; timeout_ms := timeout_ms d |}.

Definition on_start (id tname : string) : Ext → Ext :=
  update_ext (λ acc : StreamToolAccumulator,
    {| pending := <[id := started id tname]> (pending acc) |}).

Definition on_argument_chunk (id : string) (chunk : bytes) : Ext → Ext :=
  update_ext (λ acc : StreamToolAccumulator,
    match pending acc !! id with
    | Some descriptor =>
        {| pending := <[id := append_argument (from_utf8_lossy chunk) descriptor]> (pending acc) |}
    | None => acc
    end).

(** [std::mem::take(&mut acc.pending).into_values().collect()] *)
Definition drain (e : Ext) : list ToolCallDescriptor * Ext :=
  let '(acc, e) := get_or_insert_default StreamToolAccumulator e in
  (btree_values (pending acc), write_ext {| pending := ∅ |} e).

(** ** Sealing *)

Definition seal_tool_descriptors (descriptors : list ToolCallDescriptor) (default_timeout_ms : N) :
    list ActiveToolCall * option Effect :=
  let missing := existsb (λ d, match timeout_ms d with None => true | Some _ => false end)
                   descriptors in
  let active :=
    map (λ d,
      {| active_tool_id := tool_id d;
         active_tool_name := tool_name d;
         active_arguments := arguments d;
         active_timeout_ms :=
           match timeout_ms d with Some t => t | None => default_timeout_ms end |}) descriptors in
  (active,
   if missing then
     Some (Effect.Error ErrorCode.StateInconsistency
             (ErrorDetail.MissingToolTimeout default_timeout_ms))
   else None).

Definition materialize_tool_calls (g : GovernanceKernel U P)
    (descriptors : list ToolCallDescriptor) : list ActiveToolCall * option Effect :=
  seal_tool_descriptors descriptors (default_tool_timeout_ms g).

(** ** Trace logging *)

Definition log_override_transition (source : PluginSource) (s : Session U P) : Session U P :=
  let '(ep, e) := get_or_insert_default EpochState (extensions s) in
  set_extensions
    (update_ext (λ log, TransitionTraceLog_push log
       {| source_plugin := source_name source;
          decision := PolicyDecision.OverrideTransition [];
          epoch := current_generation ep |}) e) s.

Definition log_superseded_transition (source : PluginSource) (attempted : PolicyDecision)
    (s : Session U P) : Session U P :=
  let '(ep, e) := get_or_insert_default EpochState (extensions s) in
  set_extensions
    (update_ext (λ log, SupersededTransitionTraceLog_push log
       {| superseded_source_plugin := source_name source;
          attempted_decision := attempted;
          preempted_by := "prior_override_plugin";
          superseded_epoch := current_generation ep |}) e) s.
End trace.
