(* ===== verification/Hooks.v ===== *)
(** * Hook evaluation (brioche-core/src/engine/hooks.rs, transition_support.rs)

    Every hook call is wrapped by [with_rollback].  A route loop runs in the state
    [HookCtx W]: the engine's rollback policy, the session, and the data [W] the
    Rust closures capture by mutable reference. *)
From S2P Require Import Prelude Utf8 Types Effects Extension Session Plugins Router Engine Trace.

Definition HOOK_INDEX_ON_INPUT : N := 0%N.
Definition HOOK_INDEX_BEFORE_PREDICTION : N := 1%N.
Definition HOOK_INDEX_ON_STREAM_EVENT : N := 2%N.
Definition HOOK_INDEX_ON_ERROR : N := 6%N.

Record HookCtx {U : AnyUniverse} {P W : Type} := {
  hc_policy : option P;
  hc_session : Session U P;
  hc_data : W
}.
Arguments HookCtx U P W : clear implicits.

(** What [eval_on_input] accumulates over its route. *)
Record OnInputAcc := {
  accumulated : list Effect;
  override_transition : option (list Effect * PluginSource);
  faults : list (string * PluginError)
}.

Section hooks.
Context {U : AnyUniverse} {P : Type} `{!CycleRollbackPolicy U P, !KernelTypes U}.
Let Ext := ExtensionStorage U P.

(** ** [with_rollback] *)

Definition with_rollback {W R} (hname : string) (f : State (Session U P * W) R) :
    State (HookCtx U P W) R :=
  λ c,
    let policy := begin_hook hname <$> hc_policy c in
    let s := match policy with
             | Some p => set_extensions (attach_rollback_policy p (extensions (hc_session c)))
                           (hc_session c)
             | None => hc_session c
             end in
    let '(r, (s, w)) := f (s, hc_data c) in
    let '(policy, e) := detach_rollback_policy (extensions s) in
    let '(policy, e) :=
      match policy with
      | Some p =>
          let '(p, e) := if is_budget_exceeded p then rollback_hook p e else commit_hook p e in
          (Some p, e)
      | None => (None, e)
      end in
    (r, {| hc_policy := policy; hc_session := set_extensions e s; hc_data := w |}).

(** ** [eval_route] *)

Definition invalid_index (idx : nat) : string * PluginError :=
  ("<invalid_index>",
   PluginError.Fatal "<invalid_index>" ("plugin index " +:+ pretty idx +:+ " out of bounds")).

Fixpoint eval_route {F W R} (plugins : list (Hook F)) (hname : string) (route : list nat)
    (run : F → State (Session U P * W) (PluginResult R)) (on_ok : R → W → W) :
    State (HookCtx U P W) (list (string * PluginError)) :=
  match route with
  | [] => ret []
  | idx :: route' =>
      match plugins !! idx with
      | None =>
          errors <-! eval_route plugins hname route' run on_ok ;;
          ret (invalid_index idx :: errors)
      | Some plugin =>
          r <-! with_rollback hname (run (hook plugin)) ;;
          match r with
          | Ok r =>
              modify (λ c, {| hc_policy := hc_policy c; hc_session := hc_session c;
                              hc_data := on_ok r (hc_data c) |}) ;;!
              eval_route plugins hname route' run on_ok
          | Err err =>
              errors <-! eval_route plugins hname route' run on_ok ;;
              ret ((name plugin, err) :: errors)
          end
      end
  end.

(** A hook that only sees [&mut session.extensions]. *)
Definition run_ext {W R} (m : State Ext R) : State (Session U P * W) R :=
  λ sw, let '(r, s) := on_ext m sw.1 in (r, (s, sw.2)).

(** A hook that also mutates the captured data. *)
Definition run_ext_data {W R} (m : State (Ext * W) R) : State (Session U P * W) R :=
  λ sw, let '(r, (e, w)) := m (extensions sw.1, sw.2) in (r, (set_extensions e sw.1, w)).

(** Run a hook loop on the engine's policy and the current session. *)
Definition run_hooks {W A} (m : State (HookCtx U P W) A) (w : W) : State (Kernel U P) (A * W) :=
  λ k,
    let '(a, c) := m {| hc_policy := cycle_rollback_policy (governance (engine k));
                        hc_session := session k; hc_data := w |} in
    ((a, hc_data c),
     {| engine := set_engine_policy (hc_policy c) (engine k);
        session := hc_session c; effects := effects k |}).

(** ** [eval_on_error] *)

Definition on_error_one (plugin : OnErrorPlugin U P) (error : PluginError) :
    State (HookCtx U P (list Effect)) unit :=
  decision <-! with_rollback "on_error" (run_ext (hook plugin error)) ;;
  modify (λ c, {| hc_policy := hc_policy c; hc_session := hc_session c;
    hc_data := hc_data c ++
      match decision with
      | Ok (PolicyDecision.RequestEffect eff) => [eff]
      | Ok (PolicyDecision.OverrideTransition ov) => ov
      | Ok _ => []
      | Err err => [plugin_fault (name plugin) err]
      end |}).

Definition eval_on_error (fs : list (string * PluginError)) : State (Kernel U P) (list Effect) :=
  en <-! gets engine ;;
  let route := route_on_error (routing_table (router en)) in
  match fs, route with
  | [], _ | _, [] => ret []
  | _, _ =>
      r <-! run_hooks
        (for_each route (λ idx,
           match on_error_plugins (router en) !! idx with
           | None => ret tt
           | Some plugin => for_each fs (λ f, on_error_one plugin f.2)
           end)) [] ;;
      ret (validate_hook_effects (governance en) HOOK_INDEX_ON_ERROR "on_error" r.2)
  end.

(** [let on_error = eval_on_error(..); effects.extend(on_error); push each fault] *)
Definition report_faults (fs : list (string * PluginError)) : State (Kernel U P) unit :=
  on_error_effects <-! eval_on_error fs ;;
  extend_effects on_error_effects ;;!
  extend_effects ((λ f, plugin_fault f.1 f.2) <$> fs).

(** ** [eval_after_prediction], [handle_tool_calls] *)

Definition eval_after_prediction : State (Kernel U P) unit :=
  en <-! gets engine ;;
  r <-! run_hooks (W := unit)
    (eval_route (after_prediction_plugins (router en)) "after_prediction"
       (route_after_prediction (routing_table (router en)))
       (λ h, run_ext h) (λ _ w, w)) tt ;;
  report_faults r.1.

Definition handle_tool_calls (descriptors : list ToolCallDescriptor) :
    State (Kernel U P) (result (list ToolCallDescriptor) BriocheError) :=
  en <-! gets engine ;;
  r <-! run_hooks
    (eval_route (on_tool_calls_plugins (router en)) "on_tool_calls"
       (route_on_tool_calls (routing_table (router en)))
       (λ h, run_ext_data h) (λ _ w, w)) descriptors ;;
  report_faults r.1 ;;!
  ret (Ok r.2).

(** ** [eval_on_input] *)

Definition push_accumulated (es : list Effect) (a : OnInputAcc) : OnInputAcc :=
  {| accumulated := accumulated a ++ es; override_transition := override_transition a;
     faults := faults a |}.
Definition push_fault (f : string * PluginError) (a : OnInputAcc) : OnInputAcc :=
  {| accumulated := accumulated a; override_transition := override_transition a;
     faults := faults a ++ [f] |}.
Definition set_override (o : list Effect * PluginSource) (a : OnInputAcc) : OnInputAcc :=
  {| accumulated := accumulated a; override_transition := Some o; faults := faults a |}.

Definition on_data {W} (f : W → W) : State (HookCtx U P W) unit :=
  modify (λ c, {| hc_policy := hc_policy c; hc_session := hc_session c; hc_data := f (hc_data c) |}).
Definition on_hook_session {W A} (m : State (Session U P) A) : State (HookCtx U P W) A :=
  λ c, let '(a, s) := m (hc_session c) in
       (a, {| hc_policy := hc_policy c; hc_session := s; hc_data := hc_data c |}).

(** One decision of the input route; [Some detail] stops the loop with a block. *)
Definition on_input_decision (pname : string) (decision : PluginResult PolicyDecision) :
    State (HookCtx U P OnInputAcc) (option ErrorDetail) :=
  match decision with
  | Ok PolicyDecision.Allow => ret None
  | Ok (PolicyDecision.Block reason) => ret (Some (ErrorDetail.HookConstraintFailed reason))
  | Ok (PolicyDecision.MutateHistory edits) =>
      r <-! on_hook_session (apply_history_edits edits) ;;
      match r with
      | Ok _ => ret None
      | Err err =>
          on_data (push_accumulated
            [Effect.Error ErrorCode.StateInconsistency
               (ErrorDetail.HookConstraintFailed (BriocheError_to_string err))]) ;;!
          ret None
      end
  | Ok (PolicyDecision.RequestEffect eff) => on_data (push_accumulated [eff]) ;;! ret None
  | Ok (PolicyDecision.OverrideTransition es) =>
      let source := {| source_name := pname |} in
      acc <-! gets hc_data ;;
      match override_transition acc with
      | None => on_data (set_override (es, source)) ;;! ret None
      | Some _ =>
          on_hook_session
            (modify (log_superseded_transition source (PolicyDecision.OverrideTransition es))) ;;!
          ret None
      end
  | Err err => on_data (push_fault (pname, err)) ;;! ret None
  end.

Fixpoint on_input_loop (plugins : list (OnInputPlugin U P)) (input : EngineInput)
    (route : list nat) : State (HookCtx U P OnInputAcc) (option ErrorDetail) :=
  match route with
  | [] => ret None
  | idx :: route' =>
      match plugins !! idx with
      | None =>
          on_data (push_accumulated
            [Effect.Error ErrorCode.StateInconsistency
               (ErrorDetail.StateInconsistent
                  (InconsistencySource.Kernel "hooks::eval_on_input"))]) ;;!
          on_input_loop plugins input route'
      | Some plugin =>
          decision <-! with_rollback "on_input" (run_ext (hook plugin input)) ;;
          blocked <-! on_input_decision (name plugin) decision ;;
          match blocked with
          | Some detail => ret (Some detail)
          | None => on_input_loop plugins input route'
          end
      end
  end.

Definition eval_on_input (input : EngineInput) : State (Kernel U P) InputResult :=
  en <-! gets engine ;;
  r <-! run_hooks
    (on_input_loop (on_input_plugins (router en)) input
       (route_on_input (routing_table (router en))))
    {| accumulated := []; override_transition := None; faults := [] |} ;;
  match r.1 with
  | Some detail => ret (InputResult.Block detail)
  | None =>
      let acc := r.2 in
      on_error_effects <-! eval_on_error (faults acc) ;;
      let es := accumulated acc ++ on_error_effects
                  ++ ((λ f, plugin_fault f.1 f.2) <$> faults acc) in
      ret match override_transition acc with
          | Some (oes, source) => InputResult.OverrideTransition oes source
          | None => match es with
                    | [] => InputResult.Allow
                    | _ => InputResult.Accumulated es
                    end
          end
  end.
End hooks.
