(* ===== verification/Finalize.v ===== *)
(** * Transition finalization (brioche-core/src/engine/finalize.rs) *)
From S2P Require Import Prelude Utf8 Types Effects Extension Session Plugins Router Engine Trace.
From S2P Require Import Hooks.

Section finalize.
Context {U : AnyUniverse} {P : Type} `{!CycleRollbackPolicy U P, !KernelTypes U}.

Definition apply_subroutine_lifecycle_guard (pre : PreTransitionState) : State (Kernel U P) unit :=
  k <-! gets id ;;
  if negb (was_subroutine pre) then ret tt
  else
    match state (session k) with
    | AgentState.SubRoutine _ => ret tt
    | _ =>
        match subroutine_lifecycle_guard (governance (engine k)), pre_handle pre with
        | Some guard, Some handle =>
            r <-! (λ k,
              let '(r, (s, reg)) := guard handle (session k, subroutines (routines (engine k))) in
              (r, {| engine := set_subroutines reg (engine k); session := s;
                     effects := effects k |})) ;;
            match r with
            | Ok guard_effects => extend_effects guard_effects
            | Err err => push_effect (plugin_fault "subroutine_lifecycle_guard" err)
            end
        | _, _ => ret tt
        end
    end.

(** Standard recovery: back to [Idle] with an empty stack and no tools. *)
Definition recover (s : Session U P) : Session U P :=
  set_active_tools [] (set_state AgentState.Idle [] s).

Definition apply_consistency_check : State (Kernel U P) unit :=
  k <-! gets id ;;
  match consistency_verifier (governance (engine k)) with
  | None => ret tt
  | Some verifier =>
      if existsb is_rebuild (effects k) then ret tt
      else
        match verifier (session k) with
        | Ok (Some (PolicyDecision.OverrideTransition verifier_effects)) =>
            modify_session recover ;;! extend_effects verifier_effects
        | Ok (Some (PolicyDecision.RequestEffect effect)) => push_effect effect
        | Ok (Some (PolicyDecision.MutateHistory edits)) =>
            r <-! on_session (apply_history_edits edits) ;;
            match r with
            | Ok _ => ret tt
            | Err err =>
                push_effect (Effect.Error ErrorCode.StateInconsistency
                  (ErrorDetail.HookConstraintFailed (BriocheError_to_string err)))
            end
        | Ok (Some (PolicyDecision.Block reason)) =>
            push_effect (Effect.Error ErrorCode.StateInconsistency
              (ErrorDetail.HookConstraintFailed reason)) ;;!
            push_effect Effect.SystemIdle
        | Ok (Some PolicyDecision.Allow) => ret tt
        | Ok None => ret tt
        | Err err => push_effect (plugin_fault "consistency_verifier" err)
        end
  end.

(** The replacement of one drained effect. *)
Definition failover_effect (handler : GovernanceFailoverHandlerPlugin U P) (effect : Effect) :
    State (Session U P) (list Effect) :=
  if is_fault effect then
    r <-! handler effect ;;
    match r with
    | Ok (Some failover) => ret failover
    | Ok None | Err _ => ret [effect]
    end
  else ret [effect].

Fixpoint failover_all (handler : GovernanceFailoverHandlerPlugin U P) (es : list Effect) :
    State (Session U P) (list Effect) :=
  match es with
  | [] => ret []
  | e :: es' =>
      out <-! failover_effect handler e ;;
      rest <-! failover_all handler es' ;;
      ret (out ++ rest)
  end.

Definition apply_governance_failover : State (Kernel U P) unit :=
  k <-! gets id ;;
  match governance_failover_handler (governance (engine k)) with
  | None => ret tt
  | Some handler =>
      let has_rebuild := existsb is_rebuild (effects k) in
      let has_fault := existsb is_fault (effects k) in
      if (has_rebuild || negb has_fault)%bool then ret tt
      else
        replacement <-! on_session (failover_all handler (effects k)) ;;
        map_effects (λ _, replacement)
  end.

Definition finalize_transition (pre : PreTransitionState) : State (Kernel U P) unit :=
  apply_subroutine_lifecycle_guard pre ;;!
  map_effects ensure_rebuildroutes_last ;;!
  apply_consistency_check ;;!
  apply_governance_failover.
End finalize.
