(* ===== verification/Dispatch.v ===== *)
(** * Input dispatch (brioche-core/src/engine/dispatch.rs) *)
From S2P Require Import Prelude Utf8 Types Effects Extension Session Plugins Router Engine Trace.
From S2P Require Import Hooks.

Section dispatch.
Context {U : AnyUniverse} {P : Type} `{!CycleRollbackPolicy U P, !KernelTypes U}.
Let M := State (Kernel U P).

(** [self.routines.next_generation_id += 1], wrapping in release builds. *)
Definition fresh_generation_id : M N :=
  λ k, let r := routines (engine k) in
       (next_generation_id r,
        {| engine := set_routines {| subroutines := subroutines r;
                                     next_generation_id :=
                                       wrapping_add (next_generation_id r) 1 |} (engine k);
           session := session k; effects := effects k |}).

Definition push_history (m : ChatMessage) : M unit :=
  modify_session (set_history (λ h, h ++ [m])).

(** The decision of the aggregator; [true] when the dispatch goes on to
    [append_state_effects], [false] for an early [return Ok(())]. *)
Definition apply_decision (r : PluginResult PolicyDecision) : M (result bool BriocheError) :=
  k <-! gets id ;;
  let g := governance (engine k) in
  match r with
  | Ok PolicyDecision.Allow => ret (Ok true)
  | Ok (PolicyDecision.Block reason) =>
      push_effect (Effect.Error ErrorCode.StateInconsistency
        (ErrorDetail.HookConstraintFailed reason)) ;;!
      push_effect Effect.SystemIdle ;;!
      ret (Ok false)
  | Ok (PolicyDecision.MutateHistory edits) =>
      _ <-? on_session (apply_history_edits edits) ;;
      ret (Ok true)
  | Ok (PolicyDecision.RequestEffect eff) =>
      extend_effects (validate_hook_effects g HOOK_INDEX_BEFORE_PREDICTION
                        "before_prediction" [eff]) ;;!
      ret (Ok true)
  | Ok (PolicyDecision.OverrideTransition ov) =>
      extend_effects (validate_hook_effects g HOOK_INDEX_BEFORE_PREDICTION
                        "before_prediction" ov) ;;!
      ret (Ok false)
  | Err err => push_effect (plugin_fault "decision_aggregator" err) ;;! ret (Ok true)
  end.

Definition dispatch_user_message (content : string) : M (result unit BriocheError) :=
  push_history (ChatMessage.User content) ;;!
  generation_id <-! fresh_generation_id ;;
  _ <-? on_session (push_state (AgentState.Predicting generation_id)) ;;
  en <-! gets engine ;;
  r <-! run_hooks
    (eval_route (before_prediction_plugins (router en)) "before_prediction"
       (route_before_prediction (routing_table (router en)))
       (λ h sw, run_ext (h (history sw.1)) sw)
       (λ decision decisions, decisions ++ [decision])) [] ;;
  report_faults r.1 ;;!
  match decision_aggregator (governance en) with
  | None => append_state_effects ;;! ret (Ok tt)
  | Some aggregator =>
      d <-! on_session (on_ext (aggregator r.2)) ;;
      continue <-? apply_decision d ;;
      if (continue : bool) then append_state_effects ;;! ret (Ok tt) else ret (Ok tt)
  end.

Definition stream_action_effects (action : StreamAction) : list Effect :=
  match action with
  | StreamAction.Pass | StreamAction.Hold => []
  | StreamAction.OffloadTask task_id payload =>
      [Effect.ExecuteCpuTask {| task_name := task_id |} payload]
  end.

Definition accumulate_stream_event (event : StreamEvent) : Session U P → Session U P :=
  match event with
  | StreamEvent.TextChunk _ chunk =>
      λ s, set_pending_text (pending_assistant_text s +:+ from_utf8_lossy chunk) s
  | StreamEvent.ToolCallStart _ id tname =>
      λ s, set_extensions (on_start id tname (extensions s)) s
  | StreamEvent.ToolArgumentChunk _ id chunk =>
      λ s, set_extensions (on_argument_chunk id chunk (extensions s)) s
  | StreamEvent.ToolCallDone _ | StreamEvent.Done | StreamEvent.Pass => λ s, s
  end.

Definition no_generation : Effect :=
  Effect.Error ErrorCode.StateInconsistency
    (ErrorDetail.StateInconsistent
       (InconsistencySource.Kernel "dispatch::finalize_prediction_with_tools")).

Definition finalize_prediction_with_tools : M (result unit BriocheError) :=
  modify_session persist_assistant_text ;;!
  eval_after_prediction ;;!
  pending <-! on_session (on_ext drain) ;;
  match pending with
  | [] => ret (Ok tt)
  | _ =>
      descriptors <-? handle_tool_calls pending ;;
      k <-! gets id ;;
      let '(active, err_effect) := materialize_tool_calls (governance (engine k)) descriptors in
      extend_effects (option_list err_effect) ;;!
      modify_session (set_active_tools active) ;;!
      match AgentState_generation_id (state (session k)) with
      | None => push_effect no_generation ;;! ret (Ok tt)
      | Some generation_id =>
          _ <-? on_session (push_state (AgentState.ExecutingTools generation_id)) ;;
          append_state_effects ;;!
          ret (Ok tt)
      end
  end.

Definition finalize_prediction_text_only : M (result unit BriocheError) :=
  modify_session persist_assistant_text ;;!
  eval_after_prediction ;;!
  s <-! gets session ;;
  match state s with
  | AgentState.Predicting _ =>
      _ <-? on_session pop_state ;;
      append_state_effects ;;!
      ret (Ok tt)
  | _ => ret (Ok tt)
  end.

Definition dispatch_llm_stream (event : StreamEvent) : M (result unit BriocheError) :=
  k <-! gets id ;;
  match state (session k) with
  | AgentState.Predicting _ =>
      let en := engine k in
      r <-! run_hooks
        (eval_route (on_stream_event_plugins (router en)) "on_stream_event"
           (route_on_stream_event (routing_table (router en)))
           (λ h, run_ext (h event))
           (λ action es, es ++ stream_action_effects action)) [] ;;
      on_error_effects <-! eval_on_error r.1 ;;
      extend_effects on_error_effects ;;!
      extend_effects (validate_hook_effects (governance en) HOOK_INDEX_ON_STREAM_EVENT
                        "on_stream_event" r.2) ;;!
      extend_effects ((λ f, plugin_fault f.1 f.2) <$> r.1) ;;!
      modify_session (accumulate_stream_event event) ;;!
      match event with
      | StreamEvent.ToolCallDone _ => finalize_prediction_with_tools
      | StreamEvent.Done => finalize_prediction_text_only
      | _ => ret (Ok tt)
      end
  | _ => ret (Ok tt)
  end.

Definition tool_result_message (r : ToolResultDTO) : ChatMessage :=
  ChatMessage.ToolResult (result_tool_id r) (tool_outcome_to_string (outcome r)).

Definition dispatch_tool_calls_result (generation_id : N) (results : list ToolResultDTO) :
    M (result unit BriocheError) :=
  _ <-? on_session pop_state ;;
  modify_session (set_active_tools []) ;;!
  en <-! gets engine ;;
  r <-! run_hooks
    (eval_route (on_tool_result_plugins (router en)) "on_tool_result"
       (route_on_tool_result (routing_table (router en)))
       (λ h, run_ext_data h) (λ _ w, w)) results ;;
  report_faults r.1 ;;!
  modify_session (set_history (λ h, h ++ (tool_result_message <$> r.2))) ;;!
  _ <-? on_session (push_state (AgentState.Predicting generation_id)) ;;
  append_state_effects ;;!
  ret (Ok tt).

Definition hydration_failed (h : SubRoutineHandle) (err : BriocheError) : Effect :=
  Effect.Error ErrorCode.StateInconsistency
    (ErrorDetail.TransitionFailed
       ("sub-routine head deserialization failed for " +:+ handle_id h +:+ ": "
          +:+ BriocheError_to_string err)).

Definition dispatch_restore_subroutine (h : SubRoutineHandle) (head_blob : bytes) :
    M (result unit BriocheError) :=
  en <-! gets engine ;;
  child <-!
    match subroutine_hydrator (governance en) with
    | Some hydrator =>
        match hydrator head_blob with
        | Ok s => ret s
        | Err err => push_effect (hydration_failed h err) ;;! ret (Session_new (handle_id h))
        end
    | None => ret (Session_new (handle_id h))
    end ;;
  modify_engine (create_subroutine h child) ;;!
  push_effect (Effect.SubRoutineRestored h) ;;!
  push_effect Effect.SaveSession ;;!
  ret (Ok tt).

Definition dispatch_input (input : EngineInput) : M (result unit BriocheError) :=
  match input with
  | EngineInput.UserMessage content => dispatch_user_message content
  | EngineInput.LlmStream event => dispatch_llm_stream event
  | EngineInput.ToolCallsResult generation_id results =>
      dispatch_tool_calls_result generation_id results
  | EngineInput.RestoreSubRoutine h head_blob => dispatch_restore_subroutine h head_blob
  end.
End dispatch.
