(* ===== verification/Transition.v ===== *)
(** * The transition function (brioche-core/src/engine.rs, engine/transition_support.rs)

    [transition] calls itself on the child of a sub-routine after removing the
    child from the registry.  [transition_fuel] bounds the nesting; Termination.v
    shows that one more unit of fuel than there are registered sub-routines is
    always enough and that [transition] satisfies the recursive equation. *)
From S2P Require Import Prelude Utf8 Types Effects Extension Session Plugins Router Engine Trace.
From S2P Require Import Hooks Finalize Dispatch.

Section transition.
Context {U : AnyUniverse} {P : Type} `{!CycleRollbackPolicy U P, !KernelTypes U}.
Let Outcome : Type := list Effect * BriocheEngine U P * Session U P.
Let Rec : Type := EngineInput → BriocheEngine U P → Session U P → option Outcome.

(** *** Epoch interceptors: in registration order, first block wins *)

Fixpoint intercept_all (interceptors : list (EpochInterceptorPlugin U P)) (input : EngineInput) :
    State (Kernel U P) bool :=
  match interceptors with
  | [] => ret false
  | interceptor :: rest =>
      r <-! on_session (on_ext (interceptor input)) ;;
      match r with
      | Ok (EpochAction.Block reason) =>
          push_effect (Effect.Error ErrorCode.EpochMismatch
            (ErrorDetail.EpochGuardRejected reason)) ;;!
          push_effect Effect.SystemIdle ;;!
          ret true
      | Ok EpochAction.Proceed => intercept_all rest input
      | Err err =>
          push_effect (plugin_fault "epoch_interceptor" err) ;;!
          intercept_all rest input
      end
  end.

Definition apply_epoch_interceptor (input : EngineInput) : State (Kernel U P) bool :=
  k <-! gets id ;;
  intercept_all (epoch_interceptors (governance (engine k))) input.

(** *** The sub-routine handler, around a nested transition of the child *)

Definition is_restore (input : EngineInput) : bool :=
  match input with EngineInput.RestoreSubRoutine _ _ => true | _ => false end.

(** [Some (true, k)]: the handler ended the transition. *)
Definition apply_subroutine_handler (rec : Rec) (input : EngineInput) (k : Kernel U P) :
    option (bool * Kernel U P) :=
  match subroutine_handler (governance (engine k)), state (session k) with
  | Some _, AgentState.SubRoutine handle =>
      if is_restore input then Some (false, k)
      else
        let '(child, en) := remove_subroutine handle (engine k) in
        match child with
        | None => Some (false, k)
        | Some child =>
            match rec input en child with
            | None => None
            | Some (child_effects, en, child) =>
                let '(r, (parent, child)) :=
                  match subroutine_handler (governance en) with
                  | Some handler => handler input (session k, child)
                  | None => (Ok None, (session k, child))
                  end in
                Some (true,
                  {| engine := create_subroutine handle child en;
                     session := parent;
                     effects := effects k ++ child_effects ++
                       match r with
                       | Ok (Some sub_effects) => sub_effects
                       | Ok None => []
                       | Err err => [plugin_fault "subroutine_handler" err]
                       end |})
            end
        end
  | _, _ => Some (false, k)
  end.

Definition transition_failed (reason : string) : Effect :=
  Effect.Error ErrorCode.StateInconsistency (ErrorDetail.TransitionFailed reason).

(** *** After the guards: [on_input], then the dispatch *)

Definition dispatch_phase (input : EngineInput) : State (Kernel U P) unit :=
  r <-! dispatch_input input ;;
  match r with
  | Ok _ => ret tt
  | Err err => push_effect (transition_failed (BriocheError_to_string err))
  end.

Definition input_phase (input : EngineInput) : State (Kernel U P) unit :=
  en <-! gets engine ;;
  ir <-! eval_on_input input ;;
  match ir with
  | InputResult.OverrideTransition ov_effects source =>
      modify_session (log_override_transition source) ;;!
      extend_effects (validate_hook_effects (governance en) HOOK_INDEX_ON_INPUT "on_input" ov_effects)
  | InputResult.Block detail =>
      push_effect (Effect.Error ErrorCode.StateInconsistency detail) ;;!
      push_effect Effect.SystemIdle
  | InputResult.Accumulated acc =>
      extend_effects (validate_hook_effects (governance en) HOOK_INDEX_ON_INPUT "on_input" acc) ;;!
      dispatch_phase input
  | InputResult.Allow => dispatch_phase input
  end.

Definition finish (pre : PreTransitionState) (k : Kernel U P) : Outcome :=
  let k := (finalize_transition pre k).2 in (effects k, engine k, session k).

Definition failure_effects : list Effect :=
  [transition_failed "session is in Failure state"; Effect.SystemIdle].

Definition transition_step (rec : Rec) : Rec :=
  λ input en s,
    match state s with
    | AgentState.Failure => Some (failure_effects, en, s)
    | _ =>
        let pre := capture_pre_transition_state s in
        let '(inserted, k) :=
          on_session (on_ext (insert_ext (snapshot s)))
            {| engine := en; session := s; effects := [] |} in
        match inserted with
        | Err err =>
            Some (finish pre (push_effect (transition_failed (BriocheError_to_string err)) k).2)
        | Ok _ =>
            let '(blocked, k) := apply_epoch_interceptor input k in
            if (blocked : bool) then Some (finish pre k)
            else
              match apply_subroutine_handler rec input k with
              | None => None
              | Some (true, k) => Some (finish pre k)
              | Some (false, k) => Some (finish pre (input_phase input k).2)
              end
        end
    end.

Fixpoint transition_fuel (fuel : nat) : Rec :=
  match fuel with
  | O => λ _ _ _, None
  | S fuel' => transition_step (transition_fuel fuel')
  end.

Definition subroutine_count (en : BriocheEngine U P) : nat :=
  size (sessions (subroutines (routines en))).

Definition transition (input : EngineInput) (en : BriocheEngine U P) (s : Session U P) : Outcome :=
  match transition_fuel (S (subroutine_count en)) input en s with
  | Some r => r
  | None => ([], en, s)
  end.
End transition.
