(* ===== verification/Executor.v ===== *)
(** * Executing effects (brioche-shell-runtime/src/effect_executor.rs, shell.rs,
      network_recovery.rs)

    Tokio tasks are seen through what they exchange with the shell: the time at
    which a tool finishes, the answers of the LLM client, the state of a channel.
    The tools, the client and the persistence layer are parameters. *)
From S2P Require Import Prelude Utf8 Types Effects Extension Session Plugins Router Engine GovTypes.
From S2P Require Import Persistence.

(** ** shell.rs: [StateSnapshot] *)

Record StateSnapshot := {
  state_tag : AgentStateTag;
  snap_generation_id : option N;
  stack_depth : nat;
  snap_session_id : string
}.

Definition StateSnapshot_from_session {U P} (s : Session U P) : StateSnapshot :=
  {| state_tag := AgentStateTag_from (state s);
     snap_generation_id :=
       match state s with
       | AgentState.Predicting g | AgentState.ExecutingTools g => Some g
       | _ => None
       end;
     stack_depth := length (state_stack s);
     snap_session_id := session_id s |}.

(** ** shell.rs: [execute_effect], the routing table of effects *)

Module ExecutorCall.
Inductive ExecutorCall : Type :=
  | CallLlm
  | ExecuteTools (calls : list ActiveToolCall) (generation_id : N)
  | ForwardToUi (widget : UiWidget)
  | LogError (code : ErrorCode) (detail : ErrorDetail)
  | SaveSession (session_id : string)
  | SavePluginBlob (plugin_id : string) (data : bytes)
  | TriggerSummarization
  | ExecuteCpuTask (task_id : string) (payload : bytes)
  | TriggerGc (session_id : string)
  | OnSystemIdle (session_id : string)
  | SendGovernanceNotification (notification : GovernanceNotification)
  | SendRebuildCommand (active_mask : list bool)
  | SubRoutineRestored (handle : SubRoutineHandle).
End ExecutorCall.
Abbreviation ExecutorCall := ExecutorCall.ExecutorCall.

Definition execute_effect (snapshot : StateSnapshot) (effect : Effect) : ExecutorCall :=
  match effect with
  | Effect.CallLlmNetwork => ExecutorCall.CallLlm
  | Effect.ExecuteTools calls =>
      ExecutorCall.ExecuteTools calls
        (match snap_generation_id snapshot with Some g => g | None => 0%N end)
  | Effect.ForwardToUi widget => ExecutorCall.ForwardToUi widget
  | Effect.Error code detail => ExecutorCall.LogError code detail
  | Effect.SaveSession => ExecutorCall.SaveSession (snap_session_id snapshot)
  | Effect.SavePluginBlob p data => ExecutorCall.SavePluginBlob (source_name p) data
  | Effect.TriggerSummarization => ExecutorCall.TriggerSummarization
  | Effect.ExecuteCpuTask t payload => ExecutorCall.ExecuteCpuTask (task_name t) payload
  | Effect.TriggerGc => ExecutorCall.TriggerGc (snap_session_id snapshot)
  | Effect.SystemIdle => ExecutorCall.OnSystemIdle (snap_session_id snapshot)
  | Effect.PluginFault p error =>
      ExecutorCall.SendGovernanceNotification
        (GovernanceNotification.PluginFaulted (source_name p) error)
  | Effect.RebuildRoutes => ExecutorCall.SendRebuildCommand []
  | Effect.SubRoutineRestored h => ExecutorCall.SubRoutineRestored h
  end.

(** ** shell.rs: the doors of the input channel *)

Inductive SendResult : Type :=
  | Sent
  | Blocked
  | Refused (e : ShellError).

(** A bounded channel: [closed] once its receiver is gone. *)
Record InputChannel := { channel_len : nat; channel_capacity : nat; closed : bool }.

Definition channel_send (c : InputChannel) : SendResult :=
  if closed c then Refused ShellError.ChannelSend
  else if decide (channel_len c < channel_capacity c) then Sent else Blocked.

Definition channel_try_send (c : InputChannel) : SendResult :=
  if closed c then Refused ShellError.ChannelSend
  else if decide (channel_len c < channel_capacity c) then Sent else Refused ShellError.ChannelSend.

Definition send_input (shutdown rebuild_in_progress : bool) (c : InputChannel) : SendResult :=
  if shutdown then Refused ShellError.EngineDisconnected
  else if rebuild_in_progress then Refused ShellError.RebuildInProgress
  else channel_send c.

Definition send_terminal_input (shutdown : bool) (c : InputChannel) : SendResult :=
  if shutdown then channel_try_send c else channel_send c.

(** ** shell.rs: [BackpressureRegulator] *)

Inductive DropPolicy : Type := Conservative | Strict.

Inductive RegulatorResult : Type :=
  | Queued
  | Dropped
  | WaitsForCapacity
  | ReceiverDropped.

Definition is_text_chunk (input : EngineInput) : bool :=
  match input with
  | EngineInput.LlmStream (StreamEvent.TextChunk _ _) => true
  | _ => false
  end.

Definition regulator_send (policy : DropPolicy) (c : InputChannel) (input : EngineInput) :
    RegulatorResult :=
  if closed c then ReceiverDropped
  else if decide (channel_len c < channel_capacity c) then Queued
  else match policy with
       | Strict => WaitsForCapacity
       | Conservative => if is_text_chunk input then Dropped else WaitsForCapacity
       end.

(** ** effect_executor.rs: [CpuTaskRegistry] *)

Record CpuTaskRegistry := { handlers : gmap string (bytes → result bytes ShellError) }.

Definition CpuTaskRegistry_new : CpuTaskRegistry := {| handlers := ∅ |}.

Definition cpu_register (task_id : string) (h : bytes → result bytes ShellError)
    (r : CpuTaskRegistry) : CpuTaskRegistry :=
  {| handlers := <[task_id := h]> (handlers r) |}.

Definition cpu_execute (r : CpuTaskRegistry) (task_id : string) (payload : bytes) :
    result bytes ShellError :=
  match handlers r !! task_id with
  | Some handler => handler payload
  | None => Ok payload
  end.

Definition execute_cpu_task (registry : option CpuTaskRegistry) (task_id : string)
    (payload : bytes) : result AsyncTaskResult ShellError :=
  result_bind
    (match registry with Some r => cpu_execute r task_id payload | None => Ok payload end)
    (λ r, Ok (AsyncTaskResult.CpuTaskDone task_id r)).

(** ** effect_executor.rs: [trigger_summarization] *)

Definition KEEP_RECENT : nat := 2.

Definition messages_to_summarize (history : option (list ChatMessage)) : list ChatMessage :=
  match history with
  | Some h => if decide (KEEP_RECENT < length h) then take (length h - KEEP_RECENT) h else []
  | None => []
  end.

Definition trigger_summarization (history : option (list ChatMessage))
    (summarize : list ChatMessage → result ChatMessage ShellError) :
    result (option AsyncTaskResult) ShellError :=
  match messages_to_summarize history with
  | [] => Ok None
  | ms =>
      result_bind (summarize ms) (λ summary,
        Ok (Some (AsyncTaskResult.SummarizationDone summary
                    (N.of_nat (length ms) mod 4294967296)%N)))
  end.

(** ** effect_executor.rs: [execute_tools] *)

(** One spawned tool: when its executor answers (never: [None]) and with what,
    when the shell's token is cancelled, and how the task panics,
    if it does. *)
Record ToolRun := {
  finishes_after : option N;
  run_result : ToolResultDTO;
  cancelled_after : option N;
  panics : option string
}.

Definition no_later (a b : option N) : bool :=
  match a, b with
  | Some x, Some y => (x <=? y)%N
  | Some _, None => true
  | None, Some _ => false
  | None, None => true
  end.

Definition timed_out (call : ActiveToolCall) : ToolResultDTO :=
  {| result_tool_id := active_tool_id call; result_tool_name := active_tool_name call;
     outcome := ToolOutcome.TimeoutWithPartialData None |}.

Definition tool_cancelled (call : ActiveToolCall) : ToolResultDTO :=
  {| result_tool_id := active_tool_id call; result_tool_name := active_tool_name call;
     outcome := ToolOutcome.SystemError "tool execution cancelled" |}.

(** The [biased] select: time-out first, then cancellation, then the result. *)
Definition run_tool (call : ActiveToolCall) (run : ToolRun) : ToolResultDTO * N :=
  let t := Some (active_timeout_ms call) in
  if no_later t (cancelled_after run) && no_later t (finishes_after run)
  then (timed_out call, active_timeout_ms call)
  else if no_later (cancelled_after run) (finishes_after run)
  then (tool_cancelled call,
        match cancelled_after run with Some c => c | None => active_timeout_ms call end)
  else (run_result run,
        match finishes_after run with Some f => f | None => active_timeout_ms call end).

(** The handles are awaited in the order of the calls; a panicked task makes the
    whole effect fail. *)
Fixpoint join_tools (calls : list (ActiveToolCall * ToolRun)) :
    result (list ToolResultDTO) ShellError :=
  match calls with
  | [] => Ok []
  | (call, run) :: calls' =>
      match panics run with
      | Some join_err => Err (ShellError.EffectExecution ("tool task panicked: " +:+ join_err))
      | None => result_bind (join_tools calls') (λ results, Ok ((run_tool call run).1 :: results))
      end
  end.

Definition execute_tools (calls : list (ActiveToolCall * ToolRun)) (generation_id : N) :
    result EngineInput ShellError :=
  result_bind (join_tools calls) (λ results, Ok (EngineInput.ToolCallsResult generation_id results)).

(** When the last of them is joined. *)
Definition tools_done_after (calls : list (ActiveToolCall * ToolRun)) : N :=
  foldr (λ cr t, N.max (run_tool cr.1 cr.2).2 t) 0%N calls.

(** ** network_recovery.rs and [call_llm] *)

Class NetworkRecovery (R : Type) := {
  next_retry : R → N → string → option N;
  max_attempts : R → N
}.

Record NoRetry := { }.

#[global] Instance NoRetry_recovery : NetworkRecovery NoRetry := {
  next_retry _ _ _ := None;
  max_attempts _ := 0%N
}.

(** The delay is floating point and [f64::powi] is not specified bit by bit: it is
    a parameter of the policy. *)
Record ExponentialBackoff := {
  backoff_max_attempts : N;
  delay_ms : N → N
}.

#[global] Instance ExponentialBackoff_recovery : NetworkRecovery ExponentialBackoff := {
  next_retry p attempt _ :=
    if (backoff_max_attempts p <=? attempt)%N then None else Some (delay_ms p attempt);
  max_attempts := backoff_max_attempts
}.

Inductive LlmCall : Type :=
  | Answered
  | NetworkUnavailable (reason : string).

(** [llm n] is the answer to the n-th request; the result counts the requests and
    the time slept, and is [None] when the fuel does not suffice. *)
Fixpoint call_llm_loop {R} `{!NetworkRecovery R} (recovery : option R)
    (llm : N → result unit ShellError) (to_string : ShellError → string)
    (fuel : nat) (attempt : N) : option (LlmCall * N * N) :=
  match fuel with
  | O => None
  | S fuel' =>
      match llm attempt with
      | Ok _ => Some (Answered, 1%N, 0%N)
      | Err err =>
          let error_str := to_string err in
          match recovery with
          | None => Some (NetworkUnavailable error_str, 1%N, 0%N)
          | Some r =>
              match next_retry r attempt error_str with
              | None => Some (NetworkUnavailable error_str, 1%N, 0%N)
              | Some delay =>
                  match call_llm_loop recovery llm to_string fuel' (attempt + 1)%N with
                  | Some (outcome, calls, slept) => Some (outcome, (calls + 1)%N, (slept + delay)%N)
                  | None => None
                  end
              end
          end
      end
  end.

Definition call_llm {R} `{!NetworkRecovery R} (recovery : option R)
    (llm : N → result unit ShellError) (to_string : ShellError → string) (fuel : nat) :
    option (LlmCall * N * N) :=
  call_llm_loop recovery llm to_string fuel 0%N.

Definition ShellError_to_string (e : ShellError) : string :=
  match e with
  | ShellError.EngineDisconnected => "engine thread disconnected"
  | ShellError.ChannelSend => "channel send failed"
  | ShellError.EffectExecution m => "effect execution failed: " +:+ m
  | ShellError.RebuildInProgress => "rebuild routes in progress"
  end.
