(* ===== verification/EngineThread.v ===== *)
(** * The engine thread and its watchdog (brioche-shell-runtime/src/shell.rs,
      [engine_thread_loop]; engine_watchdog.rs)

    One round of the loop is a function of what the thread finds in its channels
    ([Inbox]).  It is cut where a crash of the thread is visible to the watchdog:
    before the transition ([prepare]) and after it ([conclude_round]).  The session
    callback is a parameter with a state of its own type [C]. *)
From S2P Require Import Prelude Utf8 Types Effects Extension Session Plugins Router Engine GovTypes.
From S2P Require Import Trace Hooks Finalize Dispatch Transition Journal Signals Persistence Executor.

(** ** engine_watchdog.rs: the ping and pong channels, of capacity 4 each *)

Record WatchdogPong := { last_epoch : N; pending_inputs : N }.

Record WatchdogLink := { pings : nat; pongs : list WatchdogPong }.

Definition LINK_CAPACITY : nat := 4.
Definition WatchdogLink_new : WatchdogLink := {| pings := 0; pongs := [] |}.

(** [try_recv] a ping; [try_send] a pong, whose failure is ignored. *)
Definition respond_if_pinged (epoch pending : N) (l : WatchdogLink) : WatchdogLink :=
  match pings l with
  | O => l
  | S n =>
      {| pings := n;
         pongs := if decide (length (pongs l) < LINK_CAPACITY)
                  then pongs l ++ [{| last_epoch := epoch; pending_inputs := pending |}]
                  else pongs l |}
  end.

Inductive RecoveryProcedure : Type := SerializeAndRestart | NotifyAndDegrade.

Record EngineWatchdog := {
  heartbeat_interval_ms : N;
  max_response_delay_ms : N;
  recovery_procedure : RecoveryProcedure
}.

Definition EngineWatchdog_default : EngineWatchdog :=
  {| heartbeat_interval_ms := 1000; max_response_delay_ms := 5000;
     recovery_procedure := NotifyAndDegrade |}.

Definition compute_backoff (w : EngineWatchdog) (consecutive_recoveries : N) : N :=
  let max_backoff_ms := N.max (max_response_delay_ms w) (saturating_mul (heartbeat_interval_ms w) 8) in
  let exponent := N.min (consecutive_recoveries - 1) 63 in
  N.min (saturating_mul 100 (2 ^ exponent)) max_backoff_ms.

(** What [execute_recovery] sends to the engine, with the handlers [BriocheShell::new]
    installs. *)
Definition recovery_signal (w : EngineWatchdog) : SystemSignal :=
  match recovery_procedure w with
  | SerializeAndRestart => SystemSignal.EngineUnresponsive "SerializeAndRestart"
  | NotifyAndDegrade => SystemSignal.EngineUnresponsive "NotifyAndDegrade"
  end.

(** The watchdog loop: about to ping, or waiting for a pong.  [u32] counters are
    far from overflow: one recovery takes at least 100 ms. *)
Inductive WatchdogPhase : Type := Beating | AwaitingPong.

Record WatchdogRun := {
  link : WatchdogLink;
  wd_phase : WatchdogPhase;
  consecutive_recoveries : N;
  recoveries : list SystemSignal
}.

Definition WatchdogRun_new : WatchdogRun :=
  {| link := WatchdogLink_new; wd_phase := Beating; consecutive_recoveries := 0; recoveries := [] |}.

(** [ping_tx.send] waits while the channel is full. *)
Definition watchdog_ping (r : WatchdogRun) : option WatchdogRun :=
  match wd_phase r with
  | Beating =>
      if decide (pings (link r) < LINK_CAPACITY) then
        Some {| link := {| pings := S (pings (link r)); pongs := pongs (link r) |};
                wd_phase := AwaitingPong;
                consecutive_recoveries := consecutive_recoveries r; recoveries := recoveries r |}
      else None
  | AwaitingPong => None
  end.

(** [timeout(.., pong_rx.recv())] looks at the channel first. *)
Definition watchdog_receive (r : WatchdogRun) : option WatchdogRun :=
  match wd_phase r, pongs (link r) with
  | AwaitingPong, _ :: ps =>
      Some {| link := {| pings := pings (link r); pongs := ps |};
              wd_phase := Beating; consecutive_recoveries := 0; recoveries := recoveries r |}
  | _, _ => None
  end.

Definition watchdog_timeout (w : EngineWatchdog) (r : WatchdogRun) : option WatchdogRun :=
  match wd_phase r, pongs (link r) with
  | AwaitingPong, [] =>
      Some {| link := link r; wd_phase := Beating;
              consecutive_recoveries := (consecutive_recoveries r + 1)%N;
              recoveries := recoveries r ++ [recovery_signal w] |}
  | _, _ => None
  end.

(** ** shell.rs: [engine_thread_loop] *)

Inductive TryRecv : Type :=
  | Received (input : EngineInput)
  | Empty
  | Disconnected.

(** What one round finds: rebuild commands, the shutdown token, the input channel,
    the signal sources, the inputs still queued, and whether the shell still
    listens. *)
Record Inbox := {
  rebuild_commands : list (list bool);
  shutdown : bool;
  next_input : TryRecv;
  signal_sources : Sources;
  queued_inputs : N;
  output_open : bool
}.

Inductive Control : Type := Next | Stop.

Section thread.
Context {U : AnyUniverse} {P : Type} `{!CycleRollbackPolicy U P, !KernelTypes U, !GovernanceTypes U}.
Context (to_allocvec : EngineInput → result bytes string).
Context (journal_enabled : bool).
Context {C : Type} (session_callback : Session U P → C → Session U P * C).

Record EngineThread := {
  th_engine : BriocheEngine U P;
  th_session : Session U P;
  th_journal : TransitionJournal;
  th_link : WatchdogLink;
  th_sources : Sources;
  th_callback : C;
  th_outputs : list (list Effect * StateSnapshot)
}.

Definition apply_rebuilds (masks : list (list bool)) (en : BriocheEngine U P) : BriocheEngine U P :=
  foldl (λ en mask, rebuild_routes mask en) en masks.

(** Journal, signals and watchdog, before the transition. *)
Definition prepare (input : EngineInput) (box : Inbox) (t : EngineThread) : EngineThread :=
  let journal := if journal_enabled then append to_allocvec input (th_journal t) else th_journal t in
  let '(batch, sources) := SignalMultiplexer_drain (signal_sources box) in
  let '(_, ext) := insert_ext (batch_to_buffer batch) (extensions (th_session t)) in
  let '(epoch, ext) := get_or_insert_default EpochState ext in
  {| th_engine := th_engine t;
     th_session := set_extensions ext (th_session t);
     th_journal := journal;
     th_link := respond_if_pinged (current_generation epoch) (queued_inputs box) (th_link t);
     th_sources := sources;
     th_callback := th_callback t;
     th_outputs := th_outputs t |}.

(** The transition, the snapshot and the callback. *)
Definition run_transition (input : EngineInput) (t : EngineThread) :
    (list Effect * StateSnapshot) * EngineThread :=
  let '(es, en, s) := transition input (th_engine t) (th_session t) in
  let snapshot := StateSnapshot_from_session s in
  let '(s, c) := session_callback s (th_callback t) in
  ((es, snapshot),
   {| th_engine := en; th_session := s; th_journal := th_journal t; th_link := th_link t;
      th_sources := th_sources t; th_callback := c; th_outputs := th_outputs t |}).

(** Hand the effects over; acknowledge only when somebody took them. *)
Definition conclude_round (open : bool) (out : list Effect * StateSnapshot) (t : EngineThread) :
    Control * EngineThread :=
  if open then
    (Next, {| th_engine := th_engine t; th_session := th_session t;
              th_journal := if journal_enabled then acknowledge_all (th_journal t) else th_journal t;
              th_link := th_link t; th_sources := th_sources t; th_callback := th_callback t;
              th_outputs := th_outputs t ++ [out] |})
  else (Stop, t).

Definition with_rebuilds (box : Inbox) (t : EngineThread) : EngineThread :=
  {| th_engine := apply_rebuilds (rebuild_commands box) (th_engine t);
     th_session := th_session t; th_journal := th_journal t; th_link := th_link t;
     th_sources := signal_sources box; th_callback := th_callback t; th_outputs := th_outputs t |}.

Definition engine_thread_round (box : Inbox) (t : EngineThread) : Control * EngineThread :=
  let t := with_rebuilds box t in
  if shutdown box then (Stop, t)
  else match next_input box with
       | Empty => (Next, t)
       | Disconnected => (Stop, t)
       | Received input =>
           let '(out, t) := run_transition input (prepare input box t) in
           conclude_round (output_open box) out t
       end.

Definition engine_thread_start (en : BriocheEngine U P) (s : Session U P) (c : C) : EngineThread :=
  {| th_engine := en; th_session := s; th_journal := TransitionJournal_new;
     th_link := WatchdogLink_new; th_sources := Sources_new; th_callback := c; th_outputs := [] |}.
End thread.
Arguments EngineThread U P C : clear implicits.
