(* ===== verification/Builder.v ===== *)
(** * The type-state builder (brioche-core/src/engine/builder.rs) *)
From S2P Require Import Prelude Utf8 Types Effects Extension Session Plugins Router Engine.

(** The type-state markers of the two mandatory traits. *)
Inductive Presence : Set := Missing | Present.

Record BriocheEngineBuilder {U : AnyUniverse} {P : Type} {DA LG : Presence} := {
  b_on_input : list (OnInputPlugin U P);
  b_before_prediction : list (BeforePredictionPlugin U P);
  b_on_stream_event : list (OnStreamEventPlugin U P);
  b_after_prediction : list (AfterPredictionPlugin U P);
  b_on_tool_calls : list (OnToolCallsPlugin U P);
  b_on_tool_result : list (OnToolResultPlugin U P);
  b_on_error : list (OnErrorPlugin U P);
  b_epoch_interceptors : list (EpochInterceptorPlugin U P);
  b_subroutine_handler : option (SubRoutineHandlerPlugin U P);
  b_subroutine_hydrator : option (SubRoutineHydratorPlugin U P);
  b_consistency_verifier : option (ConsistencyVerifierPlugin U P);
  b_decision_aggregator : option (DecisionAggregatorPlugin U P);
  b_hook_effect_constraint : option HookEffectConstraint;
  b_cycle_rollback_policy : option P;
  b_cow_budget_policy : option CowBudgetPolicy;
  b_subroutine_lifecycle_guard : option (SubRoutineLifecycleGuardPlugin U P);
  b_governance_failover_handler : option (GovernanceFailoverHandlerPlugin U P);
  b_default_tool_timeout_ms : N
}.
Arguments BriocheEngineBuilder U P DA LG : clear implicits.

(** The setters available in every type state. *)
Inductive BuilderCall {U : AnyUniverse} {P : Type} : Type :=
  | with_on_input (plugin : OnInputPlugin U P)
  | with_before_prediction (plugin : BeforePredictionPlugin U P)
  | with_on_stream_event (plugin : OnStreamEventPlugin U P)
  | with_after_prediction (plugin : AfterPredictionPlugin U P)
  | with_on_tool_calls (plugin : OnToolCallsPlugin U P)
  | with_on_tool_result (plugin : OnToolResultPlugin U P)
  | with_on_error (plugin : OnErrorPlugin U P)
  | with_epoch_interceptor (interceptor : EpochInterceptorPlugin U P)
  | with_subroutine_handler (handler : SubRoutineHandlerPlugin U P)
  | with_subroutine_hydrator (hydrator : SubRoutineHydratorPlugin U P)
  | with_consistency_verifier (verifier : ConsistencyVerifierPlugin U P)
  | with_hook_effect_constraint (constraint : HookEffectConstraint)
  | with_cycle_rollback_policy (policy : P)
  | with_cow_budget_policy (policy : CowBudgetPolicy)
  | with_governance_failover_handler (handler : GovernanceFailoverHandlerPlugin U P)
  | with_default_tool_timeout_ms (timeout : N).
Arguments BuilderCall U P : clear implicits.

Section builder.
Context {U : AnyUniverse} {P : Type} `{!CycleRollbackPolicy U P}.

Definition builder_new : BriocheEngineBuilder U P Missing Missing := {|
  b_on_input := [];
  b_before_prediction := [];
  b_on_stream_event := [];
  b_after_prediction := [];
  b_on_tool_calls := [];
  b_on_tool_result := [];
  b_on_error := [];
  b_epoch_interceptors := [];
  b_subroutine_handler := None;
  b_subroutine_hydrator := None;
  b_consistency_verifier := None;
  b_decision_aggregator := None;
  b_hook_effect_constraint := None;
  b_cycle_rollback_policy := None;
  b_cow_budget_policy := None;
  b_subroutine_lifecycle_guard := None;
  b_governance_failover_handler := None;
  b_default_tool_timeout_ms := 0%N
|}.

(** Vectors are pushed to, options overwritten. *)
Definition apply_call {DA LG} (c : BuilderCall U P) (b : BriocheEngineBuilder U P DA LG) :
    BriocheEngineBuilder U P DA LG := {|
  b_on_input := b_on_input b ++ match c with with_on_input p => [p] | _ => [] end;
  b_before_prediction :=
    b_before_prediction b ++ match c with with_before_prediction p => [p] | _ => [] end;
  b_on_stream_event :=
    b_on_stream_event b ++ match c with with_on_stream_event p => [p] | _ => [] end;
  b_after_prediction :=
    b_after_prediction b ++ match c with with_after_prediction p => [p] | _ => [] end;
  b_on_tool_calls := b_on_tool_calls b ++ match c with with_on_tool_calls p => [p] | _ => [] end;
  b_on_tool_result :=
    b_on_tool_result b ++ match c with with_on_tool_result p => [p] | _ => [] end;
  b_on_error := b_on_error b ++ match c with with_on_error p => [p] | _ => [] end;
  b_epoch_interceptors :=
    b_epoch_interceptors b ++ match c with with_epoch_interceptor p => [p] | _ => [] end;
  b_subroutine_handler :=
    match c with with_subroutine_handler h => Some h | _ => b_subroutine_handler b end;
  b_subroutine_hydrator :=
    match c with with_subroutine_hydrator h => Some h | _ => b_subroutine_hydrator b end;
  b_consistency_verifier :=
    match c with with_consistency_verifier v => Some v | _ => b_consistency_verifier b end;
  b_decision_aggregator := b_decision_aggregator b;
  b_hook_effect_constraint :=
    match c with with_hook_effect_constraint h => Some h | _ => b_hook_effect_constraint b end;
  b_cycle_rollback_policy :=
    match c with with_cycle_rollback_policy p => Some p | _ => b_cycle_rollback_policy b end;
  b_cow_budget_policy :=
    match c with with_cow_budget_policy p => Some p | _ => b_cow_budget_policy b end;
  b_subroutine_lifecycle_guard := b_subroutine_lifecycle_guard b;
  b_governance_failover_handler :=
    match c with
    | with_governance_failover_handler h => Some h
    | _ => b_governance_failover_handler b
    end;
  b_default_tool_timeout_ms :=
    match c with with_default_tool_timeout_ms t => t | _ => b_default_tool_timeout_ms b end
|}.

(** The two mandatory injections, which change the type state. *)
Definition with_mandatory {DA LG} (DA' LG' : Presence)
    (aggregator : option (DecisionAggregatorPlugin U P))
    (guard : option (SubRoutineLifecycleGuardPlugin U P))
    (b : BriocheEngineBuilder U P DA LG) : BriocheEngineBuilder U P DA' LG' := {|
  b_on_input := b_on_input b;
  b_before_prediction := b_before_prediction b;
  b_on_stream_event := b_on_stream_event b;
  b_after_prediction := b_after_prediction b;
  b_on_tool_calls := b_on_tool_calls b;
  b_on_tool_result := b_on_tool_result b;
  b_on_error := b_on_error b;
  b_epoch_interceptors := b_epoch_interceptors b;
  b_subroutine_handler := b_subroutine_handler b;
  b_subroutine_hydrator := b_subroutine_hydrator b;
  b_consistency_verifier := b_consistency_verifier b;
  b_decision_aggregator := aggregator;
  b_hook_effect_constraint := b_hook_effect_constraint b;
  b_cycle_rollback_policy := b_cycle_rollback_policy b;
  b_cow_budget_policy := b_cow_budget_policy b;
  b_subroutine_lifecycle_guard := guard;
  b_governance_failover_handler := b_governance_failover_handler b;
  b_default_tool_timeout_ms := b_default_tool_timeout_ms b
|}.

Definition with_decision_aggregator {DA LG} (aggregator : DecisionAggregatorPlugin U P)
    (b : BriocheEngineBuilder U P DA LG) : BriocheEngineBuilder U P Present LG :=
  with_mandatory Present LG (Some aggregator) (b_subroutine_lifecycle_guard b) b.

Definition with_subroutine_lifecycle_guard {DA LG} (guard : SubRoutineLifecycleGuardPlugin U P)
    (b : BriocheEngineBuilder U P DA LG) : BriocheEngineBuilder U P DA Present :=
  with_mandatory DA Present (b_decision_aggregator b) (Some guard) b.

Definition build (b : BriocheEngineBuilder U P Present Present) : BriocheEngine U P :=
  let table := from_hooks (b_on_input b) (b_before_prediction b) (b_on_stream_event b)
                 (b_after_prediction b) (b_on_tool_calls b) (b_on_tool_result b)
                 (b_on_error b) in
  let policy :=
    match b_cycle_rollback_policy b, b_cow_budget_policy b with
    | Some rollback, Some policy => Some (set_cow_budget_policy policy rollback)
    | rollback, _ => rollback
    end in
  {| router := {|
       on_input_plugins := b_on_input b;
       before_prediction_plugins := b_before_prediction b;
       on_stream_event_plugins := b_on_stream_event b;
       after_prediction_plugins := b_after_prediction b;
       on_tool_calls_plugins := b_on_tool_calls b;
       on_tool_result_plugins := b_on_tool_result b;
       on_error_plugins := b_on_error b;
       routing_table := table |};
     governance := {|
       epoch_interceptors := b_epoch_interceptors b;
       subroutine_handler := b_subroutine_handler b;
       subroutine_hydrator := b_subroutine_hydrator b;
       consistency_verifier := b_consistency_verifier b;
       decision_aggregator := b_decision_aggregator b;
       hook_effect_constraint := b_hook_effect_constraint b;
       cycle_rollback_policy := policy;
       subroutine_lifecycle_guard := b_subroutine_lifecycle_guard b;
       governance_failover_handler := b_governance_failover_handler b;
       default_tool_timeout_ms := b_default_tool_timeout_ms b |};
     routines := RoutineManager_new |}.

(** Programs that type-check: chains of setters from [new()]. *)
Inductive built : ∀ {DA LG}, BriocheEngineBuilder U P DA LG → Prop :=
  | built_new : built builder_new
  | built_call {DA LG} (b : BriocheEngineBuilder U P DA LG) c : built b → built (apply_call c b)
  | built_aggregator {DA LG} (b : BriocheEngineBuilder U P DA LG) a :
      built b → built (with_decision_aggregator a b)
  | built_guard {DA LG} (b : BriocheEngineBuilder U P DA LG) g :
      built b → built (with_subroutine_lifecycle_guard g b).

(** ** The type state is truthful *)

Lemma built_presence DA LG (b : BriocheEngineBuilder U P DA LG) :
  built b →
  (DA = Present ↔ is_Some (b_decision_aggregator b)) ∧
  (LG = Present ↔ is_Some (b_subroutine_lifecycle_guard b)).
Proof.
  induction 1 as [|DA LG b c _ IH|DA LG b a _ [IH1 IH2]|DA LG b g _ [IH1 IH2]]; cbn.
  - split; (split; [done|intros [? ?]; done]).
  - destruct c; exact IH.
  - split; [|done]. by split; [eauto|].
  - split; [done|]. by split; [eauto|].
Qed.
End builder.
