(* ===== verification/Guards.v ===== *)
(** * Default guards (brioche-governance-default/src/guards.rs, input_guards.rs,
    error_safety.rs)

    Each guard is an instance of a contract of Plugins.v.  The standard library's
    [{:?}] output of an input is a parameter: it is stored, never inspected. *)
From S2P Require Import Prelude Utf8 Types Effects Extension Session Plugins Router Engine GovTypes.

Module Priority.
Definition ARGUMENT_ACCUMULATOR : Z := 20%Z.
Definition DEPTH_GUARD : Z := (-40)%Z.
Definition QUARANTINE : Z := (-100)%Z.
Definition RECOVERY : Z := (-50)%Z.
Definition SUBROUTINE_TIMEOUT : Z := (-30)%Z.
Definition TELEMETRY : Z := 100%Z.
Definition TOOL_FORMATTER : Z := 10%Z.
Definition TOOL_TIMEOUT : Z := (-10)%Z.
End Priority.

Section guards.
Context {U : AnyUniverse} {P : Type} `{!CycleRollbackPolicy U P, !KernelTypes U,
  !GovernanceTypes U}.
Let Ext := ExtensionStorage U P.

(** [let Some(snapshot) = ext.get::<SessionSnapshot>() else { return Err(Fatal) }] *)
Definition with_snapshot {A} (plugin : string) (f : SessionSnapshot → State Ext (PluginResult A)) :
    State Ext (PluginResult A) :=
  λ ext,
    match get_ext SessionSnapshot ext with
    | None => (Err (PluginError.Fatal plugin "missing SessionSnapshot"), ext)
    | Some snapshot => f snapshot ext
    end.

(** ** EpochGuard *)

Definition epoch_mismatch (expected got : N) : string :=
  "epoch mismatch: expected " +:+ pretty expected +:+ ", got " +:+ pretty got.

Definition EpochGuard : EpochInterceptorPlugin U P :=
  λ input ext,
    let '(epoch_state, ext) := get_or_insert_default EpochState ext in
    match input with
    | EngineInput.ToolCallsResult generation_id _ =>
        if decide (generation_id = current_generation epoch_state) then (Ok EpochAction.Proceed, ext)
        else
          (Ok (EpochAction.Block (epoch_mismatch (current_generation epoch_state) generation_id)),
           ext)
    | _ => (Ok EpochAction.Proceed, ext)
    end.

(** ** StateConsistencyGuard *)

Definition recovery_effects : list Effect :=
  [Effect.Error ErrorCode.StateInconsistency
     (ErrorDetail.StateInconsistent
        (InconsistencySource.Kernel "guards::consistency_verifier"));
   Effect.SaveSession;
   Effect.SystemIdle].

Definition StateConsistencyGuard : ConsistencyVerifierPlugin U P :=
  λ s,
    match AgentStateTag_from (state s) with
    | AgentStateTag.Predicting | AgentStateTag.ExecutingTools =>
        match state_stack s with
        | [] => Ok (Some (PolicyDecision.OverrideTransition recovery_effects))
        | _ => Ok None
        end
    | _ => Ok None
    end.

(** ** SystemFailoverGuard *)

Definition degraded (plugin_name : PluginSource) : list Effect :=
  [Effect.ForwardToUi (UiWidget.CriticalError (source_name plugin_name)
     (Some "governance component failed; system degraded"));
   Effect.SaveSession;
   Effect.SystemIdle].

Definition SystemFailoverGuard : GovernanceFailoverHandlerPlugin U P :=
  λ fault s,
    match fault with
    | Effect.PluginFault plugin_name _ => (Ok (Some (degraded plugin_name)), s)
    | _ => (Ok None, s)
    end.

(** ** DepthGuard *)

Definition calculate_depth (stack_depth : N) (current : AgentStateTag) : N :=
  if decide (current = AgentStateTag.SubRoutine) then wrapping_add stack_depth 1 else stack_depth.

Definition depth_message (depth max_depth : N) : string :=
  "sub-routine depth limit exceeded: " +:+ pretty depth +:+ " >= " +:+ pretty max_depth.

Definition depth_override (depth max_depth : N) : PolicyDecision :=
  PolicyDecision.OverrideTransition
    [Effect.Error ErrorCode.StateInconsistency
       (ErrorDetail.EpochGuardRejected (depth_message depth max_depth));
     Effect.ForwardToUi (UiWidget.Error "DEPTH_LIMIT_EXCEEDED" (depth_message depth max_depth));
     Effect.SystemIdle].

Definition DepthGuard (max_depth : N) : OnInputPlugin U P := {|
  name := "depth_guard";
  priority := Priority.DEPTH_GUARD;
  hook input :=
    match input with
    | EngineInput.UserMessage _ =>
        with_snapshot "depth_guard" (λ snapshot ext,
          let depth := calculate_depth (state_stack_depth snapshot) (current_state snapshot) in
          let ext := update_ext (λ _ : DepthState, {| current_depth := depth |}) ext in
          if decide (max_depth ≤ depth)%N then (Ok (depth_override depth max_depth), ext)
          else (Ok PolicyDecision.Allow, ext))
    | _ => ret (Ok PolicyDecision.Allow)
    end
|}.

Definition DepthGuard_default : OnInputPlugin U P := DepthGuard 10%N.

(** ** JsonArgumentAccumulator *)

Definition accumulate_argument (event : StreamEvent) (st : JsonArgumentAccumulatorState) :
    JsonArgumentAccumulatorState :=
  match event with
  | StreamEvent.ToolArgumentChunk _ id chunk =>
      let old := match accumulated_args st !! id with Some s => s | None => "" end in
      {| accumulated_args := <[id := old +:+ from_utf8_lossy chunk]> (accumulated_args st);
         total_fragments := wrapping_add (total_fragments st) 1 |}
  | StreamEvent.ToolCallDone _ =>
      {| accumulated_args := ∅; total_fragments := total_fragments st |}
  | _ => st
  end.

Definition JsonArgumentAccumulator : OnStreamEventPlugin U P := {|
  name := "json_argument_accumulator";
  priority := Priority.ARGUMENT_ACCUMULATOR;
  hook event := modify (update_ext (accumulate_argument event)) ;;! ret (Ok StreamAction.Pass)
|}.

(** ** QuarantineManager *)

(** [format!("{:?}", std::mem::discriminant(error))] *)
Definition error_discriminant (e : PluginError) : string :=
  match e with
  | PluginError.Soft _ _ => "Discriminant(0)"
  | PluginError.Fatal _ _ => "Discriminant(1)"
  end.

Definition quarantine (plugin_name : string) (error : PluginError) (st : QuarantineState) :
    QuarantineState :=
  let key := {| faulted_plugin := plugin_name; error_kind := error_discriminant error |} in
  let count := match fault_counts st !! key with Some n => n | None => 0%N end in
  {| quarantined := {[plugin_name]} ∪ quarantined st;
     fault_counts := <[key := wrapping_add count 1]> (fault_counts st) |}.

Definition QuarantineManager : OnErrorPlugin U P := {|
  name := "quarantine_manager";
  priority := Priority.QUARANTINE;
  hook error :=
    match error with
    | PluginError.Fatal plugin_name _ =>
        modify (update_ext (quarantine plugin_name error)) ;;!
        ret (Ok (PolicyDecision.RequestEffect Effect.RebuildRoutes))
    | PluginError.Soft _ _ =>
        _ <-! get_or_insert_default QuarantineState ;;
        ret (Ok PolicyDecision.Allow)
    end
|}.

(** ** RecoveryPolicy *)

Definition DEFAULT_MAX_RECOVERIES : N := 3%N.

Section recovery.
Context (debug_input : EngineInput → string).

(** The counter after one more input seen in [Failure]. *)
Definition count_recovery (input : EngineInput) (st : RecoveryState) : RecoveryState :=
  {| consecutive_recoveries := wrapping_add (consecutive_recoveries st) 1;
     last_error := Some (debug_input input);
     inputs_blocked := inputs_blocked st |}.

Definition count_blocked (st : RecoveryState) : RecoveryState :=
  {| consecutive_recoveries := consecutive_recoveries st;
     last_error := last_error st;
     inputs_blocked := wrapping_add (inputs_blocked st) 1 |}.

Definition reset_recovery (st : RecoveryState) : RecoveryState :=
  if decide (0 < consecutive_recoveries st)%N then
    {| consecutive_recoveries := 0%N; last_error := None; inputs_blocked := inputs_blocked st |}
  else st.

Definition RecoveryPolicy (max_consecutive_recoveries : N) : OnInputPlugin U P := {|
  name := "recovery_policy";
  priority := Priority.RECOVERY;
  hook input :=
    with_snapshot "recovery_policy" (λ snapshot ext,
      let is_failure := bool_decide (current_state snapshot = AgentStateTag.Failure) in
      let '(st, ext) := get_or_insert_default RecoveryState ext in
      let was_failure := bool_decide (max_consecutive_recoveries ≤ consecutive_recoveries st)%N in
      if is_failure then
        let '(st, ext) := get_or_insert_default RecoveryState ext in
        let st := count_recovery input st in
        if decide (max_consecutive_recoveries ≤ consecutive_recoveries st)%N then
          (Ok (PolicyDecision.Block "recovery: max consecutive failures exceeded"),
           write_ext (count_blocked st) ext)
        else (Ok PolicyDecision.Allow, write_ext st ext)
      else if negb was_failure then
        (Ok PolicyDecision.Allow, update_ext reset_recovery ext)
      else (Ok PolicyDecision.Allow, ext))
|}.

Definition RecoveryPolicy_new : OnInputPlugin U P := RecoveryPolicy DEFAULT_MAX_RECOVERIES.
End recovery.
End guards.
