(* ===== verification/Aggregators.v ===== *)
(** * Decision aggregators and effect constraints (brioche-governance-default/src/
    aggregators.rs, negotiation_broker.rs, tree_decision_aggregator.rs,
    noop_traits.rs) *)
From S2P Require Import Prelude Utf8 Types Effects Extension Session Plugins Router Engine GovTypes.

(** [matches!] on decisions *)
Definition is_allow (d : PolicyDecision) : bool :=
  match d with PolicyDecision.Allow => true | _ => false end.
Definition is_block (d : PolicyDecision) : bool :=
  match d with PolicyDecision.Block _ => true | _ => false end.
Definition is_override (d : PolicyDecision) : bool :=
  match d with PolicyDecision.OverrideTransition _ => true | _ => false end.

(** ** The lexicographic rules

    The loop over the decisions; [inl] is its early return. *)
Fixpoint lexicographic_loop (decisions : list PolicyDecision) (edits : list HistoryEdit)
    (es : list Effect) : PolicyDecision + (list HistoryEdit * list Effect) :=
  match decisions with
  | [] => inr (edits, es)
  | decision :: rest =>
      match decision with
      | PolicyDecision.Allow => lexicographic_loop rest edits es
      | PolicyDecision.Block reason => inl (PolicyDecision.Block reason)
      | PolicyDecision.MutateHistory e => lexicographic_loop rest (edits ++ e) es
      | PolicyDecision.RequestEffect eff => lexicographic_loop rest edits (es ++ [eff])
      | PolicyDecision.OverrideTransition ov => inl (PolicyDecision.OverrideTransition ov)
      end
  end.

(** Edits first, else the first effect ([effects.remove(0)]), else [Allow]. *)
Definition lexicographic_result (edits : list HistoryEdit) (es : list Effect) : PolicyDecision :=
  match edits, es with
  | _ :: _, _ => PolicyDecision.MutateHistory edits
  | [], eff :: _ => PolicyDecision.RequestEffect eff
  | [], [] => PolicyDecision.Allow
  end.

Definition lexicographic (decisions : list PolicyDecision) : PolicyDecision :=
  match lexicographic_loop decisions [] [] with
  | inl d => d
  | inr (edits, es) => lexicographic_result edits es
  end.

(** ** Effect constraints by mask *)

Definition masks_allow (masks : list N) (hook_index effect_mask : N) : bool :=
  negb (N.land (List.nth (N.to_nat hook_index) masks 0%N) effect_mask =? 0)%N.

Module FastHookEffectConstraint.

Record FastHookEffectConstraint := { masks : list N }.

(** The Rust type is an array of eight masks. *)
Definition new (ms : list N) : FastHookEffectConstraint := {| masks := ms |}.

Definition permissive : FastHookEffectConstraint := new (repeat u64_max 8).

Definition standard : FastHookEffectConstraint :=
  let bits := foldr N.lor 0%N in
  new [u64_max;
       bits [EffectBit.FORWARD_TO_UI; EffectBit.ERROR; EffectBit.SAVE_SESSION;
             EffectBit.SYSTEM_IDLE];
       bits [EffectBit.FORWARD_TO_UI; EffectBit.SAVE_SESSION; EffectBit.CALL_LLM_NETWORK];
       bits [EffectBit.EXECUTE_CPU_TASK; EffectBit.SAVE_SESSION; EffectBit.FORWARD_TO_UI];
       bits [EffectBit.SAVE_SESSION; EffectBit.FORWARD_TO_UI];
       bits [EffectBit.EXECUTE_TOOLS; EffectBit.SAVE_SESSION; EffectBit.ERROR];
       bits [EffectBit.CALL_LLM_NETWORK; EffectBit.SAVE_SESSION; EffectBit.FORWARD_TO_UI];
       bits [EffectBit.FORWARD_TO_UI; EffectBit.SAVE_SESSION; EffectBit.SYSTEM_IDLE;
             EffectBit.REBUILD_ROUTES]].

Definition constraint (c : FastHookEffectConstraint) : HookEffectConstraint := {|
  is_allowed_fast hook_index effect_mask :=
    if (8 <=? hook_index)%N then false else masks_allow (masks c) hook_index effect_mask;
  is_allowed_fallback _ _ := false
|}.
End FastHookEffectConstraint.
Abbreviation FastHookEffectConstraint := FastHookEffectConstraint.FastHookEffectConstraint.

Definition NoopHookEffectConstraint : HookEffectConstraint := {|
  is_allowed_fast _ _ := true;
  is_allowed_fallback _ _ := true
|}.

Definition PermissiveHookEffectConstraint : HookEffectConstraint := {|
  is_allowed_fast hook_index effect_mask :=
    if (8 <=? hook_index)%N then true
    else masks_allow (repeat u64_max 8) hook_index effect_mask;
  is_allowed_fallback _ _ := true
|}.

(** ** Decision trees *)

Definition eval_condition (condition : DecisionCondition) (decisions : list PolicyDecision) : bool :=
  match condition with
  | DecisionCondition.AnyBlock => existsb is_block decisions
  | DecisionCondition.AnyOverride => existsb is_override decisions
  | DecisionCondition.AllAllow => forallb is_allow decisions
  | DecisionCondition.CountExceeds n => (n <? N.of_nat (length decisions))%N
  end.

Fixpoint evaluate_tree (node : DecisionNode) (decisions : list PolicyDecision) :
    option PolicyDecision :=
  match node with
  | DecisionNode.Leaf decision => Some decision
  | DecisionNode.Branch condition if_true if_false =>
      if eval_condition condition decisions then evaluate_tree if_true decisions
      else evaluate_tree if_false decisions
  end.

Definition default_tree : DecisionNode :=
  DecisionNode.Branch DecisionCondition.AnyBlock
    (DecisionNode.Leaf (PolicyDecision.Block "tree: blocked by policy"))
    (DecisionNode.Branch DecisionCondition.AnyOverride
       (DecisionNode.Leaf (PolicyDecision.OverrideTransition []))
       (DecisionNode.Branch DecisionCondition.AllAllow
          (DecisionNode.Leaf PolicyDecision.Allow)
          (DecisionNode.Leaf (PolicyDecision.MutateHistory [])))).

(** ** Negotiation: the state after one phase, settled or not *)

Definition u8_modulus : N := 256%N.

(** [current_phase += 1] on a [u8] in a release build. *)
Definition next_phase (phase : N) : N := ((phase + 1) mod u8_modulus)%N.

Definition negotiate (max_phases : N) (decisions : list PolicyDecision) (st : NegotiationState) :
    NegotiationState :=
  let phase := next_phase (current_phase st) in
  {| current_phase := phase;
     phase_decisions := phase_decisions st ++ decisions;
     settled :=
       settled st || (max_phases <=? phase)%N || forallb is_allow decisions
         || existsb is_block decisions || existsb is_override decisions |}.

Definition negotiation_reset : NegotiationState :=
  {| current_phase := 0%N; phase_decisions := []; settled := false |}.

(** Decision and state after one aggregation. *)
Definition conclude (st : NegotiationState) : PolicyDecision * NegotiationState :=
  if settled st then
    match lexicographic_loop (phase_decisions st) [] [] with
    | inl d => (d, st)
    | inr (edits, es) => (lexicographic_result edits es, negotiation_reset)
    end
  else (PolicyDecision.RequestEffect Effect.CallLlmNetwork, st).

Section aggregators.
Context {U : AnyUniverse} {P : Type} `{!CycleRollbackPolicy U P, !KernelTypes U,
  !GovernanceTypes U}.

Definition LexicographicDecisionAggregator : DecisionAggregatorPlugin U P :=
  λ decisions, ret (Ok (lexicographic decisions)).

Definition TreeDecisionAggregator : DecisionAggregatorPlugin U P :=
  λ decisions ext,
    let '(st, ext) := get_or_insert_default DecisionTreeState ext in
    let ext := write_ext {| root := root st;
                            evaluation_count := wrapping_add (evaluation_count st) 1 |} ext in
    let node := match root st with Some n => n | None => default_tree end in
    (Ok match evaluate_tree node decisions with
        | Some d => d
        | None => PolicyDecision.Allow
        end, ext).

Definition NegotiationBroker (max_phases : N) : DecisionAggregatorPlugin U P :=
  λ decisions ext,
    let '(st, ext) := get_or_insert_default NegotiationState ext in
    let '(decision, st) := conclude (negotiate max_phases decisions st) in
    (Ok decision, write_ext st ext).

Definition NegotiationBroker_new : DecisionAggregatorPlugin U P := NegotiationBroker 3%N.

Definition NoopGovernanceFailoverHandler : GovernanceFailoverHandlerPlugin U P :=
  λ _, ret (Ok None).
End aggregators.
