(* ===== verification/Subroutines.v ===== *)
(** * Sub-routines and timeouts (brioche-governance-default/src/subroutines.rs,
    timeouts.rs)

    The [{:?}] output of a handle, put in a message, is a parameter. *)
From S2P Require Import Prelude Utf8 Types Effects Extension Session Plugins Router Engine GovTypes.
From S2P Require Import Guards.

Section subroutines.
Context {U : AnyUniverse} {P : Type} `{!CycleRollbackPolicy U P, !KernelTypes U,
  !GovernanceTypes U}.
Let Ext := ExtensionStorage U P.

(** ** SubRoutineOrchestrator *)

(** What the parent's history receives, [None] while the child is still running. *)
Definition bubbled_messages (child : Session U P) : option (list ChatMessage) :=
  match state child with
  | AgentState.Idle => Some (option_list (last (history child)))
  | AgentState.Failure => Some [ChatMessage.System "sub-routine failed"]
  | _ => None
  end.

Definition detect_subroutine_termination (child : Session U P) :
    State (Session U P) (result (option (list Effect)) BriocheError) :=
  match bubbled_messages child with
  | Some messages =>
      modify (set_history (λ h, h ++ messages)) ;;!
      _ <-? pop_state ;;
      ret (Ok (Some [Effect.SaveSession; Effect.CallLlmNetwork]))
  | None => ret (Ok None)
  end.

Definition orchestrator_error (e : BriocheError) : PluginError :=
  PluginError.Soft "subroutine_orchestrator" (BriocheError_to_string e).

Definition SubRoutineOrchestrator : SubRoutineHandlerPlugin U P :=
  λ _ pc,
    let '(r, parent) := detect_subroutine_termination pc.2 pc.1 in
    (match r with Ok v => Ok v | Err e => Err (orchestrator_error e) end, (parent, pc.2)).

(** ** SubRoutineCleanupGuard *)

Definition count_exit (handle : SubRoutineHandle) (st : SubRoutineExitState) :
    SubRoutineExitState :=
  let count := match exit_counts st !! handle_id handle with Some n => n | None => 0%N end in
  {| exit_counts := <[handle_id handle := wrapping_add count 1]> (exit_counts st) |}.

Definition SubRoutineCleanupGuard : SubRoutineLifecycleGuardPlugin U P :=
  λ handle pr,
    let parent := set_extensions (update_ext (count_exit handle) (extensions pr.1)) pr.1 in
    let '(removed, registry) := registry_remove handle pr.2 in
    (Ok (match removed with Some _ => [Effect.SaveSession] | None => [] end), (parent, registry)).

(** ** ToolTimeoutPolicy *)

Record ToolTimeoutPolicy := { policy_default_timeout_ms : N; max_timeout_ms : N }.

Definition with_default_timeout (default_timeout_ms : N) : ToolTimeoutPolicy :=
  {| policy_default_timeout_ms := default_timeout_ms; max_timeout_ms := 0%N |}.
Definition with_bounds (default_timeout_ms max_ms : N) : ToolTimeoutPolicy :=
  {| policy_default_timeout_ms := default_timeout_ms; max_timeout_ms := max_ms |}.
Definition ToolTimeoutPolicy_default : ToolTimeoutPolicy := with_default_timeout 30000%N.

Definition bounded_timeout (policy : ToolTimeoutPolicy) (call_timeout : option N) : N :=
  let timeout := match call_timeout with
                 | Some t => t
                 | None => policy_default_timeout_ms policy
                 end in
  if ((0 <? max_timeout_ms policy) && (max_timeout_ms policy <? timeout))%N
  then max_timeout_ms policy else timeout.

Definition apply_timeout (policy : ToolTimeoutPolicy) (call : ToolCallDescriptor) :
    ToolCallDescriptor :=
  {| tool_id := tool_id call; tool_name := tool_name call; arguments := arguments call;
     timeout_ms := Some (bounded_timeout policy (timeout_ms call)) |}.

Definition ToolTimeoutPolicy_plugin (policy : ToolTimeoutPolicy) : OnToolCallsPlugin U P := {|
  name := "tool_timeout_policy";
  priority := Priority.TOOL_TIMEOUT;
  hook := modify (λ ec, (ec.1, apply_timeout policy <$> ec.2)) ;;! ret (Ok tt)
|}.

(** ** SubRoutineTimeoutPolicy *)

Section timeout.
Context (debug_handle : string → string).

Definition signal_tick (s : SystemSignal) : option N :=
  match s with SystemSignal.Tick elapsed_ms => Some elapsed_ms | _ => None end.

(** [filter_map(..).next_back()] *)
Definition latest_tick (signals : list SystemSignal) : option N := last (omap signal_tick signals).

(** [reference_ms.saturating_sub(start) > limit], in handle order. *)
Definition expired (reference_ms : N) (ts : gmap string (N * N)) : list string :=
  (filter (λ t : string * (N * N), (t.2.2 < reference_ms - t.2.1)%N) (btree_to_list ts)).*1.

Definition evaluate : State Ext (PluginResult PolicyDecision) :=
  with_snapshot "subroutine_timeout_policy" (λ snapshot,
    if negb (bool_decide (current_state snapshot = AgentStateTag.SubRoutine)) then
      modify (update_ext (λ st, {| last_tick_ms := last_tick_ms st; timers := ∅ |})) ;;!
      ret (Ok PolicyDecision.Allow)
    else
      buffer <-! get_or_insert_default SignalBuffer ;;
      st <-! get_or_insert_default SubRoutineTimerState ;;
      let reference_ms := match latest_tick (system_signals buffer) with
                          | Some tick => tick
                          | None => last_tick_ms st
                          end in
      match expired reference_ms (timers st) with
      | handle :: _ =>
          modify (write_ext {| last_tick_ms := reference_ms; timers := delete handle (timers st) |})
          ;;!
          ret (Ok (PolicyDecision.Block
                     ("sub-routine " +:+ debug_handle handle +:+ " exceeded timeout")))
      | [] =>
          modify (write_ext {| last_tick_ms := reference_ms; timers := timers st |}) ;;!
          ret (Ok PolicyDecision.Allow)
      end).

Definition SubRoutineTimeoutPolicy_interceptor : EpochInterceptorPlugin U P :=
  λ _,
    r <-! evaluate ;;
    ret match r with
        | Ok (PolicyDecision.Block reason) => Ok (EpochAction.Block reason)
        | Ok _ => Ok EpochAction.Proceed
        | Err e => Err e
        end.

Definition SubRoutineTimeoutPolicy : OnInputPlugin U P := {|
  name := "subroutine_timeout_policy";
  priority := Priority.SUBROUTINE_TIMEOUT;
  hook _ := evaluate
|}.
End timeout.
End subroutines.
