(* ===== verification/Tools.v ===== *)
(** * Tool pipeline plugins (brioche-governance-default/src/tool_pipeline.rs)

    JSON encoding of the truncation record (serde_json) is a parameter. *)
From S2P Require Import Prelude Utf8 Types Effects Extension Session Plugins Router Engine GovTypes.
From S2P Require Import Guards.

Definition byte_length (s : string) : N := N.of_nat (String.length s).

Section tools.
Context {U : AnyUniverse} {P : Type} `{!CycleRollbackPolicy U P, !KernelTypes U,
  !GovernanceTypes U}.

(** ** ToolResultFormatter *)

Section formatter.
Context (to_json : TruncatedToolResult → result string string).
Context (max_result_bytes : N).

Definition json_failed (e : string) : PluginError :=
  PluginError.Soft "tool_result_formatter" ("JSON serialization failed: " +:+ e).

Definition format_result (r : ToolResultDTO) : PluginResult ToolResultDTO :=
  let content := tool_outcome_to_string (outcome r) in
  if ((0 <? max_result_bytes) && (max_result_bytes <? byte_length content))%N then
    match to_json (TruncatedToolResult_from_content (String.list_byte_of_string content)
                     (N.to_nat max_result_bytes)) with
    | Ok json => Ok {| result_tool_id := result_tool_id r;
                       result_tool_name := result_tool_name r;
                       outcome := ToolOutcome.Success json |}
    | Err e => Err (json_failed e)
    end
  else Ok r.

(** The loop stops at the first failure; results and count up to it are kept. *)
Fixpoint format_results (results : list ToolResultDTO) (st : ToolResultFormatterState) :
    PluginResult unit * list ToolResultDTO * ToolResultFormatterState :=
  match results with
  | [] => (Ok tt, [], st)
  | r :: rest =>
      match format_result r with
      | Ok r' =>
          let '(res, rest', st') :=
            format_results rest {| formatted_count := wrapping_add (formatted_count st) 1 |} in
          (res, r' :: rest', st')
      | Err e => (Err e, r :: rest, st)
      end
  end.

Definition ToolResultFormatter : OnToolResultPlugin U P := {|
  name := "tool_result_formatter";
  priority := Priority.TOOL_FORMATTER;
  hook := λ er,
    let '(st, ext) := get_or_insert_default ToolResultFormatterState er.1 in
    let '(res, results, st) := format_results er.2 st in
    (res, (write_ext st ext, results))
|}.
End formatter.

Definition ToolResultFormatter_new to_json : OnToolResultPlugin U P :=
  ToolResultFormatter to_json 65536%N.

(** ** ToolExecutionTracker *)

Definition track_call (st : ToolExecutionTelemetry) (call : ToolCallDescriptor) :
    ToolExecutionTelemetry :=
  {| completed_count := completed_count st; failed_count := failed_count st;
     total_duration_ms := total_duration_ms st;
     start_timestamps := <[tool_id call := 0%N]> (start_timestamps st);
     total_calls := total_calls st |}.

Definition is_success (o : ToolOutcome) : bool :=
  match o with ToolOutcome.Success _ => true | _ => false end.

Definition track_result (st : ToolExecutionTelemetry) (r : ToolResultDTO) :
    ToolExecutionTelemetry :=
  let ok := is_success (outcome r) in
  {| completed_count := if ok then wrapping_add (completed_count st) 1 else completed_count st;
     failed_count := if ok then failed_count st else wrapping_add (failed_count st) 1;
     total_duration_ms := total_duration_ms st;
     start_timestamps := delete (result_tool_id r) (start_timestamps st);
     total_calls := total_calls st |}.

Definition ToolExecutionTracker_calls : OnToolCallsPlugin U P := {|
  name := "tool_execution_tracker";
  priority := 0%Z;
  hook := modify (λ ec, (update_ext (λ st, foldl track_call st ec.2) ec.1, ec.2)) ;;! ret (Ok tt)
|}.

Definition ToolExecutionTracker_results : OnToolResultPlugin U P := {|
  name := "tool_execution_tracker";
  priority := Priority.TOOL_TIMEOUT;
  hook := modify (λ er, (update_ext (λ st, foldl track_result st er.2) er.1, er.2)) ;;! ret (Ok tt)
|}.
End tools.
