(* ===== verification/Telemetry.v ===== *)
(** * Telemetry observers (brioche-governance-default/src/telemetry.rs)

    One plugin on two hooks: it counts tool-call events, and archives and empties
    the logs of superseded transitions and rollbacks.  Counters are [u64] and wrap. *)
From S2P Require Import Prelude Utf8 Types Effects Extension Session Plugins Router Engine GovTypes.
From S2P Require Import Guards.

Record ToolCallDetectorState := { total_detected : N; total_completed : N }.

Record TransitionConflictState := {
  total_conflicts : N;
  unique_preempted_plugins : N;
  last_preempted_plugin : option string
}.

(** Per hook: abandonments and restorations, in the order hooks were first seen. *)
Record RollbackTelemetryState := {
  abandoned_count : N;
  restored_count : N;
  abandoned_weight_total : N;
  per_hook_stats : list (string * (N * N))
}.

Class TelemetryTypes (U : AnyUniverse) `{!KernelTypes U} := {
  tt_detector :: BriocheExtensionType ToolCallDetectorState;
  tt_conflict :: BriocheExtensionType TransitionConflictState;
  tt_rollback :: BriocheExtensionType RollbackTelemetryState;
  tt_distinct : NoDup [TypeId_of SupersededTransitionTraceLog; TypeId_of RollbackEventLog;
    TypeId_of ToolCallDetectorState; TypeId_of TransitionConflictState;
    TypeId_of RollbackTelemetryState];
  tt_rollback_default : default RollbackTelemetryState =
    {| abandoned_count := 0; restored_count := 0; abandoned_weight_total := 0;
       per_hook_stats := [] |}
}.

(** ** Pure updates *)

Definition detect (event : StreamEvent) (st : ToolCallDetectorState) : ToolCallDetectorState :=
  match event with
  | StreamEvent.ToolCallStart _ _ _ =>
      {| total_detected := wrapping_add (total_detected st) 1;
         total_completed := total_completed st |}
  | StreamEvent.ToolCallDone _ =>
      {| total_detected := total_detected st;
         total_completed := wrapping_add (total_completed st) 1 |}
  | _ => st
  end.

Definition archive_conflicts (es : list SupersededTransitionTrace) (st : TransitionConflictState) :
    TransitionConflictState :=
  {| total_conflicts := wrapping_add (total_conflicts st) (N.of_nat (length es));
     unique_preempted_plugins :=
       N.of_nat (size (list_to_set (preempted_by <$> es) : gset string));
     last_preempted_plugin := last (preempted_by <$> es) |}.

Definition bump (b : bool) (n : N) : N := if b then wrapping_add n 1 else n.
Definition flag (b : bool) : N := if b then 1 else 0.

(** [iter_mut().find(..)], else [push]. *)
Fixpoint hook_stats (hook : string) (abandoned restored : bool) (l : list (string * (N * N))) :
    list (string * (N * N)) :=
  match l with
  | [] => [(hook, (flag abandoned, flag restored))]
  | (h, (a, r)) :: l' =>
      if decide (h = hook) then (h, (bump abandoned a, bump restored r)) :: l'
      else (h, (a, r)) :: hook_stats hook abandoned restored l'
  end.

Definition archive_rollback (st : RollbackTelemetryState) (event : RollbackEvent) :
    RollbackTelemetryState :=
  let abandoned := was_rollback event && budget_exceeded event in
  let restored := was_rollback event && negb (budget_exceeded event) in
  {| abandoned_count := bump abandoned (abandoned_count st);
     restored_count := bump restored (restored_count st);
     abandoned_weight_total :=
       if abandoned then wrapping_add (abandoned_weight_total st) (frame_weight event)
       else abandoned_weight_total st;
     per_hook_stats := hook_stats (hook_name event) abandoned restored (per_hook_stats st) |}.

(** ** The plugin *)

Section telemetry.
Context {U : AnyUniverse} {P : Type} `{!CycleRollbackPolicy U P, !KernelTypes U,
  !TelemetryTypes U}.

Definition TelemetryPlugin_stream : OnStreamEventPlugin U P := {|
  name := "telemetry_plugin";
  priority := Priority.TELEMETRY;
  hook event := λ ext,
    let '(st, ext) := get_or_insert_default ToolCallDetectorState ext in
    (Ok StreamAction.Pass, write_ext (detect event st) ext)
|}.

Definition archive_superseded (ext : ExtensionStorage U P) : ExtensionStorage U P :=
  let '(log, ext) := get_or_insert_default SupersededTransitionTraceLog ext in
  let '(es, log) := SupersededTransitionTraceLog_take_entries log in
  let ext := write_ext log ext in
  match es with
  | [] => ext
  | _ =>
      let '(st, ext) := get_or_insert_default TransitionConflictState ext in
      write_ext (archive_conflicts es st) ext
  end.

Definition archive_rollbacks (ext : ExtensionStorage U P) : ExtensionStorage U P :=
  let '(log, ext) := get_or_insert_default RollbackEventLog ext in
  let ext := write_ext {| events := [] |} ext in
  let '(st, ext) := get_or_insert_default RollbackTelemetryState ext in
  write_ext (foldl archive_rollback st (events log)) ext.

Definition TelemetryPlugin_after : AfterPredictionPlugin U P := {|
  name := "telemetry_plugin";
  priority := Priority.TELEMETRY;
  hook := λ ext, (Ok tt, archive_rollbacks (archive_superseded ext))
|}.
End telemetry.
