(* ===== verification/StdPlugins.v ===== *)
(** * Standard plugins (brioche-std/src/: circuit_breaker.rs, audit_logger.rs,
      gc_policy.rs, pending_task_manager.rs, token_tracker.rs)

    Each plugin is an instance of a contract of Plugins.v, built from a function on
    its own state.  The JSON text of an input (serde_json) and the encoding of a
    batch (postcard) are parameters.  Counters are [u64] and wrap, as in a release
    build. *)
From S2P Require Import Prelude Utf8 Types Effects Extension Session Plugins Router Engine GovTypes.
From S2P Require Import Guards Tools.

(** ** lib.rs: [Priority] *)

Module StdPriority.
Definition AUDIT_LOGGER : Z := (-100)%Z.
Definition CIRCUIT_BREAKER : Z := (-20)%Z.
Definition CONTEXT_OPTIMIZER : Z := (-5)%Z.
Definition GC_OBSERVER : Z := 200%Z.
Definition PENDING_TASK : Z := 20%Z.
Definition TOKEN_TRACKER : Z := 60%Z.
End StdPriority.

(** ** The states *)

Record CircuitBreakerState := {
  max_repetitions : N;
  current_repetitions : N;
  last_signature : string;
  loops_broken : N
}.

Record AuditEntry := { sequence : N; input_json : string; audit_epoch : N }.

Record AuditLoggerState := {
  audit_pending : list AuditEntry;
  total_logged : N;
  next_sequence : N;
  batch_size : N
}.

Record GcPolicyState := { cycles_since_gc : N; gcs_triggered : N }.

Record ContextOptimizerState := { summarizations_triggered : N }.

Module PendingTaskStatus.
Inductive PendingTaskStatus : Type :=
  | Pending
  | Running
  | Completed (message : string)
  | Failed (message : string).
End PendingTaskStatus.
Abbreviation PendingTaskStatus := PendingTaskStatus.PendingTaskStatus.

Record PendingTaskInfo := {
  task_id : string;
  check_after_ms : N;
  status : PendingTaskStatus
}.

Record PendingTaskState := {
  pending_tasks : gmap string PendingTaskInfo;
  default_check_after_ms : N
}.

Module TokenRole.
Inductive TokenRole : Type := System | User | Assistant | ToolRequest | ToolResult | Unknown.
End TokenRole.
Abbreviation TokenRole := TokenRole.TokenRole.

#[global] Instance TokenRole_eq_dec : EqDecision TokenRole.
Proof. solve_decision. Defined.

#[global] Instance TokenRole_countable : Countable TokenRole.
Proof.
  apply (inj_countable'
    (λ r, match r with TokenRole.System => 0 | TokenRole.User => 1 | TokenRole.Assistant => 2
          | TokenRole.ToolRequest => 3 | TokenRole.ToolResult => 4 | TokenRole.Unknown => 5 end)
    (λ n, match n with 0 => TokenRole.System | 1 => TokenRole.User | 2 => TokenRole.Assistant
          | 3 => TokenRole.ToolRequest | 4 => TokenRole.ToolResult | _ => TokenRole.Unknown end)).
  by intros [].
Defined.

Record TokenTrackerState := {
  total_input_tokens : N;
  total_output_tokens : N;
  prediction_cycles : N;
  tokens_by_role : gmap TokenRole N;
  buffered_output_tokens : N
}.

(** The plugins' states are types of the universe, with their derived defaults. *)
Class StdTypes (U : AnyUniverse) `{!KernelTypes U, !GovernanceTypes U} := {
  st_breaker :: BriocheExtensionType CircuitBreakerState;
  st_audit :: BriocheExtensionType AuditLoggerState;
  st_gc :: BriocheExtensionType GcPolicyState;
  st_optimizer :: BriocheExtensionType ContextOptimizerState;
  st_tasks :: BriocheExtensionType PendingTaskState;
  st_tokens :: BriocheExtensionType TokenTrackerState;
  st_distinct : NoDup [TypeId_of SessionSnapshot; TypeId_of EpochState; TypeId_of SignalBuffer;
    TypeId_of CircuitBreakerState; TypeId_of AuditLoggerState; TypeId_of GcPolicyState;
    TypeId_of ContextOptimizerState; TypeId_of PendingTaskState; TypeId_of TokenTrackerState];
  st_gc_default : default GcPolicyState = {| cycles_since_gc := 0%N; gcs_triggered := 0%N |};
  st_audit_default : default AuditLoggerState =
    {| audit_pending := []; total_logged := 0%N; next_sequence := 0%N; batch_size := 0%N |}
}.

Section std.
Context {U : AnyUniverse} {P : Type} `{!CycleRollbackPolicy U P, !KernelTypes U,
  !GovernanceTypes U, !StdTypes U}.
Let Ext := ExtensionStorage U P.

(** Run a function of a plugin's own state on the storage. *)
Definition on_state {T A} `{!BriocheExtensionType T} (f : T → A * T) : State Ext A :=
  λ ext,
    let '(st, ext) := get_or_insert_default T ext in
    let '(a, st) := f st in
    (a, write_ext st ext).

(** ** circuit_breaker.rs *)

Definition signature (name arguments : string) : string := name +:+ ":" +:+ arguments.

Definition signatures (history : list ChatMessage) : list string :=
  omap (λ m, match m with
             | ChatMessage.ToolRequest _ name arguments => Some (signature name arguments)
             | _ => None
             end) history.

(** The loop from the end, on the reversed list. *)
Fixpoint count_leading (s : string) (l : list string) : N :=
  match l with
  | [] => 0
  | x :: l' => if decide (x = s) then (1 + count_leading s l')%N else 0
  end.

Definition loop_detected (consecutive : N) (signature : string) : string :=
  "circuit breaker: tool call loop detected (" +:+ pretty consecutive +:+
  " consecutive repetitions of " +:+ signature +:+ ")".

Definition breaker_step (limit : N) (history : list ChatMessage) (st : CircuitBreakerState) :
    PolicyDecision * CircuitBreakerState :=
  match rev (signatures history) with
  | [] =>
      (PolicyDecision.Allow,
       {| max_repetitions := limit; current_repetitions := 0; last_signature := "";
          loops_broken := loops_broken st |})
  | last :: earlier =>
      let consecutive := (1 + count_leading last earlier)%N in
      if (limit <? consecutive)%N then
        (PolicyDecision.Block (loop_detected consecutive last),
         {| max_repetitions := limit; current_repetitions := consecutive; last_signature := last;
            loops_broken := wrapping_add (loops_broken st) 1 |})
      else
        (PolicyDecision.Allow,
         {| max_repetitions := limit; current_repetitions := consecutive; last_signature := last;
            loops_broken := loops_broken st |})
  end.

Definition CircuitBreaker (limit : N) : BeforePredictionPlugin U P := {|
  name := "circuit_breaker";
  priority := StdPriority.CIRCUIT_BREAKER;
  hook history := on_state (λ st, let '(d, st) := breaker_step limit history st in (Ok d, st))
|}.

Definition CircuitBreaker_default : BeforePredictionPlugin U P := CircuitBreaker 5.

(** ** audit_logger.rs *)

Section audit.
Context (to_json : EngineInput → result string string).
Context (to_allocvec : list AuditEntry → result bytes string).

Definition audit_json (input : EngineInput) : string :=
  match to_json input with
  | Ok s => s
  | Err e => "{" +:+ String "034" "serialization_error" +:+ String "034" ":" +:+ String "034" e +:+
             String "034" "}"
  end.

Definition audit_step (size epoch : N) (input : EngineInput) (st : AuditLoggerState) :
    PolicyDecision * AuditLoggerState :=
  let entry := {| sequence := next_sequence st; input_json := audit_json input;
                  audit_epoch := epoch |} in
  let entries := audit_pending st ++ [entry] in
  let st' p := {| audit_pending := p; total_logged := wrapping_add (total_logged st) 1;
                  next_sequence := wrapping_add (next_sequence st) 1; batch_size := size |} in
  if (size <=? N.of_nat (length entries))%N then
    let blob := match to_allocvec entries with Ok b => b | Err _ => [] end in
    (PolicyDecision.RequestEffect
       (Effect.SavePluginBlob {| source_name := "audit_logger" |} blob), st' [])
  else (PolicyDecision.Allow, st' entries).

Definition AuditLogger (size : N) : OnInputPlugin U P := {|
  name := "audit_logger";
  priority := StdPriority.AUDIT_LOGGER;
  hook input := λ ext,
    let '(es, ext) := get_or_insert_default EpochState ext in
    on_state (λ st, let '(d, st) := audit_step size (current_generation es) input st in (Ok d, st)) ext
|}.

Definition AuditLogger_default : OnInputPlugin U P := AuditLogger 32.
End audit.

(** ** gc_policy.rs: [GcPolicy] *)

Record GcPolicy := { cycle_interval : N; only_when_idle : bool }.

Definition with_cycle_interval (n : N) : GcPolicy :=
  {| cycle_interval := n; only_when_idle := true |}.
Definition with_unconditional_interval (n : N) : GcPolicy :=
  {| cycle_interval := n; only_when_idle := false |}.
Definition GcPolicy_default : GcPolicy := with_cycle_interval 10.

Definition gc_count (st : GcPolicyState) : GcPolicyState :=
  {| cycles_since_gc := wrapping_add (cycles_since_gc st) 1; gcs_triggered := gcs_triggered st |}.

Definition gc_decide (policy : GcPolicy) (is_idle : bool) (st : GcPolicyState) :
    PolicyDecision * GcPolicyState :=
  if (cycle_interval policy <=? cycles_since_gc st)%N && (negb (only_when_idle policy) || is_idle)
  then (PolicyDecision.RequestEffect Effect.TriggerGc,
        {| cycles_since_gc := 0; gcs_triggered := wrapping_add (gcs_triggered st) 1 |})
  else (PolicyDecision.Allow, st).

Definition GcPolicy_after : AfterPredictionPlugin U P := {|
  name := "gc_policy";
  priority := StdPriority.GC_OBSERVER;
  hook := on_state (λ st, (Ok tt, gc_count st))
|}.

Definition GcPolicy_before (policy : GcPolicy) : BeforePredictionPlugin U P := {|
  name := "gc_policy";
  priority := StdPriority.GC_OBSERVER;
  hook _ :=
    if (cycle_interval policy =? 0)%N then ret (Ok PolicyDecision.Allow)
    else with_snapshot "gc_policy" (λ snapshot,
      on_state (λ st,
        let '(d, st) :=
          gc_decide policy (bool_decide (current_state snapshot = AgentStateTag.Idle)) st in
        (Ok d, st)))
|}.

(** ** gc_policy.rs: [ContextOptimizer] *)

Record ContextOptimizer := { max_messages : N; threshold_percent : N }.

Definition with_threshold (max_messages threshold_percent : N) : ContextOptimizer :=
  {| max_messages := max_messages; threshold_percent := N.min threshold_percent 100 |}.

Definition ContextOptimizer_default : ContextOptimizer := with_threshold 100 85.

Fixpoint find_summary (results : list AsyncTaskResult) : option (ChatMessage * N) :=
  match results with
  | [] => None
  | AsyncTaskResult.SummarizationDone summary watermark :: _ => Some (summary, watermark)
  | _ :: rest => find_summary rest
  end.

Definition summary_edits (history_len : N) (summary : ChatMessage) (watermark : N) :
    list HistoryEdit :=
  let watermark := N.min watermark history_len in
  [HistoryEdit.Truncate (history_len - watermark); HistoryEdit.Insert 0 summary].

(** [max_messages * percent / 100]; the product wraps. *)
Definition summarize_threshold (o : ContextOptimizer) : N :=
  ((max_messages o * threshold_percent o) mod u64_modulus / 100)%N.

Definition ContextOptimizer_plugin (o : ContextOptimizer) : BeforePredictionPlugin U P := {|
  name := "context_optimizer";
  priority := StdPriority.CONTEXT_OPTIMIZER;
  hook history := λ ext,
    let len := N.of_nat (length history) in
    let '(buffer, ext) := get_or_insert_default SignalBuffer ext in
    match find_summary (async_task_results buffer) with
    | Some (summary, watermark) =>
        (Ok (PolicyDecision.MutateHistory (summary_edits len summary watermark)), ext)
    | None =>
        let threshold := summarize_threshold o in
        if (0 <? threshold)%N && (threshold <=? len)%N then
          on_state (λ st,
            (Ok (PolicyDecision.RequestEffect Effect.TriggerSummarization),
             {| summarizations_triggered := wrapping_add (summarizations_triggered st) 1 |})) ext
        else (Ok PolicyDecision.Allow, ext)
    end
|}.

(** ** pending_task_manager.rs *)

Definition PENDING_MARKER : string := "__PENDING__".

Definition contains (pattern content : string) : bool :=
  match String.index 0 pattern content with Some _ => true | None => false end.

Definition track_pending (check_after : N) (st : PendingTaskState) (r : ToolResultDTO) :
    PendingTaskState :=
  match outcome r with
  | ToolOutcome.Success content =>
      if contains PENDING_MARKER content then
        {| pending_tasks := <[result_tool_id r :=
             {| task_id := result_tool_id r; check_after_ms := check_after;
                status := PendingTaskStatus.Pending |}]> (pending_tasks st);
           default_check_after_ms := default_check_after_ms st |}
      else st
  | _ => st
  end.

Definition PendingTaskManager_results (check_after : N) : OnToolResultPlugin U P := {|
  name := "pending_task_manager";
  priority := StdPriority.PENDING_TASK;
  hook := λ er,
    let '(_, ext) :=
      on_state (λ st,
        (tt, foldl (track_pending check_after)
               {| pending_tasks := pending_tasks st; default_check_after_ms := check_after |} er.2))
        er.1 in
    (Ok tt, (ext, er.2))
|}.

Definition completed_message (o : ToolOutcome) : string :=
  match o with
  | ToolOutcome.Success s | ToolOutcome.BusinessError s | ToolOutcome.SystemError s => s
  | ToolOutcome.TimeoutWithPartialData partial =>
      match partial with Some s => s | None => "" end
  end.

Definition status_update (r : AsyncTaskResult) : option (string * PendingTaskStatus) :=
  match r with
  | AsyncTaskResult.ToolStatusCheck id ToolStatus.Running => Some (id, PendingTaskStatus.Running)
  | AsyncTaskResult.ToolStatusCheck id (ToolStatus.Completed o) =>
      Some (id, PendingTaskStatus.Completed (completed_message o))
  | _ => None
  end.

Definition update_status (st : PendingTaskState) (u : string * PendingTaskStatus) :
    PendingTaskState :=
  match pending_tasks st !! u.1 with
  | Some info =>
      {| pending_tasks := <[u.1 := {| task_id := task_id info;
                                      check_after_ms := check_after_ms info;
                                      status := u.2 |}]> (pending_tasks st);
         default_check_after_ms := default_check_after_ms st |}
  | None => st
  end.

Definition PendingTaskManager_input : OnInputPlugin U P := {|
  name := "pending_task_manager";
  priority := StdPriority.PENDING_TASK;
  hook _ := λ ext,
    let '(buffer, ext) := get_or_insert_default SignalBuffer ext in
    match omap status_update (async_task_results buffer) with
    | [] => (Ok PolicyDecision.Allow, ext)
    | updates =>
        on_state (λ st, (Ok PolicyDecision.Allow, foldl update_status st updates)) ext
    end
|}.

(** ** token_tracker.rs *)

(** [len.div_ceil(4)] *)
Definition estimate_tokens (text : string) : N := ((byte_length text + 3) / 4)%N.

Definition estimate_message_tokens (msg : ChatMessage) : N * TokenRole :=
  match msg with
  | ChatMessage.System content => (estimate_tokens content, TokenRole.System)
  | ChatMessage.User content => (estimate_tokens content, TokenRole.User)
  | ChatMessage.Assistant content _ _ => (estimate_tokens content, TokenRole.Assistant)
  | ChatMessage.ToolRequest _ _ arguments => (estimate_tokens arguments, TokenRole.ToolRequest)
  | ChatMessage.ToolResult _ content => (estimate_tokens content, TokenRole.ToolResult)
  end.

Definition is_output (msg : ChatMessage) : bool :=
  match msg with
  | ChatMessage.Assistant _ _ _ | ChatMessage.ToolRequest _ _ _ => true
  | _ => false
  end.

Definition count_tokens (st : TokenTrackerState) (msg : ChatMessage) : TokenTrackerState :=
  let '(tokens, role) := estimate_message_tokens msg in
  let by_role := <[role := wrapping_add (match tokens_by_role st !! role with
                                         | Some n => n | None => 0 end) tokens]>
                   (tokens_by_role st) in
  if is_output msg then
    {| total_input_tokens := total_input_tokens st;
       total_output_tokens := wrapping_add (total_output_tokens st) tokens;
       prediction_cycles := prediction_cycles st; tokens_by_role := by_role;
       buffered_output_tokens := wrapping_add (buffered_output_tokens st) tokens |}
  else
    {| total_input_tokens := wrapping_add (total_input_tokens st) tokens;
       total_output_tokens := total_output_tokens st;
       prediction_cycles := prediction_cycles st; tokens_by_role := by_role;
       buffered_output_tokens := buffered_output_tokens st |}.

Definition track_history (history : list ChatMessage) (st : TokenTrackerState) : TokenTrackerState :=
  foldl count_tokens
    {| total_input_tokens := total_input_tokens st; total_output_tokens := total_output_tokens st;
       prediction_cycles := prediction_cycles st; tokens_by_role := tokens_by_role st;
       buffered_output_tokens := 0 |} history.

Definition TokenTracker_before : BeforePredictionPlugin U P := {|
  name := "token_tracker";
  priority := StdPriority.TOKEN_TRACKER;
  hook history := on_state (λ st, (Ok PolicyDecision.Allow, track_history history st))
|}.

Definition count_cycle (st : TokenTrackerState) : TokenTrackerState :=
  {| total_input_tokens := total_input_tokens st; total_output_tokens := total_output_tokens st;
     prediction_cycles := wrapping_add (prediction_cycles st) 1;
     tokens_by_role := tokens_by_role st; buffered_output_tokens := buffered_output_tokens st |}.

Definition TokenTracker_after : AfterPredictionPlugin U P := {|
  name := "token_tracker";
  priority := StdPriority.TOKEN_TRACKER;
  hook := on_state (λ st, (Ok tt, count_cycle st))
|}.
End std.
