(* ===== verification/Instances.v ===== *)
(** * A concrete universe of extension values

    The kernel is generic in the universe of extension types.  This file gives
    one: the kernel's own types, those of the default
    governance, of its telemetry and of the standard plugins, and one plugin-owned type, with an encoder that
    is LEB128 on the counters (postcard's varint) and empty on the logs.  It is
    what the witnesses compute with. *)
From stdpp Require Import countable.
From S2P Require Import Prelude Utf8 Types Effects Extension Session Persistence Plugins Router.
From S2P Require Import Engine.
From S2P Require Import GovTypes Telemetry StdPlugins.

(** A plugin-owned extension type: a note. *)
Record PluginNote := { note : string }.

Inductive AnyValue : Type :=
  | AnySnapshot (x : SessionSnapshot)
  | AnyEpoch (x : EpochState)
  | AnyAccumulator (x : StreamToolAccumulator)
  | AnyTraceLog (x : TransitionTraceLog)
  | AnySupersededLog (x : SupersededTransitionTraceLog)
  | AnyRollbackLog (x : RollbackEventLog)
  | AnyNote (x : PluginNote)
  | AnySignals (x : SignalBuffer)
  | AnyDepth (x : DepthState)
  | AnyJson (x : JsonArgumentAccumulatorState)
  | AnyQuarantine (x : QuarantineState)
  | AnyRecovery (x : RecoveryState)
  | AnyExit (x : SubRoutineExitState)
  | AnyTimer (x : SubRoutineTimerState)
  | AnyNegotiation (x : NegotiationState)
  | AnyTree (x : DecisionTreeState)
  | AnyFormatter (x : ToolResultFormatterState)
  | AnyTelemetry (x : ToolExecutionTelemetry)
  | AnyBreaker (x : CircuitBreakerState)
  | AnyAudit (x : AuditLoggerState)
  | AnyGc (x : GcPolicyState)
  | AnyOptimizer (x : ContextOptimizerState)
  | AnyTasks (x : PendingTaskState)
  | AnyTokens (x : TokenTrackerState)
  | AnyDetector (x : ToolCallDetectorState)
  | AnyConflict (x : TransitionConflictState)
  | AnyRollbackStats (x : RollbackTelemetryState).

Definition any_tag (a : AnyValue) : positive :=
  match a with
  | AnySnapshot _ => 1
  | AnyEpoch _ => 2
  | AnyAccumulator _ => 3
  | AnyTraceLog _ => 4
  | AnySupersededLog _ => 5
  | AnyRollbackLog _ => 6
  | AnyNote _ => 7
  | AnySignals _ => 8
  | AnyDepth _ => 9
  | AnyJson _ => 10
  | AnyQuarantine _ => 11
  | AnyRecovery _ => 12
  | AnyExit _ => 13
  | AnyTimer _ => 14
  | AnyNegotiation _ => 15
  | AnyTree _ => 16
  | AnyFormatter _ => 17
  | AnyTelemetry _ => 18
  | AnyBreaker _ => 19
  | AnyAudit _ => 20
  | AnyGc _ => 21
  | AnyOptimizer _ => 22
  | AnyTasks _ => 23
  | AnyTokens _ => 24
  | AnyDetector _ => 25
  | AnyConflict _ => 26
  | AnyRollbackStats _ => 27
  end%positive.

#[global] Instance concrete_universe : AnyUniverse := {
  Any := AnyValue;
  TypeId := positive;
  type_id_of := any_tag
}.

(** *** LEB128 *)

Definition byte_of_N (n : N) : byte :=
  match Byte.of_N (n mod 256) with Some b => b | None => x00 end.

Fixpoint leb128_encode_go (fuel : nat) (n : N) : bytes :=
  match fuel with
  | O => []
  | S fuel' =>
      if (n <? 128)%N then [byte_of_N n]
      else byte_of_N (128 + n mod 128) :: leb128_encode_go fuel' (n / 128)
  end.
Definition leb128_encode (n : N) : bytes := leb128_encode_go 10 n.

Fixpoint leb128_decode (l : bytes) : option N :=
  match l with
  | [] => None
  | b :: l' =>
      let v := Byte.to_N b in
      if (v <? 128)%N then match l' with [] => Some v | _ => None end
      else match leb128_decode l' with
           | Some r => Some (v - 128 + 128 * r)%N
           | None => None
           end
  end.

Ltac solve_erasable :=
  match goal with
  | |- ∀ a, is_Some _ ↔ _ => intros []; (split; [intros [? [=]]; done|intros [=]; cbn; eauto])
  | |- ∀ x, _ = Some x => reflexivity
  | |- _ => intros [] ? [=]; congruence
  end.

#[global] Instance erasable_snapshot : BriocheExtensionType SessionSnapshot.
Proof.
  refine {|
    EXT_ID := "brioche_core::session_snapshot";
    TypeId_of := 1%positive;
    snapshot_strategy := SnapshotStrategy.FullClone;
    default := {| current_state := AgentStateTag.Idle; state_stack_depth := 0%N |};
    to_any := AnySnapshot;
    downcast a := match a with AnySnapshot x => Some x | _ => None end;
    postcard_to_stdvec x := Ok (leb128_encode (state_stack_depth x));
    postcard_from_bytes _ := None;
    size_of_val _ := 16%N
  |}; solve_erasable.
Defined.

#[global] Instance erasable_epoch : BriocheExtensionType EpochState.
Proof.
  refine {|
    EXT_ID := "brioche_core::epoch_state";
    TypeId_of := 2%positive;
    snapshot_strategy := SnapshotStrategy.CriticalFullClone;
    default := {| current_generation := 0%N |};
    to_any := AnyEpoch;
    downcast a := match a with AnyEpoch x => Some x | _ => None end;
    postcard_to_stdvec x := Ok (leb128_encode (current_generation x));
    postcard_from_bytes b := Build_EpochState <$> leb128_decode b;
    size_of_val _ := 8%N
  |}; solve_erasable.
Defined.

#[global] Instance erasable_accumulator : BriocheExtensionType StreamToolAccumulator.
Proof.
  refine {|
    EXT_ID := "brioche_core::stream_tool_accumulator";
    TypeId_of := 3%positive;
    snapshot_strategy := SnapshotStrategy.NoSnapshot;
    default := {| pending := ∅ |};
    to_any := AnyAccumulator;
    downcast a := match a with AnyAccumulator x => Some x | _ => None end;
    postcard_to_stdvec _ := Ok [];
    postcard_from_bytes _ := None;
    size_of_val _ := 24%N
  |}; solve_erasable.
Defined.

#[global] Instance erasable_trace_log : BriocheExtensionType TransitionTraceLog.
Proof.
  refine {|
    EXT_ID := "brioche_core::transition_trace_log";
    TypeId_of := 4%positive;
    snapshot_strategy := SnapshotStrategy.CriticalFullClone;
    default := {| entries := [] |};
    to_any := AnyTraceLog;
    downcast a := match a with AnyTraceLog x => Some x | _ => None end;
    postcard_to_stdvec _ := Ok [];
    postcard_from_bytes _ := None;
    size_of_val _ := 24%N
  |}; solve_erasable.
Defined.

#[global] Instance erasable_superseded_log :
    BriocheExtensionType SupersededTransitionTraceLog.
Proof.
  refine {|
    EXT_ID := "brioche_core::superseded_transition_trace_log";
    TypeId_of := 5%positive;
    snapshot_strategy := SnapshotStrategy.CriticalFullClone;
    default := {| superseded_entries := [] |};
    to_any := AnySupersededLog;
    downcast a := match a with AnySupersededLog x => Some x | _ => None end;
    postcard_to_stdvec _ := Ok [];
    postcard_from_bytes _ := None;
    size_of_val _ := 24%N
  |}; solve_erasable.
Defined.

#[global] Instance erasable_rollback_log : BriocheExtensionType RollbackEventLog.
Proof.
  refine {|
    EXT_ID := "brioche_core::rollback_event_log";
    TypeId_of := 6%positive;
    snapshot_strategy := SnapshotStrategy.FullClone;
    default := {| events := [] |};
    to_any := AnyRollbackLog;
    downcast a := match a with AnyRollbackLog x => Some x | _ => None end;
    postcard_to_stdvec _ := Ok [];
    postcard_from_bytes _ := None;
    size_of_val _ := 24%N
  |}; solve_erasable.
Defined.

#[global] Instance erasable_note : BriocheExtensionType PluginNote.
Proof.
  refine {|
    EXT_ID := "plugin::note";
    TypeId_of := 7%positive;
    snapshot_strategy := SnapshotStrategy.FullClone;
    default := {| note := "" |};
    to_any := AnyNote;
    downcast a := match a with AnyNote x => Some x | _ => None end;
    postcard_to_stdvec x := Ok (String.list_byte_of_string (note x));
    postcard_from_bytes b := Some {| note := string_of_bytes b |};
    size_of_val _ := 24%N
  |}; solve_erasable.
Defined.

#[global] Instance concrete_kernel_types : KernelTypes concrete_universe.
Proof.
  refine {| kt_epoch_default := eq_refl |}; try reflexivity.
  by apply (bool_decide_unpack _).
Defined.

#[global] Instance erasable_signals : BriocheExtensionType SignalBuffer.
Proof.
  refine {|
    EXT_ID := "brioche_governance_default::signal_buffer";
    TypeId_of := 8%positive;
    snapshot_strategy := SnapshotStrategy.NoSnapshot;
    default := {| system_signals := []; governance_notifications := []; async_task_results := [] |};
    to_any := AnySignals;
    downcast a := match a with AnySignals x => Some x | _ => None end;
    postcard_to_stdvec _ := Ok [];
    postcard_from_bytes _ := None;
    size_of_val _ := 24%N
  |}; solve_erasable.
Defined.

#[global] Instance erasable_depth : BriocheExtensionType DepthState.
Proof.
  refine {|
    EXT_ID := "brioche_governance_default::depth_state";
    TypeId_of := 9%positive;
    snapshot_strategy := SnapshotStrategy.CriticalFullClone;
    default := {| current_depth := 0%N |};
    to_any := AnyDepth;
    downcast a := match a with AnyDepth x => Some x | _ => None end;
    postcard_to_stdvec x := Ok (leb128_encode (current_depth x));
    postcard_from_bytes b := Build_DepthState <$> leb128_decode b;
    size_of_val _ := 24%N
  |}; solve_erasable.
Defined.

#[global] Instance erasable_json : BriocheExtensionType JsonArgumentAccumulatorState.
Proof.
  refine {|
    EXT_ID := "brioche_governance_default::json_argument_accumulator_state";
    TypeId_of := 10%positive;
    snapshot_strategy := SnapshotStrategy.NoSnapshot;
    default := {| accumulated_args := ∅; total_fragments := 0%N |};
    to_any := AnyJson;
    downcast a := match a with AnyJson x => Some x | _ => None end;
    postcard_to_stdvec _ := Ok [];
    postcard_from_bytes _ := None;
    size_of_val _ := 24%N
  |}; solve_erasable.
Defined.

#[global] Instance erasable_quarantine : BriocheExtensionType QuarantineState.
Proof.
  refine {|
    EXT_ID := "brioche_governance_default::quarantine_state";
    TypeId_of := 11%positive;
    snapshot_strategy := SnapshotStrategy.CriticalFullClone;
    default := {| quarantined := ∅; fault_counts := ∅ |};
    to_any := AnyQuarantine;
    downcast a := match a with AnyQuarantine x => Some x | _ => None end;
    postcard_to_stdvec _ := Ok [];
    postcard_from_bytes _ := None;
    size_of_val _ := 24%N
  |}; solve_erasable.
Defined.

#[global] Instance erasable_recovery : BriocheExtensionType RecoveryState.
Proof.
  refine {|
    EXT_ID := "brioche_governance_default::recovery_state";
    TypeId_of := 12%positive;
    snapshot_strategy := SnapshotStrategy.CriticalFullClone;
    default := {| consecutive_recoveries := 0%N; last_error := None; inputs_blocked := 0%N |};
    to_any := AnyRecovery;
    downcast a := match a with AnyRecovery x => Some x | _ => None end;
    postcard_to_stdvec _ := Ok [];
    postcard_from_bytes _ := None;
    size_of_val _ := 24%N
  |}; solve_erasable.
Defined.

#[global] Instance erasable_exit : BriocheExtensionType SubRoutineExitState.
Proof.
  refine {|
    EXT_ID := "brioche_governance_default::sub_routine_exit_state";
    TypeId_of := 13%positive;
    snapshot_strategy := SnapshotStrategy.NoSnapshot;
    default := {| exit_counts := ∅ |};
    to_any := AnyExit;
    downcast a := match a with AnyExit x => Some x | _ => None end;
    postcard_to_stdvec _ := Ok [];
    postcard_from_bytes _ := None;
    size_of_val _ := 24%N
  |}; solve_erasable.
Defined.

#[global] Instance erasable_timer : BriocheExtensionType SubRoutineTimerState.
Proof.
  refine {|
    EXT_ID := "brioche_governance_default::sub_routine_timer_state";
    TypeId_of := 14%positive;
    snapshot_strategy := SnapshotStrategy.CriticalFullClone;
    default := {| last_tick_ms := 0%N; timers := ∅ |};
    to_any := AnyTimer;
    downcast a := match a with AnyTimer x => Some x | _ => None end;
    postcard_to_stdvec _ := Ok [];
    postcard_from_bytes _ := None;
    size_of_val _ := 24%N
  |}; solve_erasable.
Defined.

#[global] Instance erasable_negotiation : BriocheExtensionType NegotiationState.
Proof.
  refine {|
    EXT_ID := "brioche_governance_default::negotiation_state";
    TypeId_of := 15%positive;
    snapshot_strategy := SnapshotStrategy.CriticalFullClone;
    default := {| current_phase := 0%N; phase_decisions := []; settled := false |};
    to_any := AnyNegotiation;
    downcast a := match a with AnyNegotiation x => Some x | _ => None end;
    postcard_to_stdvec _ := Ok [];
    postcard_from_bytes _ := None;
    size_of_val _ := 24%N
  |}; solve_erasable.
Defined.

#[global] Instance erasable_tree : BriocheExtensionType DecisionTreeState.
Proof.
  refine {|
    EXT_ID := "brioche_governance_default::decision_tree_state";
    TypeId_of := 16%positive;
    snapshot_strategy := SnapshotStrategy.CriticalFullClone;
    default := {| root := None; evaluation_count := 0%N |};
    to_any := AnyTree;
    downcast a := match a with AnyTree x => Some x | _ => None end;
    postcard_to_stdvec _ := Ok [];
    postcard_from_bytes _ := None;
    size_of_val _ := 24%N
  |}; solve_erasable.
Defined.

#[global] Instance erasable_formatter : BriocheExtensionType ToolResultFormatterState.
Proof.
  refine {|
    EXT_ID := "brioche_governance_default::tool_result_formatter_state";
    TypeId_of := 17%positive;
    snapshot_strategy := SnapshotStrategy.FullClone;
    default := {| formatted_count := 0%N |};
    to_any := AnyFormatter;
    downcast a := match a with AnyFormatter x => Some x | _ => None end;
    postcard_to_stdvec x := Ok (leb128_encode (formatted_count x));
    postcard_from_bytes b := Build_ToolResultFormatterState <$> leb128_decode b;
    size_of_val _ := 24%N
  |}; solve_erasable.
Defined.

#[global] Instance erasable_telemetry : BriocheExtensionType ToolExecutionTelemetry.
Proof.
  refine {|
    EXT_ID := "brioche_governance_default::tool_execution_telemetry";
    TypeId_of := 18%positive;
    snapshot_strategy := SnapshotStrategy.FullClone;
    default := {| completed_count := 0%N; failed_count := 0%N; total_duration_ms := 0%N;
      start_timestamps := ∅; total_calls := 0%N |};
    to_any := AnyTelemetry;
    downcast a := match a with AnyTelemetry x => Some x | _ => None end;
    postcard_to_stdvec _ := Ok [];
    postcard_from_bytes _ := None;
    size_of_val _ := 24%N
  |}; solve_erasable.
Defined.

#[global] Instance concrete_governance_types : GovernanceTypes concrete_universe.
Proof.
  refine {| gt_tree_default := eq_refl |}; try reflexivity.
  by apply (bool_decide_unpack _).
Defined.

#[global] Instance erasable_breaker : BriocheExtensionType CircuitBreakerState.
Proof.
  refine {|
    EXT_ID := "brioche_std::circuit_breaker_state";
    TypeId_of := 19%positive;
    snapshot_strategy := SnapshotStrategy.FullClone;
    default := {| max_repetitions := 0%N; current_repetitions := 0%N; last_signature := ""; loops_broken := 0%N |};
    to_any := AnyBreaker;
    downcast a := match a with AnyBreaker x => Some x | _ => None end;
    postcard_to_stdvec _ := Ok [];
    postcard_from_bytes _ := None;
    size_of_val _ := 24%N
  |}; solve_erasable.
Defined.

#[global] Instance erasable_audit : BriocheExtensionType AuditLoggerState.
Proof.
  refine {|
    EXT_ID := "brioche_std::audit_logger_state";
    TypeId_of := 20%positive;
    snapshot_strategy := SnapshotStrategy.FullClone;
    default := {| audit_pending := []; total_logged := 0%N; next_sequence := 0%N; batch_size := 0%N |};
    to_any := AnyAudit;
    downcast a := match a with AnyAudit x => Some x | _ => None end;
    postcard_to_stdvec _ := Ok [];
    postcard_from_bytes _ := None;
    size_of_val _ := 24%N
  |}; solve_erasable.
Defined.

#[global] Instance erasable_gc : BriocheExtensionType GcPolicyState.
Proof.
  refine {|
    EXT_ID := "brioche_std::gc_policy_state";
    TypeId_of := 21%positive;
    snapshot_strategy := SnapshotStrategy.FullClone;
    default := {| cycles_since_gc := 0%N; gcs_triggered := 0%N |};
    to_any := AnyGc;
    downcast a := match a with AnyGc x => Some x | _ => None end;
    postcard_to_stdvec _ := Ok [];
    postcard_from_bytes _ := None;
    size_of_val _ := 24%N
  |}; solve_erasable.
Defined.

#[global] Instance erasable_optimizer : BriocheExtensionType ContextOptimizerState.
Proof.
  refine {|
    EXT_ID := "brioche_std::context_optimizer_state";
    TypeId_of := 22%positive;
    snapshot_strategy := SnapshotStrategy.FullClone;
    default := {| summarizations_triggered := 0%N |};
    to_any := AnyOptimizer;
    downcast a := match a with AnyOptimizer x => Some x | _ => None end;
    postcard_to_stdvec _ := Ok [];
    postcard_from_bytes _ := None;
    size_of_val _ := 24%N
  |}; solve_erasable.
Defined.

#[global] Instance erasable_tasks : BriocheExtensionType PendingTaskState.
Proof.
  refine {|
    EXT_ID := "brioche_std::pending_task_state";
    TypeId_of := 23%positive;
    snapshot_strategy := SnapshotStrategy.FullClone;
    default := {| pending_tasks := ∅; default_check_after_ms := 0%N |};
    to_any := AnyTasks;
    downcast a := match a with AnyTasks x => Some x | _ => None end;
    postcard_to_stdvec _ := Ok [];
    postcard_from_bytes _ := None;
    size_of_val _ := 24%N
  |}; solve_erasable.
Defined.

#[global] Instance erasable_tokens : BriocheExtensionType TokenTrackerState.
Proof.
  refine {|
    EXT_ID := "brioche_std::token_tracker_state";
    TypeId_of := 24%positive;
    snapshot_strategy := SnapshotStrategy.FullClone;
    default := {| total_input_tokens := 0%N; total_output_tokens := 0%N; prediction_cycles := 0%N;
      tokens_by_role := ∅; buffered_output_tokens := 0%N |};
    to_any := AnyTokens;
    downcast a := match a with AnyTokens x => Some x | _ => None end;
    postcard_to_stdvec _ := Ok [];
    postcard_from_bytes _ := None;
    size_of_val _ := 24%N
  |}; solve_erasable.
Defined.

#[global] Instance concrete_std_types : StdTypes concrete_universe.
Proof.
  refine {| st_gc_default := eq_refl |}; try reflexivity.
  by apply (bool_decide_unpack _).
Defined.

#[global] Instance erasable_detector : BriocheExtensionType ToolCallDetectorState.
Proof.
  refine {|
    EXT_ID := "brioche_governance_default::tool_call_detector_state";
    TypeId_of := 25%positive;
    snapshot_strategy := SnapshotStrategy.FullClone;
    default := {| total_detected := 0%N; total_completed := 0%N |};
    to_any := AnyDetector;
    downcast a := match a with AnyDetector x => Some x | _ => None end;
    postcard_to_stdvec _ := Ok [];
    postcard_from_bytes _ := None;
    size_of_val _ := 24%N
  |}; solve_erasable.
Defined.

#[global] Instance erasable_conflict : BriocheExtensionType TransitionConflictState.
Proof.
  refine {|
    EXT_ID := "brioche_governance_default::transition_conflict_state";
    TypeId_of := 26%positive;
    snapshot_strategy := SnapshotStrategy.FullClone;
    default := {| total_conflicts := 0%N; unique_preempted_plugins := 0%N;
      last_preempted_plugin := None |};
    to_any := AnyConflict;
    downcast a := match a with AnyConflict x => Some x | _ => None end;
    postcard_to_stdvec _ := Ok [];
    postcard_from_bytes _ := None;
    size_of_val _ := 24%N
  |}; solve_erasable.
Defined.

#[global] Instance erasable_rollback_stats : BriocheExtensionType RollbackTelemetryState.
Proof.
  refine {|
    EXT_ID := "brioche_governance_default::rollback_telemetry_state";
    TypeId_of := 27%positive;
    snapshot_strategy := SnapshotStrategy.FullClone;
    default := {| abandoned_count := 0%N; restored_count := 0%N; abandoned_weight_total := 0%N;
      per_hook_stats := [] |};
    to_any := AnyRollbackStats;
    downcast a := match a with AnyRollbackStats x => Some x | _ => None end;
    postcard_to_stdvec _ := Ok [];
    postcard_from_bytes _ := None;
    size_of_val _ := 24%N
  |}; solve_erasable.
Defined.

#[global] Instance concrete_telemetry_types : TelemetryTypes concrete_universe.
Proof. refine {| tt_distinct := _; tt_rollback_default := eq_refl |}. by apply (bool_decide_unpack _). Defined.

(** *** A policy that never rolls back, for engines built without one *)

#[global] Instance noop_observer : CowObserver concrete_universe unit := {
  on_mutation _ _ _ p := p
}.

#[global] Instance noop_policy : CycleRollbackPolicy concrete_universe unit := {
  begin_hook _ p := p;
  commit_hook p e := (p, e);
  rollback_hook p e := (p, e);
  is_budget_exceeded _ := false;
  set_cow_budget_policy _ p := p
}.

(** *** Engines for the witnesses *)

Definition plain_governance : GovernanceKernel concrete_universe unit := {|
  epoch_interceptors := [];
  subroutine_handler := None;
  subroutine_hydrator := None;
  consistency_verifier := None;
  decision_aggregator := None;
  hook_effect_constraint := None;
  cycle_rollback_policy := None;
  subroutine_lifecycle_guard := None;
  governance_failover_handler := None;
  default_tool_timeout_ms := 30000%N
|}.

Definition plain_router : PluginRouter concrete_universe unit := {|
  on_input_plugins := [];
  before_prediction_plugins := [];
  on_stream_event_plugins := [];
  after_prediction_plugins := [];
  on_tool_calls_plugins := [];
  on_tool_result_plugins := [];
  on_error_plugins := [];
  routing_table := from_hooks (U := concrete_universe) (P := unit) [] [] [] [] [] [] []
|}.

Definition plain_engine (g : GovernanceKernel concrete_universe unit) :
    BriocheEngine concrete_universe unit :=
  {| router := plain_router; governance := g; routines := RoutineManager_new |}.

Definition plain_session : Session concrete_universe unit := Session_new "session".
Definition plain_kernel : Kernel concrete_universe unit :=
  {| engine := plain_engine plain_governance; session := plain_session; effects := [] |}.

(** * A concrete persistence codec

    Heads and messages are encoded through stdpp's [Countable]: injective and
    total, with a decoder.  The witnesses of the persistence properties compute
    with it; "compression" is the identity and the checksum a sum of bytes. *)

#[global] Program Instance ToolCallDescriptor_countable : Countable ToolCallDescriptor :=
  inj_countable' (λ d, (tool_id d, tool_name d, arguments d, timeout_ms d))
    (λ '(i, n, a, t), {| tool_id := i; tool_name := n; arguments := a; timeout_ms := t |}) _.
Next Obligation. by intros []. Qed.

Definition message_code : Type :=
  string + string + (string * option string * list ToolCallDescriptor)
  + (string * string * string) + (string * string).

Definition message_to_code (m : ChatMessage) : message_code :=
  match m with
  | ChatMessage.System c => inl (inl (inl (inl c)))
  | ChatMessage.User c => inl (inl (inl (inr c)))
  | ChatMessage.Assistant c r ts => inl (inl (inr (c, r, ts)))
  | ChatMessage.ToolRequest i n a => inl (inr (i, n, a))
  | ChatMessage.ToolResult i c => inr (i, c)
  end.

Definition code_to_message (c : message_code) : ChatMessage :=
  match c with
  | inl (inl (inl (inl c))) => ChatMessage.System c
  | inl (inl (inl (inr c))) => ChatMessage.User c
  | inl (inl (inr (c, r, ts))) => ChatMessage.Assistant c r ts
  | inl (inr (i, n, a)) => ChatMessage.ToolRequest i n a
  | inr (i, c) => ChatMessage.ToolResult i c
  end.

#[global] Program Instance ChatMessage_countable : Countable ChatMessage :=
  inj_countable' message_to_code code_to_message _.
Next Obligation. by intros []. Qed.

Definition state_to_code (s : FlattenedAgentState) : N + N + string + bool :=
  match s with
  | FlattenedAgentState.Idle => inr false
  | FlattenedAgentState.Predicting g => inl (inl (inl g))
  | FlattenedAgentState.ExecutingTools g => inl (inl (inr g))
  | FlattenedAgentState.SubRoutine h => inl (inr h)
  | FlattenedAgentState.Failure => inr true
  end.

Definition code_to_state (c : N + N + string + bool) : FlattenedAgentState :=
  match c with
  | inr false => FlattenedAgentState.Idle
  | inl (inl (inl g)) => FlattenedAgentState.Predicting g
  | inl (inl (inr g)) => FlattenedAgentState.ExecutingTools g
  | inl (inr h) => FlattenedAgentState.SubRoutine h
  | inr true => FlattenedAgentState.Failure
  end.

#[global] Program Instance FlattenedAgentState_countable : Countable FlattenedAgentState :=
  inj_countable' state_to_code code_to_state _.
Next Obligation. by intros []. Qed.

#[global] Program Instance byte_countable : Countable byte :=
  inj_countable (A := N) Byte.to_N Byte.of_N _.
Next Obligation. intros b. apply Byte.of_to_N. Qed.

#[global] Instance SessionSchemaVersion_eq_dec : EqDecision SessionSchemaVersion.
Proof. solve_decision. Defined.
#[global] Instance SessionHeadDTO_eq_dec : EqDecision SessionHeadDTO.
Proof. solve_decision. Defined.

#[global] Program Instance SessionHeadDTO_countable : Countable SessionHeadDTO :=
  inj_countable' (λ d, (head_id d, parent_id d, head_state d, head_state_stack d,
                        head_extensions d, head_persisted_msg_count d, compaction_index d, checksum d))
    (λ '(i, p, s, k, e, n, c, x),
       {| version := SessionSchemaVersion.V1; head_id := i; parent_id := p; head_state := s;
          head_state_stack := k; head_extensions := e; head_persisted_msg_count := n;
          compaction_index := c; checksum := x |}) _.
Next Obligation. by intros [[]]. Qed.

(** Positive numbers as bytes, one digit each. *)
Fixpoint positive_to_bytes (p : positive) : bytes :=
  match p with
  | xH => []
  | xO p => x00 :: positive_to_bytes p
  | xI p => x01 :: positive_to_bytes p
  end.

Fixpoint bytes_to_positive (l : bytes) : positive :=
  match l with
  | [] => xH
  | x00 :: l => xO (bytes_to_positive l)
  | _ :: l => xI (bytes_to_positive l)
  end.

Lemma bytes_to_positive_to_bytes p : bytes_to_positive (positive_to_bytes p) = p.
Proof. induction p as [p IH|p IH|]; cbn; by rewrite ?IH. Qed.

Section countable.
Context {A : Type} `{Countable A}.

Definition countable_to_vec (a : A) : result bytes string := Ok (positive_to_bytes (encode a)).
Definition countable_from_slice (l : bytes) : result A string :=
  match decode (bytes_to_positive l) with Some a => Ok a | None => Err "invalid data" end.

Lemma countable_roundtrip a b : countable_to_vec a = Ok b → countable_from_slice b = Ok a.
Proof.
  intros [= <-]. unfold countable_from_slice. by rewrite bytes_to_positive_to_bytes, decode_encode.
Qed.
End countable.

#[global] Instance demo_persist : PersistCodec := {
  head_to_vec := countable_to_vec;
  head_from_slice := countable_from_slice;
  message_to_vec := countable_to_vec;
  message_from_slice := countable_from_slice;
  crc32 l := foldr (λ b n, (Byte.to_N b + 3 * n) mod 4294967296)%N 7%N l;
  zstd_encode_all := Ok;
  zstd_decode_all := Ok
}.

#[global] Instance demo_persist_laws : PersistCodecLaws.
Proof.
  split; [apply countable_roundtrip|apply countable_roundtrip|]. by intros b c [= ->].
Qed.

Lemma demo_encodes m : ∃ v, encode_message m = Ok v.
Proof.
  unfold encode_message, serialize_message, maybe_compress. cbn.
  destruct (_ <? _)%N; by eexists.
Qed.

Definition demo_head (id : string) : SessionHeadDTO :=
  {| version := SessionSchemaVersion.V1; head_id := id; parent_id := None;
     head_state := FlattenedAgentState.SubRoutine "b";
     head_state_stack := []; head_extensions := ∅; head_persisted_msg_count := 0;
     compaction_index := 0; checksum := None |}.

Example demo_head_roundtrip :
  match encode_head (demo_head "a") with
  | Ok b => match decode_head b with Ok d => head_id d = "a" | Err _ => False end
  | Err _ => False
  end.
Proof. vm_compute. reflexivity. Qed.
