(* ===== verification/Frames.v ===== *)
(** * What hooks can and cannot change

    Hooks only receive [&mut session.extensions].  A relation on kernel states
    that looks at neither the effect buffer, nor the rollback policy, nor the
    extension storage ([KernelFrame]) is therefore respected by every phase that
    only runs hooks; the phases that also edit the history need
    [HistoryFrame]. *)
From S2P Require Import Prelude Utf8 Types Effects Extension Session Plugins Router Engine Trace.
From S2P Require Import Hooks Finalize Dispatch Transition.

Section frames.
Context {U : AnyUniverse} {P : Type} `{!CycleRollbackPolicy U P, !KernelTypes U}.
Let Ext := ExtensionStorage U P.

Definition with_effects (f : list Effect → list Effect) (k : Kernel U P) : Kernel U P :=
  {| engine := engine k; session := session k; effects := f (effects k) |}.
Definition with_engine (en : BriocheEngine U P) (k : Kernel U P) : Kernel U P :=
  {| engine := en; session := session k; effects := effects k |}.
Definition with_session (s : Session U P) (k : Kernel U P) : Kernel U P :=
  {| engine := engine k; session := s; effects := effects k |}.

Class KernelFrame (R : relation (Kernel U P)) : Prop := {
  frame_preorder :: PreOrder R;
  frame_effects k f : R k (with_effects f k);
  frame_policy k p : R k (with_engine (set_engine_policy p (engine k)) k);
  frame_extensions k e : R k (with_session (set_extensions e (session k)) k)
}.

Class HistoryFrame (R : relation (Kernel U P)) : Prop := {
  history_kernel_frame :: KernelFrame R;
  frame_history k f : R k (with_session (set_history f (session k)) k)
}.

(** ** Hook loops *)

(** Only the storage of the session changed. *)
Definition ext_only (s s' : Session U P) : Prop := ∃ e, s' = set_extensions e s.
(** Only the storage and the history changed. *)
Definition ext_history (s s' : Session U P) : Prop :=
  ∃ e h, s' = set_extensions e (set_history (λ _, h) s).

#[export] Instance ext_only_preorder : PreOrder ext_only.
Proof using Type.
  split.
  - intros s. exists (extensions s). by destruct s.
  - intros s1 s2 s3 [e ->] [e' ->]. by exists e'.
Qed.

#[export] Instance ext_history_preorder : PreOrder ext_history.
Proof using Type.
  split.
  - intros s. exists (extensions s), (history s). by destruct s.
  - intros s1 s2 s3 (e & h & ->) (e' & h' & ->). by exists e', h'.
Qed.

Lemma ext_only_history s s' : ext_only s s' → ext_history s s'.
Proof using Type. intros [e ->]. exists e, (history s). by destruct s. Qed.

Definition hc_rel {W} (Q : relation (Session U P)) : relation (HookCtx U P W) :=
  λ c c', Q (hc_session c) (hc_session c').
Definition sw_rel {W} (Q : relation (Session U P)) : relation (Session U P * W) :=
  λ c c', Q c.1 c'.1.

#[export] Instance hc_rel_preorder {W} Q `{!PreOrder Q} : PreOrder (@hc_rel W Q).
Proof using Type. split; [intros c|intros c1 c2 c3]; unfold hc_rel; [done|apply transitivity]. Qed.

Lemma run_ext_frame {W R} (m : State Ext R) : respects (@sw_rel W ext_only) (run_ext m).
Proof using Type.
  intros [s w]. unfold run_ext, on_ext, sw_rel; cbn. destruct (m (extensions s)) as [r e]; cbn.
  by exists e.
Qed.

Lemma run_ext_data_frame {W R} (m : State (Ext * W) R) :
  respects (sw_rel ext_only) (run_ext_data m).
Proof using Type.
  intros [s w]. unfold run_ext_data, sw_rel; cbn. destruct (m (extensions s, w)) as [r [e w']]; cbn.
  by exists e.
Qed.

Lemma with_rollback_frame {W R} hname (f : State (Session U P * W) R) :
  respects (sw_rel ext_only) f → respects (hc_rel ext_only) (with_rollback hname f).
Proof using Type.
  intros Hf c. unfold with_rollback, hc_rel.
  set (s0 := match begin_hook hname <$> hc_policy c with Some p => _ | None => _ end).
  assert (ext_only (hc_session c) s0) as H0.
  { subst s0. destruct (hc_policy c); cbn; [eexists; reflexivity|reflexivity]. }
  specialize (Hf (s0, hc_data c)). destruct (f (s0, hc_data c)) as [r [s w]]; cbn in *.
  unfold sw_rel in Hf; cbn in Hf. etrans; [exact H0|]. etrans; [exact Hf|].
  destruct (rollback_policy (extensions s)) as [p|]; cbn; [|by eexists].
  destruct (is_budget_exceeded p); [destruct (rollback_hook p _)|destruct (commit_hook p _)];
    cbn; by eexists.
Qed.

Lemma on_data_frame {W} Q `{!Reflexive Q} (f : W → W) : respects (hc_rel Q) (on_data f).
Proof using Type. intros c. unfold hc_rel; cbn. reflexivity. Qed.

Lemma eval_route_frame {F W R} (plugins : list (Hook F)) hname route
    (run : F → State (Session U P * W) (PluginResult R)) on_ok :
  (∀ h, respects (sw_rel ext_only) (run h)) →
  respects (hc_rel ext_only) (eval_route plugins hname route run on_ok).
Proof using Type.
  intros Hrun. induction route as [|idx route IH]; cbn; respects_auto; try done.
  - by apply with_rollback_frame.
  - intros c. unfold hc_rel; cbn. reflexivity.
Qed.

Lemma on_error_one_frame plugin error : respects (hc_rel ext_only) (on_error_one plugin error).
Proof using Type.
  unfold on_error_one. respects_auto; [apply with_rollback_frame, run_ext_frame|].
  intros c. unfold hc_rel; cbn. reflexivity.
Qed.

Lemma hc_rel_weaken {W A} (Q Q' : relation (Session U P)) (m : State (HookCtx U P W) A) :
  (∀ s s', Q s s' → Q' s s') → respects (hc_rel Q) m → respects (hc_rel Q') m.
Proof using Type. intros H. apply respects_weaken. intros c c'. apply H. Qed.

Lemma on_input_decision_frame pname d : respects (hc_rel ext_history) (on_input_decision pname d).
Proof using Type.
  unfold on_input_decision. respects_auto; try (apply on_data_frame; apply _).
  - intros c. unfold on_hook_session, hc_rel.
    destruct (apply_history_edits_frame edits (hc_session c)) as [h Hh].
    destruct (apply_history_edits edits (hc_session c)) as [r s]; cbn in *. subst s.
    exists (extensions (hc_session c)), h. done.
  - intros c. unfold on_hook_session, hc_rel; cbn. apply ext_only_history.
    unfold log_superseded_transition. case_match. by eexists.
Qed.

Lemma on_input_loop_frame plugins input route :
  respects (hc_rel ext_history) (on_input_loop plugins input route).
Proof using Type.
  induction route as [|idx route IH]; cbn; respects_auto; try done.
  - eapply hc_rel_weaken; [apply ext_only_history|]. apply with_rollback_frame, run_ext_frame.
  - apply on_input_decision_frame.
  - apply on_data_frame; apply _.
Qed.

(** ** Kernel phases that only run hooks *)

Section kernel_frame.
Context (R : relation (Kernel U P)) `{!KernelFrame R}.

Lemma push_effect_frame e : respects R (push_effect e).
Proof using All. intros k. apply (frame_effects k (λ es, es ++ [e])). Qed.
Lemma extend_effects_frame es : respects R (extend_effects es).
Proof using All. intros k. apply (frame_effects k (λ es', es' ++ es)). Qed.
Lemma map_effects_frame f : respects R (map_effects f).
Proof using All. intros k. apply (frame_effects k f). Qed.

Lemma run_hooks_frame {W A} (m : State (HookCtx U P W) A) (w : W) :
  respects (hc_rel ext_only) m → respects R (run_hooks m w).
Proof using All.
  intros Hm k. unfold run_hooks. set (c := {| hc_policy := _ |}).
  specialize (Hm c). destruct (m c) as [a c']; cbn in *. destruct Hm as [e He].
  unfold hc_session in He. cbn in He.
  etrans; [apply (frame_policy k (hc_policy c'))|].
  etrans; [apply (frame_extensions (with_engine _ k) e)|]. cbn.
  destruct c' as [p s w']; cbn in *; subst s. reflexivity.
Qed.

Lemma on_session_ext_frame {A} (m : State Ext A) : respects R (on_session (on_ext m)).
Proof using All.
  intros k. unfold on_session, on_ext. destruct (m (extensions (session k))) as [a e]; cbn.
  apply (frame_extensions k e).
Qed.

Lemma eval_on_error_frame fs : respects R (eval_on_error fs).
Proof using All.
  unfold eval_on_error. respects_auto. all: apply run_hooks_frame; respects_auto.
  all: apply on_error_one_frame.
Qed.

Lemma report_faults_frame fs : respects R (report_faults fs).
Proof using All.
  unfold report_faults. respects_auto; first [apply eval_on_error_frame|apply extend_effects_frame].
Qed.

Lemma eval_after_prediction_frame : respects R eval_after_prediction.
Proof using All.
  unfold eval_after_prediction. respects_auto; [|apply report_faults_frame].
  apply run_hooks_frame, eval_route_frame. intros h. apply run_ext_frame.
Qed.

Lemma handle_tool_calls_frame ds : respects R (handle_tool_calls ds).
Proof using All.
  unfold handle_tool_calls. respects_auto; [|apply report_faults_frame].
  apply run_hooks_frame, eval_route_frame. intros h. apply run_ext_data_frame.
Qed.

Lemma append_state_effects_frame : respects R append_state_effects.
Proof using All. unfold append_state_effects. respects_auto; apply push_effect_frame. Qed.

Lemma intercept_all_frame ics input : respects R (intercept_all ics input).
Proof using All.
  induction ics as [|i ics IH]; cbn; respects_auto; try done;
    first [apply on_session_ext_frame|apply push_effect_frame].
Qed.

Lemma apply_epoch_interceptor_frame input : respects R (apply_epoch_interceptor input).
Proof using All. unfold apply_epoch_interceptor. respects_auto. apply intercept_all_frame. Qed.

Lemma log_override_transition_frame source :
  respects R (modify_session (log_override_transition source)).
Proof using All.
  intros k. unfold modify_session, on_session, modify, log_override_transition; cbn.
  destruct (get_or_insert_default EpochState _) as [ep e]. apply frame_extensions.
Qed.
End kernel_frame.

(** ** Phases that also edit the history *)

Section history_frame.
Context (R : relation (Kernel U P)) `{!HistoryFrame R}.

Lemma run_hooks_history_frame {W A} (m : State (HookCtx U P W) A) (w : W) :
  respects (hc_rel ext_history) m → respects R (run_hooks m w).
Proof using All.
  intros Hm k. unfold run_hooks. set (c := {| hc_policy := _ |}).
  specialize (Hm c). destruct (m c) as [a c']; cbn in *. destruct Hm as (e & h & He).
  unfold hc_session in He. cbn in He.
  etrans; [apply (frame_policy k (hc_policy c'))|].
  etrans; [apply (frame_history (with_engine _ k) (λ _, h))|].
  etrans; [apply (frame_extensions (with_session _ _) e)|]. cbn.
  destruct c' as [p s w']; cbn in *; subst s. reflexivity.
Qed.

Lemma history_edits_frame edits : respects R (on_session (apply_history_edits edits)).
Proof using All.
  intros k. unfold on_session. destruct (apply_history_edits_frame edits (session k)) as [h Hh].
  destruct (apply_history_edits edits (session k)) as [r s]; cbn in *; subst s.
  apply (frame_history k (λ _, h)).
Qed.

Lemma set_history_frame f : respects R (modify_session (set_history f)).
Proof using All. intros k. apply (frame_history k f). Qed.

Lemma eval_on_input_frame input : respects R (eval_on_input input).
Proof using All.
  unfold eval_on_input. respects_auto; [|apply eval_on_error_frame; apply _].
  apply run_hooks_history_frame, on_input_loop_frame.
Qed.

Lemma apply_decision_frame d : respects R (apply_decision d).
Proof using All.
  unfold apply_decision. respects_auto;
    first [apply history_edits_frame|apply push_effect_frame; apply _
          |apply extend_effects_frame; apply _].
Qed.
End history_frame.

(** ** The dispatch: also the state stack, the tools and the pending text *)

Class DispatchFrame (R : relation (Kernel U P)) : Prop := {
  dispatch_history_frame :: HistoryFrame R;
  frame_push st : respects R (on_session (push_state st));
  frame_pop : respects R (on_session pop_state);
  frame_tools k ts : R k (with_session (set_active_tools ts (session k)) k);
  frame_text k t : R k (with_session (set_pending_text t (session k)) k)
}.

Section dispatch_frame.
Context (R : relation (Kernel U P)) `{!DispatchFrame R}.

Lemma set_active_tools_frame ts : respects R (modify_session (set_active_tools ts)).
Proof using All. intros k. apply frame_tools. Qed.

Lemma persist_text_frame : respects R (modify_session persist_assistant_text).
Proof using All.
  intros k. unfold modify_session, on_session, modify, persist_assistant_text; cbn.
  case_decide; [by destruct k|].
  etrans; [apply (frame_history k)|]. apply (frame_text (with_session _ k)).
Qed.

Lemma accumulate_frame event : respects R (modify_session (accumulate_stream_event event)).
Proof using All.
  intros k. unfold modify_session, on_session, modify; cbn.
  destruct event; cbn; first [apply frame_text|apply frame_extensions|by destruct k].
Qed.

Lemma finalize_with_tools_frame : respects R finalize_prediction_with_tools.
Proof using All.
  unfold finalize_prediction_with_tools. respects_auto;
    first [apply persist_text_frame|apply eval_after_prediction_frame; apply _
          |apply on_session_ext_frame; apply _|apply handle_tool_calls_frame; apply _
          |apply extend_effects_frame; apply _|apply set_active_tools_frame|apply frame_push
          |apply append_state_effects_frame; apply _|apply push_effect_frame; apply _].
Qed.

Lemma finalize_text_only_frame : respects R finalize_prediction_text_only.
Proof using All.
  unfold finalize_prediction_text_only. respects_auto;
    first [apply persist_text_frame|apply eval_after_prediction_frame; apply _|apply frame_pop
          |apply append_state_effects_frame; apply _].
Qed.

Lemma dispatch_llm_stream_frame event : respects R (dispatch_llm_stream event).
Proof using All.
  unfold dispatch_llm_stream. respects_auto;
    first [apply extend_effects_frame; apply _|apply accumulate_frame
          |apply eval_on_error_frame; apply _|apply finalize_with_tools_frame
          |apply finalize_text_only_frame|idtac].
  apply run_hooks_frame; [apply _|]. apply eval_route_frame. intros h. apply run_ext_frame.
Qed.

Lemma dispatch_tool_calls_result_frame g results :
  respects R (dispatch_tool_calls_result g results).
Proof using All.
  unfold dispatch_tool_calls_result. respects_auto;
    first [apply frame_pop|apply frame_push|apply set_active_tools_frame
          |apply report_faults_frame; apply _|apply append_state_effects_frame; apply _
          |apply set_history_frame; apply _|idtac].
  apply run_hooks_frame; [apply _|]. apply eval_route_frame. intros h. apply run_ext_data_frame.
Qed.

(** Everything after the generation id is drawn. *)
Lemma dispatch_user_message_frame content :
  respects R fresh_generation_id → respects R (dispatch_user_message content).
Proof using All.
  intros Hfresh. unfold dispatch_user_message, push_history. respects_auto; try done;
    first [apply frame_push|apply report_faults_frame; apply _
          |apply append_state_effects_frame; apply _|apply set_history_frame; apply _
          |apply apply_decision_frame; apply _|apply on_session_ext_frame; apply _|idtac].
  apply run_hooks_frame; [apply _|]. apply eval_route_frame. intros h sw. apply run_ext_frame.
Qed.
End dispatch_frame.
End frames.

#[export] Hint Resolve push_effect_frame extend_effects_frame on_session_ext_frame
  eval_on_error_frame report_faults_frame eval_after_prediction_frame handle_tool_calls_frame
  append_state_effects_frame apply_epoch_interceptor_frame log_override_transition_frame
  history_edits_frame set_history_frame eval_on_input_frame apply_decision_frame : kernel.
#[export] Hint Resolve run_hooks_frame eval_route_frame run_ext_frame run_ext_data_frame : kernel.
