(* ===== verification/Termination.v ===== *)
(** * Termination of the recursive transition

    A transition in a [SubRoutine] state removes the child from the registry
    before it recurses, so the number of registered sub-routines decreases: the
    fuel [S (subroutine_count en)] of [transition] is always enough and
    [transition] satisfies the recursive equation of the Rust code. *)
From S2P Require Import Prelude Utf8 Types Effects Extension Session Plugins Router Engine Trace.
From S2P Require Import Hooks Finalize Dispatch Transition Frames.

Section termination.
Context {U : AnyUniverse} {P : Type} `{!CycleRollbackPolicy U P, !KernelTypes U}.

Let Outcome : Type := list Effect * BriocheEngine U P * Session U P.
Let Rec : Type := EngineInput → BriocheEngine U P → Session U P → option Outcome.

(** The routines are untouched by a phase that only runs hooks. *)
Definition routines_frame : relation (Kernel U P) := same (λ k, routines (engine k)).

#[export] Instance routines_kernel_frame : KernelFrame routines_frame.
Proof using Type. split; try done. split; apply _. Qed.

Lemma interceptor_routines input (k : Kernel U P) :
  routines (engine (apply_epoch_interceptor input k).2) = routines (engine k).
Proof using All. apply (apply_epoch_interceptor_frame routines_frame). Qed.

Lemma remove_subroutine_count h (en en' : BriocheEngine U P) child :
  remove_subroutine h en = (Some child, en') →
  subroutine_count en = S (subroutine_count en').
Proof using All.
  unfold remove_subroutine, registry_remove, subroutine_count. cbn. intros [= Hc <-]. cbn.
  rewrite map_size_delete, Hc.
  assert (size (sessions (subroutines (routines en))) ≠ 0) as Hne.
  { intros H0. apply map_size_empty_inv in H0. by rewrite H0, lookup_empty in Hc. }
  lia.
Qed.

(** Two candidates for the nested call that agree on smaller registries. *)
Definition agree_below (n : nat) (rec rec' : Rec) : Prop :=
  ∀ input en s, subroutine_count en < n → rec input en s = rec' input en s.
Definition total_below (n : nat) (rec : Rec) : Prop :=
  ∀ input en s, subroutine_count en < n → is_Some (rec input en s).

Lemma apply_subroutine_handler_agree rec rec' input (k : Kernel U P) :
  agree_below (subroutine_count (engine k)) rec rec' →
  apply_subroutine_handler rec input k = apply_subroutine_handler rec' input k.
Proof using All.
  intros H. unfold apply_subroutine_handler.
  destruct (subroutine_handler _); [|done]. destruct (state (session k)); try done.
  destruct (is_restore input); [done|].
  destruct (remove_subroutine _ _) as [[child|] en] eqn:Er; [|done].
  apply remove_subroutine_count in Er. by rewrite H by lia.
Qed.

Lemma apply_subroutine_handler_total rec input (k : Kernel U P) :
  total_below (subroutine_count (engine k)) rec →
  is_Some (apply_subroutine_handler rec input k).
Proof using All.
  intros H. unfold apply_subroutine_handler.
  destruct (subroutine_handler _); [|done]. destruct (state (session k)); try done.
  destruct (is_restore input); [done|].
  destruct (remove_subroutine _ _) as [[child|] en] eqn:Er; [|done].
  apply remove_subroutine_count in Er.
  destruct (H input en child) as [[[es en'] c'] ->]; [lia|]. by repeat case_match.
Qed.

(** The kernel with which the interceptors start has the same registry. *)
Lemma start_count input (en : BriocheEngine U P) s e :
  subroutine_count
    (engine (apply_epoch_interceptor input {| engine := en; session := s; effects := e |}).2)
  = subroutine_count en.
Proof using All. unfold subroutine_count. by rewrite interceptor_routines. Qed.

Lemma on_session_engine {A} (m : State (Session U P) A) (k : Kernel U P) :
  engine (on_session m k).2 = engine k.
Proof using All. unfold on_session. by destruct (m (session k)). Qed.

Lemma transition_step_agree rec rec' input en s :
  agree_below (subroutine_count en) rec rec' →
  transition_step rec input en s = transition_step rec' input en s.
Proof using All.
  intros H. unfold transition_step. case_match; try done.
  all: destruct (on_session _ _) as [ins k] eqn:Ek;
    apply (f_equal snd), (f_equal engine) in Ek; rewrite on_session_engine in Ek; cbn in Ek.
  all: case_match; try done.
  all: destruct (apply_epoch_interceptor input k) as [b k'] eqn:Ei;
    apply (f_equal snd), (f_equal (routines ∘ engine)) in Ei; cbn in Ei;
    rewrite interceptor_routines in Ei; case_match; try done.
  all: rewrite (apply_subroutine_handler_agree rec rec'); [done|].
  all: unfold subroutine_count; rewrite <- Ei, <- Ek; exact H.
Qed.

Lemma transition_step_total rec input en s :
  total_below (subroutine_count en) rec → is_Some (transition_step rec input en s).
Proof using All.
  intros H. unfold transition_step. case_match; try done.
  all: destruct (on_session _ _) as [ins k] eqn:Ek;
    apply (f_equal snd), (f_equal engine) in Ek; rewrite on_session_engine in Ek; cbn in Ek.
  all: case_match; try done.
  all: destruct (apply_epoch_interceptor input k) as [b k'] eqn:Ei;
    apply (f_equal snd), (f_equal (routines ∘ engine)) in Ei; cbn in Ei;
    rewrite interceptor_routines in Ei; case_match; try done.
  all: destruct (apply_subroutine_handler_total rec input k') as [[[] ?] Hh];
    [|by rewrite Hh..].
  all: unfold subroutine_count; rewrite <- Ei, <- Ek; exact H.
Qed.

Lemma fuel_total fuel : total_below fuel (transition_fuel fuel).
Proof using All.
  induction fuel as [|fuel IH]; intros input en s Hlt; [lia|].
  cbn [transition_fuel]. apply transition_step_total. intros i e s' H. apply IH. lia.
Qed.

Lemma fuel_agree fuel fuel' :
  fuel ≤ fuel' → agree_below fuel (transition_fuel fuel) (transition_fuel fuel').
Proof using All.
  revert fuel'. induction fuel as [|fuel IH]; intros fuel' Hle input en s Hlt; [lia|].
  destruct fuel' as [|fuel']; [lia|]. cbn [transition_fuel]. apply transition_step_agree.
  intros i e s' H. apply IH; lia.
Qed.

Lemma transition_fuel_enough fuel input en s :
  subroutine_count en < fuel →
  transition_fuel fuel input en s = Some (transition input en s).
Proof using All.
  intros H. unfold transition.
  destruct (fuel_total (S (subroutine_count en)) input en s) as [r Hr]; [lia|].
  etrans; [|rewrite Hr; exact Hr]. symmetry. apply fuel_agree; lia.
Qed.

Lemma transition_unfold input en s :
  transition_step (λ i e s, Some (transition i e s)) input en s = Some (transition input en s).
Proof using All.
  rewrite <- (transition_fuel_enough (S (subroutine_count en))) by lia.
  cbn [transition_fuel]. apply transition_step_agree. intros i e s' H.
  symmetry. by apply transition_fuel_enough.
Qed.

(** ** What a transition outside [Failure] does before it is finalized *)

Definition start (en : BriocheEngine U P) (s : Session U P) : Kernel U P :=
  {| engine := en; session := s; effects := [] |}.
Definition outcome_kernel (out : Outcome) : Kernel U P :=
  {| engine := out.1.2; session := out.2; effects := out.1.1 |}.

(** The snapshot is stored, then the interceptors run. *)
Definition snapshot_stored (en : BriocheEngine U P) (s : Session U P) :
    result unit BriocheError * Kernel U P :=
  on_session (on_ext (insert_ext (snapshot s))) (start en s).
Definition intercepted (input : EngineInput) (en : BriocheEngine U P) (s : Session U P) :
    bool * Kernel U P :=
  apply_epoch_interceptor input (snapshot_stored en s).2.

(** After the nested transition of the child, whose outcome is [out]. *)
Definition after_child (input : EngineInput) (k : Kernel U P) (h : SubRoutineHandle)
    (out : Outcome) : Kernel U P :=
  let '(child_effects, en, child) := out in
  let '(r, (parent, child)) :=
    match subroutine_handler (governance en) with
    | Some handler => handler input (session k, child)
    | None => (Ok None, (session k, child))
    end in
  {| engine := create_subroutine h child en;
     session := parent;
     effects := effects k ++ child_effects ++
       match r with
       | Ok (Some sub_effects) => sub_effects
       | Ok None => []
       | Err err => [plugin_fault "subroutine_handler" err]
       end |}.

Inductive body (input : EngineInput) (en : BriocheEngine U P) (s : Session U P) :
    Kernel U P → Prop :=
  | body_snapshot_error err :
      (snapshot_stored en s).1 = Err err →
      body input en s
        (push_effect (transition_failed (BriocheError_to_string err)) (snapshot_stored en s).2).2
  | body_blocked k :
      intercepted input en s = (true, k) → body input en s k
  | body_child k handler h child en' :
      intercepted input en s = (false, k) →
      subroutine_handler (governance (engine k)) = Some handler →
      state (session k) = AgentState.SubRoutine h →
      is_restore input = false →
      remove_subroutine h (engine k) = (Some child, en') →
      subroutine_count en' < subroutine_count en →
      body input en s (after_child input k h (transition input en' child))
  | body_input k :
      intercepted input en s = (false, k) →
      body input en s (input_phase input k).2.

Lemma intercepted_count input en s :
  subroutine_count (engine (intercepted input en s).2) = subroutine_count en.
Proof using All.
  unfold intercepted, subroutine_count. rewrite interceptor_routines.
  unfold snapshot_stored. by rewrite on_session_engine.
Qed.

Lemma apply_subroutine_handler_cases input (k : Kernel U P) :
  apply_subroutine_handler (λ i e s, Some (transition i e s)) input k = Some (false, k) ∨
  ∃ handler h child en',
    subroutine_handler (governance (engine k)) = Some handler ∧
    state (session k) = AgentState.SubRoutine h ∧ is_restore input = false ∧
    remove_subroutine h (engine k) = (Some child, en') ∧
    apply_subroutine_handler (λ i e s, Some (transition i e s)) input k =
      Some (true, after_child input k h (transition input en' child)).
Proof using All.
  unfold apply_subroutine_handler, after_child.
  destruct (subroutine_handler _) as [handler|]; [|by left].
  destruct (state (session k)) as [| | |h|] eqn:Es; try by left.
  destruct (is_restore input); [by left|].
  destruct (remove_subroutine h (engine k)) as [[child|] en'] eqn:Er; [|by left].
  right. exists handler, h, child, en'. repeat (split; [done|]).
  destruct (transition input en' child) as [[es en''] child']. by repeat case_match.
Qed.

Lemma transition_failure input en s :
  state s = AgentState.Failure → transition input en s = (failure_effects, en, s).
Proof using All.
  intros Hs. pose proof (transition_unfold input en s) as H.
  unfold transition_step in H. rewrite Hs in H. congruence.
Qed.

Lemma transition_body input en s :
  state s ≠ AgentState.Failure →
  ∃ k, body input en s k ∧ transition input en s = finish (capture_pre_transition_state s) k.
Proof using All.
  intros Hs. pose proof (transition_unfold input en s) as H. unfold transition_step in H.
  fold (start en s) in H. fold (snapshot_stored en s) in H.
  assert (∀ (A : Type) (a b : A),
    match state s with AgentState.Failure => a | _ => b end = b) as Hm.
  { intros. destruct (state s); congruence. }
  rewrite Hm in H. clear Hm.
  destruct (snapshot_stored en s) as [[[]|err] k1] eqn:E1; cbn zeta in H.
  2: { injection H as H. eexists. split; [|by symmetry].
       rewrite <- (f_equal snd E1 : (snapshot_stored en s).2 = k1). apply body_snapshot_error.
       by rewrite E1. }
  assert (intercepted input en s = apply_epoch_interceptor input k1) as E2.
  { unfold intercepted. by rewrite E1. }
  rewrite <- E2 in H. pose proof (intercepted_count input en s) as Hc.
  destruct (intercepted input en s) as [[] k2] eqn:E3; cbn in Hc.
  { injection H as H. eexists. split; [by apply body_blocked|by symmetry]. }
  destruct (apply_subroutine_handler_cases input k2)
    as [Ha|(handler & h & child & en' & Hg & Hst & Hr & Hrm & Ha)]; rewrite Ha in H;
    injection H as H; (eexists; split; [|by symmetry]).
  - by apply body_input.
  - eapply body_child; try done. apply remove_subroutine_count in Hrm. lia.
Qed.
End termination.
