(* ===== verification/Invariants.v ===== *)
(** * Invariants of a transition

    - the configuration of the engine never changes ([config_frame]);
    - at most one generation id is consumed, and only by a user message;
    - sessions stay well formed: bounded stack, no [Failure] ([session_wf]);
    - [RebuildRoutes] is the last effect when finalization puts it there. *)
From S2P Require Import Prelude Utf8 Types Effects Extension Session Plugins Router Engine Trace.
From S2P Require Import Hooks Finalize Dispatch Transition Frames Termination.

Section invariants.
Context {U : AnyUniverse} {P : Type} `{!CycleRollbackPolicy U P, !KernelTypes U}.

(** ** The configuration: plugins, routes, governance traits *)

Definition config (en : BriocheEngine U P) : PluginRouter U P * GovernanceKernel U P :=
  (router en, set_policy None (governance en)).
Definition config_frame : relation (Kernel U P) := same (λ k, config (engine k)).

#[export] Instance config_history_frame : HistoryFrame config_frame.
Proof using Type. split; [split|]; try done. split; apply _. Qed.

(** ** The generation counter *)

Definition generation (en : BriocheEngine U P) : N := next_generation_id (routines en).
Definition generation_frame : relation (Kernel U P) := same (λ k, generation (engine k)).

#[export] Instance generation_history_frame : HistoryFrame generation_frame.
Proof using Type. split; [split|]; try done. split; apply _. Qed.

Lemma on_session_config {A} (m : State (Session U P) A) : respects config_frame (on_session m).
Proof using Type. intros k. unfold on_session. by destruct (m (session k)). Qed.
Lemma on_session_generation {A} (m : State (Session U P) A) :
  respects generation_frame (on_session m).
Proof using Type. intros k. unfold on_session. by destruct (m (session k)). Qed.

(** ** Well-formed kernels *)

Definition registry_wf (r : SessionRegistry U P) : Prop :=
  map_Forall (λ _ s, session_wf s) (sessions r).

Record kernel_wf (k : Kernel U P) : Prop := {
  wf_session : session_wf (session k);
  wf_subroutines : registry_wf (subroutines (routines (engine k)))
}.

(** The traits that hold [&mut Session] keep sessions well formed. *)
Record governance_ok (g : GovernanceKernel U P) : Prop := {
  ok_hydrator f b s : subroutine_hydrator g = Some f → f b = Ok s → session_wf s;
  ok_handler f i p c : subroutine_handler g = Some f → session_wf p → session_wf c →
    session_wf (f i (p, c)).2.1 ∧ session_wf (f i (p, c)).2.2;
  ok_guard f h s r : subroutine_lifecycle_guard g = Some f → session_wf s → registry_wf r →
    session_wf (f h (s, r)).2.1 ∧ registry_wf (f h (s, r)).2.2;
  ok_failover f e s : governance_failover_handler g = Some f → session_wf s →
    session_wf (f e s).2
}.

Definition wf_frame : relation (Kernel U P) := λ k k',
  config (engine k') = config (engine k) ∧
  (governance_ok (governance (engine k)) → kernel_wf k → kernel_wf k').

Lemma governance_ok_policy p (g : GovernanceKernel U P) :
  governance_ok (set_policy p g) ↔ governance_ok g.
Proof using Type. split; intros [? ? ? ?]; split; eauto. Qed.

Lemma governance_ok_config (en en' : BriocheEngine U P) :
  config en' = config en → governance_ok (governance en) → governance_ok (governance en').
Proof using Type.
  intros H Hg. apply (f_equal snd) in H. cbn [config snd] in H.
  apply (governance_ok_policy None). rewrite H. by apply governance_ok_policy.
Qed.

#[export] Instance wf_frame_history : HistoryFrame wf_frame.
Proof using Type.
  split; [split; [split| | |]|].
  - by intros k.
  - intros k1 k2 k3 [H1 H2] [H3 H4]. split; [congruence|].
    intros Hg Hk. apply H4; [|by apply H2]. by eapply governance_ok_config.
  - intros k f. split; [done|]. intros _ [? ?]; by split.
  - intros k p. split; [done|]. intros _ [? ?]; by split.
  - intros k e. split; [done|]. intros _ [? ?]; split; [by apply (session_wf_ext (session k))|done].
  - intros k f. split; [done|]. intros _ [? ?]; split; [by apply (session_wf_ext (session k))|done].
Qed.

Lemma on_session_wf {A} (m : State (Session U P) A) :
  respects (keeps session_wf) m → respects wf_frame (on_session m).
Proof using Type.
  intros Hm k. unfold on_session. specialize (Hm (session k)).
  destruct (m (session k)) as [a s]; cbn in *. split; [done|].
  intros _ [Hs Hr]. split; [by apply Hm|done].
Qed.

#[export] Instance config_dispatch_frame : DispatchFrame config_frame.
Proof using Type. split; try apply _; try done; intros; apply on_session_config. Qed.

#[export] Instance generation_dispatch_frame : DispatchFrame generation_frame.
Proof using Type. split; try apply _; try done; intros; apply on_session_generation. Qed.

#[export] Instance wf_dispatch_frame : DispatchFrame wf_frame.
Proof using Type.
  split; try apply _.
  - intros st. apply on_session_wf, push_state_wf.
  - apply on_session_wf, pop_state_wf.
  - intros k ts. split; [done|]. intros _ [? ?]; split; [by apply (session_wf_ext (session k))|done].
  - intros k t. split; [done|]. intros _ [? ?]; split; [by apply (session_wf_ext (session k))|done].
Qed.

Lemma fresh_generation_wf : respects wf_frame fresh_generation_id.
Proof using All. intros k. split; [done|]. intros _ [? ?]. by split. Qed.

(** ** Restoring a sub-routine *)

Lemma registry_wf_insert h s r : session_wf s → registry_wf r → registry_wf (registry_insert h s r).
Proof using All. intros Hs Hr. by apply map_Forall_insert_2. Qed.

Lemma registry_wf_delete h r : registry_wf r → registry_wf (registry_remove h r).2.
Proof using All. intros Hr. by apply map_Forall_delete. Qed.

Lemma dispatch_restore_config h blob : respects config_frame (dispatch_restore_subroutine h blob).
Proof using All.
  unfold dispatch_restore_subroutine. respects_auto; try (apply push_effect_frame; apply _).
  by intros k.
Qed.

Lemma dispatch_restore_generation h blob :
  respects generation_frame (dispatch_restore_subroutine h blob).
Proof using All.
  unfold dispatch_restore_subroutine. respects_auto; try (apply push_effect_frame; apply _).
  by intros k.
Qed.

Lemma dispatch_restore_wf h blob : respects wf_frame (dispatch_restore_subroutine h blob).
Proof using All.
  intros k. split; [apply dispatch_restore_config|]. intros Hg [Hs Hr].
  unfold dispatch_restore_subroutine, bind, gets; cbn.
  destruct (subroutine_hydrator (governance (engine k))) as [f|] eqn:Ef; cbn.
  - destruct (f blob) as [s|err] eqn:Es; cbn; (split; [done|]).
    + apply registry_wf_insert; [by eapply ok_hydrator|done].
    + apply registry_wf_insert; [apply session_new_wf|done].
  - split; [done|]. apply registry_wf_insert; [apply session_new_wf|done].
Qed.

(** ** The whole dispatch *)

Definition is_user_message (input : EngineInput) : bool :=
  match input with EngineInput.UserMessage _ => true | _ => false end.

Lemma dispatch_config input : respects config_frame (dispatch_input input).
Proof using All.
  destruct input; cbn.
  - apply dispatch_user_message_frame; [apply _|]. by intros k.
  - apply dispatch_llm_stream_frame; apply _.
  - apply dispatch_tool_calls_result_frame; apply _.
  - apply dispatch_restore_config.
Qed.

Lemma dispatch_wf input : respects wf_frame (dispatch_input input).
Proof using All.
  destruct input; cbn.
  - apply dispatch_user_message_frame; [apply _|]. apply fresh_generation_wf.
  - apply dispatch_llm_stream_frame; apply _.
  - apply dispatch_tool_calls_result_frame; apply _.
  - apply dispatch_restore_wf.
Qed.

Lemma dispatch_other_generation input :
  is_user_message input = false → respects generation_frame (dispatch_input input).
Proof using All.
  destruct input; cbn; intros [=].
  - apply dispatch_llm_stream_frame; apply _.
  - apply dispatch_tool_calls_result_frame; apply _.
  - apply dispatch_restore_generation.
Qed.

(** ** Finalization *)

Section finalize_frame.
Context (R : relation (Kernel U P)) `{!HistoryFrame R}.
Context (Hrecover : respects R (modify_session recover)).

Lemma consistency_frame : respects R apply_consistency_check.
Proof using All.
  unfold apply_consistency_check. respects_auto;
    first [apply push_effect_frame; apply _|apply extend_effects_frame; apply _
          |apply history_edits_frame; apply _|exact Hrecover].
Qed.

Context (Hfailover : ∀ k handler es,
  governance_failover_handler (governance (engine k)) = Some handler →
  R k (on_session (failover_all handler es) k).2).

Lemma governance_failover_frame : respects R apply_governance_failover.
Proof using All.
  intros k. unfold apply_governance_failover, bind, gets; cbn.
  destruct (governance_failover_handler _) as [handler|] eqn:Eh; [|reflexivity].
  case_match; [reflexivity|].
  specialize (Hfailover k handler (effects k) Eh).
  destruct (on_session _ k) as [es k'] eqn:Ek; cbn in *.
  etrans; [exact Hfailover|]. apply (frame_effects k' (λ _, es)).
Qed.

Context (pre : PreTransitionState) (Hguard : respects R (apply_subroutine_lifecycle_guard pre)).

Lemma finalize_frame : respects R (finalize_transition pre).
Proof using All.
  unfold finalize_transition. respects_auto;
    first [apply Hguard|apply map_effects_frame; apply _|apply consistency_frame
          |apply governance_failover_frame].
Qed.
End finalize_frame.

Lemma guard_config pre : respects config_frame (apply_subroutine_lifecycle_guard pre).
Proof using All.
  intros k. unfold apply_subroutine_lifecycle_guard, bind, gets; cbn.
  repeat case_match; simplify_eq; done.
Qed.

Lemma guard_generation pre : respects generation_frame (apply_subroutine_lifecycle_guard pre).
Proof using All.
  intros k. unfold apply_subroutine_lifecycle_guard, bind, gets; cbn.
  repeat case_match; simplify_eq; done.
Qed.

Lemma finalize_config pre : respects config_frame (finalize_transition pre).
Proof using All.
  apply finalize_frame; [apply _|apply on_session_config| |apply guard_config].
  intros k handler es _. apply on_session_config.
Qed.

Lemma finalize_generation pre : respects generation_frame (finalize_transition pre).
Proof using All.
  apply finalize_frame; [apply _|apply on_session_generation| |apply guard_generation].
  intros k handler es _. apply on_session_generation.
Qed.

Lemma recover_wf (s : Session U P) : session_wf (recover s).
Proof using All. split; cbn; [lia|done|apply not_elem_of_nil]. Qed.

Lemma guard_wf pre : respects wf_frame (apply_subroutine_lifecycle_guard pre).
Proof using All.
  intros k. split; [apply guard_config|]. intros Hg Hk.
  unfold apply_subroutine_lifecycle_guard, bind, gets; cbn.
  case_match; [done|]. destruct (state (session k)); try done.
  all: destruct (subroutine_lifecycle_guard _) as [f|] eqn:Ef, (pre_handle pre) as [h|]; try done.
  all: pose proof (ok_guard _ Hg f h (session k) _ Ef (wf_session _ Hk) (wf_subroutines _ Hk))
         as [Hs Hr].
  all: destruct (f h _) as [[es|err] [s' r']]; by split.
Qed.

Lemma failover_all_wf handler es (g : GovernanceKernel U P) :
  governance_failover_handler g = Some handler → governance_ok g →
  respects (keeps session_wf) (failover_all handler es).
Proof using All.
  intros Hh Hg. induction es as [|e es IH]; cbn; respects_auto; try done.
  unfold failover_effect. respects_auto; try done.
  intros s Hs. by eapply ok_failover.
Qed.

Lemma finalize_wf pre : respects wf_frame (finalize_transition pre).
Proof using All.
  apply finalize_frame; [apply _| | |apply guard_wf].
  - apply on_session_wf. intros s _. apply recover_wf.
  - intros k handler es Hh. split; [apply on_session_config|]. intros Hg [Hs Hr].
    unfold on_session. pose proof (failover_all_wf _ es _ Hh Hg (session k)) as Hf.
    destruct (failover_all handler es (session k)) as [r s']; cbn in *.
    split; [by apply Hf|done].
Qed.

(** ** The transition *)

Lemma intercepted_frame (R : relation (Kernel U P)) `{!KernelFrame R} input en s :
  R (start en s) (intercepted input en s).2.
Proof using All.
  unfold intercepted. etrans; [|apply (apply_epoch_interceptor_frame R)].
  apply (on_session_ext_frame R).
Qed.

Lemma input_phase_frame (R : relation (Kernel U P)) `{!HistoryFrame R} input :
  respects R (dispatch_input input) → respects R (input_phase input).
Proof using All.
  intros Hd. unfold input_phase, dispatch_phase. respects_auto;
    first [apply eval_on_input_frame; apply _|apply log_override_transition_frame; apply _
          |apply extend_effects_frame; apply _|apply push_effect_frame; apply _|exact Hd].
Qed.

(** A frame relation that the dispatch, the finalization and the return from a
    child respect relates the two ends of a whole transition. *)
Lemma transition_frame (R : relation (Kernel U P)) `{!HistoryFrame R} input :
  (∀ pre, respects R (finalize_transition pre)) →
  respects R (dispatch_input input) →
  (∀ k h child en' out,
    remove_subroutine h (engine k) = (Some child, en') →
    R (start en' child) (outcome_kernel out) → R k (after_child input k h out)) →
  ∀ en s, R (start en s) (outcome_kernel (transition input en s)).
Proof using All.
  intros Hfin Hdisp Hchild.
  assert (∀ n en s, subroutine_count en = n →
    R (start en s) (outcome_kernel (transition input en s))) as H; [|by intros; eapply H].
  intros n. induction n as [n IH] using lt_wf_ind. intros en s Hn.
  destruct (decide (state s = AgentState.Failure)) as [Hf|Hf].
  { rewrite transition_failure by done.
    apply (frame_effects (start en s) (λ _, failure_effects)). }
  destruct (transition_body input en s Hf) as (k & Hb & ->).
  assert (R (start en s) k) as Hk.
  { pose proof (intercepted_frame R input en s) as Hi.
    destruct Hb as [err _|k Ek|k handler h child en' Ek Hh Hs Hr Hrm Hlt|k Ek];
      [|rewrite Ek in Hi; cbn in Hi..].
    - etrans; [|apply (push_effect_frame R)]. apply (on_session_ext_frame R).
    - done.
    - etrans; [exact Hi|]. eapply Hchild; [done|]. eapply IH; [|done]. lia.
    - etrans; [exact Hi|]. by apply (input_phase_frame R). }
  etrans; [exact Hk|]. unfold finish, outcome_kernel; cbn.
  specialize (Hfin (capture_pre_transition_state s) k).
  destruct (finalize_transition _ k) as [[] k']; cbn in *. by destruct k'.
Qed.

Lemma after_child_engine input (k : Kernel U P) h out :
  ∃ child, engine (after_child input k h out) = create_subroutine h child out.1.2.
Proof using Type.
  destruct out as [[es en] child]. unfold after_child. cbn. repeat case_match; cbn; eauto.
Qed.

Lemma transition_keeps_config input (en : BriocheEngine U P) s :
  config (transition input en s).1.2 = config en.
Proof using All.
  apply (transition_frame config_frame);
    [apply finalize_config|apply dispatch_config|].
  intros k h child en' out Hrm Hout. unfold config_frame, same in *.
  destruct (after_child_engine input k h out) as [c ->]. cbn in *.
  unfold remove_subroutine in Hrm. injection Hrm as _ <-. exact Hout.
Qed.

Lemma transition_keeps_generation input (en : BriocheEngine U P) s :
  is_user_message input = false →
  generation (transition input en s).1.2 = generation en.
Proof using All.
  intros Hi. apply (transition_frame generation_frame);
    [apply finalize_generation|by apply dispatch_other_generation|].
  intros k h child en' out Hrm Hout. unfold generation_frame, same in *.
  destruct (after_child_engine input k h out) as [c ->]. cbn in *.
  unfold remove_subroutine in Hrm. injection Hrm as _ <-. exact Hout.
Qed.

Lemma after_child_config input (k : Kernel U P) h child en' out :
  remove_subroutine h (engine k) = (Some child, en') →
  config out.1.2 = config en' → config (engine (after_child input k h out)) = config (engine k).
Proof using All.
  intros Hrm Hout. destruct (after_child_engine input k h out) as [c ->].
  unfold remove_subroutine in Hrm. injection Hrm as _ <-. exact Hout.
Qed.

Lemma body_config input (en : BriocheEngine U P) s k :
  body input en s k → config (engine k) = config en.
Proof using All.
  pose proof (intercepted_frame config_frame input en s) as Hi.
  destruct 1 as [err _|k Ek|k handler h child en' Ek Hh Hs Hr Hrm Hlt|k Ek];
    [|rewrite Ek in Hi; cbn [snd] in Hi..].
  - apply (on_session_config _ (start en s)).
  - exact Hi.
  - etrans; [|exact Hi]. eapply after_child_config; [done|]. apply transition_keeps_config.
  - etrans; [apply (input_phase_frame config_frame), dispatch_config|exact Hi].
Qed.

Lemma transition_keeps_wf input (en : BriocheEngine U P) s :
  governance_ok (governance en) → session_wf s → registry_wf (subroutines (routines en)) →
  session_wf (transition input en s).2 ∧
  registry_wf (subroutines (routines (transition input en s).1.2)).
Proof using All.
  intros Hg Hs Hr.
  cut (wf_frame (start en s) (outcome_kernel (transition input en s))).
  { intros [_ H]. destruct (H Hg) as [? ?]; [by split|done]. }
  apply (transition_frame wf_frame); [apply finalize_wf|apply dispatch_wf|].
  intros k h child en' [[es en''] child'] Hrm [Hc Hwf].
  split; [by eapply after_child_config|]. intros Hgk [Hsk Hrk].
  unfold remove_subroutine, registry_remove in Hrm. injection Hrm as Hch <-. cbn in *.
  assert (session_wf child) as Hchild by exact (Hrk _ _ Hch).
  destruct Hwf as [Hs' Hr']; cbn in *; [done|split; [done|by apply map_Forall_delete]|].
  assert (governance_ok (governance en'')) as Hg''.
  { by apply (governance_ok_config (engine k)); [rewrite Hc|]. }
  unfold after_child. destruct (subroutine_handler _) as [f|] eqn:Ef.
  - pose proof (ok_handler _ Hg'' f input (session k) child' Ef Hsk Hs') as [? ?].
    destruct (f input _) as [r [p c]]; cbn in *. split; [done|by apply registry_wf_insert].
  - split; [done|by apply registry_wf_insert].
Qed.

(** ** A user message draws at most one generation id *)

Lemma dispatch_user_message_draws content (k : Kernel U P) :
  generation (engine (dispatch_user_message content k).2)
  = wrapping_add (generation (engine k)) 1.
Proof using All.
  unfold dispatch_user_message, push_history.
  lazymatch goal with
  | |- context [bind (modify_session ?f) (λ _, bind fresh_generation_id ?rest)] =>
      assert (∀ g, respects generation_frame (rest g)) as Hrest
  end.
  { intros g. respects_auto; try done;
      first [apply frame_push|apply report_faults_frame; apply _
            |apply append_state_effects_frame; apply _|apply set_history_frame; apply _
            |apply apply_decision_frame; apply _|apply on_session_ext_frame; apply _|idtac].
    apply run_hooks_frame; [apply _|]. apply eval_route_frame. intros h sw. apply run_ext_frame. }
  etrans; [apply Hrest|]. reflexivity.
Qed.

Definition advances (k k' : Kernel U P) : Prop :=
  generation (engine k') = generation (engine k) ∨
  generation (engine k') = wrapping_add (generation (engine k)) 1.

Lemma dispatch_phase_advances content : respects advances (dispatch_phase (EngineInput.UserMessage content)).
Proof using All.
  intros k. unfold dispatch_phase, bind. cbn [dispatch_input].
  pose proof (dispatch_user_message_draws content k) as H.
  destruct (dispatch_user_message content k) as [[x|err] k']; cbn in *; by right.
Qed.

Lemma input_phase_advances content : respects advances (input_phase (EngineInput.UserMessage content)).
Proof using All.
  intros k. unfold input_phase, gets, bind. cbn.
  pose proof (eval_on_input_frame generation_frame (EngineInput.UserMessage content) k) as H.
  destruct (eval_on_input _ k) as [ir k1]; cbn in H. unfold generation_frame, same in H.
  unfold advances. rewrite <- H.
  destruct ir as [|detail|ov source|es]; cbn.
  - exact (dispatch_phase_advances content k1).
  - by left.
  - left. exact (log_override_transition_frame generation_frame source k1).
  - exact (dispatch_phase_advances content (extend_effects _ k1).2).
Qed.

Lemma transition_advances content (en : BriocheEngine U P) s :
  advances (start en s) (outcome_kernel (transition (EngineInput.UserMessage content) en s)).
Proof using All.
  remember (subroutine_count en) as n eqn:Hn. revert en s Hn.
  induction n as [n IH] using lt_wf_ind. intros en s Hn.
  destruct (decide (state s = AgentState.Failure)) as [Hf|Hf].
  { rewrite transition_failure by done. by left. }
  destruct (transition_body (EngineInput.UserMessage content) en s Hf) as (k & Hb & ->).
  assert (advances (start en s) k) as Hk.
  { pose proof (intercepted_frame generation_frame (EngineInput.UserMessage content) en s) as Hi.
    unfold generation_frame, same in Hi.
    destruct Hb as [err _|k Ek|k handler h child en' Ek Hh Hs Hr Hrm Hlt|k Ek];
      [|rewrite Ek in Hi; cbn in Hi; unfold advances; cbn; rewrite <- Hi..].
    - left. apply (on_session_generation _ (start en s)).
    - by left.
    - destruct (IH (subroutine_count en') ltac:(lia) en' child eq_refl) as [H|H]; [left|right].
      all: destruct (after_child_engine (EngineInput.UserMessage content) k h
             (transition (EngineInput.UserMessage content) en' child)) as [c ->].
      all: unfold remove_subroutine in Hrm; injection Hrm as _ <-; exact H.
    - apply (input_phase_advances content k). }
  pose proof (finalize_generation (capture_pre_transition_state s) k) as Hfin.
  unfold finish, outcome_kernel, generation_frame, same in *. unfold advances in *; cbn in *.
  destruct (finalize_transition _ k) as [[] k']; cbn in *. by rewrite Hfin.
Qed.
End invariants.
