(* ===== verification/Lifecycle.v ===== *)
(** * The session automaton as a step relation

    [lifecycle] describes what one dispatched input does to the current state and
    its stack, and nothing else; [Dispatch.dispatch_input] refines it whatever the
    plugins do.  [well_nested] is the shape of every reachable automaton. *)
From S2P Require Import Prelude Utf8 Types Effects Extension Session Plugins Router Engine Trace.
From S2P Require Import Hooks Finalize Dispatch Transition Frames Termination Invariants.

(** The current state and the stack below it, oldest first. *)
Definition Automaton : Type := AgentState * list AgentState.
(** The whole nesting, oldest first. *)
Definition nesting (a : Automaton) : list AgentState := a.2 ++ [a.1].

Abbreviation predicting := AgentState.Predicting.
Abbreviation executing := AgentState.ExecutingTools.

(** [lifecycle gen input a ok a']: with [gen] the next generation id, [input]
    takes [a] to [a']; [ok] tells whether the dispatch returned [Ok]. *)
Inductive lifecycle (gen : N) : EngineInput → Automaton → bool → Automaton → Prop :=
  | lc_user content st stack ok :
      length stack < MAX_STATE_STACK_DEPTH →
      lifecycle gen (EngineInput.UserMessage content) (st, stack) ok
        (predicting gen, stack ++ [st])
  | lc_user_full content st stack :
      MAX_STATE_STACK_DEPTH ≤ length stack →
      lifecycle gen (EngineInput.UserMessage content) (st, stack) false (st, stack)
  | lc_tool_calls idx g stack :
      length stack < MAX_STATE_STACK_DEPTH →
      lifecycle gen (EngineInput.LlmStream (StreamEvent.ToolCallDone idx)) (predicting g, stack)
        true (executing g, stack ++ [predicting g])
  | lc_tool_calls_full idx g stack :
      MAX_STATE_STACK_DEPTH ≤ length stack →
      lifecycle gen (EngineInput.LlmStream (StreamEvent.ToolCallDone idx)) (predicting g, stack)
        false (predicting g, stack)
  | lc_done g stack prev :
      lifecycle gen (EngineInput.LlmStream StreamEvent.Done) (predicting g, stack ++ [prev])
        true (prev, stack)
  | lc_done_empty g :
      lifecycle gen (EngineInput.LlmStream StreamEvent.Done) (predicting g, []) false (predicting g, [])
  | lc_stream event a :
      event ≠ StreamEvent.Done ∨ (∀ g, a.1 ≠ predicting g) →
      lifecycle gen (EngineInput.LlmStream event) a true a
  | lc_results g results st stack prev :
      length stack < MAX_STATE_STACK_DEPTH →
      lifecycle gen (EngineInput.ToolCallsResult g results) (st, stack ++ [prev])
        true (predicting g, stack ++ [prev])
  | lc_results_full g results st stack prev :
      MAX_STATE_STACK_DEPTH ≤ length stack →
      lifecycle gen (EngineInput.ToolCallsResult g results) (st, stack ++ [prev])
        false (prev, stack)
  | lc_results_empty g results st :
      lifecycle gen (EngineInput.ToolCallsResult g results) (st, []) false (st, [])
  | lc_restore h blob a :
      lifecycle gen (EngineInput.RestoreSubRoutine h blob) a true a.

(** ** The shape of a reachable automaton *)

(** What may lie directly above [below] in the nesting: a prediction anywhere, a
    tool round only above the prediction that asked for it. *)
Definition follows (below st : AgentState) : bool :=
  match st with
  | AgentState.Predicting _ => true
  | AgentState.ExecutingTools g => bool_decide (below = predicting g)
  | _ => false
  end.

Fixpoint nested (below : AgentState) (l : list AgentState) : bool :=
  match l with
  | [] => true
  | st :: l' => follows below st && nested st l'
  end.

(** [Idle] at the bottom and nowhere else, neither [SubRoutine] nor [Failure]. *)
Definition well_nested (a : Automaton) : bool :=
  match nesting a with
  | AgentState.Idle :: l => nested AgentState.Idle l
  | _ => false
  end.

Lemma last_cons {A} (x d : A) (l : list A) : List.last (x :: l) d = List.last l x.
Proof.
  revert x d. induction l as [|y l IH]; intros x d; [done|].
  change (List.last (y :: l) d = List.last (y :: l) x). by rewrite !IH.
Qed.

Lemma nested_app below l l' :
  nested below (l ++ l') = nested below l && nested (List.last l below) l'.
Proof.
  revert below. induction l as [|st l IH]; intros below; [done|].
  rewrite last_cons. cbn. by rewrite IH, andb_assoc.
Qed.

Lemma well_nested_push a st :
  well_nested a = true → follows a.1 st = true → well_nested (st, nesting a) = true.
Proof.
  destruct a as [cur stack]. unfold well_nested, nesting. cbn [fst snd].
  destruct stack as [|bottom stack]; cbn.
  - destruct cur; try done. intros _ ->. done.
  - destruct bottom; try done. rewrite !nested_app. cbn. intros [-> ->]%andb_prop Hf. cbn.
    by rewrite last_last, Hf.
Qed.

Lemma well_nested_pop st stack prev :
  well_nested (st, stack ++ [prev]) = true → well_nested (prev, stack) = true.
Proof.
  unfold well_nested, nesting. cbn [fst snd]. destruct stack as [|bottom stack]; cbn.
  - by destruct prev.
  - destruct bottom; try done. rewrite nested_app. by intros [-> _]%andb_prop.
Qed.

Lemma lifecycle_well_nested gen input a ok a' :
  lifecycle gen input a ok a' → well_nested a = true → well_nested a' = true.
Proof.
  destruct 1; intros Hw; try done.
  - by apply (well_nested_push (st, stack)).
  - apply (well_nested_push (predicting g, stack)); [done|]. by apply bool_decide_eq_true.
  - by eapply well_nested_pop.
  - apply (well_nested_push (prev, stack)); [|done]. by eapply well_nested_pop.
  - by eapply well_nested_pop.
Qed.

Lemma lifecycle_depth gen input a ok a' :
  lifecycle gen input a ok a' →
  length a.2 ≤ MAX_STATE_STACK_DEPTH → length a'.2 ≤ MAX_STATE_STACK_DEPTH.
Proof. destruct 1; cbn; rewrite ?length_app; cbn; lia. Qed.

Lemma well_nested_no_subroutine a h : well_nested a = true → a.1 ≠ AgentState.SubRoutine h.
Proof.
  destruct a as [st stack]. unfold well_nested, nesting. cbn [fst snd]. intros Hw ->.
  destruct stack as [|bottom stack]; cbn in Hw; [done|]. destruct bottom; try done.
  rewrite nested_app in Hw. cbn in Hw. by rewrite andb_false_r in Hw.
Qed.

(** *** Reading a step off its input *)

Ltac invert_lifecycle H :=
  inversion H; subst;
  repeat match goal with
  | E : _ ++ [_] = _ ++ [_] |- _ => apply app_inj_tail in E as [-> ->]
  | E : [] = _ ++ [_] |- _ => by apply app_cons_not_nil in E
  end; try done; try lia.

Lemma lifecycle_results gen g results st stack prev ok a' :
  lifecycle gen (EngineInput.ToolCallsResult g results) (st, stack ++ [prev]) ok a' →
  length stack < MAX_STATE_STACK_DEPTH → a' = (predicting g, stack ++ [prev]).
Proof. intros H Hl. invert_lifecycle H. Qed.

Lemma lifecycle_done gen g stack prev ok a' :
  lifecycle gen (EngineInput.LlmStream StreamEvent.Done) (predicting g, stack ++ [prev]) ok a' →
  a' = (prev, stack).
Proof. intros H. invert_lifecycle H. match goal with Ho : _ ∨ _ |- _ => destruct Ho as [Ho|Ho]; [done|by destruct (Ho g)] end. Qed.

Section lifecycle.
Context {U : AnyUniverse} {P : Type} `{!CycleRollbackPolicy U P, !KernelTypes U}.
Implicit Types k : Kernel U P.

Definition automaton (s : Session U P) : Automaton := (state s, state_stack s).
Definition automaton_frame : relation (Kernel U P) := same (λ k, automaton (session k)).

#[export] Instance automaton_history_frame : HistoryFrame automaton_frame.
Proof using Type. split; [split|]; try done. split; apply _. Qed.

Lemma stack_text_frame : respects automaton_frame (modify_session persist_assistant_text).
Proof using Type.
  intros k. unfold modify_session, on_session, modify, persist_assistant_text, automaton_frame,
    same; cbn. by case_decide.
Qed.

Lemma append_state_ok k : automaton (session (append_state_effects k).2) = automaton (session k).
Proof using All. apply (append_state_effects_frame automaton_frame). Qed.

(** *** Pushing and popping inside the kernel *)

Lemma on_push_ok st k :
  st ≠ AgentState.Failure → length (state_stack (session k)) < MAX_STATE_STACK_DEPTH →
  ∃ k', on_session (push_state st) k = (Ok tt, k') ∧
    automaton (session k') = (st, state_stack (session k) ++ [state (session k)]) ∧
    k' = with_session (session k') k.
Proof using Type.
  intros Hst Hl. unfold on_session, push_state.
  destruct st; try done; rewrite decide_False by lia; by eexists.
Qed.

Lemma on_push_full st k :
  st ≠ AgentState.Failure → MAX_STATE_STACK_DEPTH ≤ length (state_stack (session k)) →
  ∃ err, on_session (push_state st) k = (Err err, k).
Proof using Type.
  intros Hst Hl. unfold on_session, push_state.
  destruct k, st; cbn in *; try done; rewrite decide_True by lia; by eexists.
Qed.

Lemma on_pop_snoc k stack prev :
  state_stack (session k) = stack ++ [prev] →
  on_session pop_state k
  = (Ok (state (session k)), with_session (set_state prev stack (session k)) k).
Proof using Type. intros H. unfold on_session. by rewrite (pop_state_snoc _ _ _ H). Qed.

Lemma on_pop_nil k :
  state_stack (session k) = [] → ∃ err, on_session pop_state k = (Err err, k).
Proof using Type.
  intros H. unfold on_session. rewrite (pop_state_nil _ H). destruct k. by eexists.
Qed.

(** *** Each handler refines the relation *)

Definition refines input k : Prop :=
  lifecycle (generation (engine k)) input (automaton (session k))
    (is_ok (dispatch_input input k).1) (automaton (session (dispatch_input input k).2)).

Lemma user_message_refines content k : refines (EngineInput.UserMessage content) k.
Proof using All.
  unfold refines. cbn [dispatch_input]. unfold dispatch_user_message, push_history.
  set (k1 := with_engine
    (set_routines {| subroutines := subroutines (routines (engine k));
                     next_generation_id := wrapping_add (generation (engine k)) 1 |} (engine k))
    (with_session (set_history (λ h, h ++ [ChatMessage.User content]) (session k)) k)).
  lazymatch goal with
  | |- context [bind (modify_session ?f) (λ _, bind fresh_generation_id ?body) k] =>
      change (bind (modify_session f) (λ _, bind fresh_generation_id body) k)
        with (body (generation (engine k)) k1)
  end. cbv beta.
  destruct (decide (length (state_stack (session k)) < MAX_STATE_STACK_DEPTH)) as [Hl|Hl].
  - destruct (on_push_ok (predicting (generation (engine k))) k1) as (k2 & Hp & Ha & _); [done..|].
    rewrite (bind_ok_Ok _ _ _ _ _ Hp).
    lazymatch goal with |- context [?rest k2] =>
      assert (respects automaton_frame rest) as Hrest end.
    { respects_auto; try done;
        first [apply report_faults_frame; apply _
              |apply append_state_effects_frame; apply _
              |apply apply_decision_frame; apply _|apply on_session_ext_frame; apply _|idtac].
      apply run_hooks_frame; [apply _|]. apply eval_route_frame. intros h sw. apply run_ext_frame. }
    specialize (Hrest k2). unfold automaton_frame, same in Hrest. rewrite Hrest, Ha.
    by apply lc_user.
  - destruct (on_push_full (predicting (generation (engine k))) k1) as (err & Hp); [done|cbn; lia|].
    rewrite (bind_ok_Err _ _ _ _ _ Hp). apply lc_user_full. cbn. lia.
Qed.

Lemma append_state_tail (k : Kernel U P) (r : result unit BriocheError) :
  automaton (session ((append_state_effects ;;! ret r) k).2) = automaton (session k) ∧
  ((append_state_effects ;;! ret r) k).1 = r.
Proof using All. split; [apply append_state_ok|done]. Qed.

Lemma handle_tool_calls_ok ds k : ∃ ds', (handle_tool_calls ds k).1 = Ok ds'.
Proof using Type. eexists. reflexivity. Qed.

(** The automaton part of closing a prediction with tool calls. *)
Lemma with_tools_refines idx g k :
  state (session k) = predicting g →
  lifecycle (generation (engine k)) (EngineInput.LlmStream (StreamEvent.ToolCallDone idx))
    (automaton (session k)) (is_ok (finalize_prediction_with_tools k).1)
    (automaton (session (finalize_prediction_with_tools k).2)).
Proof using All.
  intros Hst. unfold finalize_prediction_with_tools.
  set (k1 := (modify_session persist_assistant_text k).2).
  set (k2 := (eval_after_prediction k1).2).
  set (k3 := (on_session (on_ext drain) k2).2).
  assert (automaton (session k3) = automaton (session k)) as H3.
  { etrans; [apply (on_session_ext_frame automaton_frame)|].
    etrans; [apply (eval_after_prediction_frame automaton_frame)|]. apply stack_text_frame. }
  rewrite (bind_pair _ _ k). fold k1. rewrite (bind_pair _ _ k1). fold k2.
  rewrite (bind_pair _ _ k2). fold k3.
  destruct (on_session (on_ext drain) k2).1 as [|d ds]; cbn [ret fst snd is_ok].
  { rewrite H3. apply lc_stream. by left. }
  pose proof (handle_tool_calls_frame automaton_frame (d :: ds) k3) as H4.
  destruct (handle_tool_calls (d :: ds) k3) as [r4 k4] eqn:E4. cbn [snd] in H4.
  assert (∃ ds', r4 = Ok ds') as [ds' ->].
  { apply (f_equal fst) in E4. cbn [fst] in E4. subst r4. apply handle_tool_calls_ok. }
  rewrite (bind_ok_Ok _ _ _ _ _ E4), (bind_pair _ _ k4). cbn [gets fst snd id].
  destruct (materialize_tool_calls _ _) as [active err].
  set (k5 := (extend_effects (option_list err) k4).2). rewrite (bind_pair _ _ k4). fold k5.
  set (k6 := (modify_session (set_active_tools active) k5).2).
  rewrite (bind_pair _ _ k5). fold k6.
  assert (automaton (session k6) = automaton (session k)) as H6 by (etrans; [exact H4|exact H3]).
  assert (state (session k4) = predicting g) as Hs4.
  { rewrite <- Hst. pose proof (f_equal fst H6) as Hf. exact Hf. }
  rewrite Hs4. cbn [AgentState_generation_id].
  assert (state (session k6) = predicting g) as Hs6 by exact Hs4.
  assert (state_stack (session k6) = state_stack (session k)) as Hst6 by exact (f_equal snd H6).
  unfold automaton at 1. rewrite Hst.
  destruct (decide (length (state_stack (session k)) < MAX_STATE_STACK_DEPTH)) as [Hl|Hl].
  - destruct (on_push_ok (executing g) k6) as (k7 & Hp & Ha & _); [done|by rewrite Hst6|].
    rewrite (bind_ok_Ok _ _ _ _ _ Hp).
    destruct (append_state_tail k7 (Ok tt)) as [-> ->]. rewrite Ha, Hs6, Hst6.
    by apply lc_tool_calls.
  - destruct (on_push_full (executing g) k6) as (err' & Hp); [done|rewrite Hst6; lia|].
    rewrite (bind_ok_Err _ _ _ _ _ Hp). cbn [fst snd is_ok].
    rewrite H6. unfold automaton. rewrite Hst. apply lc_tool_calls_full. lia.
Qed.

Lemma text_only_refines g k :
  state (session k) = predicting g →
  lifecycle (generation (engine k)) (EngineInput.LlmStream StreamEvent.Done)
    (automaton (session k)) (is_ok (finalize_prediction_text_only k).1)
    (automaton (session (finalize_prediction_text_only k).2)).
Proof using All.
  intros Hst. unfold finalize_prediction_text_only.
  set (k1 := (modify_session persist_assistant_text k).2).
  set (k2 := (eval_after_prediction k1).2).
  assert (automaton (session k2) = automaton (session k)) as H2.
  { etrans; [apply (eval_after_prediction_frame automaton_frame)|]. apply stack_text_frame. }
  rewrite (bind_pair _ _ k). fold k1. rewrite (bind_pair _ _ k1). fold k2.
  rewrite (bind_pair _ _ k2). cbn [gets fst snd].
  assert (state (session k2) = predicting g) as Hs2 by (rewrite <- Hst; exact (f_equal fst H2)).
  assert (state_stack (session k2) = state_stack (session k)) as Hst2 by exact (f_equal snd H2).
  rewrite Hs2. unfold automaton at 1. rewrite Hst.
  destruct (state_stack (session k)) as [|prev stack _] eqn:Estk using rev_ind.
  - destruct (on_pop_nil k2) as (err & Hp); [done|].
    rewrite (bind_ok_Err _ _ _ _ _ Hp). cbn [fst snd is_ok]. unfold automaton.
    rewrite Hs2, Hst2. apply lc_done_empty.
  - rewrite (bind_ok_Ok _ _ _ _ _ (on_pop_snoc k2 stack prev Hst2)).
    lazymatch goal with |- context [(append_state_effects ;;! ret ?r) ?k3] =>
      destruct (append_state_tail k3 r) as [-> ->] end.
    apply lc_done.
Qed.

Definition auto_gen (k : Kernel U P) : N * Automaton :=
  (generation (engine k), automaton (session k)).

#[export] Instance auto_gen_frame : HistoryFrame (same auto_gen).
Proof using Type. split; [split|]; try done. split; apply _. Qed.

Lemma accumulate_auto_gen event : respects (same auto_gen) (modify_session (accumulate_stream_event event)).
Proof using Type. intros k. by destruct event. Qed.

Lemma llm_stream_refines event k : refines (EngineInput.LlmStream event) k.
Proof using All.
  unfold refines. cbn [dispatch_input]. unfold dispatch_llm_stream. rewrite (bind_pair _ _ k).
  cbn [gets fst snd id].
  destruct (state (session k)) as [|g| | |] eqn:Hst;
    try (cbn; apply lc_stream; right; cbn; rewrite Hst; done).
  cbv zeta. rewrite (bind_pair _ _ k). set (k1 := (run_hooks _ _ k).2).
  set (fs := (run_hooks _ _ k).1). rewrite (bind_pair _ _ k1). set (k2 := (eval_on_error _ k1).2).
  rewrite (bind_pair _ _ k2). set (k3 := (extend_effects _ k2).2).
  rewrite (bind_pair _ _ k3). set (k4 := (extend_effects _ k3).2).
  rewrite (bind_pair _ _ k4). set (k5 := (extend_effects _ k4).2).
  rewrite (bind_pair _ _ k5). set (k6 := (modify_session _ k5).2).
  assert (auto_gen k6 = auto_gen k) as H6.
  { etrans; [apply accumulate_auto_gen|].
    etrans; [apply (eval_on_error_frame (same auto_gen))|].
    apply (run_hooks_frame (same auto_gen)), eval_route_frame. intros h. apply run_ext_frame. }
  assert (generation (engine k6) = generation (engine k)) as Hg by exact (f_equal fst H6).
  assert (automaton (session k6) = automaton (session k)) as Ha by exact (f_equal snd H6).
  assert (state (session k6) = predicting g) as Hs6 by (rewrite <- Hst; exact (f_equal fst Ha)).
  clearbody k6. clear H6. rewrite <- Hg, <- Ha.
  destruct event; try (apply lc_stream; by left).
  - by apply (with_tools_refines _ g).
  - by apply (text_only_refines g).
Qed.

Lemma tool_calls_result_refines g results k : refines (EngineInput.ToolCallsResult g results) k.
Proof using All.
  unfold refines. cbn [dispatch_input]. unfold dispatch_tool_calls_result.
  unfold automaton at 1. destruct (state_stack (session k)) as [|prev stack _] eqn:Hstk using rev_ind.
  { destruct (on_pop_nil k Hstk) as (err & Hp). rewrite (bind_ok_Err _ _ _ _ _ Hp).
    cbn [fst snd is_ok]. unfold automaton. rewrite Hstk. apply lc_results_empty. }
  rewrite (bind_ok_Ok _ _ _ _ _ (on_pop_snoc k stack prev Hstk)).
  set (k1 := with_session _ k). rewrite (bind_pair _ _ k1). set (k2 := (modify_session _ k1).2).
  rewrite (bind_pair _ _ k2). cbn [gets fst snd].
  rewrite (bind_pair _ _ k2). set (k3 := (run_hooks _ _ k2).2). set (fs := (run_hooks _ _ k2).1).
  rewrite (bind_pair _ _ k3). set (k4 := (report_faults _ k3).2).
  rewrite (bind_pair _ _ k4). set (k5 := (modify_session _ k4).2).
  assert (automaton (session k5) = (prev, stack)) as H5.
  { etrans; [apply (report_faults_frame automaton_frame)|].
    apply (run_hooks_frame automaton_frame _ _), eval_route_frame. intros h. apply run_ext_data_frame. }
  assert (state (session k5) = prev) as Hs5 by exact (f_equal fst H5).
  assert (state_stack (session k5) = stack) as Hst5 by exact (f_equal snd H5).
  clearbody k5.
  destruct (decide (length stack < MAX_STATE_STACK_DEPTH)) as [Hl|Hl].
  - destruct (on_push_ok (predicting g) k5) as (k6 & Hp & Ha & _); [done|by rewrite Hst5|].
    rewrite (bind_ok_Ok _ _ _ _ _ Hp). destruct (append_state_tail k6 (Ok tt)) as [-> ->].
    rewrite Ha, Hs5, Hst5. by apply lc_results.
  - destruct (on_push_full (predicting g) k5) as (err & Hp); [done|rewrite Hst5; lia|].
    rewrite (bind_ok_Err _ _ _ _ _ Hp). cbn [fst snd is_ok]. unfold automaton.
    rewrite Hs5, Hst5. apply lc_results_full. lia.
Qed.

Lemma restore_refines h blob k : refines (EngineInput.RestoreSubRoutine h blob) k.
Proof using All.
  unfold refines. cbn [dispatch_input]. unfold dispatch_restore_subroutine, bind, gets. cbn.
  destruct (subroutine_hydrator _) as [f|]; [destruct (f blob)|]; cbn; apply lc_restore.
Qed.

Lemma dispatch_refines input k : refines input k.
Proof using All.
  destruct input; [apply user_message_refines|apply llm_stream_refines
    |apply tool_calls_result_refines|apply restore_refines].
Qed.

(** ** The automaton across a whole transition *)

(** Recovery by the consistency verifier resets the automaton. *)
Definition reset : Automaton := (AgentState.Idle, []).
Definition reset_frame : relation (Kernel U P) := λ k k',
  automaton (session k') = automaton (session k) ∨ automaton (session k') = reset.

#[export] Instance reset_history_frame : HistoryFrame reset_frame.
Proof using Type.
  split; [split; [split| | |]|]; try (intros; by left).
  intros k1 k2 k3 [H1|H1] [H2|H2]; unfold reset_frame; rewrite ?H2, ?H1; auto.
Qed.

(** A failover handler that leaves the automaton alone. *)
Definition failover_keeps_automaton (g : GovernanceKernel U P) : Prop :=
  ∀ f e s, governance_failover_handler g = Some f → automaton (f e s).2 = automaton s.

Lemma failover_all_automaton f es (g : GovernanceKernel U P) :
  governance_failover_handler g = Some f → failover_keeps_automaton g →
  respects (same automaton) (failover_all f es).
Proof using All.
  intros Hf Hg. induction es as [|e es IH]; cbn; respects_auto; try done.
  unfold failover_effect. respects_auto; try done.
  intros s. unfold same. by apply Hg.
Qed.

Lemma finalize_automaton k pre :
  was_subroutine pre = false → failover_keeps_automaton (governance (engine k)) →
  reset_frame k (finalize_transition pre k).2.
Proof using All.
  intros Hpre Hg.
  set (R := λ k k' : Kernel U P, config (engine k') = config (engine k) ∧
         (failover_keeps_automaton (governance (engine k)) → reset_frame k k')).
  assert (HistoryFrame R) as HR.
  { split; [split; [split| | |]|]; try (intros; split; [done|]; intros _; by left).
    intros k1 k2 k3 [H1 H2] [H3 H4]. split; [congruence|]. intros H.
    etrans; [by apply H2|]. apply H4. intros f e s Hf. apply H.
    apply (f_equal (governance_failover_handler ∘ snd)) in H1. cbn in H1. congruence. }
  cut (R k (finalize_transition pre k).2); [intros [_ H]; by apply H|].
  apply finalize_frame; [done|..].
  - intros k'. split; [done|]. intros _. by right.
  - intros k' f es Hf. split; [apply on_session_config|]. intros H. left.
    unfold on_session. pose proof (failover_all_automaton f es _ Hf H (session k')) as Ha.
    by destruct (failover_all f es (session k')).
  - intros k'. unfold apply_subroutine_lifecycle_guard, bind, gets. cbn. rewrite Hpre. cbn.
    reflexivity.
Qed.

(** What one transition does to the automaton of a session outside [SubRoutine]. *)
Inductive transits (gen : N) (input : EngineInput) (a : Automaton) : Automaton → Prop :=
  | tr_stays : transits gen input a a
  | tr_step ok a' : lifecycle gen input a ok a' → transits gen input a a'
  | tr_reset : transits gen input a reset.

Lemma input_phase_automaton input k :
  transits (generation (engine k)) input (automaton (session k))
    (automaton (session (input_phase input k).2)).
Proof using All.
  unfold input_phase. rewrite !(bind_pair _ _ k). cbn [gets fst snd].
  pose proof (eval_on_input_frame (same auto_gen) input k) as H1.
  destruct (eval_on_input input k) as [ir k1]; cbn [fst snd] in *.
  assert (generation (engine k1) = generation (engine k)) as Hg by exact (f_equal fst H1).
  assert (automaton (session k1) = automaton (session k)) as Ha by exact (f_equal snd H1).
  rewrite <- Hg, <- Ha.
  assert (∀ k', same auto_gen k1 k' →
    transits (generation (engine k1)) input (automaton (session k1))
      (automaton (session (dispatch_phase input k').2))) as Hd.
  { intros k' Hk'. pose proof (dispatch_refines input k') as Hl. unfold refines in Hl.
    assert (generation (engine k') = generation (engine k1)) as Hg' by exact (f_equal fst Hk').
    assert (automaton (session k') = automaton (session k1)) as Ha' by exact (f_equal snd Hk').
    rewrite Hg', Ha' in Hl. unfold dispatch_phase. rewrite (bind_pair _ _ k').
    destruct (dispatch_input input k') as [[u|err] k2]; eapply tr_step; exact Hl. }
  destruct ir as [|detail|ov source|es].
  - by apply Hd.
  - apply tr_stays.
  - pose proof (log_override_transition_frame automaton_frame source k1) as Hl.
    unfold automaton_frame, same in Hl.
    change (transits (generation (engine k1)) input (automaton (session k1))
      (automaton (session (modify_session (log_override_transition source) k1).2))).
    rewrite Hl. apply tr_stays.
  - rewrite (bind_pair _ _ k1). by apply Hd.
Qed.

Lemma transition_automaton input (en : BriocheEngine U P) s :
  failover_keeps_automaton (governance en) →
  (∀ h, state s ≠ AgentState.SubRoutine h) →
  ∃ a, transits (generation en) input (automaton s) a ∧
    (automaton (transition input en s).2 = a ∨ automaton (transition input en s).2 = reset).
Proof using All.
  intros Hg Hsub. destruct (decide (state s = AgentState.Failure)) as [Hf|Hf].
  { rewrite transition_failure by done. eexists; split; [apply tr_stays|by left]. }
  destruct (transition_body input en s Hf) as (k & Hb & ->).
  pose proof (intercepted_frame config_frame input en s) as Hc.
  pose proof (intercepted_frame (same auto_gen) input en s) as Hi.
  assert (config (engine k) = config en ∧
          transits (generation en) input (automaton s) (automaton (session k))) as [Hck Ht].
  { destruct Hb as [err _|k Ek|k handler h child en' Ek Hh Hs Hr Hrm Hlt|k Ek];
      [|rewrite Ek in Hi, Hc; cbn [snd] in Hi, Hc..].
    - split; [apply (on_session_config _ (start en s))|].
      assert (automaton (session (snapshot_stored en s).2) = automaton s) as Ha
        by apply (on_session_ext_frame automaton_frame). cbn. rewrite Ha. apply tr_stays.
    - split; [exact Hc|]. pose proof (f_equal snd Hi) as Ha. cbn in Ha. rewrite Ha. apply tr_stays.
    - pose proof (f_equal (fst ∘ snd) Hi) as Ha. cbn in Ha. by destruct (Hsub h); congruence.
    - split; [etrans; [apply (input_phase_frame config_frame), dispatch_config|exact Hc]|].
      pose proof (f_equal fst Hi) as Hgn. pose proof (f_equal snd Hi) as Ha. cbn in Hgn, Ha.
      rewrite <- Hgn, <- Ha. apply input_phase_automaton. }
  eexists. split; [exact Ht|].
  assert (reset_frame k (finalize_transition (capture_pre_transition_state s) k).2) as Hfin.
  { apply finalize_automaton.
    - unfold capture_pre_transition_state. destruct (state s) as [| | |h|] eqn:E; try done. by destruct (Hsub h).
    - intros f e s' Hf'. apply Hg. apply (f_equal (governance_failover_handler ∘ snd)) in Hck.
      cbn in Hck. congruence. }
  unfold finish. by destruct (finalize_transition _ k) as [[] k'].
Qed.

(** ** Reachable sessions *)

(** A session that starts fresh and goes through transitions of any engines
    (the host may rebuild routes or reload the session elsewhere). *)
Inductive reachable : Session U P → Prop :=
  | reach_new id : reachable (Session_new id)
  | reach_step input en s :
      reachable s → failover_keeps_automaton (governance en) →
      reachable (transition input en s).2.

Definition nested_session (s : Session U P) : Prop :=
  well_nested (automaton s) = true ∧ length (state_stack s) ≤ MAX_STATE_STACK_DEPTH.

Lemma transition_nested input (en : BriocheEngine U P) s :
  failover_keeps_automaton (governance en) → nested_session s →
  nested_session (transition input en s).2.
Proof using All.
  intros Hg [IHn IHd].
  destruct (transition_automaton input en s Hg) as (a & Ht & Ha).
  { intros h. by apply (well_nested_no_subroutine (automaton s)). }
  assert (well_nested a = true ∧ length a.2 ≤ MAX_STATE_STACK_DEPTH) as [Hn Hd].
  { destruct Ht as [|ok a' Hl|]; [done| |by split; [|cbn; lia]].
    split; [by eapply lifecycle_well_nested|by eapply lifecycle_depth]. }
  unfold nested_session.
  change (state_stack (transition input en s).2) with (automaton (transition input en s).2).2.
  destruct Ha as [->| ->]; [done|]. split; [done|cbn; lia].
Qed.

Lemma reachable_wf s : reachable s → nested_session s.
Proof using All.
  induction 1 as [id|input en s _ IH Hg]; [split; [done|cbn; lia]|by apply transition_nested].
Qed.
End lifecycle.
