(* ===== verification/Ordering.v ===== *)
(** * The order and the policing of emitted effects

    Lemmas on [ensure_rebuildroutes_last], [validate_hook_effects],
    [apply_governance_failover] and the epoch interceptors. *)
From S2P Require Import Prelude Utf8 Types Effects Extension Session Plugins Router Engine Trace.
From S2P Require Import Hooks Finalize Dispatch Transition Frames Termination Invariants.

(** ** The last [RebuildRoutes] *)

Definition no_rebuild (es : list Effect) : Prop := existsb is_rebuild es = false.

Lemma no_rebuild_app es es' : no_rebuild (es ++ es') ↔ no_rebuild es ∧ no_rebuild es'.
Proof. unfold no_rebuild. rewrite existsb_app. apply orb_false_iff. Qed.

Section last_rebuild.
Let pick (acc : option nat) (p : nat * Effect) : option nat :=
  if is_rebuild p.2 then Some p.1 else acc.

Lemma pick_none n acc es :
  no_rebuild es → foldl pick acc (imap (λ i e, (n + i, e)) es) = acc.
Proof using Type.
  unfold no_rebuild. revert n acc. induction es as [|e es IH]; intros n acc; [done|].
  cbn. intros [He Hes]%orb_false_iff. unfold pick at 2; cbn. rewrite He.
  rewrite (imap_ext _ (λ i e, (S n + i, e))) by (intros; cbn; f_equal; lia). by apply IH.
Qed.

Lemma last_rebuild_none es : no_rebuild es → last_rebuild es = None.
Proof using Type. apply (pick_none 0 None). Qed.

Lemma last_rebuild_snoc pre e post :
  is_rebuild e = true → no_rebuild post → last_rebuild (pre ++ e :: post) = Some (length pre).
Proof using Type.
  intros He Hpost. unfold last_rebuild. fold pick. rewrite imap_app, foldl_app. cbn.
  unfold pick at 2. cbn. rewrite He, Nat.add_0_r.
  rewrite (imap_ext _ (λ i e, (S (length pre) + i, e))) by (intros; cbn; f_equal; lia).
  by apply pick_none.
Qed.
End last_rebuild.

(** The diagnostic that replaces effects after a [RebuildRoutes]. *)
Definition dropped_effects (n : nat) : Effect :=
  Effect.Error ErrorCode.StateInconsistency
    (ErrorDetail.EffectsDroppedAfterRebuildRoutes (N.of_nat n)).

Lemma ensure_none es : no_rebuild es → ensure_rebuildroutes_last es = es.
Proof. intros H. unfold ensure_rebuildroutes_last. by rewrite last_rebuild_none. Qed.

Lemma ensure_split pre e post :
  is_rebuild e = true → no_rebuild post →
  ensure_rebuildroutes_last (pre ++ e :: post) =
  pre ++ match post with [] => [e] | _ => [dropped_effects (length post); e] end.
Proof.
  intros He Hpost. unfold ensure_rebuildroutes_last. rewrite last_rebuild_snoc by done.
  rewrite length_app. cbn [length].
  replace (length pre + S (length post) - (length pre + 1)) with (length post) by lia.
  destruct post as [|x post]; cbn [length]; [by rewrite decide_True|].
  rewrite decide_False by lia. rewrite take_app_length, drop_app_length.
  rewrite take_app. rewrite take_ge by lia. f_equal.
  by replace (length pre + 2 - length pre) with 2 by lia.
Qed.

(** Every list either has no rebuild or splits at its last one. *)
Lemma rebuild_split es :
  no_rebuild es ∨ ∃ pre e post, es = pre ++ e :: post ∧ is_rebuild e = true ∧ no_rebuild post.
Proof.
  induction es as [|x es [IH|(pre & e & post & -> & He & Hp)] ]; [by left| |].
  - unfold no_rebuild in *. destruct (is_rebuild x) eqn:Ex.
    + right. by exists [], x, es.
    + left. cbn. by rewrite Ex.
  - right. exists (x :: pre), e, post. done.
Qed.

(** [RebuildRoutes] occurs last or not at all. *)
Definition rebuild_last (es : list Effect) : Prop :=
  no_rebuild es ∨ ∃ es' e, es = es' ++ [e] ∧ is_rebuild e = true.

Lemma ensure_rebuild_last es : rebuild_last (ensure_rebuildroutes_last es).
Proof.
  destruct (rebuild_split es) as [H|(pre & e & post & -> & He & Hp)].
  - left. by rewrite ensure_none.
  - right. rewrite ensure_split by done. destruct post as [|x post]; [by exists pre, e|].
    exists (pre ++ [dropped_effects (length (x :: post))]), e. by rewrite <- app_assoc.
Qed.

(** ** Hook effect constraints *)

Section policing.
Context {U : AnyUniverse} {P : Type} `{!CycleRollbackPolicy U P, !KernelTypes U}.
Implicit Types g : GovernanceKernel U P.

Definition rejected (hname : string) (e : Effect) : Effect :=
  Effect.Error ErrorCode.StateInconsistency
    (ErrorDetail.EffectNotAllowed hname (effect_variant_debug e)).

(** What a constraint lets through. *)
Definition permitted (c : HookEffectConstraint) (idx : N) (hname : string) (e : Effect) : bool :=
  always_allowed e || is_allowed_fast c idx (effect_to_bitmask e)
    || is_allowed_fallback c hname (effect_variant_debug e).

Lemma validate_map g c idx hname es :
  hook_effect_constraint g = Some c →
  validate_hook_effects g idx hname es =
  (λ e, if permitted c idx hname e then e else rejected hname e) <$> es.
Proof using Type.
  intros Hc. unfold validate_hook_effects. rewrite Hc. apply map_ext. intros e.
  unfold permitted. by destruct (always_allowed e), (is_allowed_fast _ _ _).
Qed.

Lemma permitted_rejected c idx hname hname' e : permitted c idx hname (rejected hname' e) = true.
Proof using Type. done. Qed.
End policing.

(** ** Governance failover *)

Section failover.
Context {U : AnyUniverse} {P : Type} `{!CycleRollbackPolicy U P, !KernelTypes U}.

(** Effects that are not faults survive, in order: they are a subsequence. *)
Lemma failover_all_sublist (f : GovernanceFailoverHandlerPlugin U P) es s :
  filter (λ e, is_fault e = false) es `sublist_of` (failover_all f es s).1.
Proof using Type.
  revert s. induction es as [|e es IH]; intros s; [constructor|].
  cbn [failover_all]. rewrite bind_pair. rewrite (bind_pair (failover_all f es)). cbn [ret fst].
  rewrite filter_cons. destruct (is_fault e) eqn:Ef.
  - rewrite decide_False by done. apply sublist_inserts_l, IH.
  - rewrite decide_True by done.
    assert (failover_effect f e s = ([e], s)) as -> by (unfold failover_effect; by rewrite Ef).
    cbn. constructor. apply IH.
Qed.

(** A handler that never answers changes nothing. *)
Lemma failover_all_declines (f : GovernanceFailoverHandlerPlugin U P) es s :
  (∀ e s, is_fault e = true → ∃ r, f e s = (r, s) ∧ (∀ l, r ≠ Ok (Some l))) →
  failover_all f es s = (es, s).
Proof using Type.
  intros Hf. induction es as [|e es IH]; [done|]. cbn [failover_all].
  assert (failover_effect f e s = ([e], s)) as He.
  { unfold failover_effect. destruct (is_fault e) eqn:E; [|done]. unfold bind.
    destruct (Hf e s E) as ([[l|]|err] & -> & Hr); cbn; [by destruct (Hr l)|done..]. }
  rewrite bind_pair, He. cbn [fst snd]. by rewrite bind_pair, IH.
Qed.
End failover.

(** ** Finalization keeps [RebuildRoutes] last *)

Definition decision_effects (d : PolicyDecision) : list Effect :=
  match d with
  | PolicyDecision.OverrideTransition es => es
  | PolicyDecision.RequestEffect e => [e]
  | _ => []
  end.

Section rebuild.
Context {U : AnyUniverse} {P : Type} `{!CycleRollbackPolicy U P, !KernelTypes U}.

(** The two traits that still run after [ensure_rebuildroutes_last]. *)
Record late_traits_emit_no_rebuild (g : GovernanceKernel U P) : Prop := {
  verifier_no_rebuild v s d :
    consistency_verifier g = Some v → v s = Ok (Some d) → no_rebuild (decision_effects d);
  failover_no_rebuild f e s l :
    governance_failover_handler g = Some f → (f e s).1 = Ok (Some l) → no_rebuild l
}.

Lemma late_traits_config (en en' : BriocheEngine U P) :
  config en' = config en →
  late_traits_emit_no_rebuild (governance en) → late_traits_emit_no_rebuild (governance en').
Proof using Type.
  intros H [Hv Hf].
  assert (consistency_verifier (governance en') = consistency_verifier (governance en)) as Ev
    by exact (f_equal (consistency_verifier ∘ snd) H).
  assert (governance_failover_handler (governance en') =
          governance_failover_handler (governance en)) as Ef
    by exact (f_equal (governance_failover_handler ∘ snd) H).
  split; [by rewrite Ev|by rewrite Ef].
Qed.

Lemma failover_all_no_rebuild (f : GovernanceFailoverHandlerPlugin U P) es s :
  (∀ e s l, (f e s).1 = Ok (Some l) → no_rebuild l) →
  no_rebuild es → no_rebuild (failover_all f es s).1.
Proof using Type.
  intros Hf. revert s. induction es as [|e es IH]; intros s; [done|].
  change (e :: es) with ([e] ++ es). rewrite no_rebuild_app. intros [He Hes].
  cbn [failover_all app]. rewrite bind_pair, (bind_pair (failover_all f es)). cbn [ret fst].
  apply no_rebuild_app. split; [|by apply IH].
  unfold failover_effect. destruct (is_fault e); [|done]. rewrite bind_pair.
  pose proof (Hf e s) as Hl. destruct (f e s).1 as [[l|]|err]; cbn; [by apply Hl|done..].
Qed.

Lemma consistency_check_rebuild k :
  late_traits_emit_no_rebuild (governance (engine k)) →
  rebuild_last (effects k) → rebuild_last (effects (apply_consistency_check k).2).
Proof using Type.
  intros [Hv _] Hk. unfold apply_consistency_check. rewrite bind_pair. cbn [gets fst snd id].
  destruct (consistency_verifier _) as [v|]; [|done].
  destruct (existsb is_rebuild (effects k)) eqn:Eb; [done|]. clear Hk.
  destruct (v (session k)) as [[d|]|err] eqn:Ev; [|by left|].
  - specialize (Hv v (session k) d eq_refl Ev).
    assert (∀ es, no_rebuild es → rebuild_last (effects k ++ es)) as Happ
      by (intros es Hes; left; by apply no_rebuild_app).
    destruct d as [|reason|edits|e|es]; cbn; [by left| | |by apply Happ..].
    + rewrite <- app_assoc. by apply Happ.
    + rewrite bind_pair. unfold on_session. destruct (apply_history_edits edits _) as [[]s]; cbn;
        [by left|by apply Happ].
  - left. cbn. by apply no_rebuild_app.
Qed.

Lemma governance_failover_rebuild k :
  late_traits_emit_no_rebuild (governance (engine k)) →
  rebuild_last (effects k) → rebuild_last (effects (apply_governance_failover k).2).
Proof using Type.
  intros [_ Hf] Hk. unfold apply_governance_failover. rewrite bind_pair. cbn [gets fst snd id].
  destruct (governance_failover_handler _) as [f|]; [|done].
  destruct (existsb is_rebuild (effects k)) eqn:Eb; [done|]. cbn [orb].
  destruct (negb (existsb is_fault (effects k))); [done|]. left. rewrite bind_pair.
  unfold on_session. pose proof (failover_all_no_rebuild f (effects k) (session k)
    (λ e s l, Hf f e s l eq_refl) Eb) as H.
  by destruct (failover_all f (effects k) (session k)).
Qed.

Lemma finalize_rebuild pre k :
  late_traits_emit_no_rebuild (governance (engine k)) →
  rebuild_last (effects (finalize_transition pre k).2).
Proof using All.
  intros Hg. unfold finalize_transition. rewrite bind_pair.
  pose proof (guard_config pre k) as H1.
  destruct (apply_subroutine_lifecycle_guard pre k) as [[] k1]. cbn [fst snd] in *.
  rewrite bind_pair. set (k2 := (map_effects ensure_rebuildroutes_last k1).2).
  rewrite bind_pair. pose proof (late_traits_config _ (engine k2) H1 Hg) as Hg2.
  assert (config (engine (apply_consistency_check k2).2) = config (engine k2)) as H3.
  { apply (consistency_frame config_frame), on_session_config. }
  apply governance_failover_rebuild; [by apply (late_traits_config _ _ H3)|].
  apply consistency_check_rebuild; [done|]. apply ensure_rebuild_last.
Qed.

Lemma transition_rebuild input (en : BriocheEngine U P) s :
  late_traits_emit_no_rebuild (governance en) → rebuild_last (transition input en s).1.1.
Proof using All.
  intros Hg. destruct (decide (state s = AgentState.Failure)) as [Hf|Hf].
  { rewrite transition_failure by done. by left. }
  destruct (transition_body input en s Hf) as (k & Hb & ->). unfold finish. cbn.
  apply finalize_rebuild. eapply late_traits_config; [|exact Hg].
  by apply (body_config input en s).
Qed.
End rebuild.

(** ** Epoch interceptors *)

Section interceptors.
Context {U : AnyUniverse} {P : Type} `{!CycleRollbackPolicy U P, !KernelTypes U}.

Definition interceptor_fault (err : PluginError) : Effect := plugin_fault "epoch_interceptor" err.

(** One interceptor as the list loop sees it. *)
Lemma intercept_all_faults ics input (k k' : Kernel U P) :
  intercept_all ics input k = (false, k') →
  ∃ errs, effects k' = effects k ++ (interceptor_fault <$> errs).
Proof using Type.
  revert k. induction ics as [|i ics IH]; intros k; cbn [intercept_all].
  { intros [= <-]. exists []. by rewrite app_nil_r. }
  rewrite bind_pair. destruct (on_session (on_ext (i input)) k) as [r k1] eqn:E1. cbn [fst snd].
  assert (effects k1 = effects k) as He1.
  { unfold on_session in E1. destruct (on_ext _ _). by injection E1 as _ <-. }
  destruct r as [[|reason]|err].
  - intros H. destruct (IH _ H) as [errs ->]. exists errs. by rewrite He1.
  - done.
  - rewrite bind_pair. intros H. destruct (IH _ H) as [errs ->]. exists (err :: errs). cbn.
    by rewrite He1, <- app_assoc.
Qed.

Lemma intercept_all_app ics ics' input (k : Kernel U P) :
  intercept_all (ics ++ ics') input k =
  let r := intercept_all ics input k in
  if r.1 then r else intercept_all ics' input r.2.
Proof using Type.
  revert k. induction ics as [|i ics IH]; intros k; [done|]. cbn [intercept_all app].
  rewrite !bind_pair. destruct (on_session _ k) as [[[|reason]|err] k1]; cbn [fst snd].
  - apply IH.
  - done.
  - rewrite !bind_pair. apply IH.
Qed.

Lemma intercept_all_blocked ics input (k k' : Kernel U P) :
  intercept_all ics input k = (true, k') →
  ∃ pre i post k1 reason,
    ics = pre ++ i :: post ∧ intercept_all pre input k = (false, k1) ∧
    (i input (extensions (session k1))).1 = Ok (EpochAction.Block reason) ∧
    effects k' = effects k1 ++ [Effect.Error ErrorCode.EpochMismatch
      (ErrorDetail.EpochGuardRejected reason); Effect.SystemIdle].
Proof using Type.
  revert k. induction ics as [|i ics IH]; intros k; [done|]. cbn [intercept_all].
  rewrite bind_pair. destruct (on_session (on_ext (i input)) k) as [r k1] eqn:E1. cbn [fst snd].
  assert (r = (i input (extensions (session k))).1 ∧ effects k1 = effects k) as [Hr He].
  { unfold on_session, on_ext in E1. destruct (i input _). by injection E1 as <- <-. }
  destruct r as [[|reason]|err].
  - intros H. destruct (IH _ H) as (pre & j & post & k2 & reason & -> & Hp & Hj & Hk).
    exists (i :: pre), j, post, k2, reason. split_and!; try done.
    cbn [intercept_all]. by rewrite bind_pair, E1.
  - intros [= <-]. exists [], i, ics, k, reason. cbn. split_and!; try done.
    by rewrite He, <- app_assoc.
  - rewrite bind_pair. intros H. destruct (IH _ H) as (pre & j & post & k2 & reason & -> & Hp & Hj & Hk).
    exists (i :: pre), j, post, k2, reason. split_and!; try done.
    cbn [intercept_all]. rewrite bind_pair, E1. cbn [fst snd]. by rewrite bind_pair.
Qed.

Lemma intercept_all_ext ics input (k : Kernel U P) :
  engine (intercept_all ics input k).2 = engine k ∧
  ext_only (session k) (session (intercept_all ics input k).2).
Proof using All.
  revert k. induction ics as [|i ics IH]; intros k; [split; [done|reflexivity]|].
  cbn [intercept_all]. rewrite bind_pair.
  destruct (on_session (on_ext (i input)) k) as [r k1] eqn:E1. cbn [fst snd].
  assert (engine k1 = engine k ∧ ext_only (session k) (session k1)) as [He1 Hx1].
  { unfold on_session, on_ext in E1. destruct (i input _). injection E1 as _ <-. split; [done|].
    by eexists. }
  destruct r as [[|reason]|err].
  - destruct (IH k1) as [-> H]. split; [done|]. by etrans.
  - done.
  - rewrite bind_pair. destruct (IH (push_effect (plugin_fault "epoch_interceptor" err) k1).2) as [-> H].
    split; [done|]. by etrans.
Qed.
End interceptors.
