(* ===== verification/StreamSpec.v ===== *)
(** * Correctness of the streaming handlers, and what a sequence of model events leaves *)
From S2P Require Import Prelude Utf8 Types Effects Extension Session Plugins Router Engine.
From S2P Require Import Trace Hooks Finalize Dispatch Transition Instances Frames Termination.
From S2P Require Import Invariants Lifecycle.

(** ** What a sequence of model events leaves behind *)

Section streaming.
Context {U : AnyUniverse} {P : Type} `{!CycleRollbackPolicy U P, !KernelTypes U}.
Implicit Types k : Kernel U P.

(** ** Text *)

(** What hooks cannot reach: history, pending text, automaton, tools. *)
Definition text_view (k : Kernel U P) : list ChatMessage * string * Automaton :=
  (history (session k), pending_assistant_text (session k), automaton (session k)).

#[export] Instance text_kernel_frame : KernelFrame (same text_view).
Proof using Type. split; try done. split; apply _. Qed.

(** The kernel in which the event is accumulated: only hooks ran before. *)
Lemma dispatch_llm_stream_split event g k :
  state (session k) = predicting g →
  ∃ k1, text_view k1 = text_view k ∧
    dispatch_llm_stream event k =
    let k2 := (modify_session (accumulate_stream_event event) k1).2 in
    match event with
    | StreamEvent.ToolCallDone _ => finalize_prediction_with_tools k2
    | StreamEvent.Done => finalize_prediction_text_only k2
    | _ => (Ok tt, k2)
    end.
Proof using All.
  intros Hst. unfold dispatch_llm_stream. rewrite (bind_pair _ _ k). cbn [gets fst snd id].
  rewrite Hst. cbv zeta. rewrite (bind_pair _ _ k). set (k1 := (run_hooks _ _ k).2).
  set (fs := (run_hooks _ _ k).1). rewrite (bind_pair _ _ k1). set (k2 := (eval_on_error _ k1).2).
  rewrite (bind_pair _ _ k2). set (k3 := (extend_effects _ k2).2).
  rewrite (bind_pair _ _ k3). set (k4 := (extend_effects _ k3).2).
  rewrite (bind_pair _ _ k4). set (k5 := (extend_effects _ k4).2). exists k5. split.
  - etrans; [apply (eval_on_error_frame (same text_view))|].
    apply (run_hooks_frame (same text_view)), eval_route_frame. intros h. apply run_ext_frame.
  - rewrite (bind_pair _ _ k5). by destruct event.
Qed.

Lemma text_chunk_view idx chunk g k :
  state (session k) = predicting g →
  let k' := (dispatch_llm_stream (StreamEvent.TextChunk idx chunk) k).2 in
  text_view k' = (history (session k),
                  pending_assistant_text (session k) +:+ from_utf8_lossy chunk,
                  automaton (session k)).
Proof using All.
  intros Hst. destruct (dispatch_llm_stream_split (StreamEvent.TextChunk idx chunk) g k Hst)
    as (k1 & Hv & ->). cbn zeta. cbn [snd].
  injection Hv as Hh Ht Hs Hstk. unfold text_view, automaton. cbn. congruence.
Qed.

(** Dispatching a list of inputs. *)
Definition dispatch_all (inputs : list EngineInput) k : Kernel U P :=
  foldl (λ k i, (dispatch_input i k).2) k inputs.

Definition text_chunks (cs : list (ExecutionPath * bytes)) : list EngineInput :=
  (λ c, EngineInput.LlmStream (StreamEvent.TextChunk c.1 c.2)) <$> cs.

Lemma text_chunks_view cs g k :
  state (session k) = predicting g →
  text_view (dispatch_all (text_chunks cs) k) =
    (history (session k),
     pending_assistant_text (session k) +:+ text_of_chunks cs.*2,
     automaton (session k)).
Proof using All.
  revert k. induction cs as [|[idx c] cs IH]; intros k Hst.
  { unfold text_view. cbn. by rewrite string_app_nil_r. }
  set (k' := (dispatch_llm_stream (StreamEvent.TextChunk idx c) k).2).
  change (dispatch_all (text_chunks ((idx, c) :: cs)) k) with (dispatch_all (text_chunks cs) k').
  pose proof (text_chunk_view idx c g k Hst) as Hv. fold k' in Hv. cbn zeta in Hv.
  injection Hv as Hh Ht Hs Hstk. rewrite IH by congruence.
  unfold automaton. rewrite Hh, Ht, Hs, Hstk. cbn. by rewrite string_app_assoc.
Qed.

(** *** Closing a text-only prediction *)

(** The effects [append_state_effects] adds in a given state. *)
Definition state_effects (st : AgentState) (tools : list ActiveToolCall) : list Effect :=
  Effect.SaveSession ::
  match st with
  | AgentState.Predicting _ => [Effect.CallLlmNetwork]
  | AgentState.ExecutingTools _ => [Effect.ExecuteTools tools]
  | AgentState.Idle => [Effect.SystemIdle]
  | AgentState.SubRoutine _ | AgentState.Failure => []
  end.

Lemma append_state_effects_spec k :
  append_state_effects k
  = (tt, with_effects (λ es, es ++ state_effects (state (session k)) (active_tools (session k))) k).
Proof using Type.
  unfold append_state_effects, with_effects. rewrite (bind_pair _ _ k). unfold bind. cbn.
  destruct (state (session k)); unfold push_effect, modify, ret; cbn; by rewrite <- ?app_assoc.
Qed.

Definition persisted (text : string) : list ChatMessage :=
  if decide (text = "") then [] else [ChatMessage.Assistant text None []].

Lemma persist_view k :
  let k' := (modify_session persist_assistant_text k).2 in
  text_view k' = (history (session k) ++ persisted (pending_assistant_text (session k)), "",
                  automaton (session k)).
Proof using Type.
  unfold modify_session, on_session, modify, persist_assistant_text, persisted, text_view; cbn.
  case_decide as Ht; cbn; [|done]. by rewrite Ht, app_nil_r.
Qed.

Lemma text_only_view k g stack prev :
  state (session k) = predicting g → state_stack (session k) = stack ++ [prev] →
  ∃ es k', finalize_prediction_text_only k = (Ok tt, k') ∧
    text_view k' = (history (session k) ++ persisted (pending_assistant_text (session k)), "",
                    (prev, stack)) ∧
    effects k' = es ++ state_effects prev (active_tools (session k')).
Proof using All.
  intros Hst Hstk. unfold finalize_prediction_text_only. rewrite (bind_pair _ _ k).
  pose proof (persist_view k) as H1. cbn zeta in H1.
  set (k1 := (modify_session persist_assistant_text k).2) in *. clearbody k1.
  rewrite (bind_pair _ _ k1). set (k2 := (eval_after_prediction k1).2).
  assert (text_view k2 = text_view k1) as H2
    by apply (eval_after_prediction_frame (same text_view)). clearbody k2.
  rewrite H1 in H2. injection H2 as Hh Ht Hs2 Hstk2.
  rewrite (bind_pair _ _ k2). cbn [gets fst snd]. rewrite Hs2, Hst.
  rewrite (bind_ok_Ok _ _ _ _ _ (on_pop_snoc k2 stack prev (eq_trans Hstk2 Hstk))).
  rewrite bind_pair, append_state_effects_spec. cbn [fst snd ret].
  eexists _, _. split; [reflexivity|]. split; [|reflexivity].
  unfold text_view. cbn. by rewrite Hh, Ht.
Qed.

(** ** Tool calls *)

Inductive ToolEvent : Type :=
  | ToolStart (id tname : string)
  | ToolArgs (id : string) (chunk : bytes).

Definition apply_tool_event (ev : ToolEvent) : ExtensionStorage U P → ExtensionStorage U P :=
  match ev with
  | ToolStart id tname => on_start id tname
  | ToolArgs id chunk => on_argument_chunk id chunk
  end.

Definition accumulate_tools (evs : list ToolEvent) (e : ExtensionStorage U P) :
    ExtensionStorage U P := foldl (λ e ev, apply_tool_event ev e) e evs.

Definition tool_event_step (ev : ToolEvent) (m : gmap string ToolCallDescriptor) :
    gmap string ToolCallDescriptor :=
  match ev with
  | ToolStart id tname => <[id := started id tname]> m
  | ToolArgs id chunk =>
      match m !! id with
      | Some d => <[id := append_argument (from_utf8_lossy chunk) d]> m
      | None => m
      end
  end.

(** The calls the accumulator of a storage holds, as the next borrow sees them. *)
Definition pending_tools (e : ExtensionStorage U P) : gmap string ToolCallDescriptor :=
  pending (get_or_insert_default StreamToolAccumulator e).1.

Lemma pending_tools_get e (acc : StreamToolAccumulator) :
  ext_wf e → get_ext StreamToolAccumulator e = Some acc → pending_tools e = pending acc.
Proof using All.
  intros Hwf Hget. destruct (get_or_insert_default_spec StreamToolAccumulator e Hwf) as (x & Hx & Hx').
  unfold pending_tools. rewrite Hx. apply get_ext_borrow in Hget. cbn. congruence.
Qed.

Lemma apply_tool_event_spec ev e :
  ext_wf e →
  ext_wf (apply_tool_event ev e) ∧
  pending_tools (apply_tool_event ev e) = tool_event_step ev (pending_tools e).
Proof using All.
  intros Hwf. assert (ext_wf (apply_tool_event ev e)) as Hwf'
    by (destruct ev; by apply ext_wf_update). split; [done|].
  destruct ev as [id tname|id chunk]; cbn [apply_tool_event] in *;
    unfold on_start, on_argument_chunk in *;
    lazymatch goal with |- context [update_ext ?f e] =>
      destruct (update_ext_spec StreamToolAccumulator f e Hwf) as (x & Hx & Hg & _) end;
    rewrite (pending_tools_get _ _ Hwf' Hg); unfold pending_tools; rewrite Hx; cbn; [done|].
  by destruct (pending x !! id).
Qed.

Lemma accumulate_tools_spec evs e :
  ext_wf e →
  ext_wf (accumulate_tools evs e) ∧
  pending_tools (accumulate_tools evs e) = foldl (λ m ev, tool_event_step ev m) (pending_tools e) evs.
Proof using All.
  revert e. induction evs as [|ev evs IH]; intros e Hwf; [done|].
  destruct (apply_tool_event_spec ev e Hwf) as [Hwf' Hp]. cbn. rewrite <- Hp. by apply IH.
Qed.

(** The argument text streamed for one id. *)
Fixpoint argument_chunks (id : string) (evs : list ToolEvent) : list bytes :=
  match evs with
  | [] => []
  | ToolArgs id' chunk :: evs' =>
      if decide (id' = id) then chunk :: argument_chunks id evs' else argument_chunks id evs'
  | ToolStart _ _ :: evs' => argument_chunks id evs'
  end.

Definition starts (id : string) (ev : ToolEvent) : bool :=
  match ev with ToolStart id' _ => bool_decide (id' = id) | _ => false end.

(** The call streamed under one id: its last start and what followed it. *)
Definition streamed_call (evs : list ToolEvent) (d : ToolCallDescriptor) : Prop :=
  ∃ pre post, evs = pre ++ ToolStart (tool_id d) (tool_name d) :: post ∧
    existsb (starts (tool_id d)) post = false ∧
    arguments d = text_of_chunks (argument_chunks (tool_id d) post) ∧ timeout_ms d = None.
End streaming.

Section tool_fold.
Implicit Types m : gmap string ToolCallDescriptor.

Definition tool_fold (evs : list ToolEvent) m : gmap string ToolCallDescriptor :=
  foldl (λ m ev, tool_event_step ev m) m evs.

(** Arguments streamed for [id] without a new start. *)
Lemma tool_fold_args id evs m d :
  m !! id = Some d → existsb (starts id) evs = false →
  tool_fold evs m !! id
  = Some (append_argument (text_of_chunks (argument_chunks id evs)) d).
Proof.
  revert m d. induction evs as [|ev evs IH]; intros m d Hm; cbn [existsb].
  { intros _. unfold tool_fold; cbn. rewrite Hm. f_equal. destruct d; unfold append_argument; cbn.
    by rewrite string_app_nil_r. }
  intros [Hs Hss]%orb_false_iff. cbn [tool_fold foldl]. fold (tool_fold evs (tool_event_step ev m)).
  destruct ev as [id' tname|id' chunk]; cbn in Hs |- *.
  - apply bool_decide_eq_false in Hs. apply IH; [|done]. by rewrite lookup_insert_ne.
  - destruct (decide (id' = id)) as [->|Hne].
    + rewrite Hm. erewrite IH; [|apply lookup_insert_eq|done].
      unfold append_argument. cbn. by rewrite string_app_assoc.
    + apply IH; [|done]. case_match; [|done]. by rewrite lookup_insert_ne.
Qed.

Lemma tool_fold_untouched id evs m :
  m !! id = None → existsb (starts id) evs = false → tool_fold evs m !! id = None.
Proof.
  revert m. induction evs as [|ev evs IH]; intros m Hm; cbn [existsb]; [done|].
  intros [Hs Hss]%orb_false_iff. cbn. apply IH; [|done].
  destruct ev as [id' tname|id' chunk]; cbn in Hs |- *.
  - apply bool_decide_eq_false in Hs. by rewrite lookup_insert_ne.
  - case_match; [|done]. rewrite lookup_insert_ne; [done|]. congruence.
Qed.

(** Split a history of events at the last start of an id. *)
Lemma last_start id evs :
  existsb (starts id) evs = false ∨
  ∃ pre tname post, evs = pre ++ ToolStart id tname :: post ∧ existsb (starts id) post = false.
Proof.
  induction evs as [|ev evs [IH|(pre & tname & post & -> & Hp)] ]; [by left| |].
  - destruct (starts id ev) eqn:E.
    + right. destruct ev as [id' tname|]; [|done]. cbn in E. apply bool_decide_eq_true in E as ->.
      by exists [], tname, evs.
    + left. cbn. by rewrite E.
  - right. by exists (ev :: pre), tname, post.
Qed.

Lemma tool_fold_lookup id evs d :
  tool_fold evs ∅ !! id = Some d ↔ tool_id d = id ∧ streamed_call evs d.
Proof.
  assert (∀ pre tname post m, existsb (starts id) post = false →
    tool_fold (pre ++ ToolStart id tname :: post) m !! id =
    Some {| tool_id := id; tool_name := tname;
            arguments := text_of_chunks (argument_chunks id post); timeout_ms := None |}) as Hlast.
  { intros pre tname post m Hp. unfold tool_fold. rewrite foldl_app. cbn [foldl].
    fold (tool_fold pre m). fold (tool_fold post (tool_event_step (ToolStart id tname) (tool_fold pre m))).
    erewrite tool_fold_args; [|apply lookup_insert_eq|done]. done. }
  split.
  - intros H. destruct (last_start id evs) as [Hn|(pre & tname & post & -> & Hp)].
    + by rewrite tool_fold_untouched in H.
    + rewrite Hlast in H by done. injection H as <-. split; [done|]. by exists pre, post.
  - intros [<- (pre & post & -> & Hp & Ha & Ht)]. rewrite Hlast by done.
    destruct d; cbn in *. congruence.
Qed.
End tool_fold.

Section spec.
Context {U : AnyUniverse} {P : Type} `{!CycleRollbackPolicy U P, !KernelTypes U}.

(** C13: streamed text reaches the history intact.  In a prediction over
    [stack ++ [prev]], dispatching chunks that are each valid UTF-8 and then
    [Done] appends one assistant message holding the text pending before
    followed by the exact concatenation of the chunks (no message if that is
    empty), clears the pending text, pops to [prev], returns [Ok] and ends with
    [SaveSession] and the effect [prev] calls for, whatever the plugins do. *)
Theorem streamed_text_reaches_history (k : Kernel U P) g stack prev cs :
  state (session k) = AgentState.Predicting g →
  state_stack (session k) = stack ++ [prev] →
  Forall (λ c, valid_utf8 c.2 = true) cs →
  let k1 := dispatch_all (text_chunks cs) k in
  let r := dispatch_input (EngineInput.LlmStream StreamEvent.Done) k1 in
  let text := pending_assistant_text (session k) +:+ string_of_bytes (concat cs.*2) in
  r.1 = Ok tt ∧
  history (session r.2) = history (session k) ++ persisted text ∧
  pending_assistant_text (session r.2) = "" ∧
  state (session r.2) = prev ∧ state_stack (session r.2) = stack ∧
  ∃ es, effects r.2 = es ++ state_effects prev (active_tools (session r.2)).
Proof using Type.
  intros Hst Hstk Hcs k1 r text.
  pose proof (text_chunks_view cs g k Hst) as H1. fold k1 in H1. injection H1 as Hh Ht Hs1 Hstk1.
  destruct (dispatch_llm_stream_split StreamEvent.Done g k1) as (k2 & Hv & Hr); [congruence|].
  injection Hv as Hh2 Ht2 Hs2 Hstk2. cbn zeta in Hr.
  destruct (text_only_view k2 g stack prev) as (es & k3 & Hk3 & Hv3 & He); [congruence..|].
  assert (r = (Ok tt, k3)) as ->.
  { unfold r. cbn [dispatch_input]. rewrite Hr, <- Hk3. by destruct k2. }
  injection Hv3 as Hh3 Ht3 Hs3 Hstk3. cbn [fst snd].
  rewrite text_of_valid_chunks in Ht by (by apply Forall_fmap).
  split_and!; [done|by rewrite Hh3, Hh2, Hh, Ht2, Ht|done..|by exists es].
Qed.

(** A character split across two chunks is lost.  Each chunk is decoded on
    its own, so the two bytes of U+00E9 arriving separately are stored as two
    replacement characters although their concatenation is valid UTF-8. *)
Theorem split_character_is_replaced (k : Kernel U P) g idx :
  state (session k) = AgentState.Predicting g →
  let k1 := dispatch_all (text_chunks [(idx, [xc3]%byte); (idx, [xa9]%byte)]) k in
  valid_utf8 [xc3; xa9]%byte = true ∧
  pending_assistant_text (session k1)
  = pending_assistant_text (session k) +:+ string_of_bytes (replacement ++ replacement).
Proof using Type.
  intros Hst k1. split; [reflexivity|].
  pose proof (text_chunks_view [(idx, [xc3]%byte); (idx, [xa9]%byte)] g k Hst) as H1. fold k1 in H1.
  injection H1 as _ Ht _ _. exact Ht.
Qed.

(** C30: the tool accumulator reassembles the streamed calls.  Starting from an
    accumulator with nothing pending, feeding any interleaving of start and
    argument events and draining yields exactly the calls [streamed_call]
    describes (one per started id: the name of its last start and the
    concatenation of the argument text that followed), in ascending id order,
    each id once; arguments of unknown ids are ignored and the accumulator is
    empty afterwards. *)
Theorem tool_accumulator_refines (e : ExtensionStorage U P) evs :
  ext_wf e → pending_tools e = ∅ →
  let r := drain (accumulate_tools evs e) in
  (∀ d, d ∈ r.1 ↔ streamed_call evs d) ∧
  NoDup (tool_id <$> r.1) ∧ StronglySorted string_le (tool_id <$> r.1) ∧
  get_ext StreamToolAccumulator r.2 = Some {| pending := ∅ |}.
Proof using Type.
  intros Hwf He r. destruct (accumulate_tools_spec evs e Hwf) as [Hwf' Hp].
  rewrite He in Hp. fold (tool_fold evs ∅) in Hp.
  destruct (get_or_insert_default_spec StreamToolAccumulator (accumulate_tools evs e) Hwf')
    as (acc & Hacc & Hget).
  assert (r.1 = btree_values (tool_fold evs ∅) ∧
    r.2 = write_ext {| pending := ∅ |} (borrow_ext StreamToolAccumulator (accumulate_tools evs e)))
    as [-> ->].
  { unfold r, drain. unfold pending_tools in Hp. rewrite Hacc in *. cbn in Hp |- *. by rewrite Hp. }
  assert (tool_id <$> btree_values (tool_fold evs ∅) = btree_keys (tool_fold evs ∅)) as ->.
  { apply btree_values_keys. intros id d Hd. by apply tool_fold_lookup in Hd as [? _]. }
  split_and!.
  - intros d. rewrite elem_of_btree_values. setoid_rewrite tool_fold_lookup. split; [by intros (? & _ & ?)|by eauto].
  - apply btree_keys_NoDup.
  - apply btree_keys_sorted.
  - by eapply get_ext_write.
Qed.
End spec.

(** ** Witnesses *)

Definition root_path : ExecutionPath := {| nodes := [] |}.
Definition predicting_kernel : Kernel concrete_universe unit :=
  with_session (set_state (AgentState.Predicting 1) [AgentState.Idle] plain_session) plain_kernel.

Lemma streamed_text_reaches_history_witness :
  history (session (dispatch_input (EngineInput.LlmStream StreamEvent.Done)
    (dispatch_all (text_chunks [(root_path, [x68]%byte); (root_path, [x69]%byte)]) predicting_kernel)).2)
  = [ChatMessage.Assistant "hi" None []].
Proof.
  destruct (streamed_text_reaches_history predicting_kernel 1 [] AgentState.Idle
    [(root_path, [x68]%byte); (root_path, [x69]%byte)]) as (_ & -> & _);
    [reflexivity|reflexivity|repeat constructor|reflexivity].
Defined.

Lemma split_character_is_replaced_witness :
  pending_assistant_text (session (dispatch_all
    (text_chunks [(root_path, [xc3]%byte); (root_path, [xa9]%byte)]) predicting_kernel))
  = string_of_bytes [xef; xbf; xbd; xef; xbf; xbd]%byte.
Proof.
  destruct (split_character_is_replaced predicting_kernel 1 root_path) as [_ ->]; reflexivity.
Defined.

Lemma tool_accumulator_refines_witness :
  (drain (accumulate_tools [ToolStart "b" "ls"; ToolStart "a" "cat"; ToolArgs "a" [x7b]%byte]
    (extensions plain_session))).1 ≠ [] ∧
  NoDup (tool_id <$> (drain (accumulate_tools
    [ToolStart "b" "ls"; ToolStart "a" "cat"; ToolArgs "a" [x7b]%byte] (extensions plain_session))).1).
Proof.
  split; [vm_compute; discriminate|].
  apply (tool_accumulator_refines (extensions plain_session)
    [ToolStart "b" "ls"; ToolStart "a" "cat"; ToolArgs "a" [x7b]%byte]);
    [apply ext_new_wf|vm_compute; reflexivity].
Defined.
