(* ===== verification/TransitionSpec.v ===== *)
(** * Correctness of the transition function

    Termination, terminal failure, the invariants of a transition and the shape of its
    output; the session automaton; the emitted effects; the state stack and history edits;
    the order of the routes and what the builder builds. *)
From S2P Require Import Prelude Utf8 Types Effects Extension Session Plugins Router Engine Builder.
From S2P Require Import Trace Hooks Finalize Dispatch Transition Instances Frames Termination.
From S2P Require Import Invariants Lifecycle Ordering.

Section spec.
Context {U : AnyUniverse} {P : Type} `{!CycleRollbackPolicy U P, !KernelTypes U}.

(** C3: [transition] is total and satisfies the recursive equation of the code:
    the nested call on a sub-routine's child is a complete transition, and
    unfolding more than [subroutine_count] levels never changes the result. *)
Theorem transition_equation input (en : BriocheEngine U P) s :
  transition_step (λ i e c, Some (transition i e c)) input en s
    = Some (transition input en s) ∧
  (∀ extra, transition_fuel (S (subroutine_count en) + extra) input en s
    = Some (transition input en s)).
Proof using Type.
  split; [apply transition_unfold|]. intros extra. apply transition_fuel_enough. lia.
Qed.


(** The configuration of an engine is immutable across transitions: the
    plugins, the routing table and every governance trait but the state of the
    rollback policy are the same after any input in any state. *)
Theorem transition_configuration input (en : BriocheEngine U P) s :
  router (transition input en s).1.2 = router en ∧
  set_policy None (governance (transition input en s).1.2)
    = set_policy None (governance en).
Proof using Type.
  pose proof (transition_keeps_config input en s) as H.
  split; [exact (f_equal fst H)|exact (f_equal snd H)].
Qed.

(** Generation ids are drawn in order: only a user message advances the
    counter, by one (wrapping at 2^64), and at most once per transition, nested
    sub-routine transitions included. *)
Theorem generation_counter input (en : BriocheEngine U P) s :
  let before := next_generation_id (routines en) in
  let after := next_generation_id (routines (transition input en s).1.2) in
  match input with
  | EngineInput.UserMessage _ => after = before ∨ after = wrapping_add before 1
  | _ => after = before
  end.
Proof using Type.
  destruct input; cbn zeta; try by apply transition_keeps_generation.
  apply transition_advances.
Qed.

(** C25: when the traits with access to [&mut Session] keep sessions well
    formed, so does every transition, for the session and for every registered
    sub-routine: the state stack holds at most [MAX_STATE_STACK_DEPTH] entries
    and [Failure] is never entered. *)
Theorem transition_preserves_wf input (en : BriocheEngine U P) s :
  governance_ok (governance en) → session_wf s → registry_wf (subroutines (routines en)) →
  session_wf (transition input en s).2 ∧
  registry_wf (subroutines (routines (transition input en s).1.2)).
Proof using Type. apply transition_keeps_wf. Qed.

(** [RebuildRoutes] is the last effect of a transition or absent, whatever
    the plugins, handlers and nested sub-routines emit, as long as the two
    traits that run after the reordering (consistency verifier, failover
    handler) do not emit it themselves. *)
Theorem rebuild_routes_last input (en : BriocheEngine U P) s :
  late_traits_emit_no_rebuild (governance en) →
  let es := (transition input en s).1.1 in
  existsb is_rebuild es = false ∨
  ∃ es' e, es = es' ++ [e] ∧ is_rebuild e = true.
Proof using Type. apply transition_rebuild. Qed.

(** An input blocked by an epoch interceptor is inert.  The first
    interceptor that blocks decides, the later ones do not run, and nothing is
    dispatched: before finalization the engine is untouched, the session
    differs in its extensions only, and the effects are the faults of the
    earlier interceptors followed by the [EpochMismatch] error and
    [SystemIdle]. *)
Theorem blocked_input_is_inert input (en : BriocheEngine U P) s k :
  state s ≠ AgentState.Failure →
  (snapshot_stored en s).1 = Ok tt →
  intercepted input en s = (true, k) →
  transition input en s = finish (capture_pre_transition_state s) k ∧
  engine k = en ∧ ext_only s (session k) ∧
  ∃ pre i post k1 reason errs,
    epoch_interceptors (governance en) = pre ++ i :: post ∧
    intercept_all pre input (snapshot_stored en s).2 = (false, k1) ∧
    (i input (extensions (session k1))).1 = Ok (EpochAction.Block reason) ∧
    effects k = ((λ err, Effect.PluginFault {| source_name := "epoch_interceptor" |} err) <$> errs)
      ++ [Effect.Error ErrorCode.EpochMismatch (ErrorDetail.EpochGuardRejected reason);
          Effect.SystemIdle].
Proof using Type.
  intros Hf Hins Hint.
  destruct (transition_body input en s Hf) as (k' & Hb & Ht).
  assert (k' = k) as ->.
  { destruct Hb as [err He|k' Ek|k' handler h child en' Ek|k' Ek]; congruence. }
  assert (engine (snapshot_stored en s).2 = en) as Hen by apply on_session_engine.
  assert (ext_only s (session (snapshot_stored en s).2)) as Hx.
  { unfold snapshot_stored, on_session, on_ext. destruct (insert_ext _ _). by eexists. }
  assert (effects (snapshot_stored en s).2 = []) as He.
  { unfold snapshot_stored, on_session, on_ext. by destruct (insert_ext _ _). }
  unfold intercepted, apply_epoch_interceptor in Hint. rewrite bind_pair in Hint.
  cbn [gets fst snd id] in Hint. rewrite Hen in Hint.
  pose proof (intercept_all_ext (epoch_interceptors (governance en)) input (snapshot_stored en s).2)
    as [He' Hx']. rewrite Hint in He', Hx'. cbn in He', Hx'.
  destruct (intercept_all_blocked _ _ _ _ Hint) as (pre & i & post & k1 & reason & Hi & Hp & Hr & Hk).
  destruct (intercept_all_faults _ _ _ _ Hp) as [errs Herrs].
  split; [exact Ht|]. split; [congruence|]. split; [by etrans|].
  exists pre, i, post, k1, reason, errs. split_and!; try done.
  by rewrite Hk, Herrs, He.
Qed.
End spec.

(** ** Witnesses *)

(** A guard that rejects every input. *)
Definition reject_all : EpochInterceptorPlugin concrete_universe unit :=
  λ _ e, (Ok (EpochAction.Block "stale"), e).

Definition guarded_engine : BriocheEngine concrete_universe unit :=
  plain_engine
    {| epoch_interceptors := [reject_all];
       subroutine_handler := None; subroutine_hydrator := None; consistency_verifier := None;
       decision_aggregator := None; hook_effect_constraint := None; cycle_rollback_policy := None;
       subroutine_lifecycle_guard := None; governance_failover_handler := None;
       default_tool_timeout_ms := 0%N |}.

Definition failed_session : Session concrete_universe unit :=
  set_state AgentState.Failure [AgentState.Idle] plain_session.

Lemma plain_governance_ok : governance_ok plain_governance.
Proof. by split. Qed.
Lemma plain_late_traits : late_traits_emit_no_rebuild plain_governance.
Proof. by split. Qed.


Lemma transition_preserves_wf_witness :
  session_wf (transition (EngineInput.UserMessage "hi") (plain_engine plain_governance)
                plain_session).2.
Proof.
  apply (transition_preserves_wf (EngineInput.UserMessage "hi") (plain_engine plain_governance)
    plain_session).
  - exact plain_governance_ok.
  - apply session_new_wf.
  - apply map_Forall_empty.
Defined.

Lemma rebuild_routes_last_witness :
  existsb is_rebuild (transition (EngineInput.UserMessage "hi") (plain_engine plain_governance)
    plain_session).1.1 = false ∨
  ∃ es' e, (transition (EngineInput.UserMessage "hi") (plain_engine plain_governance)
    plain_session).1.1 = es' ++ [e] ∧ is_rebuild e = true.
Proof.
  exact (rebuild_routes_last (EngineInput.UserMessage "hi") (plain_engine plain_governance)
    plain_session plain_late_traits).
Defined.

Lemma blocked_input_is_inert_witness :
  (transition (EngineInput.UserMessage "hi") guarded_engine plain_session).1.1 =
  [Effect.Error ErrorCode.EpochMismatch (ErrorDetail.EpochGuardRejected "stale");
   Effect.SystemIdle].
Proof.
  destruct (blocked_input_is_inert (EngineInput.UserMessage "hi") guarded_engine plain_session
    (intercepted (EngineInput.UserMessage "hi") guarded_engine plain_session).2) as [-> _];
    [discriminate|vm_compute; reflexivity..].
Defined.

(** ** The session automaton *)

Section spec.
Context {U : AnyUniverse} {P : Type} `{!CycleRollbackPolicy U P, !KernelTypes U}.


(** C2: the shape of every reachable session.  Starting from [Session::new] and
    through any sequence of transitions of any engines whose failover handler
    does not touch the automaton, [Idle] sits at the bottom of the stack and
    nowhere else, every tool round sits directly above the prediction with its
    own generation id, neither [SubRoutine] nor [Failure] occurs, and the stack
    is never deeper than [MAX_STATE_STACK_DEPTH]. *)
Theorem reachable_sessions_well_nested (s : Session U P) :
  reachable s →
  (∃ l, state_stack s ++ [state s] = AgentState.Idle :: l ∧ nested AgentState.Idle l = true) ∧
  length (state_stack s) ≤ MAX_STATE_STACK_DEPTH.
Proof using Type.
  intros Hs. apply reachable_wf in Hs as [Hn Hd]. split; [|done].
  unfold well_nested, nesting, automaton in Hn. cbn in Hn.
  destruct (state_stack s ++ [state s]) as [|[] l]; try done. by exists l.
Qed.

(** A tool round leaves its prediction on the stack.  After tool results
    for the prediction [g] of a stack [stack ++ [Predicting g]], the model's
    final [Done] pops back to [Predicting g], not to the state the prediction
    was started from: the session goes on predicting. *)
Theorem tool_round_keeps_prediction (k : Kernel U P) g stack results :
  state (session k) = AgentState.ExecutingTools g →
  state_stack (session k) = stack ++ [AgentState.Predicting g] →
  length stack < MAX_STATE_STACK_DEPTH →
  let k1 := (dispatch_input (EngineInput.ToolCallsResult g results) k).2 in
  let k2 := (dispatch_input (EngineInput.LlmStream StreamEvent.Done) k1).2 in
  state (session k1) = AgentState.Predicting g ∧
  state_stack (session k1) = stack ++ [AgentState.Predicting g] ∧
  state (session k2) = AgentState.Predicting g ∧ state_stack (session k2) = stack.
Proof using Type.
  intros Hs Hst Hl k1 k2.
  pose proof (dispatch_refines (EngineInput.ToolCallsResult g results) k) as H1.
  unfold refines, automaton at 1 in H1. rewrite Hst in H1.
  apply lifecycle_results in H1; [|done].
  pose proof (dispatch_refines (EngineInput.LlmStream StreamEvent.Done) k1) as H2.
  unfold refines in H2. unfold k1 in H2 at 2. rewrite H1 in H2. apply lifecycle_done in H2.
  fold k1 in H1. fold k2 in H2.
  unfold automaton in H1, H2. by simplify_eq.
Qed.
End spec.

(** ** Witnesses *)

Lemma reachable_sessions_well_nested_witness :
  let s := (transition (EngineInput.UserMessage "hi") (plain_engine plain_governance)
              plain_session).2 in
  state s = AgentState.Predicting 1 ∧ length (state_stack s) ≤ MAX_STATE_STACK_DEPTH.
Proof.
  split; [vm_compute; reflexivity|].
  apply (reachable_sessions_well_nested (transition (EngineInput.UserMessage "hi")
    (plain_engine plain_governance) plain_session).2).
  apply reach_step; [apply reach_new|]. intros f e s H. discriminate H.
Defined.

Definition executing_kernel : Kernel concrete_universe unit :=
  with_session (set_state (AgentState.ExecutingTools 1)
    [AgentState.Idle; AgentState.Predicting 1] plain_session) plain_kernel.

Lemma tool_round_keeps_prediction_witness :
  let k1 := (dispatch_input (EngineInput.ToolCallsResult 1 []) executing_kernel).2 in
  state (session (dispatch_input (EngineInput.LlmStream StreamEvent.Done) k1).2)
  = AgentState.Predicting 1.
Proof.
  apply (tool_round_keeps_prediction executing_kernel 1 [AgentState.Idle] []);
    [reflexivity..|vm_compute; lia].
Defined.

(** ** The emitted effects: constraints, failover, bounded logs *)

Section spec.
Context {U : AnyUniverse} {P : Type} `{!CycleRollbackPolicy U P, !KernelTypes U}.

(** C26: hook effects are policed one by one.  Under a constraint, every effect
    of a hook is kept in place if it is always allowed or permitted by the fast
    mask or the fallback, and replaced by an [EffectNotAllowed] error otherwise:
    the order and number of effects is kept, everything returned is permitted,
    and validating again changes nothing.  Without a constraint nothing
    changes. *)
Theorem hook_effects_policed (g : GovernanceKernel U P) idx hname es :
  let out := validate_hook_effects g idx hname es in
  match hook_effect_constraint g with
  | None => out = es
  | Some c =>
      Forall2 (λ e e', e' = if permitted c idx hname e then e else rejected hname e) es out ∧
      Forall (λ e, permitted c idx hname e = true) out ∧
      validate_hook_effects g idx hname out = out
  end.
Proof using Type.
  intros out. destruct (hook_effect_constraint g) as [c|] eqn:Hc.
  - assert (∀ e, permitted c idx hname (if permitted c idx hname e then e else rejected hname e) = true)
      as Hp by (intros e; by destruct (permitted c idx hname e) eqn:E).
    unfold out. rewrite !(validate_map g c) by done. split_and!.
    + apply Forall2_fmap_r, Forall_Forall2_diag. by apply Forall_true.
    + apply Forall_fmap, Forall_true. exact Hp.
    + rewrite <- list_fmap_compose. apply list_fmap_ext. intros i e _. cbn. by rewrite Hp.
  - unfold out, validate_hook_effects. by rewrite Hc.
Qed.

(** What [ensure_rebuildroutes_last] returns.  A list without
    [RebuildRoutes] is unchanged; otherwise everything up to the last one is
    kept, and the effects after it are replaced by one diagnostic, put just
    before it, that counts them. *)
Theorem ensure_rebuildroutes_last_spec es :
  (existsb is_rebuild es = false ∧ ensure_rebuildroutes_last es = es) ∨
  ∃ pre e post,
    es = pre ++ e :: post ∧ is_rebuild e = true ∧ existsb is_rebuild post = false ∧
    ensure_rebuildroutes_last es =
    pre ++ match post with
           | [] => [e]
           | _ => [Effect.Error ErrorCode.StateInconsistency
                     (ErrorDetail.EffectsDroppedAfterRebuildRoutes (N.of_nat (length post))); e]
           end.
Proof using Type.
  destruct (rebuild_split es) as [H|(pre & e & post & -> & He & Hp)].
  - left. split; [done|]. by apply ensure_none.
  - right. exists pre, e, post. split_and!; [done..|]. by apply ensure_split.
Qed.

(** Failover touches faults only.  Every effect that is not a
    [PluginFault] survives [apply_governance_failover] in its original order;
    the buffer and the session are untouched when there is no handler, when no
    fault was emitted, or when routes are about to be rebuilt. *)
Theorem failover_preserves_non_faults (k : Kernel U P) :
  let k' := (apply_governance_failover k).2 in
  filter (λ e, is_fault e = false) (effects k) `sublist_of` effects k' ∧
  engine k' = engine k ∧
  (governance_failover_handler (governance (engine k)) = None ∨
   existsb is_fault (effects k) = false ∨ existsb is_rebuild (effects k) = true → k' = k).
Proof using Type.
  intros k'. unfold k', apply_governance_failover. rewrite bind_pair. cbn [gets fst snd id].
  destruct (governance_failover_handler _) as [f|].
  2: { split_and!; [apply sublist_filter|done..]. }
  destruct (existsb is_rebuild (effects k)) eqn:Er; cbn [orb];
    [split_and!; [apply sublist_filter|done..]|].
  destruct (existsb is_fault (effects k)) eqn:Ef; cbn [negb];
    [|split_and!; [apply sublist_filter|done..]].
  rewrite bind_pair. unfold on_session.
  pose proof (failover_all_sublist f (effects k) (session k)) as H.
  destruct (failover_all f (effects k) (session k)) as [es s]; cbn in *.
  split_and!; [done|done|]. by intros [?|[?|?]].
Qed.
End spec.

(** A log whose push is [ring_push] on its only field. *)
Lemma ring_push_proj {L A} (proj : L → list A) (push : L → A → L) (l : L) rs :
  (∀ l r, proj (push l r) = ring_push (proj l) r) → proj l = [] →
  proj (foldl push l rs) = last_n CAPACITY rs.
Proof.
  intros Hp Hl. rewrite <- ring_push_foldl, <- Hl. clear Hl. revert l.
  induction rs as [|r rs IH]; intros l; [done|]. cbn. by rewrite IH, Hp.
Qed.

(** The transition traces are ring buffers.  However many records are pushed, each
    of the two trace logs holds exactly the last [CAPACITY] of them, in order. *)
Theorem trace_logs_keep_latest :
  (∀ rs, entries (foldl TransitionTraceLog_push {| entries := [] |} rs)
         = drop (length rs - CAPACITY) rs) ∧
  (∀ rs, superseded_entries
           (foldl SupersededTransitionTraceLog_push {| superseded_entries := [] |} rs)
         = drop (length rs - CAPACITY) rs).
Proof.
  split; intros rs.
  - by rewrite (ring_push_proj entries TransitionTraceLog_push).
  - by rewrite (ring_push_proj superseded_entries SupersededTransitionTraceLog_push).
Qed.

(** ** Sessions: the state stack and history edits *)

Section spec.
Context {U : AnyUniverse} {P : Type}.
Implicit Types s : Session U P.

(** Pushing and popping states round trip.  A push succeeds exactly when
    the state is not [Failure] and the stack is below its bound; popping then
    returns the pushed state and restores the session exactly.  A failing push,
    and a pop of an empty stack, return an error and change nothing. *)
Theorem push_pop_roundtrip st s :
  let r := push_state st s in
  (is_ok r.1 = true ↔
    st ≠ AgentState.Failure ∧ length (state_stack s) < MAX_STATE_STACK_DEPTH) ∧
  (is_ok r.1 = true → state r.2 = st ∧ pop_state r.2 = (Ok st, s)) ∧
  (is_ok r.1 = false → r.2 = s) ∧
  (state_stack s = [] → is_ok (pop_state s).1 = false ∧ (pop_state s).2 = s).
Proof using Type.
  intros r. unfold r. destruct (push_state st s) as [[[]|err] s'] eqn:E; cbn.
  - pose proof (push_state_ok _ _ _ E) as (Hn & Hl & ->). split_and!; [done| |done|].
    + intros _. split; [done|].
      rewrite (pop_state_snoc _ (state_stack s) (state s)) by done. by destruct s.
    + intros Hs. by rewrite (pop_state_nil _ Hs).
  - pose proof (push_state_err _ _ _ _ E) as ->. split_and!; [|done|done|].
    + split; [done|]. intros [Hn Hl]. unfold push_state in E.
      destruct st; try done; rewrite decide_False in E by lia; discriminate.
    + intros Hs. by rewrite (pop_state_nil _ Hs).
Qed.

(** History edits are applied one after the other, each to the history the
    previous ones left.  If all indices are in range the result is the fold of
    the edits; otherwise the error reports the first index out of range, for
    the length the history then had, and the edits before it stay applied. *)
Theorem history_edits_sequential edits s :
  match edits_fold edits (history s) with
  | Ok h => apply_history_edits edits s = (Ok tt, set_history (λ _, h) s)
  | Err err =>
      ∃ pre edit post h op index,
        edits = pre ++ edit :: post ∧ edits_fold pre (history s) = Ok h ∧
        err = BriocheError.HistoryIndexOutOfBounds op index (N.of_nat (length h)) ∧
        (N.of_nat (length h) ≤ index)%N ∧
        apply_history_edits edits s = (Err err, set_history (λ _, h) s)
  end.
Proof using Type.
  destruct (edits_fold edits (history s)) as [h|err] eqn:E; [by apply apply_history_edits_ok|].
  destruct (apply_history_edits_err _ _ _ E) as (pre & edit & post & h & -> & Hp & He & ->).
  destruct edit as [index m|index m|keep]; cbn in He; try case_decide; simplify_eq;
    eexists pre, _, post, h, _, _; split_and!; try done; lia.
Qed.
End spec.

(** * Correctness of the pre-computed routes and of the builder *)

(** Plugin [i] runs before plugin [j]: lower priority first, then by name. *)
Definition runs_before {F} (plugins : list (Hook F)) (i j : nat) : Prop :=
  ∀ p q, plugins !! i = Some p → plugins !! j = Some q →
    (priority p < priority q)%Z ∨ (priority p = priority q ∧ string_le (name p) (name q)).

Section order.
Context {F : Type} (plugins : list (Hook F)).

Lemma indexed_elem t :
  t ∈ indexed plugins ↔ ∃ p, plugins !! t.1.1 = Some p ∧ t.1.2 = priority p ∧ t.2 = name p.
Proof using Type.
  unfold indexed. rewrite elem_of_lookup_imap. split.
  - intros (i & p & -> & Hp). by exists p.
  - intros (p & Hp & H1 & H2). exists t.1.1, p. split; [|done].
    destruct t as [[i z] n]; cbn in *. congruence.
Qed.

Lemma collect_route_sorted : StronglySorted (runs_before plugins) (collect_route plugins).
Proof using Type.
  unfold collect_route.
  assert (Forall (λ t, t ∈ indexed plugins) (sort_by route_cmp (indexed plugins))) as Hin.
  { rewrite sort_by_permutation. by apply Forall_forall. }
  induction (sort_by_sorted route_cmp route_cmp_antisym route_cmp_trans (indexed plugins))
    as [|t l _ IH Ht]; cbn; [constructor|].
  inversion Hin as [|? ? Hti Hl]; subst. constructor; [by apply IH|].
  apply Forall_fmap. rewrite Forall_forall in Ht, Hl. apply Forall_forall. intros u Hu p q Hp Hq.
  apply indexed_elem in Hti as (p' & Hp' & Hz & Hn).
  apply Hl in Hu as Hui. apply indexed_elem in Hui as (q' & Hq' & Hz' & Hn').
  specialize (Ht u Hu). apply route_cmp_le_iff in Ht. cbn in *. simplify_eq.
  by rewrite Hz, Hz', Hn, Hn' in Ht.
Qed.

(** Plugins that tie on priority and name stay in registration order. *)
Lemma collect_route_stable i j p q :
  plugins !! i = Some p → plugins !! j = Some q → priority p = priority q → name p = name q →
  i < j → [i; j] `sublist_of` collect_route plugins.
Proof using Type.
  intros Hp Hq Hz Hn Hij. set (k := (i, priority p, name p)). set (k' := (j, priority q, name q)).
  assert ([k; k'] `sublist_of` indexed plugins) as Hsub.
  { apply (lookup_two_sublist _ i j); [| |done]; unfold indexed; rewrite list_lookup_imap.
    - by rewrite Hp.
    - by rewrite Hq. }
  apply (fmap_sublist (λ t, t.1.1) [k; k']).
  etrans; [|apply (sublist_filter (λ y, route_cmp k y = Eq))].
  rewrite (sort_by_stable route_cmp route_cmp_antisym route_cmp_trans).
  assert (route_cmp k k = Eq ∧ route_cmp k k' = Eq) as [Hkk Hkk'].
  { unfold k, k', route_cmp. cbn. by rewrite <- Hz, <- Hn, Z.compare_refl, string_compare_refl. }
  apply (sublist_filter_mono (λ y, route_cmp k y = Eq)) in Hsub.
  rewrite filter_true in Hsub; [done|]. by repeat constructor.
Qed.
End order.

Section spec.
Context {U : AnyUniverse} {P : Type} `{!CycleRollbackPolicy U P}.
Implicit Types r : PluginRouter U P.

(** An initial route visits every registered plugin exactly once, in
    ascending priority, ties broken by name, and in registration order when
    both agree. *)
Theorem initial_route_order {F} (plugins : list (Hook F)) :
  collect_route plugins ≡ₚ seq 0 (length plugins) ∧
  StronglySorted (runs_before plugins) (collect_route plugins) ∧
  ∀ i j p q, plugins !! i = Some p → plugins !! j = Some q →
    priority p = priority q → name p = name q → i < j →
    [i; j] `sublist_of` collect_route plugins.
Proof using Type.
  split_and!; [apply collect_route_permutation|apply collect_route_sorted|].
  apply collect_route_stable.
Qed.

(** *** Rebuilding *)

Definition active (mask : list bool) (offset : nat) (route : list nat) : list nat :=
  filter (λ i, mask_active mask offset i = true) route.

Lemma collect_active {F} (plugins : list (Hook F)) mask offset :
  collect_active_mask plugins mask offset
  = (active mask offset (collect_route plugins), offset + length plugins).
Proof using Type. apply injective_projections; [apply collect_active_mask_filter|done]. Qed.

Lemma active_nil offset route : active [] offset route = route.
Proof using Type. apply filter_true, Forall_true. intros i. unfold mask_active. by rewrite lookup_nil. Qed.

Lemma route_ok_active {F} (plugins : list (Hook F)) mask offset :
  route_ok plugins (active mask offset (collect_route plugins)).
Proof using Type.
  split.
  - apply Forall_list_filter. rewrite collect_route_permutation. apply Forall_seq. lia.
  - apply NoDup_filter. rewrite collect_route_permutation. apply NoDup_seq.
Qed.

Definition initial_table r : UnifiedRoutingTable :=
  from_hooks (on_input_plugins r) (before_prediction_plugins r) (on_stream_event_plugins r)
    (after_prediction_plugins r) (on_tool_calls_plugins r) (on_tool_result_plugins r)
    (on_error_plugins r).

Definition masked_table (mask : list bool) r : UnifiedRoutingTable :=
  let o1 := length (on_input_plugins r) in
  let o2 := o1 + length (before_prediction_plugins r) in
  let o3 := o2 + length (on_stream_event_plugins r) in
  let o4 := o3 + length (after_prediction_plugins r) in
  let o5 := o4 + length (on_tool_calls_plugins r) in
  let o6 := o5 + length (on_tool_result_plugins r) in
  let t := initial_table r in
  {| route_on_input := active mask 0 (route_on_input t);
     route_before_prediction := active mask o1 (route_before_prediction t);
     route_on_stream_event := active mask o2 (route_on_stream_event t);
     route_after_prediction := active mask o3 (route_after_prediction t);
     route_on_tool_calls := active mask o4 (route_on_tool_calls t);
     route_on_tool_result := active mask o5 (route_on_tool_result t);
     route_on_error := active mask o6 (route_on_error t) |}.

Lemma rebuild_with_table mask r : rebuild_routes_by_mask mask r = with_table r (masked_table mask r).
Proof using Type. unfold rebuild_routes_by_mask. by rewrite !collect_active. Qed.

Lemma masked_wf mask r : router_wf (with_table r (masked_table mask r)).
Proof using Type. split; apply route_ok_active. Qed.

Lemma masked_nil r : masked_table [] r = initial_table r.
Proof using Type. unfold masked_table. by rewrite !active_nil. Qed.

(** Rebuilding routes strikes inactive plugins out of the initial routes.
    The mask addresses the plugins of the seven hooks laid end to end, plugins
    beyond its end stay active, and the relative order never changes.  Every
    index of a rebuilt route is a valid plugin and occurs once; an empty mask
    restores the initial table, and only the last mask counts. *)
Theorem rebuild_routes_spec mask r :
  let r' := rebuild_routes_by_mask mask r in
  routing_table r' = masked_table mask r ∧ router_wf r' ∧
  routing_table (rebuild_routes_by_mask [] r') = initial_table r ∧
  ∀ mask', rebuild_routes_by_mask mask' r' = rebuild_routes_by_mask mask' r.
Proof using Type.
  intros r'. unfold r'. rewrite rebuild_with_table. split_and!.
  - done.
  - apply masked_wf.
  - rewrite rebuild_with_table. exact (masked_nil r).
  - intros mask'. rewrite !rebuild_with_table. reflexivity.
Qed.

(** An engine that can be built is complete.  Whatever sequence of setters
    type-checks up to [build], the engine has a decision aggregator and a
    sub-routine lifecycle guard, its routes are the initial ones (every plugin
    exactly once), it has no sub-routine and its first generation id is 1. *)
Theorem built_engine_complete (b : BriocheEngineBuilder U P Present Present) :
  built b →
  let en := build b in
  is_Some (decision_aggregator (governance en)) ∧
  is_Some (subroutine_lifecycle_guard (governance en)) ∧
  routing_table (router en) = initial_table (router en) ∧ router_wf (router en) ∧
  sessions (subroutines (routines en)) = ∅ ∧ next_generation_id (routines en) = 1%N.
Proof using Type.
  intros Hb en. apply built_presence in Hb as [Ha Hg].
  split_and!; [by apply Ha|by apply Hg|done| |done|done].
  pose proof (masked_wf [] (router en)) as H. by rewrite masked_nil in H.
Qed.
End spec.

(** ** Witness *)

Definition allow_all : DecisionAggregatorPlugin concrete_universe unit :=
  λ _ e, (Ok PolicyDecision.Allow, e).
Definition silent_guard : SubRoutineLifecycleGuardPlugin concrete_universe unit :=
  λ _ sr, (Ok [], sr).

Definition demo_builder : BriocheEngineBuilder concrete_universe unit Present Present :=
  with_subroutine_lifecycle_guard silent_guard
    (apply_call (with_default_tool_timeout_ms 500)
      (with_decision_aggregator allow_all builder_new)).

Lemma built_engine_complete_witness :
  built demo_builder ∧ is_Some (decision_aggregator (governance (build demo_builder))).
Proof.
  assert (built demo_builder) as Hb by (repeat constructor).
  split; [exact Hb|]. apply (built_engine_complete demo_builder Hb).
Defined.
