(* ===== verification/ExtensionSpec.v ===== *)
(** * Correctness of the extension storage *)
From S2P Require Import Prelude Utf8 Types Effects Extension Session Plugins Router Engine.
From S2P Require Import Instances.

Section spec.
Context {U : AnyUniverse} {P : Type} `{!CycleRollbackPolicy U P}.
Implicit Types e : ExtensionStorage U P.

(** Storages built by the public operations.  [restore_boxed] is called by
    rollback policies with a clone of a value of that very type. *)
Inductive storage_reachable : ExtensionStorage U P → Prop :=
  | sr_new : storage_reachable ExtensionStorage_new
  | sr_insert T `{!BriocheExtensionType T} (x : T) e :
      storage_reachable e → storage_reachable (insert_ext x e).2
  | sr_borrow T `{!BriocheExtensionType T} e :
      storage_reachable e → storage_reachable (get_or_insert_default T e).2
  | sr_get_mut T `{!BriocheExtensionType T} e :
      storage_reachable e → storage_reachable (get_mut T e).2
  | sr_write T `{!BriocheExtensionType T} (x : T) e :
      storage_reachable e → storage_reachable (write_ext x e)
  | sr_hydrate id blob e :
      storage_reachable e → storage_reachable (hydrate_plugin id blob e).2
  | sr_restore_cold snap e :
      storage_reachable e → storage_reachable (restore_cold_snapshot snap e)
  | sr_attach p e : storage_reachable e → storage_reachable (attach_rollback_policy p e)
  | sr_detach e : storage_reachable e → storage_reachable (detach_rollback_policy e).2
  | sr_restore_boxed tid a e :
      storage_reachable e → type_id_of a = tid → storage_reachable (restore_boxed tid a e)
  | sr_evict T `{!BriocheExtensionType T} e :
      storage_reachable e → storage_reachable (evict_from_hot T e).2.

Lemma hydrate_wf id blob e : ext_wf e → ext_wf (hydrate_plugin id blob e).2.
Proof using Type.
  intros He. unfold hydrate_plugin. destruct (ext_id_to_type_id e !! id) as [tid|]; [|done].
  destruct (registry e !! tid) as [vt|] eqn:Ev; [|done]. destruct (wf_registry _ He _ _ Ev) as [Hd Hs _].
  assert (∀ a, type_id_of a = tid →
    ext_wf (set_cold_snapshot (insert id blob) (set_hot_map (insert tid a) e))) as Hset.
  { intros a Ha. by apply (ext_wf_hot_registry (set_hot_map (insert tid a) e)), ext_wf_set_hot. }
  destruct (deserialize vt blob) as [v|err] eqn:E; apply Hset; eauto.
Qed.

Lemma storage_reachable_wf e : storage_reachable e → ext_wf e.
Proof using Type.
  induction 1.
  - apply ext_new_wf.
  - by apply ext_wf_insert.
  - rewrite get_or_insert_default_snd. by apply ext_wf_borrow.
  - by apply ext_wf_notify.
  - by apply ext_wf_write.
  - by apply hydrate_wf.
  - by apply (ext_wf_hot_registry e).
  - by apply (ext_wf_hot_registry e).
  - by apply (ext_wf_hot_registry e).
  - by apply ext_wf_set_hot.
  - destruct IHstorage_reachable as [Hh Hr]. split; [|done]. cbn. intros tid a.
    rewrite lookup_delete_Some. intros [_ ?]. by apply Hh.
Qed.


(** *** Insertion *)

Lemma cold_ensure T `{!BriocheExtensionType T} e :
  cold_snapshot (ensure_registered T e) = cold_snapshot e.
Proof using Type. apply cold_snapshot_ensure. Qed.

Lemma insert_ext_unfold T `{!BriocheExtensionType T} (x : T) e :
  registered_as T e →
  insert_ext x e =
  let e1 := ensure_registered T e in
  if decide (snapshot_strategy T = SnapshotStrategy.NoSnapshot) then
    (Ok tt, set_hot_map (insert (TypeId_of T) (to_any x)) e1)
  else
    match postcard_to_stdvec x with
    | Ok blob => (Ok tt, set_hot_map (insert (TypeId_of T) (to_any x))
                           (set_cold_snapshot (insert (EXT_ID T) blob) e1))
    | Err err => (Err (BriocheError.Serialization ("postcard: " +:+ err)), e1)
    end.
Proof using Type.
  intros Hr. unfold insert_ext. rewrite (ensure_registered_as T e Hr). cbn.
  case_decide; [done|]. rewrite downcast_to_any. by destruct (postcard_to_stdvec x).
Qed.

(** Inserting is a write of one type's slot.  On success the inserted value
    is read back, every other type's value is unchanged, and exactly the
    snapshot entry of that type is replaced by its encoding ([NoSnapshot] types
    leave the snapshot alone); if the value cannot be encoded, neither values
    nor snapshot change. *)
Theorem insert_ext_spec T `{!BriocheExtensionType T} (x : T) e :
  registered_as T e →
  let r := insert_ext x e in
  match r.1 with
  | Ok _ =>
      get_ext T r.2 = Some x ∧
      (∀ tid, tid ≠ TypeId_of T → hot_map r.2 !! tid = hot_map e !! tid) ∧
      if decide (snapshot_strategy T = SnapshotStrategy.NoSnapshot)
      then cold_snapshot r.2 = cold_snapshot e
      else ∃ blob, postcard_to_stdvec x = Ok blob ∧
             cold_snapshot r.2 = <[EXT_ID T := blob]> (cold_snapshot e)
  | Err _ =>
      (∃ err, postcard_to_stdvec x = Err err) ∧
      hot_map r.2 = hot_map e ∧ cold_snapshot r.2 = cold_snapshot e
  end.
Proof using Type.
  intros Hr r. unfold r. rewrite insert_ext_unfold by done. cbv zeta.
  case_decide; [|destruct (postcard_to_stdvec x) as [blob|err]]; cbn;
    rewrite ?hot_map_ensure, ?cold_ensure.
  - split_and!; [apply get_ext_hot; cbn; apply lookup_insert_eq| |done].
    intros tid Hne. by rewrite lookup_insert_ne.
  - split_and!; [apply get_ext_hot; cbn; apply lookup_insert_eq| |by exists blob].
    intros tid Hne. by rewrite lookup_insert_ne.
  - split_and!; [by exists err|done..].
Qed.

(** C15: extensions survive a restart.  If a value of a snapshotted type is
    inserted, and postcard decodes its encoding to the same value, then
    restoring the cold snapshot into any storage of another process that has
    not used the type yet makes the first access return that value; a
    [NoSnapshot] type, absent from the snapshot, starts from its default. *)
Theorem snapshot_roundtrip T `{!BriocheExtensionType T} (x : T) e e' :
  registered_as T e → registered_as T e' → ext_wf e' → hot_map e' !! TypeId_of T = None →
  is_ok (insert_ext x e).1 = true →
  (∀ blob, postcard_to_stdvec x = Ok blob → postcard_from_bytes blob = Some x) →
  let e1 := restore_cold_snapshot (cold_snapshot (insert_ext x e).2) e' in
  (snapshot_strategy T ≠ SnapshotStrategy.NoSnapshot →
    (get_or_insert_default T e1).1 = x) ∧
  (cold_snapshot (insert_ext x e).2 !! EXT_ID T = None →
    (get_or_insert_default T e1).1 = default T).
Proof using Type.
  intros Hr Hr' Hwf Hhot Hok Hpost e1.
  assert (ext_wf e1) as Hwf1 by by apply (ext_wf_hot_registry e').
  assert (registry (ensure_registered T e1) !! TypeId_of T = Some (build_vtable T)) as Hreg
    by by apply ensure_registered_as.
  assert (∀ y, restored_value T (ensure_registered T e1) = to_any y →
    (get_or_insert_default T e1).1 = y) as Hval.
  { intros y Hy. destruct (get_or_insert_default_spec T e1 Hwf1) as (z & -> & Hz).
    unfold get_ext, borrow_ext in Hz. rewrite hot_map_notify, hot_map_ensure in Hz.
    cbn [e1 restore_cold_snapshot set_cold_snapshot hot_map] in Hz. rewrite Hhot in Hz. cbn in Hz.
    rewrite lookup_insert_eq in Hz. cbn in Hz. fold e1 in Hz. rewrite Hy, downcast_to_any in Hz.
    by injection Hz. }
  split.
  - intros Hs. apply Hval. unfold restored_value. rewrite Hreg. cbn.
    rewrite cold_snapshot_ensure. cbn. rewrite insert_ext_unfold in Hok |- * by done.
    cbv zeta in Hok |- *. rewrite decide_False in Hok |- * by done.
    destruct (postcard_to_stdvec x) as [blob|err] eqn:Eb; [|done]. cbn.
    rewrite lookup_insert_eq. by rewrite (Hpost blob).
  - intros Hn. apply Hval. unfold restored_value. rewrite Hreg. cbn.
    rewrite cold_snapshot_ensure. cbn. by rewrite Hn.
Qed.
End spec.

(** ** Witnesses *)

Definition demo_storage : ExtensionStorage concrete_universe unit :=
  (insert_ext {| note := "kept" |} ExtensionStorage_new).2.


Lemma insert_ext_spec_witness : get_ext PluginNote demo_storage = Some {| note := "kept" |}.
Proof.
  refine (proj1 (insert_ext_spec PluginNote {| note := "kept" |} ExtensionStorage_new _)).
  left. reflexivity.
Defined.

Lemma snapshot_roundtrip_witness :
  (get_or_insert_default PluginNote
    (restore_cold_snapshot (cold_snapshot demo_storage)
       (ExtensionStorage_new (U := concrete_universe) (P := unit)))).1 = {| note := "kept" |}.
Proof.
  apply (snapshot_roundtrip PluginNote {| note := "kept" |} ExtensionStorage_new ExtensionStorage_new);
    [left; reflexivity|left; reflexivity|apply ext_new_wf|reflexivity|vm_compute; reflexivity| |].
  - intros blob [= <-]. vm_compute. reflexivity.
  - discriminate.
Defined.
