(* ===== verification/Rollback.v ===== *)
(** * Copy-on-write rollback (brioche-governance-default/src/rollback.rs)

    The three frame guards as implementations of [CycleRollbackPolicy], and the
    adaptive budget.  [usize] arithmetic wraps at 2^64; [f64] is the standard
    library's [SpecFloat] binary64. *)
From Stdlib Require Import SpecFloat.
From S2P Require Import Prelude Utf8 Types Effects Extension Session Plugins Router Engine.

Definition DEFAULT_MAX_COW_BYTES : N := 65536%N.

(** The backups of a frame, in the order they were taken. *)
Definition Frame {U : AnyUniverse} : Type := list (TypeId * Any).

Section frames.
Context {U : AnyUniverse}.

(** [if let Some(frame) = &mut self.active_frame { frame.push((type_id, clone)) }] *)
Definition frame_push (tid : TypeId) (clone : Any) (f : option Frame) : option Frame :=
  (λ l, l ++ [(tid, clone)]) <$> f.

Section restore.
Context {P : Type} `{!KernelTypes U} `{!CowObserver U P}.

(** [for (type_id, backup) in frame { ext.restore_boxed(type_id, backup) }] *)
Definition restore_frame (f : option Frame) (e : ExtensionStorage U P) : ExtensionStorage U P :=
  foldl (λ e b, restore_boxed b.1 b.2 e) e (match f with Some l => l | None => [] end).

Definition log_rollback_event (ev : RollbackEvent) (e : ExtensionStorage U P) :
    ExtensionStorage U P :=
  update_ext (λ log : RollbackEventLog, {| events := events log ++ [ev] |}) e.
End restore.
End frames.

(** ** UndoFrameGuard *)

Module Undo.
Record UndoFrameGuard {U : AnyUniverse} := {
  max_cow_bytes_per_hook : N;
  active_frame : option Frame;
  current_frame_weight : N;
  snapshotted_types : gset TypeId
}.
Arguments UndoFrameGuard U : clear implicits.

Section undo.
Context {U : AnyUniverse} `{!KernelTypes U}.
Implicit Types p : UndoFrameGuard U.

Definition with_max_cow_bytes (max : N) : UndoFrameGuard U :=
  {| max_cow_bytes_per_hook := max; active_frame := None; current_frame_weight := 0;
     snapshotted_types := ∅ |}.
Definition new : UndoFrameGuard U := with_max_cow_bytes DEFAULT_MAX_COW_BYTES.

Definition begin (_ : string) p : UndoFrameGuard U :=
  {| max_cow_bytes_per_hook := max_cow_bytes_per_hook p; active_frame := Some [];
     current_frame_weight := 0; snapshotted_types := ∅ |}.

(** The tail shared by every branch: remember the type, maybe back it up. *)
Definition saw (tid : TypeId) (frame : option Frame) (weight : N) p : UndoFrameGuard U :=
  {| max_cow_bytes_per_hook := max_cow_bytes_per_hook p; active_frame := frame;
     current_frame_weight := weight; snapshotted_types := {[tid]} ∪ snapshotted_types p |}.

Definition mutation (tid : TypeId) (vtable : ExtVTable U) (current : Any) p : UndoFrameGuard U :=
  if decide (tid ∈ snapshotted_types p) then p
  else
    match strategy vtable with
    | SnapshotStrategy.NoSnapshot =>
        saw tid (active_frame p) (current_frame_weight p) p
    | SnapshotStrategy.CriticalFullClone =>
        saw tid (frame_push tid (clone_box vtable current) (active_frame p))
          (current_frame_weight p) p
    | SnapshotStrategy.FullClone | SnapshotStrategy.Incremental =>
        let weight := estimated_weight_bytes vtable current in
        let total := wrapping_add (current_frame_weight p) weight in
        if (max_cow_bytes_per_hook p <? total)%N then
          saw tid (active_frame p) (current_frame_weight p) p
        else
          saw tid (frame_push tid (clone_box vtable current) (active_frame p)) total p
    end.

Definition exceeded p : bool := (max_cow_bytes_per_hook p <=? current_frame_weight p)%N.

Definition event (rollback : bool) p : RollbackEvent :=
  {| hook_name := ""; was_rollback := rollback; frame_weight := current_frame_weight p;
     budget_exceeded := exceeded p |}.

Definition reset p : UndoFrameGuard U := with_max_cow_bytes (max_cow_bytes_per_hook p).

#[global] Instance undo_observer : CowObserver U (UndoFrameGuard U) := {
  on_mutation := mutation
}.

#[global] Instance undo_policy : CycleRollbackPolicy U (UndoFrameGuard U) := {
  begin_hook := begin;
  commit_hook p e := (reset p, log_rollback_event (event false p) e);
  rollback_hook p e :=
    (reset p, log_rollback_event (event true p) (restore_frame (active_frame p) e));
  is_budget_exceeded := exceeded;
  set_cow_budget_policy _ p := p
}.
End undo.
End Undo.

(** ** TieredUndoFrameGuard *)

Module Tiered.
Record TieredUndoFrameGuard {U : AnyUniverse} := {
  max_standard_bytes : N;
  max_best_effort_bytes : N;
  active_frame : option Frame;
  current_standard_weight : N;
  current_best_effort_weight : N;
  snapshotted_types : gset TypeId
}.
Arguments TieredUndoFrameGuard U : clear implicits.

Section tiered.
Context {U : AnyUniverse} `{!KernelTypes U}.
Implicit Types p : TieredUndoFrameGuard U.

Definition with_thresholds (standard best_effort : N) : TieredUndoFrameGuard U :=
  {| max_standard_bytes := standard; max_best_effort_bytes := best_effort;
     active_frame := None; current_standard_weight := 0; current_best_effort_weight := 0;
     snapshotted_types := ∅ |}.
Definition new : TieredUndoFrameGuard U := with_thresholds 65536 16384.

Definition begin (_ : string) p : TieredUndoFrameGuard U :=
  {| max_standard_bytes := max_standard_bytes p;
     max_best_effort_bytes := max_best_effort_bytes p;
     active_frame := Some []; current_standard_weight := 0; current_best_effort_weight := 0;
     snapshotted_types := ∅ |}.

Definition saw (tid : TypeId) (frame : option Frame) (standard best_effort : N) p :
    TieredUndoFrameGuard U :=
  {| max_standard_bytes := max_standard_bytes p;
     max_best_effort_bytes := max_best_effort_bytes p;
     active_frame := frame; current_standard_weight := standard;
     current_best_effort_weight := best_effort;
     snapshotted_types := {[tid]} ∪ snapshotted_types p |}.

Definition mutation (tid : TypeId) (vtable : ExtVTable U) (current : Any) p :
    TieredUndoFrameGuard U :=
  let standard := current_standard_weight p in
  let best_effort := current_best_effort_weight p in
  let backed_up := frame_push tid (clone_box vtable current) (active_frame p) in
  if decide (tid ∈ snapshotted_types p) then p
  else
    match strategy vtable with
    | SnapshotStrategy.NoSnapshot => saw tid (active_frame p) standard best_effort p
    | SnapshotStrategy.CriticalFullClone => saw tid backed_up standard best_effort p
    | SnapshotStrategy.FullClone =>
        let total := wrapping_add standard (estimated_weight_bytes vtable current) in
        if (max_standard_bytes p <? total)%N then
          saw tid (active_frame p) standard best_effort p
        else saw tid backed_up total best_effort p
    | SnapshotStrategy.Incremental =>
        let total := wrapping_add best_effort (estimated_weight_bytes vtable current) in
        if (max_best_effort_bytes p <? total)%N then
          saw tid (active_frame p) standard best_effort p
        else saw tid backed_up standard total p
    end.

Definition exceeded p : bool :=
  (max_standard_bytes p <=? current_standard_weight p)%N
  || (max_best_effort_bytes p <=? current_best_effort_weight p)%N.

Definition event (rollback : bool) p : RollbackEvent :=
  {| hook_name := ""; was_rollback := rollback;
     frame_weight := wrapping_add (current_standard_weight p) (current_best_effort_weight p);
     budget_exceeded := exceeded p |}.

Definition reset p : TieredUndoFrameGuard U :=
  with_thresholds (max_standard_bytes p) (max_best_effort_bytes p).

#[global] Instance tiered_observer : CowObserver U (TieredUndoFrameGuard U) := {
  on_mutation := mutation
}.

#[global] Instance tiered_policy : CycleRollbackPolicy U (TieredUndoFrameGuard U) := {
  begin_hook := begin;
  commit_hook p e := (reset p, log_rollback_event (event false p) e);
  rollback_hook p e :=
    (reset p, log_rollback_event (event true p) (restore_frame (active_frame p) e));
  is_budget_exceeded := exceeded;
  set_cow_budget_policy _ p := p
}.
End tiered.
End Tiered.

(** ** AdaptiveUndoFrameGuard *)

Module Adaptive.
Record AdaptiveUndoFrameGuard {U : AnyUniverse} := {
  fallback_max_cow_bytes : N;
  budget_policy : option CowBudgetPolicy;
  active_frame : option Frame;
  current_frame_weight : N;
  snapshotted_types : gset TypeId;
  current_hook : string
}.
Arguments AdaptiveUndoFrameGuard U : clear implicits.

Section adaptive.
Context {U : AnyUniverse} `{!KernelTypes U}.
Implicit Types p : AdaptiveUndoFrameGuard U.

Definition with_fallback_max (max : N) : AdaptiveUndoFrameGuard U :=
  {| fallback_max_cow_bytes := max; budget_policy := None; active_frame := None;
     current_frame_weight := 0; snapshotted_types := ∅; current_hook := "" |}.
Definition new : AdaptiveUndoFrameGuard U := with_fallback_max DEFAULT_MAX_COW_BYTES.

Definition set_budget (policy : CowBudgetPolicy) p : AdaptiveUndoFrameGuard U :=
  {| fallback_max_cow_bytes := fallback_max_cow_bytes p; budget_policy := Some policy;
     active_frame := active_frame p; current_frame_weight := current_frame_weight p;
     snapshotted_types := snapshotted_types p; current_hook := current_hook p |}.

Definition effective_max p : N :=
  match budget_policy p with
  | Some policy => policy (current_hook p)
  | None => fallback_max_cow_bytes p
  end.

(** Fields of the current hook; the rest is configuration. *)
Definition set_hook (hook : string) (frame : option Frame) (weight : N) (seen : gset TypeId) p :
    AdaptiveUndoFrameGuard U :=
  {| fallback_max_cow_bytes := fallback_max_cow_bytes p; budget_policy := budget_policy p;
     active_frame := frame; current_frame_weight := weight; snapshotted_types := seen;
     current_hook := hook |}.

Definition begin (hook : string) p : AdaptiveUndoFrameGuard U := set_hook hook (Some []) 0 ∅ p.

Definition saw (tid : TypeId) (frame : option Frame) (weight : N) p : AdaptiveUndoFrameGuard U :=
  set_hook (current_hook p) frame weight ({[tid]} ∪ snapshotted_types p) p.

Definition mutation (tid : TypeId) (vtable : ExtVTable U) (current : Any) p :
    AdaptiveUndoFrameGuard U :=
  if decide (tid ∈ snapshotted_types p) then p
  else
    match strategy vtable with
    | SnapshotStrategy.NoSnapshot =>
        saw tid (active_frame p) (current_frame_weight p) p
    | SnapshotStrategy.CriticalFullClone =>
        saw tid (frame_push tid (clone_box vtable current) (active_frame p))
          (current_frame_weight p) p
    | SnapshotStrategy.FullClone | SnapshotStrategy.Incremental =>
        let weight := estimated_weight_bytes vtable current in
        let max := effective_max p in
        let total := wrapping_add (current_frame_weight p) weight in
        if (max <? total)%N then
          saw tid (active_frame p) (current_frame_weight p) p
        else
          saw tid (frame_push tid (clone_box vtable current) (active_frame p)) total p
    end.

Definition exceeded p : bool := (effective_max p <=? current_frame_weight p)%N.

Definition event (rollback : bool) p : RollbackEvent :=
  {| hook_name := current_hook p; was_rollback := rollback;
     frame_weight := current_frame_weight p; budget_exceeded := exceeded p |}.

Definition reset p : AdaptiveUndoFrameGuard U := set_hook (current_hook p) None 0 ∅ p.

#[global] Instance adaptive_observer : CowObserver U (AdaptiveUndoFrameGuard U) := {
  on_mutation := mutation
}.

#[global] Instance adaptive_policy : CycleRollbackPolicy U (AdaptiveUndoFrameGuard U) := {
  begin_hook := begin;
  commit_hook p e := (reset p, log_rollback_event (event false p) e);
  rollback_hook p e :=
    (reset p, log_rollback_event (event true p) (restore_frame (active_frame p) e));
  is_budget_exceeded := exceeded;
  set_cow_budget_policy := set_budget
}.
End adaptive.
End Adaptive.

(** ** HistoricalCowBudgetPolicy *)

Record RollbackFrameRecord := {
  record_hook_name : string;
  succeeded : bool;
  record_weight : N
}.

Module Historical.
Record HistoricalCowBudgetPolicy := {
  base_budget : N;
  min_budget : N;
  max_budget : N;
  window_size : nat;
  history : list RollbackFrameRecord
}.

Definition with_params (base min max : N) (window : nat) : HistoricalCowBudgetPolicy :=
  {| base_budget := base; min_budget := min; max_budget := max; window_size := window;
     history := [] |}.
Definition new : HistoricalCowBudgetPolicy := with_params 65536 16384 262144 32.

Definition record_frame (hook : string) (ok : bool) (weight : N) (p : HistoricalCowBudgetPolicy) :
    HistoricalCowBudgetPolicy :=
  {| base_budget := base_budget p; min_budget := min_budget p; max_budget := max_budget p;
     window_size := window_size p;
     history := (if (window_size p <=? length (history p))%nat then tail (history p) else history p)
                ++ [{| record_hook_name := hook; succeeded := ok; record_weight := weight |}] |}.

(** [x as f64] *)
Definition f64_of_nat (n : nat) : spec_float := binary_normalize 53 1024 (Z.of_nat n) 0 false.
(** The literals [0.95] and [0.75], rounded to nearest. *)
Definition f64_0_95 : spec_float := S754_finite false 0x1e666666666666 (-53).
Definition f64_0_75 : spec_float := S754_finite false 0x18000000000000 (-53).
Definition f64_1 : spec_float := f64_of_nat 1.

Definition success_rate (p : HistoricalCowBudgetPolicy) : spec_float :=
  match history p with
  | [] => f64_1
  | _ => SFdiv 53 1024 (f64_of_nat (length (filter (λ r, succeeded r = true) (history p))))
           (f64_of_nat (length (history p)))
  end.

Definition adaptive_budget (p : HistoricalCowBudgetPolicy) : N :=
  let rate := success_rate p in
  let budget :=
    if SFltb f64_0_95 rate then (N.min (saturating_mul (base_budget p) 3) (max_budget p) / 4)%N
    else if SFltb rate f64_0_75 then
      (N.min (saturating_mul (base_budget p) 5) (max_budget p) / 4)%N
    else base_budget p in
  N.min (N.max budget (min_budget p)) (max_budget p).

Definition max_cow_bytes (p : HistoricalCowBudgetPolicy) : CowBudgetPolicy :=
  λ _, adaptive_budget p.
End Historical.
