(* ===== verification/RollbackSpec.v ===== *)
(** * Correctness of the frame guards

    The three guards meet one interface, [FrameGuard]; what a rollback restores is
    proved once, against the interface. *)
From Stdlib Require Import SpecFloat.
From S2P Require Import Prelude Utf8 Types Effects Extension Session Plugins Router Engine Trace.
From S2P Require Import Hooks Rollback ExtensionSpec Instances.

(** ** The interface of a frame guard *)

Class FrameGuard (U : AnyUniverse) (P : Type)
    `{!KernelTypes U, !CycleRollbackPolicy U P} := {
  frame : P → option Frame;
  seen : P → gset TypeId;
  fg_begin n p : frame (begin_hook n p) = Some [] ∧ seen (begin_hook n p) = ∅;
  fg_seen tid vt a p : tid ∈ seen p → on_mutation tid vt a p = p;
  fg_mutation tid vt a p fr :
    tid ∉ seen p → frame p = Some fr →
    seen (on_mutation tid vt a p) = {[tid]} ∪ seen p ∧
    (frame (on_mutation tid vt a p) = Some (fr ++ [(tid, clone_box vt a)]) ∨
     frame (on_mutation tid vt a p) = Some fr ∧ strategy vt ≠ SnapshotStrategy.CriticalFullClone);
  fg_rollback p e :
    ∃ ev, (rollback_hook p e).2 = log_rollback_event ev (restore_frame (frame p) e);
  fg_commit p e : ∃ ev, (commit_hook p e).2 = log_rollback_event ev e
}.

Section instances.
Context {U : AnyUniverse} `{!KernelTypes U}.

#[export] Instance undo_guard : FrameGuard U (Undo.UndoFrameGuard U).
Proof.
  refine {| frame := Undo.active_frame; seen := Undo.snapshotted_types |}; try by (intros; cbn; eauto).
  - intros tid vt a p H. cbn. unfold Undo.mutation. by rewrite decide_True.
  - intros tid vt a p fr H Hf. cbn. unfold Undo.mutation. rewrite decide_False by done.
    destruct (strategy vt) eqn:Es; try case_match; cbn; rewrite Hf; auto.
Defined.

#[export] Instance tiered_guard : FrameGuard U (Tiered.TieredUndoFrameGuard U).
Proof.
  refine {| frame := Tiered.active_frame; seen := Tiered.snapshotted_types |};
    try by (intros; cbn; eauto).
  - intros tid vt a p H. cbn. unfold Tiered.mutation. by rewrite decide_True.
  - intros tid vt a p fr H Hf. cbn. unfold Tiered.mutation. rewrite decide_False by done.
    destruct (strategy vt) eqn:Es; try case_match; cbn; rewrite Hf; auto.
Defined.

#[export] Instance adaptive_guard : FrameGuard U (Adaptive.AdaptiveUndoFrameGuard U).
Proof.
  refine {| frame := Adaptive.active_frame; seen := Adaptive.snapshotted_types |};
    try by (intros; cbn; eauto).
  - intros tid vt a p H. cbn. unfold Adaptive.mutation. by rewrite decide_True.
  - intros tid vt a p fr H Hf. cbn. unfold Adaptive.mutation. rewrite decide_False by done.
    destruct (strategy vt) eqn:Es; try case_match; cbn; rewrite Hf; auto.
Defined.
End instances.

Section rollback.
Context {U : AnyUniverse} {P : Type} `{!KernelTypes U, !CycleRollbackPolicy U P, !FrameGuard U P}.
Implicit Types e : ExtensionStorage U P.

(** What a hook does to the storage through mutable borrows. *)
Inductive hook_mutations : ExtensionStorage U P → ExtensionStorage U P → Prop :=
  | hm_refl e : hook_mutations e e
  | hm_update T `{!BriocheExtensionType T} (f : T → T) e e' :
      hook_mutations e e' → hook_mutations e (update_ext f e')
  | hm_get_mut T `{!BriocheExtensionType T} (x : T) e e' :
      hook_mutations e e' → hook_mutations e (write_ext x (get_mut T e').2).

(** The frame accounts for every value of [e0] that may have changed. *)
Record tracked e0 e : Prop := {
  tr_wf : ext_wf e;
  tr_registry tid vt : registry e0 !! tid = Some vt → registry e !! tid = Some vt;
  tr_frame : ∃ p fr,
    rollback_policy e = Some p ∧ frame p = Some fr ∧ seen p = snapshotted_this_hook e ∧
    (∀ tid a, (tid, a) ∈ fr → tid ∈ snapshotted_this_hook e ∧ type_id_of a = tid) ∧
    ∀ tid a vt, hot_map e0 !! tid = Some a → registry e0 !! tid = Some vt →
      (tid ∉ snapshotted_this_hook e → hot_map e !! tid = Some a) ∧
      (∀ b, (tid, b) ∈ fr → b = a) ∧
      (tid ∈ snapshotted_this_hook e → strategy vt = SnapshotStrategy.CriticalFullClone →
        (tid, a) ∈ fr)
}.

(** A mutable borrow of [tid]: the first one reaches the guard. *)
Lemma tracked_notify e0 e tid :
  tracked e0 e → tracked e0 (notify_cow_on_first_mutation tid e).
Proof using All.
  intros [Hwf Hreg (p & fr & Hp & Hf & Hs & Hin & Ht)].
  split; [by apply ext_wf_notify|by setoid_rewrite registry_notify|].
  unfold notify_cow_on_first_mutation. rewrite Hp.
  destruct (decide (tid ∈ snapshotted_this_hook e)) as [Hseen|Hseen]; [by exists p, fr|].
  destruct (registry e !! tid) as [vt|] eqn:Ev; [|by exists p, fr].
  destruct (hot_map e !! tid) as [c|] eqn:Ec; [|by exists p, fr].
  assert (clone_box vt c = c) as Hclone.
  { apply (vtable_clone tid); [by apply (wf_registry _ Hwf)|by apply (wf_hot _ Hwf)]. }
  destruct (fg_mutation tid vt c p fr) as [Hs' Hf']; [by rewrite Hs|done|]. rewrite Hclone in Hf'.
  assert (∀ a vt0, hot_map e0 !! tid = Some a → registry e0 !! tid = Some vt0 → vt0 = vt ∧ a = c)
    as Hfirst.
  { intros a vt0 Ha Hv. destruct (Ht tid a vt0 Ha Hv) as (Hno & _ & _).
    specialize (Hreg tid vt0 Hv). rewrite (Hno Hseen) in Ec. split; congruence. }
  destruct Hf' as [Hf'|[Hf' Hcrit]]; eexists _, _;
    (split_and!; [reflexivity|exact Hf'|cbn; by rewrite Hs', Hs| |]); cbn.
  - intros t b. rewrite elem_of_app, list_elem_of_singleton. intros [Hb|[= -> ->]].
    + destruct (Hin t b Hb). split; [by apply elem_of_union_r|done].
    + split; [by apply elem_of_union_l, elem_of_singleton|by apply (wf_hot _ Hwf)].
  - intros t a vt0 Ha Hv. destruct (Ht t a vt0 Ha Hv) as (Hno & Hb & Hc). split_and!.
    + intros Hn. apply Hno. by intros Hx; apply Hn, elem_of_union_r.
    + intros b. rewrite elem_of_app, list_elem_of_singleton. intros [Hbin|[= -> ->]]; [by apply Hb|].
      symmetry. by eapply (proj2 (Hfirst a vt0 Ha Hv)).
    + intros Ht' Hcr. apply elem_of_app. apply elem_of_union in Ht' as [Ht'|Ht']; [right|left; by apply Hc].
      apply elem_of_singleton in Ht' as ->. destruct (Hfirst a vt0 Ha Hv) as [_ ->].
      by apply list_elem_of_singleton.
  - intros t b Hb. destruct (Hin t b Hb). split; [by apply elem_of_union_r|done].
  - intros t a vt0 Ha Hv. destruct (Ht t a vt0 Ha Hv) as (Hno & Hb & Hc). split_and!.
    + intros Hn. apply Hno. by intros Hx; apply Hn, elem_of_union_r.
    + exact Hb.
    + intros Ht' Hcr. apply elem_of_union in Ht' as [Ht'|Ht']; [|by apply Hc].
      apply elem_of_singleton in Ht' as ->. destruct (Hfirst a vt0 Ha Hv) as [-> _]. done.
Qed.

Lemma tracked_ensure e0 e T `{!BriocheExtensionType T} :
  tracked e0 e → tracked e0 (ensure_registered T e).
Proof using All.
  intros [Hwf Hreg Hfr]. unfold ensure_registered.
  destruct (registry e !! TypeId_of T) eqn:E; [by split|].
  split.
  - pose proof (ext_wf_ensure T e Hwf) as H. unfold ensure_registered in H. by rewrite E in H.
  - intros tid vt Hv. cbn. rewrite lookup_insert_ne; [by apply Hreg|].
    intros <-. specialize (Hreg _ _ Hv). congruence.
  - exact Hfr.
Qed.

(** Writing a slot that is accounted for, or that [e0] did not have. *)
Lemma tracked_set_hot e0 e tid v :
  tracked e0 e → type_id_of v = tid →
  tid ∈ snapshotted_this_hook e ∨ hot_map e0 !! tid = None ∨ registry e0 !! tid = None →
  tracked e0 (set_hot_map (insert tid v) e).
Proof using All.
  intros [Hwf Hreg (p & fr & Hp & Hf & Hs & Hin & Ht)] Hty Hor.
  split; [by apply ext_wf_set_hot|done|]. exists p, fr. split_and!; try done.
  intros t a vt Ha Hv. destruct (Ht t a vt Ha Hv) as (Hno & Hb & Hc). split_and!; try done.
  intros Hn. cbn. rewrite lookup_insert_ne; [by apply Hno|]. intros ->.
  destruct Hor as [?|[?|?]]; [done|congruence..].
Qed.

Lemma notify_seen e tid p :
  rollback_policy e = Some p → is_Some (registry e !! tid) → is_Some (hot_map e !! tid) →
  tid ∈ snapshotted_this_hook (notify_cow_on_first_mutation tid e).
Proof using All.
  intros Hp [vt Hv] [a Ha]. unfold notify_cow_on_first_mutation. rewrite Hp, Hv, Ha.
  case_decide; [done|]. cbn. by apply elem_of_union_l, elem_of_singleton.
Qed.

(** A value that is missing now was missing when the hook began. *)
Lemma tracked_missing e0 e tid :
  tracked e0 e → hot_map e !! tid = None →
  tid ∈ snapshotted_this_hook e ∨ hot_map e0 !! tid = None ∨ registry e0 !! tid = None.
Proof using All.
  intros [_ _ (p & fr & _ & _ & _ & _ & Ht)] Hn.
  destruct (hot_map e0 !! tid) as [a|] eqn:Ea; [|auto].
  destruct (registry e0 !! tid) as [vt|] eqn:Ev; [|auto].
  destruct (decide (tid ∈ snapshotted_this_hook e)) as [?|Hs]; [auto|].
  destruct (Ht tid a vt Ea Ev) as (Hno & _). rewrite (Hno Hs) in Hn. discriminate.
Qed.

Lemma tracked_borrow e0 e T `{!BriocheExtensionType T} :
  tracked e0 e →
  tracked e0 (borrow_ext T e) ∧ TypeId_of T ∈ snapshotted_this_hook (borrow_ext T e).
Proof using All.
  intros Htr%(tracked_ensure e0 e T). unfold borrow_ext.
  set (e1 := ensure_registered T e) in *.
  assert (is_Some (registry e1 !! TypeId_of T)) as Hreg by apply ensure_lookup.
  assert (∃ p, rollback_policy e1 = Some p) as [p Hp] by (destruct Htr as [_ _ (p & ? & ? & _)]; eauto).
  destruct (hot_map e1 !! TypeId_of T) as [a|] eqn:Ea; cbn zeta.
  - split; [by apply tracked_notify|]. eapply notify_seen; eauto.
  - split.
    + apply tracked_notify, tracked_set_hot; [done| |by apply tracked_missing].
      apply restored_value_typed, Htr.
    + eapply notify_seen; [exact Hp|exact Hreg|]. cbn. rewrite lookup_insert_eq. eauto.
Qed.

Lemma tracked_update e0 e T `{!BriocheExtensionType T} (f : T → T) :
  tracked e0 e → tracked e0 (update_ext f e).
Proof using All.
  intros Htr. destruct (update_ext_spec T f e (tr_wf _ _ Htr)) as (x & _ & _ & ->).
  destruct (tracked_borrow e0 e T Htr) as [Hb Hs].
  apply tracked_set_hot; [done|apply type_id_to_any|by left].
Qed.

Lemma tracked_get_mut e0 e T `{!BriocheExtensionType T} (x : T) :
  tracked e0 e → tracked e0 (write_ext x (get_mut T e).2).
Proof using All.
  intros Htr. cbn. pose proof (tracked_notify e0 e (TypeId_of T) Htr) as Hn.
  unfold write_ext. case_match eqn:E; [|done].
  apply tracked_set_hot; [done|apply type_id_to_any|].
  rewrite hot_map_notify in E. destruct (hot_map e !! TypeId_of T) as [a|] eqn:Ea; [|done].
  destruct (registry e !! TypeId_of T) as [vt|] eqn:Ev.
  - left. destruct Htr as [_ _ (p & fr & Hp & _)]. eapply notify_seen; eauto.
  - right. right. destruct (registry e0 !! TypeId_of T) as [vt|] eqn:E0; [|done].
    apply (tr_registry _ _ Htr) in E0. congruence.
Qed.

Lemma tracked_start n p e :
  ext_wf e → tracked e (attach_rollback_policy (begin_hook n p) e).
Proof using All.
  intros Hwf. split; [by apply (ext_wf_hot_registry e)|done|].
  destruct (fg_begin n p) as [Hf Hs]. exists (begin_hook n p), []. split_and!; try done.
  - intros tid a H. by apply not_elem_of_nil in H.
  - intros tid a vt Ha Hv. split_and!; [done| |].
    + intros b H. by apply not_elem_of_nil in H.
    + intros H. by apply not_elem_of_empty in H.
Qed.

Lemma hook_mutations_tracked e0 e1 e :
  tracked e0 e1 → hook_mutations e1 e → tracked e0 e.
Proof using All.
  intros Htr Hm. induction Hm; [done|apply tracked_update; auto|apply tracked_get_mut; auto].
Qed.

(** *** Restoring *)

Lemma restore_frame_wf fr e :
  (∀ tid b, (tid, b) ∈ fr → type_id_of b = tid) → ext_wf e → ext_wf (restore_frame (Some fr) e).
Proof using All.
  unfold restore_frame. revert e. induction fr as [|[t b] fr IH]; intros e Hty Hwf; [done|].
  cbn. apply IH; [intros; apply Hty; by right|]. apply ext_wf_set_hot; [done|]. apply Hty. by left.
Qed.

Lemma restore_frame_lookup fr e tid a :
  (∀ b, (tid, b) ∈ fr → b = a) →
  ((tid, a) ∈ fr ∧ hot_map (restore_frame (Some fr) e) !! tid = Some a) ∨
  ((∀ b, (tid, b) ∉ fr) ∧ hot_map (restore_frame (Some fr) e) !! tid = hot_map e !! tid).
Proof using All.
  unfold restore_frame. revert e. induction fr as [|[t b] fr IH]; intros e Hb; cbn.
  { right. split; [|done]. intros b H. by apply not_elem_of_nil in H. }
  destruct (IH (restore_boxed t b e)) as [[Hin ->]|[Hno ->]].
  { intros c Hc. apply Hb. by right. }
  - left. split; [by right|done].
  - destruct (decide (t = tid)) as [->|Hne].
    + left. assert (b = a) as -> by (apply Hb; by left). split; [by left|].
      cbn. apply lookup_insert_eq.
    + right. split; [|cbn; by rewrite lookup_insert_ne].
      intros c. rewrite elem_of_cons. intros [[= <- _]|Hc]; [done|by eapply Hno].
Qed.

Lemma log_event_ne ev e tid :
  ext_wf e → tid ≠ TypeId_of RollbackEventLog →
  hot_map (log_rollback_event ev e) !! tid = hot_map e !! tid.
Proof using All.
  intros Hwf Hne. unfold log_rollback_event.
  destruct (update_ext_spec RollbackEventLog
    (λ log, {| events := events log ++ [ev] |}) e Hwf) as (x & _ & _ & ->).
  cbn. rewrite lookup_insert_ne by done. by apply hot_map_borrow_ne.
Qed.

(** The storage a hook leaves, once the guard is detached. *)
Lemma rollback_lookup n p e e' p' tid a vt :
  ext_wf e → hook_mutations (attach_rollback_policy (begin_hook n p) e) e' →
  rollback_policy e' = Some p' →
  tid ≠ TypeId_of RollbackEventLog →
  hot_map e !! tid = Some a → registry e !! tid = Some vt →
  let e'' := (detach_rollback_policy e').2 in
  hot_map (rollback_hook p' e'').2 !! tid = Some a ∨
  (hot_map (rollback_hook p' e'').2 !! tid = hot_map e' !! tid ∧
   strategy vt ≠ SnapshotStrategy.CriticalFullClone).
Proof using All.
  intros Hwf Hm Hp' Hne Ha Hv e''.
  pose proof (hook_mutations_tracked _ _ _ (tracked_start n p e Hwf) Hm) as
    [Hwf' Hreg (q & fr & Hq & Hf & Hs & Hin & Ht)].
  rewrite Hp' in Hq. injection Hq as <-.
  destruct (fg_rollback p' e'') as [ev ->]. rewrite Hf.
  assert (ext_wf e'') as Hwf'' by by apply (ext_wf_hot_registry e').
  destruct (Ht tid a vt Ha Hv) as (Hno & Hb & Hc).
  assert (hot_map (log_rollback_event ev (restore_frame (Some fr) e'')) !! tid
          = hot_map (restore_frame (Some fr) e'') !! tid) as ->.
  { apply log_event_ne; [|done]. apply restore_frame_wf; [|done]. intros t b Hb'. by apply Hin. }
  destruct (restore_frame_lookup fr e'' tid a Hb) as [[_ ->]|[Hnot ->]]; [by left|].
  destruct (decide (tid ∈ snapshotted_this_hook e')) as [Hseen|Hseen].
  - right. split; [done|]. intros Hcr. by eapply Hnot, Hc.
  - left. by apply Hno.
Qed.

Lemma commit_lookup p e tid :
  ext_wf e → tid ≠ TypeId_of RollbackEventLog →
  hot_map (commit_hook p e).2 !! tid = hot_map e !! tid.
Proof using All. intros Hwf Hne. destruct (fg_commit p e) as [ev ->]. by apply log_event_ne. Qed.

Lemma hook_mutations_policy n p e e' :
  ext_wf e → hook_mutations (attach_rollback_policy (begin_hook n p) e) e' →
  ext_wf e' ∧ ∃ p', rollback_policy e' = Some p'.
Proof using All.
  intros Hwf Hm. destruct (hook_mutations_tracked _ _ _ (tracked_start n p e Hwf) Hm)
    as [Hwf' _ (q & fr & Hq & _)]. eauto.
Qed.


(** Insertions escape the rollback.  A hook that stores a value with
    [insert] rather than through a borrow is not seen by any frame guard: a
    rollback right after it leaves the inserted value in place. *)
Theorem insert_escapes_rollback T `{!BriocheExtensionType T} (x : T) n p e :
  ext_wf e → registered_as T e → TypeId_of T ≠ TypeId_of RollbackEventLog →
  let e1 := attach_rollback_policy (begin_hook n p) e in
  let e2 := (insert_ext x e1).2 in
  is_ok (insert_ext x e1).1 = true →
  rollback_policy e2 = Some (begin_hook n p) ∧
  get_ext T (rollback_hook (begin_hook n p) (detach_rollback_policy e2).2).2 = Some x.
Proof using All.
  intros Hwf Hr Hne e1 e2 Hok.
  assert (rollback_policy e2 = Some (begin_hook n p)) as Hp.
  { unfold e2, insert_ext. cbv zeta.
    pose proof (policy_ensure T e1) as Hpe. repeat case_match; exact Hpe. }
  split; [done|]. destruct (fg_rollback (begin_hook n p) (detach_rollback_policy e2).2) as [ev ->].
  destruct (fg_begin n p) as [-> _]. cbn [restore_frame foldl].
  assert (ext_wf e2) as Hwf2 by by apply ext_wf_insert, (ext_wf_hot_registry e).
  unfold get_ext. rewrite log_event_ne; [|by apply (ext_wf_hot_registry e2)|done]. cbn.
  fold (get_ext T e2). unfold e2 in *. rewrite insert_ext_unfold in Hok |- * by exact Hr.
  cbv zeta in Hok |- *. case_decide; [apply get_ext_hot; cbn; apply lookup_insert_eq|].
  destruct (postcard_to_stdvec x); [|done]. apply get_ext_hot; cbn; apply lookup_insert_eq.
Qed.
End rollback.

(** ** The budget of [UndoFrameGuard] *)

Section budget.
Context {U : AnyUniverse} `{!KernelTypes U}.
Import Undo.

Inductive undo_reachable : UndoFrameGuard U → Prop :=
  | ur_new max : undo_reachable (with_max_cow_bytes max)
  | ur_begin hname p : undo_reachable p → undo_reachable (begin_hook hname p)
  | ur_mutation tid vt a p : undo_reachable p → undo_reachable (on_mutation tid vt a p)
  | ur_commit p e : undo_reachable p → undo_reachable (commit_hook p e).1
  | ur_rollback p e : undo_reachable p → undo_reachable (rollback_hook p e).1.

Lemma undo_weight_le p : undo_reachable p → (current_frame_weight p ≤ max_cow_bytes_per_hook p)%N.
Proof.
  induction 1; cbn; try lia. unfold mutation.
  case_decide; [done|]. destruct (strategy vt); cbn; try done; case_match eqn:E; cbn; try done;
    by apply N.ltb_ge in E.
Qed.

(** The budget is never overrun, only met.  The weight of an
    [UndoFrameGuard]'s frame stays at or below its maximum (snapshots that would
    overrun it are abandoned and do not count), so [is_budget_exceeded], which
    triggers the rollback, holds exactly when the weight equals the maximum: a
    hook that overran its budget is committed. *)
Theorem undo_budget_exact p :
  undo_reachable p →
  (current_frame_weight p ≤ max_cow_bytes_per_hook p)%N ∧
  (is_budget_exceeded p = true ↔ current_frame_weight p = max_cow_bytes_per_hook p).
Proof using Type.
  intros Hr%undo_weight_le. split; [done|]. cbn. unfold exceeded. rewrite N.leb_le. lia.
Qed.
End budget.

(** ** The adaptive budget *)

Section historical.
Import Historical.

Definition recorded (p : HistoricalCowBudgetPolicy) (rs : list (string * bool * N)) :
    HistoricalCowBudgetPolicy := foldl (λ p r, record_frame r.1.1 r.1.2 r.2 p) p rs.

Lemma recorded_params p rs :
  base_budget (recorded p rs) = base_budget p ∧ min_budget (recorded p rs) = min_budget p ∧
  max_budget (recorded p rs) = max_budget p ∧ window_size (recorded p rs) = window_size p.
Proof. revert p. induction rs as [|r rs IH]; intros p; [done|]. apply (IH (record_frame _ _ _ p)). Qed.

Lemma record_frame_window h ok w p :
  length (history p) ≤ Nat.max 1 (window_size p) →
  length (history (record_frame h ok w p)) ≤ Nat.max 1 (window_size p).
Proof.
  intros H. cbn. rewrite length_app. cbn [length].
  destruct (Nat.leb_spec (window_size p) (length (history p)));
    [destruct (history p); cbn [tail length] in *|]; lia.
Qed.

Lemma recorded_window p rs :
  length (history p) ≤ Nat.max 1 (window_size p) →
  length (history (recorded p rs)) ≤ Nat.max 1 (window_size p).
Proof.
  revert p. induction rs as [|r rs IH]; intros p H; [done|].
  apply (IH (record_frame r.1.1 r.1.2 r.2 p)). exact (record_frame_window _ _ _ p H).
Qed.

(** The adaptive budget stays in its bounds and never grows by default.
    However frames turn out, the window holds at most [max 1 window_size]
    records and the budget lies between [min_budget] and [max_budget]; with the
    default parameters it never exceeds the base budget, so frequent
    abandonments do not increase it (the cap is applied before the division by
    four). *)
Theorem adaptive_budget_bounds base min max window rs :
  let p := recorded (with_params base min max window) rs in
  length (history p) ≤ Nat.max 1 window ∧
  (adaptive_budget p ≤ max)%N ∧ ((min ≤ max)%N → (min ≤ adaptive_budget p)%N) ∧
  (adaptive_budget (recorded new rs) ≤ base_budget new)%N.
Proof using Type.
  intros p. destruct (recorded_params (with_params base min max window) rs) as (_ & Hmin & Hmax & _).
  fold p in Hmin, Hmax. cbn in Hmin, Hmax. split_and!.
  - apply recorded_window. cbn. lia.
  - unfold adaptive_budget. rewrite Hmax. lia.
  - intros Hle. unfold adaptive_budget. rewrite Hmax, Hmin. lia.
  - destruct (recorded_params new rs) as (Hb & Hn & Hx & _). unfold adaptive_budget.
    rewrite Hb, Hn, Hx. repeat case_match; vm_compute; discriminate.
Qed.
End historical.

(** ** Witnesses *)

Definition small_guard : Undo.UndoFrameGuard concrete_universe := Undo.with_max_cow_bytes 4.

Definition note_storage : ExtensionStorage concrete_universe (Undo.UndoFrameGuard concrete_universe) :=
  (insert_ext {| note := "four" |} ExtensionStorage_new).2.

Lemma note_storage_wf : ext_wf note_storage.
Proof. apply ext_wf_insert, ext_new_wf. Qed.

(** A hook that overwrites the note and fails. *)
Definition overwrite_note :
    State (ExtensionStorage concrete_universe (Undo.UndoFrameGuard concrete_universe))
      (PluginResult unit) :=
  λ e, (Ok tt, update_ext (λ _, {| note := "lost" |}) e).

Definition note_ctx : HookCtx concrete_universe (Undo.UndoFrameGuard concrete_universe) unit :=
  {| hc_policy := Some small_guard;
     hc_session := set_extensions note_storage (Session_new "s");
     hc_data := tt |}.


Definition undo_storage : Type :=
  ExtensionStorage concrete_universe (Undo.UndoFrameGuard concrete_universe).
Definition attached_storage : undo_storage :=
  attach_rollback_policy (begin_hook "h" small_guard) note_storage.
Definition inserted_storage : undo_storage := (insert_ext {| note := "new" |} attached_storage).2.
Definition rolled_back_storage : undo_storage :=
  (rollback_hook (begin_hook "h" small_guard) (detach_rollback_policy inserted_storage).2).2.

Lemma insert_escapes_rollback_witness :
  get_ext PluginNote rolled_back_storage = Some {| note := "new" |}.
Proof.
  refine (proj2 (insert_escapes_rollback PluginNote {| note := "new" |} "h" small_guard note_storage
    note_storage_wf _ _ _)).
  - right. reflexivity.
  - discriminate.
  - vm_compute. reflexivity.
Defined.

Lemma undo_budget_exact_witness :
  (Undo.current_frame_weight (begin_hook "h" small_guard) ≤ 4)%N.
Proof.
  exact (proj1 (undo_budget_exact (begin_hook "h" small_guard) (ur_begin "h" small_guard (ur_new 4%N)))).
Defined.
