(* ===== verification/AggregatorSpec.v ===== *)
(** * Correctness of the decision aggregators and effect constraints, alone and against the
      default components *)
From S2P Require Import Prelude Utf8 Types Effects Extension Session Plugins Router Engine.
From S2P Require Import GovTypes Trace Hooks Finalize Dispatch Transition Guards Aggregators.
From S2P Require Import Instances Frames Termination Invariants Ordering.

(** ** The lexicographic rules as a reference *)

Definition decisive (d : PolicyDecision) : bool := is_block d || is_override d.
Definition decision_edits (d : PolicyDecision) : list HistoryEdit :=
  match d with PolicyDecision.MutateHistory edits => edits | _ => [] end.
Definition requested_effect (d : PolicyDecision) : option Effect :=
  match d with PolicyDecision.RequestEffect eff => Some eff | _ => None end.

Definition first_decisive (ds : list PolicyDecision) : option PolicyDecision :=
  snd <$> list_find (λ d, decisive d = true) ds.

Lemma first_decisive_cons d ds :
  first_decisive (d :: ds) = if decisive d then Some d else first_decisive ds.
Proof.
  unfold first_decisive. cbn. destruct (decide (decisive d = true)) as [->|H]; [done|].
  apply not_true_is_false in H as ->. by destruct (list_find _ ds) as [[]|].
Qed.

Lemma first_decisive_app ds ds' d :
  first_decisive ds = Some d → first_decisive (ds ++ ds') = Some d.
Proof.
  induction ds as [|x ds IH]; [done|]. cbn [app]. rewrite !first_decisive_cons.
  by destruct (decisive x).
Qed.

Lemma first_decisive_is ds d : first_decisive ds = Some d → decisive d = true.
Proof.
  induction ds as [|x ds IH]; [done|]. rewrite first_decisive_cons.
  destruct (decisive x) eqn:E; [by intros [= <-]|done].
Qed.

Lemma lexicographic_loop_spec ds edits es :
  lexicographic_loop ds edits es =
  match first_decisive ds with
  | Some d => inl d
  | None => inr (edits ++ (ds ≫= decision_edits), es ++ omap requested_effect ds)
  end.
Proof.
  revert edits es. induction ds as [|d ds IH]; intros edits es.
  { cbn. by rewrite !app_nil_r. }
  rewrite first_decisive_cons. destruct d; cbn; [apply IH|done| | |done];
    rewrite IH; destruct (first_decisive ds); cbn; by rewrite <- ?app_assoc.
Qed.

Lemma lexicographic_result_not_decisive edits es : decisive (lexicographic_result edits es) = false.
Proof. by destruct edits, es. Qed.

(** The lexicographic aggregator against its reference.  The first [Block]
    or [OverrideTransition] in evaluation order is the result, whatever precedes
    or follows it; without one, all edits are returned in order if there are
    any, and only without edits the first requested effect: the other requested
    effects are dropped. *)
Theorem lexicographic_spec ds :
  lexicographic ds =
  match first_decisive ds with
  | Some d => d
  | None =>
      match ds ≫= decision_edits, omap requested_effect ds with
      | (_ :: _) as edits, _ => PolicyDecision.MutateHistory edits
      | [], eff :: _ => PolicyDecision.RequestEffect eff
      | [], [] => PolicyDecision.Allow
      end
  end.
Proof.
  unfold lexicographic. rewrite lexicographic_loop_spec.
  destruct (first_decisive ds); [done|]. cbn. by repeat case_match.
Qed.

(** ** Negotiation *)

Lemma conclude_spec st :
  conclude st =
  if settled st then
    (lexicographic (phase_decisions st),
     match first_decisive (phase_decisions st) with Some _ => st | None => negotiation_reset end)
  else (PolicyDecision.RequestEffect Effect.CallLlmNetwork, st).
Proof.
  unfold conclude, lexicographic. rewrite lexicographic_loop_spec.
  destruct (settled st); [|done]. by destruct (first_decisive _).
Qed.

Lemma conclude_stuck m ds st d :
  settled st = true → first_decisive (phase_decisions st) = Some d →
  let r := conclude (negotiate m ds st) in
  r.1 = d ∧ settled r.2 = true ∧ first_decisive (phase_decisions r.2) = Some d.
Proof.
  intros Hs Hd. rewrite conclude_spec. cbn [negotiate settled phase_decisions]. rewrite Hs. cbn.
  pose proof (first_decisive_app _ ds _ Hd) as Happ. rewrite Happ. cbn.
  rewrite Hs. unfold lexicographic. rewrite lexicographic_loop_spec, Happ. by split_and!.
Qed.

Section negotiation.
Context {U : AnyUniverse} {P : Type} `{!CycleRollbackPolicy U P, !KernelTypes U,
  !GovernanceTypes U}.
Let Ext := ExtensionStorage U P.

(** The results of successive aggregations. *)
Fixpoint aggregate_all (agg : DecisionAggregatorPlugin U P) (dss : list (list PolicyDecision)) :
    State Ext (list (PluginResult PolicyDecision)) :=
  match dss with
  | [] => ret []
  | ds :: dss' => r <-! agg ds ;; rs <-! aggregate_all agg dss' ;; ret (r :: rs)
  end.

Lemma broker_step m ds (e : Ext) :
  ext_wf e →
  ∃ st, get_or_insert_default NegotiationState e = (st, borrow_ext NegotiationState e) ∧
    let r := conclude (negotiate m ds st) in
    (NegotiationBroker m ds e).1 = Ok r.1 ∧ ext_wf (NegotiationBroker m ds e).2 ∧
    get_ext NegotiationState (NegotiationBroker m ds e).2 = Some r.2.
Proof using All.
  intros Hwf. destruct (get_or_insert_default_spec NegotiationState e Hwf) as (st & Hst & Hget).
  exists st. split; [done|]. unfold NegotiationBroker. rewrite Hst.
  destruct (conclude _) as [d st']. cbn. split_and!; [done| |by eapply get_ext_write].
  by apply ext_wf_write, ext_wf_borrow.
Qed.

Lemma broker_stuck m dss d : ∀ (e : Ext) st,
  ext_wf e → get_ext NegotiationState e = Some st →
  settled st = true → first_decisive (phase_decisions st) = Some d →
  Forall (.= Ok d) (aggregate_all (NegotiationBroker m) dss e).1.
Proof using All.
  induction dss as [|ds dss IH]; intros e st Hwf Hget Hs Hd; cbn; [constructor|].
  destruct (broker_step m ds e Hwf) as (st' & Hst & Hr & Hwf' & Hget').
  rewrite (get_or_insert_hit _ _ _ Hwf Hget) in Hst. injection Hst as <-.
  destruct (conclude_stuck m ds st d Hs Hd) as (H1 & H2 & H3).
  unfold bind, ret. cbn. constructor; [by rewrite Hr, H1|by eapply IH].
Qed.

(** What a negotiation answers.  An unsettled phase asks for another
    prediction; a phase settles when the phases are used up, all its decisions
    are [Allow], or one of them is decisive, and then answers what the
    lexicographic rules give for the decisions of all phases.  A negotiation
    that answered [Block] or [OverrideTransition] never resets: every later
    aggregation returns that same decision, whatever it is asked. *)
Theorem negotiation_answers m ds (e : Ext) :
  ext_wf e →
  ∃ st, (get_or_insert_default NegotiationState e).1 = st ∧
    let r := NegotiationBroker m ds e in
    let d := if settled (negotiate m ds st) then lexicographic (phase_decisions st ++ ds)
             else PolicyDecision.RequestEffect Effect.CallLlmNetwork in
    r.1 = Ok d ∧
    (settled (negotiate m ds st) = true → decisive d = false →
      get_ext NegotiationState r.2 = Some negotiation_reset) ∧
    (decisive d = true → ∀ dss, Forall (.= Ok d) (aggregate_all (NegotiationBroker m) dss r.2).1).
Proof using All.
  intros Hwf. destruct (broker_step m ds e Hwf) as (st & Hst & Hr & Hwf' & Hget).
  exists st. split; [by rewrite Hst|]. intros r d. fold r in Hr, Hwf', Hget.
  rewrite conclude_spec in Hr, Hget. cbn zeta in Hr, Hget. subst d.
  destruct (settled (negotiate m ds st)) eqn:Es; cbn [fst snd] in Hr, Hget;
    [|split_and!; [done|by intros|by intros]].
  cbn [negotiate phase_decisions] in Hr, Hget. split; [done|].
  unfold lexicographic. rewrite lexicographic_loop_spec.
  destruct (first_decisive (phase_decisions st ++ ds)) as [d|] eqn:Ed.
  - split; [intros _ H; apply first_decisive_is in Ed; congruence|]. intros _ dss.
    by eapply broker_stuck.
  - split; [done|]. by rewrite lexicographic_result_not_decisive.
Qed.
End negotiation.

Lemma negotiation_answers_witness :
  (aggregate_all (NegotiationBroker 3)
     [[PolicyDecision.Block "stop"]; [PolicyDecision.Allow]; [PolicyDecision.Allow] ]
     (ExtensionStorage_new (U := concrete_universe) (P := unit))).1
  = [Ok (PolicyDecision.Block "stop"); Ok (PolicyDecision.Block "stop");
     Ok (PolicyDecision.Block "stop")] ∧
  Forall (.= Ok (PolicyDecision.Block "stop"))
    (aggregate_all (NegotiationBroker 3) [[PolicyDecision.Allow]; [PolicyDecision.Allow] ]
      (NegotiationBroker 3 [PolicyDecision.Block "stop"]
         (ExtensionStorage_new (U := concrete_universe) (P := unit))).2).1.
Proof.
  split; [vm_compute; reflexivity|].
  destruct (negotiation_answers 3 [PolicyDecision.Block "stop"]
    (ExtensionStorage_new (U := concrete_universe) (P := unit))) as (st & Hst & _ & _ & H).
  { apply ext_new_wf. }
  vm_compute in Hst. subst st. apply (H eq_refl).
Defined.

(** ** The standard effect constraint against the default components *)

Section spec.
Context {U : AnyUniverse} {P : Type} `{!CycleRollbackPolicy U P, !KernelTypes U,
  !GovernanceTypes U}.


(** A hook run inside the rollback bracket: its result is that of the hook on the
    storage it was given, and the data collected so far are untouched. *)
Lemma with_rollback_result {W R} hname (m : State (ExtensionStorage U P) R) (c : HookCtx U P W) :
  ∃ e, (with_rollback hname (run_ext m) c).1 = (m e).1 ∧
       hc_data (with_rollback hname (run_ext m) c).2 = hc_data c.
Proof using Type.
  unfold with_rollback, run_ext, on_ext. cbn zeta.
  set (s := match begin_hook hname <$> hc_policy c with Some p => _ | None => _ end).
  exists (extensions s). cbn [fst snd]. destruct (m (extensions s)) as [r e]. cbn.
  by repeat case_match.
Qed.

Lemma for_each_one {S A} (x : A) (body : A → State S unit) s :
  (for_each [x] body s).2 = (body x s).2.
Proof using Type. done. Qed.

Definition is_fatal (e : PluginError) : bool :=
  match e with PluginError.Fatal _ _ => true | _ => false end.

Lemma on_error_one_result plugin error (c : HookCtx U P (list Effect)) decision :
  (∀ e, (hook plugin error e).1 = decision) →
  hc_data (on_error_one plugin error c).2 =
  hc_data c ++ match decision with
               | Ok (PolicyDecision.RequestEffect eff) => [eff]
               | Ok (PolicyDecision.OverrideTransition ov) => ov
               | Ok _ => []
               | Err err => [plugin_fault (name plugin) err]
               end.
Proof using Type.
  intros H. unfold on_error_one. rewrite bind_pair. unfold modify. cbn [fst snd hc_data].
  destruct (with_rollback_result "on_error" (hook plugin error) c) as (e & Hr & Hd).
  rewrite H in Hr. unfold OnErrorPlugin, State in *.
  destruct (with_rollback _ _ c) as [d c']. cbn [fst snd] in *. by rewrite Hr, Hd.
Qed.

Lemma quarantine_decision error (e : ExtensionStorage U P) :
  (hook QuarantineManager error e).1 =
  Ok (if is_fatal error then PolicyDecision.RequestEffect Effect.RebuildRoutes
      else PolicyDecision.Allow).
Proof using Type.
  destruct error; cbn; [|done]. unfold bind, ret, gets. by destruct (get_or_insert_default _ e).
Qed.

Lemma quarantine_all fs (c : HookCtx U P (list Effect)) :
  hc_data (for_each fs (λ f : string * PluginError, on_error_one QuarantineManager f.2) c).2
  = hc_data c ++ ((λ _, Effect.RebuildRoutes) <$> filter (λ f, is_fatal f.2 = true) fs).
Proof using Type.
  revert c. induction fs as [|[n err] fs IH]; intros c; cbn [for_each]; [by rewrite app_nil_r|].
  rewrite bind_pair, IH, (on_error_one_result _ _ _ _ (quarantine_decision err)).
  rewrite filter_cons. cbn [snd]. destruct (is_fatal err); cbn; by rewrite <- app_assoc.
Qed.

(** The standard constraint rejects what the default components emit.  Its
    masks are laid out one hook off the indices the kernel validates with: the
    CPU task of a stream plugin, the prediction an unsettled negotiation asks
    for, and the [RebuildRoutes] the quarantine manager requests for each fatal
    fault are all replaced by [EffectNotAllowed] errors. *)
Theorem standard_constraint_rejects_defaults (k : Kernel U P) :
  hook_effect_constraint (governance (engine k))
    = Some (FastHookEffectConstraint.constraint FastHookEffectConstraint.standard) →
  let g := governance (engine k) in
  (∀ id payload,
    validate_hook_effects g HOOK_INDEX_ON_STREAM_EVENT "on_stream_event"
      (stream_action_effects (StreamAction.OffloadTask id payload))
    = [rejected "on_stream_event" (Effect.ExecuteCpuTask {| task_name := id |} payload)]) ∧
  effects (apply_decision (Ok (PolicyDecision.RequestEffect Effect.CallLlmNetwork)) k).2
    = effects k ++ [rejected "before_prediction" Effect.CallLlmNetwork] ∧
  (on_error_plugins (router (engine k)) = [QuarantineManager] →
   route_on_error (routing_table (router (engine k))) = [0] →
   ∀ fs, (eval_on_error fs k).1
     = (λ _, rejected "on_error" Effect.RebuildRoutes)
         <$> filter (λ f : string * PluginError, is_fatal f.2 = true) fs).
Proof using Type.
  intros Hc g. split_and!.
  - intros id payload. unfold g. by rewrite (validate_map _ _ _ _ _ Hc).
  - unfold apply_decision. rewrite bind_pair. cbn [gets fst snd].
    unfold bind, extend_effects, modify, ret. cbn [fst snd effects]. f_equal.
    by rewrite (validate_map _ _ _ _ _ Hc).
  - intros Hp Hr fs. unfold eval_on_error. rewrite bind_pair. cbn [gets fst snd]. rewrite Hr.
    destruct fs as [|f fs]; [done|]. rewrite bind_pair. cbn [ret fst snd].
    unfold run_hooks. set (c := {| hc_policy := _ |}).
    pose proof (quarantine_all (f :: fs) c) as Hq.
    destruct (for_each [0] _ c) as [u c'] eqn:E. cbn [fst snd ret].
    apply (f_equal snd) in E. rewrite for_each_one, Hp in E. cbn [lookup list_lookup snd] in E.
    rewrite <- E, Hq.
    rewrite (validate_map _ _ _ _ _ Hc). cbn [hc_data c app].
    rewrite <- list_fmap_compose. by apply list_fmap_ext.
Qed.
End spec.

Definition standard_kernel : Kernel concrete_universe unit :=
  {| engine :=
       {| router := {|
            on_input_plugins := []; before_prediction_plugins := [];
            on_stream_event_plugins := []; after_prediction_plugins := [];
            on_tool_calls_plugins := []; on_tool_result_plugins := [];
            on_error_plugins := [QuarantineManager];
            routing_table := from_hooks (U := concrete_universe) (P := unit) [] [] [] [] [] []
                               [QuarantineManager] |};
          governance := {|
            epoch_interceptors := []; subroutine_handler := None; subroutine_hydrator := None;
            consistency_verifier := None; decision_aggregator := None;
            hook_effect_constraint :=
              Some (FastHookEffectConstraint.constraint FastHookEffectConstraint.standard);
            cycle_rollback_policy := None; subroutine_lifecycle_guard := None;
            governance_failover_handler := None; default_tool_timeout_ms := 30000%N |};
          routines := RoutineManager_new |};
     session := plain_session;
     effects := [] |}.

Lemma standard_constraint_rejects_defaults_witness :
  (eval_on_error [("bad", PluginError.Fatal "bad" "boom"); ("meh", PluginError.Soft "meh" "")]
     standard_kernel).1
  = [Effect.Error ErrorCode.StateInconsistency
       (ErrorDetail.EffectNotAllowed "on_error" "Discriminant(11)")].
Proof.
  destruct (standard_constraint_rejects_defaults standard_kernel eq_refl) as (_ & _ & H).
  rewrite (H eq_refl eq_refl). reflexivity.
Defined.
