(* ===== verification/GuardSpec.v ===== *)
(** * Correctness of the default guards, and of sub-routine delegation *)
From S2P Require Import Prelude Utf8 Types Effects Extension Session Plugins Router Engine Trace.
From S2P Require Import Hooks Finalize Dispatch Transition Frames Termination Invariants Lifecycle.
From S2P Require Import Ordering GovTypes Guards Subroutines Instances.

Section epoch.
Context {U : AnyUniverse} {P : Type} `{!CycleRollbackPolicy U P, !KernelTypes U,
  !GovernanceTypes U}.

Lemma snapshot_not_epoch : TypeId_of EpochState ≠ TypeId_of SessionSnapshot.
Proof using All.
  pose proof kt_distinct as H. apply NoDup_cons in H as [H _]. intros E. apply H. rewrite E. left.
Qed.

Lemma epoch_guard_stale g results (e : ExtensionStorage U P) ep :
  ext_wf e → get_ext EpochState e = Some ep → g ≠ current_generation ep →
  EpochGuard (EngineInput.ToolCallsResult g results) e
  = (Ok (EpochAction.Block (epoch_mismatch (current_generation ep) g)), borrow_ext EpochState e).
Proof using All.
  intros Hwf Hep Hg. unfold EpochGuard. rewrite (get_or_insert_hit _ _ _ Hwf Hep).
  by rewrite decide_False.
Qed.

Lemma snapshot_stored_ext (en : BriocheEngine U P) s :
  engine (snapshot_stored en s).2 = en ∧ effects (snapshot_stored en s).2 = [] ∧
  session (snapshot_stored en s).2 = set_extensions (insert_ext (snapshot s) (extensions s)).2 s.
Proof using Type.
  unfold snapshot_stored, on_session, on_ext, start. cbn. by destruct (insert_ext _ _).
Qed.

(** The transition stops at the interceptor. *)
Lemma epoch_guard_stops (en : BriocheEngine U P) s g results rest ep :
  epoch_interceptors (governance en) = EpochGuard :: rest →
  state s ≠ AgentState.Failure → ext_wf (extensions s) →
  is_ok (insert_ext (snapshot s) (extensions s)).1 = true →
  get_ext EpochState (extensions s) = Some ep → g ≠ current_generation ep →
  ∃ k, transition (EngineInput.ToolCallsResult g results) en s
       = finish (capture_pre_transition_state s) k ∧
    engine k = en ∧ ext_only s (session k) ∧
    get_ext EpochState (extensions (session k)) = Some ep ∧
    effects k = [Effect.Error ErrorCode.EpochMismatch
                   (ErrorDetail.EpochGuardRejected (epoch_mismatch (current_generation ep) g));
                 Effect.SystemIdle].
Proof using All.
  intros Hi Hf Hwf Hok Hep Hg. set (input := EngineInput.ToolCallsResult g results).
  destruct (snapshot_stored_ext en s) as (Hen & He & Hs).
  set (e1 := (insert_ext (snapshot s) (extensions s)).2) in *.
  assert (ext_wf e1) as Hwf1 by by apply ext_wf_insert.
  assert (get_ext EpochState e1 = Some ep) as Hep1.
  { unfold get_ext, e1. rewrite hot_map_insert_ne by apply snapshot_not_epoch. exact Hep. }
  assert (intercepted input en s =
    (true, {| engine := en;
              session := set_extensions (borrow_ext EpochState e1) s;
              effects := [Effect.Error ErrorCode.EpochMismatch
                   (ErrorDetail.EpochGuardRejected (epoch_mismatch (current_generation ep) g));
                 Effect.SystemIdle] |})) as Hint.
  { unfold intercepted, apply_epoch_interceptor. rewrite bind_pair. cbn [gets fst snd id].
    rewrite Hen, Hi. cbn [intercept_all]. rewrite bind_pair. unfold on_session, on_ext.
    rewrite Hen, Hs, He. cbn [extensions set_extensions].
    unfold input. rewrite (epoch_guard_stale g results e1 ep Hwf1 Hep1 Hg). done. }
  destruct (transition_body input en s Hf) as (k & Hb & Ht). exists k.
  assert (k = (intercepted input en s).2) as ->.
  { destruct Hb as [err Herr|k' Ek|k' handler h child en' Ek|k' Ek]; try (rewrite Ek in Hint; congruence).
    - exfalso. unfold snapshot_stored, on_session, on_ext, start in Herr. cbn in Herr.
      destruct (insert_ext _ _) as [[]]; cbn in *; congruence.
    - by rewrite Ek. }
  rewrite Hint in *. cbn [snd engine session effects extensions set_extensions].
  split_and!; [done|done|by eexists|by apply get_ext_borrow|done].
Qed.

(** Stale tool results are rejected.  With [EpochGuard] as the first
    interceptor, a tool result whose generation is not the one [EpochState]
    records is answered by the [EpochMismatch] error and [SystemIdle] alone:
    before finalization the engine is untouched, the session differs in its
    extensions only, and [EpochState] still records the same generation. *)
Theorem epoch_guard_rejects_stale (en : BriocheEngine U P) s g results rest ep :
  epoch_interceptors (governance en) = EpochGuard :: rest →
  state s ≠ AgentState.Failure → ext_wf (extensions s) →
  is_ok (insert_ext (snapshot s) (extensions s)).1 = true →
  get_ext EpochState (extensions s) = Some ep → g ≠ current_generation ep →
  ∃ k, transition (EngineInput.ToolCallsResult g results) en s
       = finish (capture_pre_transition_state s) k ∧
    engine k = en ∧ ext_only s (session k) ∧
    get_ext EpochState (extensions (session k)) = Some ep ∧
    effects k = [Effect.Error ErrorCode.EpochMismatch
                   (ErrorDetail.EpochGuardRejected (epoch_mismatch (current_generation ep) g));
                 Effect.SystemIdle].
Proof using All. exact (epoch_guard_stops en s g results rest ep). Qed.
End epoch.

(** A tool round of a fresh session under [EpochGuard]: the result carries the
    generation id the kernel issued (1), the epoch is still 0. *)
Definition epoch_engine : BriocheEngine concrete_universe unit :=
  plain_engine
    {| epoch_interceptors := [EpochGuard];
       subroutine_handler := None; subroutine_hydrator := None; consistency_verifier := None;
       decision_aggregator := None; hook_effect_constraint := None; cycle_rollback_policy := None;
       subroutine_lifecycle_guard := None; governance_failover_handler := None;
       default_tool_timeout_ms := 30000%N |}.

Definition run_inputs {U P} `{!CycleRollbackPolicy U P, !KernelTypes U} (inputs : list EngineInput)
    (en : BriocheEngine U P) (s : Session U P) : list Effect * BriocheEngine U P * Session U P :=
  foldl (λ out input, transition input out.1.2 out.2) ([], en, s) inputs.

Lemma run_inputs_config {U P} `{!CycleRollbackPolicy U P, !KernelTypes U} inputs
    (en : BriocheEngine U P) s :
  config (run_inputs inputs en s).1.2 = config en.
Proof.
  induction inputs as [|input inputs IH] using rev_ind; [done|].
  unfold run_inputs in *. rewrite foldl_app. cbn [foldl]. by rewrite transition_keeps_config.
Qed.

Definition tool_round : list EngineInput :=
  [EngineInput.UserMessage "list the files";
   EngineInput.LlmStream (StreamEvent.ToolCallStart {| nodes := [] |} "t1" "ls");
   EngineInput.LlmStream (StreamEvent.ToolCallDone {| nodes := [] |})].

Definition waiting : BriocheEngine concrete_universe unit * Session concrete_universe unit :=
  let out := run_inputs tool_round epoch_engine plain_session in (out.1.2, out.2).

Lemma config_interceptors {U P} (en en' : BriocheEngine U P) :
  config en' = config en →
  epoch_interceptors (governance en') = epoch_interceptors (governance en).
Proof. intros H. exact (f_equal (epoch_interceptors ∘ snd) H). Qed.

Lemma waiting_interceptors : epoch_interceptors (governance waiting.1) = [EpochGuard].
Proof.
  apply (config_interceptors epoch_engine). unfold waiting. cbn [fst snd].
  apply run_inputs_config.
Qed.

Lemma waiting_registry :
  registry (extensions waiting.2) =
  registry (ensure_registered SessionSnapshot (ensure_registered EpochState
    (ensure_registered StreamToolAccumulator
       (ExtensionStorage_new (U := concrete_universe) (P := unit))))).
Proof. vm_compute. reflexivity. Qed.

Lemma waiting_wf : ext_wf (extensions waiting.2).
Proof.
  split.
  - assert (map_Forall (λ tid a, type_id_of a = tid) (hot_map (extensions waiting.2))) as H
      by (apply (bool_decide_unpack _); vm_compute; exact I).
    intros tid a Ha. exact (H tid a Ha).
  - rewrite waiting_registry. apply wf_registry. by apply ext_wf_ensure, ext_wf_ensure, ext_wf_ensure, ext_new_wf.
Qed.

Lemma epoch_guard_rejects_stale_witness :
  state waiting.2 = AgentState.ExecutingTools 1 ∧
  state (transition (EngineInput.ToolCallsResult 1 []) waiting.1 waiting.2).2
    = AgentState.ExecutingTools 1 ∧
  ∃ k, transition (EngineInput.ToolCallsResult 1 []) waiting.1 waiting.2
       = finish (capture_pre_transition_state waiting.2) k ∧
    effects k = [Effect.Error ErrorCode.EpochMismatch
                   (ErrorDetail.EpochGuardRejected "epoch mismatch: expected 0, got 1");
                 Effect.SystemIdle].
Proof.
  split; [vm_compute; reflexivity|]. split; [vm_compute; reflexivity|].
  destruct (epoch_guard_rejects_stale waiting.1 waiting.2 1 [] [] {| current_generation := 0 |})
    as (k & Ht & _ & _ & _ & He).
  - exact waiting_interceptors.
  - vm_compute. discriminate.
  - exact waiting_wf.
  - vm_compute. reflexivity.
  - vm_compute. reflexivity.
  - discriminate.
  - exists k. split; [exact Ht|exact He].
Defined.

Section consistency.
Context {U : AnyUniverse} {P : Type} `{!CycleRollbackPolicy U P, !KernelTypes U,
  !GovernanceTypes U}.

(** A prediction or tool round with nothing to pop back to. *)
Definition stranded (s : Session U P) : bool :=
  match state s with
  | AgentState.Predicting _ | AgentState.ExecutingTools _ => bool_decide (state_stack s = [])
  | _ => false
  end.

Lemma consistency_guard_verdict (s : Session U P) :
  StateConsistencyGuard s =
  Ok (if stranded s then Some (PolicyDecision.OverrideTransition recovery_effects) else None).
Proof using Type.
  unfold StateConsistencyGuard, stranded. destruct (state s); cbn; try done;
    by destruct (state_stack s).
Qed.

Lemma consistency_check_guarded (k : Kernel U P) :
  consistency_verifier (governance (engine k)) = Some StateConsistencyGuard →
  let k' := (apply_consistency_check k).2 in
  if existsb is_rebuild (effects k) then k' = k
  else if stranded (session k) then
    session k' = recover (session k) ∧ effects k' = effects k ++ recovery_effects
  else k' = k.
Proof using All.
  intros Hv. unfold apply_consistency_check. rewrite bind_pair. cbn [gets fst snd id]. rewrite Hv.
  destruct (existsb is_rebuild (effects k)); [done|].
  rewrite consistency_guard_verdict. by destruct (stranded (session k)).
Qed.

Lemma stranded_automaton (s s' : Session U P) :
  automaton s' = automaton s → stranded s' = stranded s.
Proof using Type. unfold automaton, stranded. by intros [= -> ->]. Qed.

Lemma failover_automaton (k : Kernel U P) :
  failover_keeps_automaton (governance (engine k)) →
  let k' := (apply_governance_failover k).2 in
  automaton (session k') = automaton (session k) ∧
  (existsb is_rebuild (effects k) = true → effects k' = effects k).
Proof using All.
  intros Hg. unfold apply_governance_failover. rewrite bind_pair. cbn [gets fst snd id].
  destruct (governance_failover_handler _) as [f|] eqn:Ef; [|done].
  destruct (existsb is_rebuild (effects k)); [done|]. cbn [orb].
  destruct (negb (existsb is_fault (effects k))); [done|]. rewrite bind_pair. unfold on_session.
  pose proof (failover_all_automaton f (effects k) _ Ef Hg (session k)) as H.
  by destruct (failover_all f (effects k) (session k)).
Qed.

(** No session is stranded.  With [StateConsistencyGuard] as verifier and a
    failover handler that leaves the automaton alone, a transition that does not
    ask for [RebuildRoutes] never ends in a prediction or a tool round above an
    empty stack, whatever plugins, sub-routine handlers and guards do. *)
Theorem consistency_guard_unstrands input (en : BriocheEngine U P) s :
  consistency_verifier (governance en) = Some StateConsistencyGuard →
  failover_keeps_automaton (governance en) →
  let out := transition input en s in
  existsb is_rebuild out.1.1 = true ∨ stranded out.2 = false.
Proof using All.
  intros Hv Hg out. destruct (decide (state s = AgentState.Failure)) as [Hf|Hf].
  { right. subst out. rewrite transition_failure by done. unfold stranded. cbn. by rewrite Hf. }
  subst out. destruct (transition_body input en s Hf) as (k & Hb & ->). unfold finish. cbn [fst snd].
  pose proof (body_config _ _ _ _ Hb) as Hc. unfold finalize_transition. rewrite !bind_pair.
  set (k1 := (apply_subroutine_lifecycle_guard _ k).2).
  set (k2 := (map_effects _ k1).2). set (k3 := (apply_consistency_check k2).2).
  assert (config (engine k2) = config en) as Hc2.
  { etrans; [apply guard_config|exact Hc]. }
  assert (config (engine k3) = config en) as Hc3.
  { etrans; [apply (consistency_frame config_frame), on_session_config|exact Hc2]. }
  destruct (failover_automaton k3) as [Ha Hr].
  { intros f e s' H. apply Hg. rewrite <- H.
    exact (f_equal (governance_failover_handler ∘ snd) (eq_sym Hc3)). }
  rewrite (stranded_automaton _ _ Ha).
  pose proof (consistency_check_guarded k2) as H. fold k3 in H.
  specialize (H (eq_trans (f_equal (consistency_verifier ∘ snd) Hc2) Hv)). cbn zeta in H.
  destruct (existsb is_rebuild (effects k2)) eqn:Eb.
  - left. rewrite Hr by (by rewrite H). by rewrite H.
  - right. destruct (stranded (session k2)) eqn:Es; [|by rewrite H].
    destruct H as [-> _]. done.
Qed.
End consistency.

(** A session whose tool round was pushed on nothing. *)
Definition stranded_session : Session concrete_universe unit :=
  set_state (AgentState.Predicting 7) [] plain_session.
Definition consistent_engine : BriocheEngine concrete_universe unit :=
  plain_engine
    {| epoch_interceptors := []; subroutine_handler := None; subroutine_hydrator := None;
       consistency_verifier := Some StateConsistencyGuard;
       decision_aggregator := None; hook_effect_constraint := None; cycle_rollback_policy := None;
       subroutine_lifecycle_guard := None;
       governance_failover_handler := Some SystemFailoverGuard;
       default_tool_timeout_ms := 30000%N |}.

Lemma consistency_guard_unstrands_witness :
  stranded stranded_session = true ∧
  stranded (transition (EngineInput.LlmStream StreamEvent.Pass) consistent_engine
              stranded_session).2 = false.
Proof.
  split; [reflexivity|].
  destruct (consistency_guard_unstrands (EngineInput.LlmStream StreamEvent.Pass) consistent_engine
    stranded_session) as [H|H]; [reflexivity| | |exact H].
  - intros f e s [= <-]. by destruct e.
  - vm_compute in H. discriminate.
Defined.

(** * Correctness of sub-routine delegation

    The kernel's delegation with the default handler and cleanup guard. *)

Section delegation.
Context {U : AnyUniverse} {P : Type} `{!CycleRollbackPolicy U P, !KernelTypes U,
  !GovernanceTypes U}.

(** The default sub-routine traits, and nothing that acts before or after them. *)
Record delegates (g : GovernanceKernel U P) : Prop := {
  del_interceptors : epoch_interceptors g = [];
  del_handler : subroutine_handler g = Some SubRoutineOrchestrator;
  del_guard : subroutine_lifecycle_guard g = Some SubRoutineCleanupGuard;
  del_verifier : consistency_verifier g = None;
  del_failover : governance_failover_handler g = None
}.

Lemma delegates_config (en en' : BriocheEngine U P) :
  config en' = config en → delegates (governance en) → delegates (governance en').
Proof using Type.
  intros H [H1 H2 H3 H4 H5]. split.
  - rewrite <- H1. exact (f_equal (epoch_interceptors ∘ snd) H).
  - rewrite <- H2. exact (f_equal (subroutine_handler ∘ snd) H).
  - rewrite <- H3. exact (f_equal (subroutine_lifecycle_guard ∘ snd) H).
  - rewrite <- H4. exact (f_equal (consistency_verifier ∘ snd) H).
  - rewrite <- H5. exact (f_equal (governance_failover_handler ∘ snd) H).
Qed.

Definition bubble_effects : list Effect := [Effect.SaveSession; Effect.CallLlmNetwork].

Lemma orchestrator_spec input (parent child : Session U P) stack prev :
  state_stack parent = stack ++ [prev] →
  SubRoutineOrchestrator input (parent, child) =
  match bubbled_messages child with
  | Some messages =>
      (Ok (Some bubble_effects),
       (set_state prev stack (set_history (λ h, h ++ messages) parent), child))
  | None => (Ok None, (parent, child))
  end.
Proof using Type.
  intros Hs. unfold SubRoutineOrchestrator, detect_subroutine_termination. cbn [fst snd].
  destruct (bubbled_messages child) as [messages|]; [|done].
  rewrite bind_pair. cbn [modify fst snd].
  erewrite bind_ok_Ok by (apply pop_state_snoc; exact Hs). done.
Qed.

(** The input goes to the child, the handler sees the child it left. *)
Lemma delegated_transition input (en : BriocheEngine U P) s h child en1 :
  delegates (governance en) → state s = AgentState.SubRoutine h → is_restore input = false →
  is_ok (insert_ext (snapshot s) (extensions s)).1 = true →
  remove_subroutine h en = (Some child, en1) →
  transition input en s =
  finish (capture_pre_transition_state s)
    (after_child input (snapshot_stored en s).2 h (transition input en1 child)).
Proof using All.
  intros Hd Hst Hr Hok Hrm. pose proof (transition_unfold input en s) as H.
  unfold transition_step in H. rewrite Hst in H. fold (start en s) in H.
  fold (snapshot_stored en s) in H.
  assert (snapshot_stored en s =
    (Ok tt, {| engine := en; session := set_extensions (insert_ext (snapshot s) (extensions s)).2 s;
               effects := [] |})) as Hk.
  { unfold snapshot_stored, on_session, on_ext, start. cbn. destruct (insert_ext _ _) as [[[]|] e]; [done|].
    discriminate. }
  rewrite Hk in H |- *. cbn [snd].
  set (k := {| engine := en; session := _; effects := _ |}) in *.
  replace (apply_epoch_interceptor input k) with (false, k) in H.
  2: { unfold apply_epoch_interceptor. rewrite bind_pair. cbn [gets fst snd id engine k].
       by rewrite (del_interceptors _ Hd). }
  cbn zeta in H.
  replace (apply_subroutine_handler _ input k)
    with (Some (true, after_child input k h (transition input en1 child))) in H.
  2: { unfold apply_subroutine_handler, after_child. cbn [k engine session set_extensions state].
       rewrite (del_handler _ Hd), Hst, Hr, Hrm.
       destruct (transition input en1 child) as [[es en2] child2]. by repeat case_match. }
  by injection H as <-.
Qed.

Lemma finalize_plain pre (k : Kernel U P) :
  delegates (governance (engine k)) →
  (finalize_transition pre k).2 =
  (map_effects ensure_rebuildroutes_last (apply_subroutine_lifecycle_guard pre k).2).2.
Proof using All.
  intros Hd. unfold finalize_transition. rewrite !bind_pair.
  set (k1 := (apply_subroutine_lifecycle_guard pre k).2).
  set (k2 := (map_effects ensure_rebuildroutes_last k1).2).
  assert (delegates (governance (engine k2))) as Hd2.
  { apply (delegates_config (engine k)); [|done]. apply guard_config. }
  assert ((apply_consistency_check k2).2 = k2) as ->.
  { unfold apply_consistency_check. rewrite bind_pair. cbn [gets fst snd id].
    by rewrite (del_verifier _ Hd2). }
  unfold apply_governance_failover. rewrite bind_pair. cbn [gets fst snd id].
  by rewrite (del_failover _ Hd2).
Qed.

Definition is_subroutine (st : AgentState) : bool :=
  match st with AgentState.SubRoutine _ => true | _ => false end.

End delegation.

Definition finishing_child : Session concrete_universe unit :=
  set_pending_text "answer"
    (set_state (AgentState.Predicting 5) [AgentState.Idle] (Session_new "child")).

Definition delegating_engine : BriocheEngine concrete_universe unit :=
  create_subroutine (SubRoutineHandle_new "sub")
    finishing_child
    (plain_engine
      {| epoch_interceptors := []; subroutine_handler := Some SubRoutineOrchestrator;
         subroutine_hydrator := None; consistency_verifier := None; decision_aggregator := None;
         hook_effect_constraint := None; cycle_rollback_policy := None;
         subroutine_lifecycle_guard := Some SubRoutineCleanupGuard;
         governance_failover_handler := None; default_tool_timeout_ms := 30000%N |}).

Definition delegating_session : Session concrete_universe unit :=
  set_state (AgentState.SubRoutine (SubRoutineHandle_new "sub"))
    [AgentState.Idle; AgentState.Predicting 1] plain_session.

Definition child_done : EngineInput := EngineInput.LlmStream StreamEvent.Done.

