(* ===== verification/JournalSpec.v ===== *)
(** * The transition journal is a FIFO queue of entries

    [represents j rs] is the abstraction: the bytes between the two indices are
    the frames of the records [rs], oldest first.  Every operation of the journal
    is shown to act on [rs] as the queue operation does, as long as the frames do
    not fill the ring to the last byte. *)
From S2P Require Import Prelude Utf8 Types Effects Journal.

#[local] Ltac Zify.zify_post_hook ::= Z.to_euclidean_division_equations.
#[local] Opaque JOURNAL_CAPACITY_BYTES.
#[local] Hint Unfold ring_next : core.

Lemma capacity_value : JOURNAL_CAPACITY_BYTES = 1048576%N.
Proof. reflexivity. Qed.

(** ** Little-endian integers *)

Lemma length_to_le_bytes w n : length (to_le_bytes w n) = w.
Proof. revert n. induction w as [|w IH]; intros n; cbn; [done|]. by rewrite IH. Qed.

Lemma byte_of_N_to_N n : Byte.to_N (byte_of_N n) = (n mod 256)%N.
Proof.
  unfold byte_of_N. destruct (Byte.of_N (n mod 256)) as [b|] eqn:E.
  - by apply Byte.to_of_N.
  - apply Byte.of_N_None_iff in E. lia.
Qed.

Lemma from_to_le_bytes w n :
  from_le_bytes (to_le_bytes w n) = (n mod 256 ^ N.of_nat w)%N.
Proof.
  revert n. induction w as [|w IH]; intros n; cbn [to_le_bytes from_le_bytes].
  - by rewrite N.mod_1_r.
  - rewrite IH, byte_of_N_to_N, Nat2N.inj_succ, N.pow_succ_r'.
    rewrite N.Div0.mod_mul_r by done. done.
Qed.

(** ** Positions of the ring *)

Definition ring_add (pos : N) (i : nat) : N := ((pos + N.of_nat i) mod JOURNAL_CAPACITY_BYTES)%N.

Lemma ring_add_lt pos i : (ring_add pos i < JOURNAL_CAPACITY_BYTES)%N.
Proof. unfold ring_add. rewrite capacity_value. lia. Qed.

Lemma ring_add_add pos i k : ring_add (ring_add pos i) k = ring_add pos (i + k).
Proof. unfold ring_add. rewrite capacity_value. lia. Qed.

Lemma ring_next_add pos i : ring_add (ring_next pos) i = ring_add pos (S i).
Proof. unfold ring_add, ring_next. rewrite capacity_value. lia. Qed.

Lemma ring_add_inj pos i k :
  (N.of_nat i < JOURNAL_CAPACITY_BYTES)%N → (N.of_nat k < JOURNAL_CAPACITY_BYTES)%N →
  ring_add pos i = ring_add pos k → i = k.
Proof. unfold ring_add. rewrite capacity_value. lia. Qed.

Lemma ring_add_0 pos : (pos < JOURNAL_CAPACITY_BYTES)%N → ring_add pos 0 = pos.
Proof. unfold ring_add. rewrite capacity_value. lia. Qed.

(** ** Reading what was written *)

Lemma read_loop_lookup b pos n i :
  i < n → (pos < JOURNAL_CAPACITY_BYTES)%N →
  read_loop b pos n !! i = Some (ring_get b (ring_add pos i)).
Proof.
  revert pos i. induction n as [|n IH]; intros pos i Hi Hp; [lia|]. cbn.
  destruct i as [|i]; cbn; [by rewrite ring_add_0|].
  rewrite IH, ring_next_add; [done|lia|]. unfold ring_next. rewrite capacity_value. lia.
Qed.

Lemma read_loop_length b pos n : length (read_loop b pos n) = n.
Proof. revert pos. induction n as [|n IH]; intros pos; cbn; [done|]. by rewrite IH. Qed.

Lemma write_loop_outside b pos data q :
  (∀ i, i < length data → ring_add pos i ≠ q) → (pos < JOURNAL_CAPACITY_BYTES)%N →
  ring_get (write_loop b pos data) q = ring_get b q.
Proof.
  revert b pos. induction data as [|x data IH]; intros b pos Hq Hp; [done|]. cbn.
  rewrite IH.
  - unfold ring_get. rewrite lookup_insert_ne; [done|]. rewrite <- (ring_add_0 pos) by done.
    apply Hq. cbn. lia.
  - intros i Hi. rewrite ring_next_add. apply Hq. cbn. lia.
  - unfold ring_next. rewrite capacity_value. lia.
Qed.

Lemma write_loop_inside b pos data i x :
  (N.of_nat (length data) <= JOURNAL_CAPACITY_BYTES)%N → (pos < JOURNAL_CAPACITY_BYTES)%N →
  data !! i = Some x → ring_get (write_loop b pos data) (ring_add pos i) = x.
Proof.
  revert b pos i. induction data as [|y data IH]; intros b pos i Hl Hp Hx; [done|]. cbn in *.
  assert (ring_next pos < JOURNAL_CAPACITY_BYTES)%N as Hn
    by (unfold ring_next; rewrite capacity_value; lia).
  destruct i as [|i].
  - rewrite write_loop_outside; [|intros k Hk|done].
    + rewrite ring_add_0 by done. unfold ring_get. rewrite lookup_insert_eq. by injection Hx.
    + rewrite ring_next_add. intros E. apply ring_add_inj in E; lia.
  - rewrite <- ring_next_add. apply IH; [lia|done|done].
Qed.

(** [region b pos l]: the cells from [pos] on hold the bytes [l]. *)
Definition region (b : gmap N byte) (pos : N) (l : bytes) : Prop :=
  ∀ i x, l !! i = Some x → ring_get b (ring_add pos i) = x.

Lemma region_app b pos l1 l2 :
  region b pos (l1 ++ l2) ↔ region b pos l1 ∧ region b (ring_add pos (length l1)) l2.
Proof.
  split.
  - intros H. split; intros i x Hx.
    + apply H. by apply lookup_app_l_Some.
    + rewrite ring_add_add. apply H. rewrite lookup_app_r by lia. by rewrite Nat.add_comm, Nat.add_sub.
  - intros [H1 H2] i x [Hx|[Hl Hx]]%lookup_app_Some; [by apply H1|].
    apply H2 in Hx. rewrite ring_add_add in Hx. by rewrite Nat.add_comm, Nat.sub_add in Hx.
Qed.

Lemma region_read b pos l n :
  region b pos l → length l = n → (pos < JOURNAL_CAPACITY_BYTES)%N → read_bytes b pos n = l.
Proof.
  intros Hr Hn Hp. unfold read_bytes. rewrite N.mod_small by done. apply list_eq. intros i.
  destruct (decide (i < n)) as [Hi|Hi].
  - rewrite read_loop_lookup by done. destruct (l !! i) as [x|] eqn:E.
    + by rewrite (Hr i x E).
    + apply lookup_ge_None in E. lia.
  - rewrite !lookup_ge_None_2; [done|lia|]. rewrite read_loop_length. lia.
Qed.

Lemma region_write b pos data :
  (N.of_nat (length data) <= JOURNAL_CAPACITY_BYTES)%N → (pos < JOURNAL_CAPACITY_BYTES)%N →
  region (write_bytes b pos data) pos data.
Proof.
  intros Hl Hp i x Hx. unfold write_bytes. rewrite N.mod_small by done.
  by apply write_loop_inside.
Qed.

(** Writing just behind a region leaves it alone while both fit in the ring. *)
Lemma region_write_behind b pos l data :
  (N.of_nat (length l + length data) <= JOURNAL_CAPACITY_BYTES)%N →
  region b pos l → region (write_bytes b (ring_add pos (length l)) data) pos l.
Proof.
  intros Hl Hr i x Hx. pose proof (lookup_lt_Some _ _ _ Hx) as Hi. unfold write_bytes.
  rewrite N.mod_small by apply ring_add_lt.
  rewrite write_loop_outside; [by apply Hr| |apply ring_add_lt].
  intros k Hk. rewrite ring_add_add. intros E. apply ring_add_inj in E; lia.
Qed.

Lemma region_append b pos l data :
  (N.of_nat (length l + length data) <= JOURNAL_CAPACITY_BYTES)%N →
  region b pos l → region (write_bytes b (ring_add pos (length l)) data) pos (l ++ data).
Proof.
  intros Hl Hr. apply region_app. split; [by apply region_write_behind|].
  apply region_write; [lia|apply ring_add_lt].
Qed.

(** ** Frames of records *)

Inductive JournalRecord : Type :=
  | Payload (data : bytes)
  | Mark (truncated_bytes : N).

Definition frame (r : JournalRecord) : bytes :=
  match r with
  | Payload data => to_le_bytes 4 (N.of_nat (length data)) ++ data
  | Mark n => to_le_bytes 4 OVERSIZED_MARK ++ to_le_bytes 8 n
  end.

Definition frames (rs : list JournalRecord) : bytes := concat (frame <$> rs).

Definition used (rs : list JournalRecord) : N := N.of_nat (length (frames rs)).

Definition record_ok (r : JournalRecord) : Prop :=
  match r with
  | Payload data => (N.of_nat (length data) <= MAX_ENTRY_BYTES)%N
  | Mark _ => True
  end.

Record represents (j : TransitionJournal) (rs : list JournalRecord) : Prop := {
  rep_ack : (ack_index j < JOURNAL_CAPACITY_BYTES)%N;
  rep_write : write_index j = ring_add (ack_index j) (length (frames rs));
  rep_room : (used rs < JOURNAL_CAPACITY_BYTES)%N;
  rep_bytes : region (buffer j) (ack_index j) (frames rs);
  rep_ok : Forall record_ok rs
}.

Lemma frames_app rs1 rs2 : frames (rs1 ++ rs2) = frames rs1 ++ frames rs2.
Proof. unfold frames. by rewrite fmap_app, concat_app. Qed.

Lemma frames_one r : frames [r] = frame r.
Proof. unfold frames. cbn. by rewrite app_nil_r. Qed.

Lemma frames_cons r rs : frames (r :: rs) = frame r ++ frames rs.
Proof. done. Qed.

Lemma length_frame r :
  length (frame r) = match r with Payload data => 4 + length data | Mark _ => 12 end.
Proof.
  destruct r as [data|n]; cbn [frame]; rewrite length_app, !length_to_le_bytes; lia.
Qed.

Lemma used_app rs1 rs2 : used (rs1 ++ rs2) = (used rs1 + used rs2)%N.
Proof. unfold used. rewrite frames_app, length_app. lia. Qed.

Lemma represents_new : represents TransitionJournal_new [].
Proof.
  split; cbn; rewrite ?capacity_value; try done. all: try (intros i x; done).
Qed.

Lemma represents_unacknowledged j rs :
  represents j rs → unacknowledged_bytes j = used rs.
Proof.
  intros [Ha Hw Hr _ _]. revert Hw Hr. unfold unacknowledged_bytes, ring_add, used.
  generalize (length (frames rs)). intros n. rewrite capacity_value in *. intros ->.
  destruct (N.leb_spec (ack_index j) ((ack_index j + N.of_nat n) mod 1048576)); lia.
Qed.

Lemma represents_available j rs :
  represents j rs → journal_available j = (JOURNAL_CAPACITY_BYTES - used rs)%N.
Proof.
  intros H. pose proof (represents_unacknowledged j rs H) as Hu. destruct H as [Ha Hw Hr _ _].
  revert Hw Hu. unfold journal_available, unacknowledged_bytes, ring_add.
  generalize (length (frames rs)). intros n. revert Hr. rewrite capacity_value in *. intros Hr ->.
  destruct (N.leb_spec (ack_index j) ((ack_index j + N.of_nat n) mod 1048576)); lia.
Qed.

(** Appending one frame behind the recorded ones. *)
Lemma represents_append j rs r b w :
  represents j rs → record_ok r → (used rs + used [r] < JOURNAL_CAPACITY_BYTES)%N →
  region b (ack_index j) (frames (rs ++ [r])) →
  w = ring_add (write_index j) (length (frame r)) →
  represents {| buffer := b; write_index := w; ack_index := ack_index j |} (rs ++ [r]).
Proof.
  intros [Ha Hw Hr Hb Hok] Hrok Hroom Hreg ->. split; cbn; [done| |by rewrite used_app|done|].
  - rewrite Hw, ring_add_add, frames_app, frames_one, length_app. done.
  - apply Forall_app. by split; [|constructor].
Qed.

(** Both writers put down a header and then a body. *)
Lemma region_frame j rs header body :
  represents j rs →
  (N.of_nat (length (frames rs) + length header + length body) <= JOURNAL_CAPACITY_BYTES)%N →
  region (write_bytes (write_bytes (buffer j) (write_index j) header)
            (ring_add (write_index j) (length header)) body)
         (ack_index j) (frames rs ++ header ++ body).
Proof.
  intros [Ha -> Hr Hb Hok] Hroom. rewrite ring_add_add, app_assoc.
  replace (length (frames rs) + length header) with (length (frames rs ++ header))
    by (rewrite length_app; lia).
  apply region_append; [rewrite length_app; lia|]. apply region_append; [lia|done].
Qed.

Lemma append_oversized_represents j rs n :
  represents j rs → (used rs + 12 < JOURNAL_CAPACITY_BYTES)%N →
  represents (append_oversized n j) (rs ++ [Mark n]).
Proof.
  intros H Hroom. apply represents_append; [done|done| | |].
  - unfold used. rewrite frames_one, length_frame. exact Hroom.
  - rewrite frames_app, frames_one.
    apply (region_frame j rs (to_le_bytes 4 OVERSIZED_MARK) (to_le_bytes 8 n) H).
    unfold used in Hroom. rewrite !length_to_le_bytes. lia.
  - unfold ring_add. rewrite length_frame, capacity_value. lia.
Qed.

Section refinement.
Context (to_allocvec : EngineInput → result bytes string).

#[local] Abbreviation append := (append to_allocvec).

(** What [append] intends to record. *)
Definition record_of (input : EngineInput) : JournalRecord :=
  match to_allocvec input with
  | Err _ => Mark 0
  | Ok data => if (MAX_ENTRY_BYTES <? N.of_nat (length data))%N then Mark (N.of_nat (length data))
               else Payload data
  end.

Lemma record_of_ok input : record_ok (record_of input).
Proof.
  unfold record_of. destruct (to_allocvec input) as [data|e]; [|done].
  destruct (N.ltb_spec MAX_ENTRY_BYTES (N.of_nat (length data))); done.
Qed.

Lemma append_represents j rs input :
  represents j rs → (used rs + used [record_of input] < JOURNAL_CAPACITY_BYTES)%N →
  represents (append input j) (rs ++ [record_of input]).
Proof.
  intros H Hroom. pose proof (record_of_ok input) as Hok.
  revert Hroom Hok. unfold append, record_of.
  destruct (to_allocvec input) as [data|e]; [|intros; by apply append_oversized_represents].
  destruct (N.ltb_spec MAX_ENTRY_BYTES (N.of_nat (length data))) as [Hbig|Hsmall];
    [intros; by apply append_oversized_represents|]. intros Hroom Hok.
  assert (used [Payload data] = 4 + N.of_nat (length data))%N as Hused
    by (unfold used; rewrite frames_one, length_frame; lia).
  rewrite (represents_available j rs H).
  destruct (N.ltb_spec (JOURNAL_CAPACITY_BYTES - used rs) (4 + N.of_nat (length data))); [lia|].
  apply represents_append; [done|done|done| |].
  - rewrite frames_app, frames_one.
    apply (region_frame j rs (to_le_bytes 4 (N.of_nat (length data))) data H).
    unfold used in Hroom at 1. rewrite length_to_le_bytes. lia.
  - unfold ring_add. rewrite length_frame, capacity_value. lia.
Qed.

Lemma append_dropped j rs input data :
  represents j rs → record_of input = Payload data →
  (JOURNAL_CAPACITY_BYTES < used rs + used [Payload data])%N → append input j = j.
Proof.
  intros H. unfold append, record_of. destruct (to_allocvec input) as [d|e]; [|done].
  destruct (N.ltb_spec MAX_ENTRY_BYTES (N.of_nat (length d))) as [|Hsmall]; [done|].
  intros [= ->]. unfold used at 2. rewrite frames_one, length_frame. intros Hroom.
  rewrite (represents_available j rs H). pose proof (rep_room j rs H).
  destruct (N.ltb_spec (JOURNAL_CAPACITY_BYTES - used rs) (4 + N.of_nat (length data))); [done|lia].
Qed.

Lemma acknowledge_represents j rs : represents j rs → represents (acknowledge_all j) [].
Proof.
  intros [Ha Hw Hr Hb Hok]. split; cbn; [| |done| |done].
  - rewrite Hw. apply ring_add_lt.
  - rewrite Hw, ring_add_add. by rewrite Nat.add_0_r.
  - intros i x. done.
Qed.

(** *** Histories of appends *)

Definition append_all (inputs : list EngineInput) (j : TransitionJournal) : TransitionJournal :=
  foldl (λ j input, append input j) j inputs.

Lemma append_all_represents inputs j rs :
  represents j rs → (used (rs ++ (record_of <$> inputs)) < JOURNAL_CAPACITY_BYTES)%N →
  represents (append_all inputs j) (rs ++ (record_of <$> inputs)).
Proof.
  revert j rs. induction inputs as [|i inputs IH]; intros j rs H Hroom; cbn.
  - by rewrite app_nil_r.
  - rewrite fmap_cons, (cons_middle (record_of i)), app_assoc in *. apply IH; [|done].
    apply append_represents; [done|]. rewrite !used_app in Hroom. lia.
Qed.

(** *** The reader *)

Context (from_bytes : bytes → result EngineInput string).
#[local] Abbreviation read_unacknowledged := (read_unacknowledged from_bytes).

(** What the reader makes of a record. *)
Definition entry_of (r : JournalRecord) : JournalEntry :=
  match r with
  | Mark n => JournalEntry.Oversized (n mod u64_modulus)
  | Payload data => match from_bytes data with
                    | Ok input => JournalEntry.Input input
                    | Err _ => JournalEntry.Oversized (N.of_nat (length data))
                    end
  end.

Lemma header_payload data :
  record_ok (Payload data) →
  from_le_bytes (to_le_bytes 4 (N.of_nat (length data))) = N.of_nat (length data) ∧
  N.of_nat (length data) ≠ OVERSIZED_MARK.
Proof.
  unfold record_ok, MAX_ENTRY_BYTES, OVERSIZED_MARK. intros H. split; [|lia].
  rewrite from_to_le_bytes. apply N.mod_small. change (256 ^ N.of_nat 4)%N with 4294967296%N. lia.
Qed.

Lemma read_entry_frame b pos r rest :
  record_ok r → (pos < JOURNAL_CAPACITY_BYTES)%N → region b pos (frame r ++ rest) →
  read_entry from_bytes b pos = (entry_of r, ring_add pos (length (frame r))).
Proof.
  intros Hok Hp [Hr _]%region_app. unfold read_entry.
  assert (∀ p (n : N), ((p + n) mod JOURNAL_CAPACITY_BYTES)%N = ring_add p (N.to_nat n)) as Hadd
    by (intros p n; unfold ring_add; by rewrite N2Nat.id).
  destruct r as [data|n]; cbn [frame] in Hr; apply region_app in Hr as [Hh Hb];
    rewrite length_to_le_bytes in Hb;
    rewrite (region_read b pos _ 4 Hh (length_to_le_bytes 4 _) Hp), !Hadd, !ring_add_add, length_frame.
  - destruct (header_payload data Hok) as [-> Hne]. rewrite (proj2 (N.eqb_neq _ _) Hne), Nat2N.id.
    change (N.to_nat 4) with 4. cbn [entry_of].
    rewrite (region_read b _ data _ Hb eq_refl) by apply ring_add_lt. done.
  - rewrite from_to_le_bytes. change (N.to_nat 4) with 4. change (N.to_nat 8) with 8.
    change (OVERSIZED_MARK mod 256 ^ N.of_nat 4 =? OVERSIZED_MARK)%N with true. cbn [entry_of].
    rewrite (region_read b _ _ 8 Hb (length_to_le_bytes 8 _)) by apply ring_add_lt.
    by rewrite from_to_le_bytes.
Qed.

Lemma read_entries_frames b fuel pos rs :
  Forall record_ok rs → length rs <= fuel → (pos < JOURNAL_CAPACITY_BYTES)%N →
  (used rs < JOURNAL_CAPACITY_BYTES)%N → region b pos (frames rs) →
  read_entries from_bytes fuel b pos (ring_add pos (length (frames rs))) =
    Some (entry_of <$> rs).
Proof.
  intros Hok. revert fuel pos. induction Hok as [|r rs Hr _ IH]; intros fuel pos Hf Hp Hroom Hreg.
  - cbn. rewrite ring_add_0 by done. destruct fuel; cbn; by rewrite N.eqb_refl.
  - destruct fuel as [|fuel]; [cbn in Hf; lia|]. cbn in Hf. rewrite frames_cons in Hreg.
    assert (length (frames (r :: rs)) = length (frame r) + length (frames rs)) as Hlen
      by (by rewrite frames_cons, length_app).
    assert (0 < length (frame r)) as Hpos by (rewrite length_frame; destruct r; lia).
    unfold used in Hroom. rewrite Hlen in Hroom |- *.
    cbn [read_entries]. rewrite (proj2 (N.eqb_neq _ _)).
    + rewrite (read_entry_frame b pos r _ Hr Hp Hreg), <- ring_add_add, IH; [done|lia| | |].
      * apply ring_add_lt.
      * unfold used. lia.
      * by apply region_app in Hreg as [_ ?].
    + rewrite <- (ring_add_0 pos Hp) at 1. intros E. apply ring_add_inj in E; lia.
Qed.

Lemma represents_read j rs fuel :
  represents j rs → length rs <= fuel →
  read_unacknowledged fuel j = Some (entry_of <$> rs).
Proof.
  intros [Ha Hw Hr Hb Hok] Hf. unfold Journal.read_unacknowledged. rewrite Hw.
  by apply read_entries_frames.
Qed.

(** C5: The ring buffer implements a FIFO queue of records.  From a journal that
    represents the queue [rs], an append whose frame leaves at least one byte of
    the ring free represents [rs] with the record of the input at the end
    (wherever the frame wraps around the end of the array); an append of a payload
    that does not fit is dropped and changes nothing; acknowledging empties the
    queue; the number of unacknowledged bytes is the size of the queued frames;
    and the reader, given as much fuel as there are records, terminates and
    returns the entries of the queue, oldest first, without changing it. *)
Theorem journal_refines_queue (j : TransitionJournal) (rs : list JournalRecord)
    (input : EngineInput) (H : represents j rs) :
  ((used rs + used [record_of input] < JOURNAL_CAPACITY_BYTES)%N →
     represents (append input j) (rs ++ [record_of input])) ∧
  (∀ data, record_of input = Payload data →
     (JOURNAL_CAPACITY_BYTES < used rs + used [Payload data])%N → append input j = j) ∧
  represents (acknowledge_all j) [] ∧
  unacknowledged_bytes j = used rs ∧
  (∀ fuel, length rs <= fuel → read_unacknowledged fuel j = Some (entry_of <$> rs)).
Proof.
  split; [by apply append_represents|]. split; [intros data; by apply append_dropped|].
  split; [by apply acknowledge_represents with rs|].
  split; [by apply represents_unacknowledged|]. intros fuel. by apply represents_read.
Qed.

Context (codec : ∀ input data, to_allocvec input = Ok data → from_bytes data = Ok input).

Definition recordable (input : EngineInput) : Prop :=
  ∃ data, to_allocvec input = Ok data ∧ (N.of_nat (length data) <= MAX_ENTRY_BYTES)%N.

Lemma entry_of_recordable input :
  recordable input → entry_of (record_of input) = JournalEntry.Input input.
Proof using codec.
  intros (data & E & Hl). unfold record_of. rewrite E.
  destruct (N.ltb_spec MAX_ENTRY_BYTES (N.of_nat (length data))); [lia|].
  cbn. by rewrite (codec input data E).
Qed.

(** Recovery replays exactly the inputs recorded since the last
    acknowledgement.  Whatever was recorded and acknowledged before, if every
    input serialises within the size limit and the frames leave a byte of the ring
    free, then reading the journal back returns those inputs, unchanged and in the
    order they were appended; nothing older and nothing truncated. *)
Theorem journal_replays_inputs (older newer : list EngineInput)
    (Hrec : Forall recordable newer)
    (Holder : (used (record_of <$> older) < JOURNAL_CAPACITY_BYTES)%N)
    (Hroom : (used (record_of <$> newer) < JOURNAL_CAPACITY_BYTES)%N) :
  read_unacknowledged (length newer)
      (append_all newer (acknowledge_all (append_all older TransitionJournal_new)))
    = Some (JournalEntry.Input <$> newer).
Proof using codec.
  pose proof (append_all_represents older _ [] represents_new Holder) as H.
  apply acknowledge_represents in H.
  pose proof (append_all_represents newer _ [] H Hroom) as Hn.
  rewrite (represents_read _ _ _ Hn) by (cbn; by rewrite length_fmap). f_equal. cbn.
  rewrite <- list_fmap_compose. apply list_fmap_ext. intros i input Hi. cbn.
  apply entry_of_recordable. by eapply Forall_lookup_1.
Qed.

(** The writer accepts a frame that fills the ring to its last byte.  The two
    indices are then equal, which is also how an empty journal looks: whatever was
    recorded, the journal reports no unacknowledged byte, the reader returns no
    entry, and the next append starts over the oldest record. *)
Theorem journal_full_looks_empty (j : TransitionJournal) (rs : list JournalRecord)
    (input : EngineInput) (data : bytes)
    (H : represents j rs) (Hrec : record_of input = Payload data)
    (Hfull : (used rs + used [Payload data])%N = JOURNAL_CAPACITY_BYTES) :
  let j' := append input j in
  unacknowledged_bytes j' = 0%N ∧ read_unacknowledged 0 j' = Some [] ∧
  journal_available j' = JOURNAL_CAPACITY_BYTES ∧ write_index j' = ack_index j'.
Proof.
  assert (write_index (append input j) = ack_index (append input j)) as E.
  { revert Hrec. unfold append, record_of. destruct (to_allocvec input) as [d|e]; [|done].
    destruct (N.ltb_spec MAX_ENTRY_BYTES (N.of_nat (length d))); [done|]. intros [= ->].
    rewrite (represents_available j rs H). unfold used in Hfull at 2.
    rewrite frames_one, length_frame in Hfull.
    destruct (N.ltb_spec (JOURNAL_CAPACITY_BYTES - used rs) (4 + N.of_nat (length data))); [lia|].
    cbn. rewrite (rep_write j rs H). pose proof (rep_ack j rs H). unfold used, ring_add in *.
    rewrite capacity_value in *. lia. }
  cbn zeta. unfold unacknowledged_bytes, journal_available, Journal.read_unacknowledged.
  rewrite E, N.leb_refl, N.sub_diag, N.sub_0_r. repeat split; try done.
  cbn. by rewrite N.eqb_refl.
Qed.
End refinement.

(** ** Witnesses: a codec for user messages *)

Definition demo_to_allocvec (i : EngineInput) : result bytes string :=
  match i with
  | EngineInput.UserMessage s => Ok (x00 :: bytes_of_string s)
  | _ => Err "unsupported"
  end.

Definition demo_from_bytes (l : bytes) : result EngineInput string :=
  match l with
  | x00 :: s => Ok (EngineInput.UserMessage (string_of_bytes s))
  | _ => Err "unsupported"
  end.

Lemma demo_codec input data :
  demo_to_allocvec input = Ok data → demo_from_bytes data = Ok input.
Proof.
  destruct input as [s|e|g r|h b]; cbn; [|done..]. intros [= <-]. cbn. by rewrite string_of_bytes_of_string.
Qed.

Definition demo_message (n : nat) : EngineInput :=
  EngineInput.UserMessage (string_of_bytes (replicate n x61)).

Lemma demo_record n :
  (N.of_nat (S n) <= MAX_ENTRY_BYTES)%N →
  record_of demo_to_allocvec (demo_message n) = Payload (x00 :: replicate n x61).
Proof.
  intros Hn. unfold record_of, demo_message. cbn [demo_to_allocvec].
  rewrite bytes_of_string_of_bytes. cbn [length]. rewrite length_replicate.
  destruct (N.ltb_spec MAX_ENTRY_BYTES (N.of_nat (S n))); [lia|done].
Qed.

Lemma used_replicate n r : used (replicate n r) = (N.of_nat n * used [r])%N.
Proof.
  induction n as [|n IH]; [done|]. change (replicate (S n) r) with ([r] ++ replicate n r).
  rewrite used_app, IH. lia.
Qed.

Lemma used_payload n : used [Payload (x00 :: replicate n x61)] = (5 + N.of_nat n)%N.
Proof. unfold used. rewrite frames_one, length_frame. cbn [length]. rewrite length_replicate. lia. Qed.

(** 255 messages of 4096 bytes each, frame included. *)
Lemma demo_nearly_full :
  represents (append_all demo_to_allocvec (replicate 255 (demo_message 4091)) TransitionJournal_new)
    (replicate 255 (Payload (x00 :: replicate 4091 x61))).
Proof.
  assert (∀ n, record_of demo_to_allocvec <$> replicate n (demo_message 4091)
               = replicate n (Payload (x00 :: replicate 4091 x61))) as E.
  { intros n. rewrite fmap_replicate, demo_record; [done|]. unfold MAX_ENTRY_BYTES. lia. }
  rewrite <- E. apply (append_all_represents demo_to_allocvec _ _ [] represents_new).
  cbn [app]. rewrite E, used_replicate, used_payload, capacity_value. lia.
Qed.

Example journal_refines_queue_witness :
  let j := append_all demo_to_allocvec [demo_message 2] TransitionJournal_new in
  represents (Journal.append demo_to_allocvec (demo_message 3) j)
    [Payload [x00; x61; x61]; Payload [x00; x61; x61; x61]] ∧
  read_unacknowledged demo_from_bytes 1 j = Some [JournalEntry.Input (demo_message 2)].
Proof.
  cbv zeta.
  pose proof (append_all_represents demo_to_allocvec [demo_message 2] _ [] represents_new eq_refl) as H.
  pose proof (journal_refines_queue demo_to_allocvec demo_from_bytes _ _ (demo_message 3) H)
    as (Happ & _ & _ & _ & Hread).
  split; [exact (Happ eq_refl)|]. rewrite (Hread 1) by (cbn; lia). vm_compute. reflexivity.
Defined.

Example journal_replays_inputs_witness :
  read_unacknowledged demo_from_bytes 2
    (append_all demo_to_allocvec [demo_message 1; demo_message 0]
       (acknowledge_all (append_all demo_to_allocvec [demo_message 5] TransitionJournal_new)))
  = Some [JournalEntry.Input (demo_message 1); JournalEntry.Input (demo_message 0)].
Proof.
  apply (journal_replays_inputs demo_to_allocvec demo_from_bytes demo_codec [demo_message 5]
           [demo_message 1; demo_message 0]); [|reflexivity|reflexivity].
  repeat constructor; eexists; (split; [reflexivity|]); vm_compute; discriminate.
Defined.

Example journal_full_looks_empty_witness :
  let j := append_all demo_to_allocvec (replicate 255 (demo_message 4091)) TransitionJournal_new in
  unacknowledged_bytes j = 1044480%N ∧
  read_unacknowledged demo_from_bytes 0 (Journal.append demo_to_allocvec (demo_message 4091) j) = Some [].
Proof.
  cbv zeta. split.
  - rewrite (represents_unacknowledged _ _ demo_nearly_full), used_replicate, used_payload. lia.
  - apply (journal_full_looks_empty demo_to_allocvec demo_from_bytes _ _ (demo_message 4091)
             (x00 :: replicate 4091 x61) demo_nearly_full).
    + apply demo_record. unfold MAX_ENTRY_BYTES. lia.
    + rewrite used_replicate, !used_payload, capacity_value. lia.
Defined.
