(* ===== verification/SignalSpec.v ===== *)
(** * What the signal channels deliver

    The three kinds of signals travel alike; class [Channel] says what is common,
    so that conservation and order are proved once. *)
From S2P Require Import Prelude Utf8 Types Effects Extension Session Plugins Router Engine GovTypes.
From S2P Require Import Signals.

Lemma try_recv_all_spec {A} (d rx : list A) : try_recv_all d rx = (d ++ rx, []).
Proof.
  revert d. induction rx as [|x rx IH]; intros d; cbn; [by rewrite app_nil_r|].
  by rewrite IH, <- app_assoc.
Qed.

(** One kind of signal: its receiver, its vector, its envelopes. *)
Class Channel (A : Type) := {
  ch_rx : Sources → list A;
  ch_out : SignalDrainBatch → list A;
  ch_of : EngineEnvelope → option A;
  ch_push b e : ch_out (push_envelope b e) = ch_out b ++ option_list (ch_of e);
  ch_rest s : omap ch_of (rest_of_batch s) = ch_rx s;
  ch_select s first s' : select_first s first s' → option_list (ch_of first) ++ ch_rx s' = ch_rx s;
  ch_drain s : ch_out (SignalMultiplexer_drain s).1 = ch_rx s;
  ch_drained s : ch_rx (SignalMultiplexer_drain s).2 = [];
  ch_new : ch_rx Sources_new = [];
  ch_empty : ch_out empty_batch = []
}.

Lemma omap_fmap_Some {A B} (f : A → B) (g : B → option A) (l : list A) :
  (∀ x, g (f x) = Some x) → omap g (f <$> l) = l.
Proof. intros H. induction l as [|x l IH]; [done|]. cbn. by rewrite H, IH. Qed.

Lemma omap_fmap_None {A B C} (f : A → B) (g : B → option C) (l : list A) :
  (∀ x, g (f x) = None) → omap g (f <$> l) = [].
Proof. intros H. induction l as [|x l IH]; [done|]. cbn. by rewrite H. Qed.

Definition signal_of (e : EngineEnvelope) : option SystemSignal :=
  match e with EngineEnvelope.Signal x => Some x | _ => None end.
Definition governance_of (e : EngineEnvelope) : option GovernanceNotification :=
  match e with EngineEnvelope.Governance x => Some x | _ => None end.
Definition result_of (e : EngineEnvelope) : option AsyncTaskResult :=
  match e with EngineEnvelope.TaskResult x => Some x | _ => None end.

Ltac solve_channel :=
  intros;
  repeat match goal with
  | H : select_first _ _ _ |- _ => destruct H
  | e : EngineEnvelope |- _ => destruct e
  | H : _ = _ :: _ |- _ => rewrite H
  end;
  unfold rest_of_batch, SignalMultiplexer_drain; rewrite ?try_recv_all_spec; cbn [fst snd app];
  rewrite ?omap_app;
  repeat first [rewrite omap_fmap_Some by done | rewrite omap_fmap_None by done];
  cbn; rewrite ?app_nil_r; try done.

#[global] Program Instance signal_channel : Channel SystemSignal := {
  ch_rx := system_rx; ch_out := batch_signals; ch_of := signal_of }.
Solve All Obligations with solve_channel.

#[global] Program Instance governance_channel : Channel GovernanceNotification := {
  ch_rx := governance_rx; ch_out := batch_notifications; ch_of := governance_of }.
Solve All Obligations with solve_channel.

#[global] Program Instance result_channel : Channel AsyncTaskResult := {
  ch_rx := async_rx; ch_out := batch_results; ch_of := result_of }.
Solve All Obligations with solve_channel.

(** ** Runs of the bus

    [sent] and [got] record everything pushed into the sources and everything the
    engine thread drained. *)
Record BusRun := { bus : UnifiedEventBus; sent : Sources; got : SignalDrainBatch }.

Definition BusRun_new : BusRun :=
  {| bus := UnifiedEventBus_new; sent := Sources_new; got := empty_batch |}.

Definition Sources_app (s t : Sources) : Sources :=
  {| system_rx := system_rx s ++ system_rx t; governance_rx := governance_rx s ++ governance_rx t;
     async_rx := async_rx s ++ async_rx t |}.

Definition batch_app (a b : SignalDrainBatch) : SignalDrainBatch :=
  {| batch_signals := batch_signals a ++ batch_signals b;
     batch_notifications := batch_notifications a ++ batch_notifications b;
     batch_results := batch_results a ++ batch_results b |}.

(** [calm]: the run drains only while the producer holds no batch. *)
Inductive bus_step (calm : bool) : BusRun → BusRun → Prop :=
  | bus_arrive r s :
      bus_step calm r
        {| bus := {| envelope_rx := envelope_rx (bus r); sources := Sources_app (sources (bus r)) s;
                     phase := phase (bus r) |};
           sent := Sources_app (sent r) s; got := got r |}
  | bus_produce r b' : producer_step (bus r) b' →
      bus_step calm r {| bus := b'; sent := sent r; got := got r |}
  | bus_drain r :
      (calm = true → ∀ batch, phase (bus r) ≠ Sending batch) →
      bus_step calm r
        {| bus := (UnifiedEventBus_drain (bus r)).2; sent := sent r;
           got := batch_app (got r) (UnifiedEventBus_drain (bus r)).1 |}.

Section channel.
Context {A : Type} `{!Channel A}.
Context (Happ_rx : ∀ s t, ch_rx (A := A) (Sources_app s t) = ch_rx s ++ ch_rx t).
Context (Happ_out : ∀ a b, ch_out (A := A) (batch_app a b) = ch_out a ++ ch_out b).

Definition held (p : ProducerPhase) : list A :=
  match p with Sending batch => omap ch_of batch | _ => [] end.

(** What is on its way, in the order in which it was sent. *)
Definition pending (b : UnifiedEventBus) : list A :=
  omap ch_of (concat (envelope_rx b)) ++ held (phase b) ++ ch_rx (sources b).

Lemma foldl_push_envelope b es :
  ch_out (foldl push_envelope b es) = ch_out b ++ omap ch_of es.
Proof.
  revert b. induction es as [|e es IH]; intros b; cbn; [by rewrite app_nil_r|].
  rewrite IH, ch_push, <- app_assoc. by destruct (ch_of e).
Qed.

Lemma producer_step_pending b b' : producer_step b b' → pending b' = pending b.
Proof.
  intros []; unfold pending; cbn.
  - by rewrite H.
  - rewrite H. cbn. rewrite ch_new, app_nil_r. f_equal.
    rewrite <- (ch_select _ _ _ H0), <- ch_rest. by destruct (ch_of first).
  - rewrite H. cbn. rewrite concat_app, omap_app, <- app_assoc. cbn. by rewrite app_nil_r.
Qed.

Lemma drain_pending b :
  let r := UnifiedEventBus_drain b in
  ch_out r.1 ++ pending r.2 ≡ₚ pending b ∧
  ((∀ batch, phase b ≠ Sending batch) → ch_out r.1 ++ pending r.2 = pending b).
Proof using Type.
  cbn. unfold UnifiedEventBus_drain, pending. destruct (envelope_rx b) as [|e es] eqn:E.
  - destruct (phase b) as [| |batch] eqn:Ep; cbn.
    + pose proof (ch_drain (A := A) (sources b)) as H1. pose proof (ch_drained (A := A) (sources b)) as H2.
      destruct (SignalMultiplexer_drain (sources b)) as [bt s]. cbn in *. rewrite H1, H2, app_nil_r. done.
    + rewrite ch_empty, E, Ep. done.
    + pose proof (ch_drain (A := A) (sources b)) as H1. pose proof (ch_drained (A := A) (sources b)) as H2.
      destruct (SignalMultiplexer_drain (sources b)) as [bt s]. cbn in *. rewrite H1, H2, app_nil_r.
      split; [apply Permutation_app_comm|]. intros Hn. by destruct (Hn batch).
  - cbn [fst snd envelope_rx phase sources]. rewrite foldl_push_envelope, ch_empty. done.
Qed.

Lemma bus_conserves calm r :
  rtc (bus_step calm) BusRun_new r →
  ch_out (got r) ++ pending (bus r) ≡ₚ ch_rx (A := A) (sent r) ∧
  (calm = true → ch_out (got r) ++ pending (bus r) = ch_rx (A := A) (sent r)).
Proof using Happ_rx Happ_out.
  intros Hr. assert (∀ r0, rtc (bus_step calm) r0 r →
    (ch_out (got r0) ++ pending (bus r0) ≡ₚ ch_rx (A := A) (sent r0) ∧
     (calm = true → ch_out (got r0) ++ pending (bus r0) = ch_rx (A := A) (sent r0))) →
    ch_out (got r) ++ pending (bus r) ≡ₚ ch_rx (A := A) (sent r) ∧
    (calm = true → ch_out (got r) ++ pending (bus r) = ch_rx (A := A) (sent r))) as Hind.
  { clear Hr. intros r0 Hr. induction Hr as [|r0 r1 r2 Hs _ IH]; [done|]. intros [Hp Hc]. apply IH.
    destruct Hs as [r0 s|r0 b' Hb|r0 Hcalm]; cbn.
    - unfold pending in *. cbn. rewrite !Happ_rx, !app_assoc in *.
      split; [by rewrite Hp|intros E; by rewrite Hc].
    - by rewrite (producer_step_pending _ _ Hb).
    - destruct (drain_pending (bus r0)) as [H1 H2]. rewrite Happ_out, <- app_assoc.
      split; [by rewrite H1|]. intros E. rewrite H2 by auto. auto. }
  apply (Hind _ Hr). cbn. unfold pending. cbn. rewrite !ch_new, ch_empty. done.
Qed.
End channel.

(** C33: The unified bus delivers every signal exactly once, and when it keeps
    their order.  At any point of any run of sources, producer task and engine
    thread, what was drained together with what is still on its way is, for each
    of the three kinds, a permutation of what was sent: nothing is lost and nothing
    is delivered twice.  If the engine never drains while the producer holds a
    batch it has not put in the channel, the two lists are even equal: first sent,
    first delivered.  Without that condition the order is not kept: in some run a
    signal is delivered before one that was sent earlier. *)
Theorem bus_delivers_once (calm : bool) (r : BusRun) (Hr : rtc (bus_step calm) BusRun_new r) :
  (batch_signals (got r) ++ pending (bus r) ≡ₚ system_rx (sent r) ∧
   batch_notifications (got r) ++ pending (bus r) ≡ₚ governance_rx (sent r) ∧
   batch_results (got r) ++ pending (bus r) ≡ₚ async_rx (sent r)) ∧
  (calm = true →
   batch_signals (got r) ++ pending (bus r) = system_rx (sent r) ∧
   batch_notifications (got r) ++ pending (bus r) = governance_rx (sent r) ∧
   batch_results (got r) ++ pending (bus r) = async_rx (sent r)) ∧
  (∃ r', rtc (bus_step false) BusRun_new r' ∧
     system_rx (sent r') = [SystemSignal.Tick 1; SystemSignal.Tick 2] ∧
     batch_signals (got r') = [SystemSignal.Tick 2; SystemSignal.Tick 1]).
Proof.
  pose proof (bus_conserves (A := SystemSignal) (λ _ _, eq_refl) (λ _ _, eq_refl) calm r Hr) as [S1 S2].
  pose proof (bus_conserves (A := GovernanceNotification) (λ _ _, eq_refl) (λ _ _, eq_refl) calm r Hr)
    as [G1 G2].
  pose proof (bus_conserves (A := AsyncTaskResult) (λ _ _, eq_refl) (λ _ _, eq_refl) calm r Hr)
    as [T1 T2].
  split; [done|]. split; [intros E; split_and!; auto|].
  eexists. split.
  - eapply rtc_l; [apply (bus_arrive false _ {| system_rx := [SystemSignal.Tick 1];
                             governance_rx := []; async_rx := [] |})|].
    eapply rtc_l; [apply bus_produce, producer_locks; reflexivity|].
    eapply rtc_l; [apply bus_produce; eapply producer_batches; [reflexivity|];
                   apply select_signal; reflexivity|].
    eapply rtc_l; [apply (bus_arrive false _ {| system_rx := [SystemSignal.Tick 2];
                             governance_rx := []; async_rx := [] |})|].
    eapply rtc_l; [by apply bus_drain|].
    eapply rtc_l; [apply bus_produce; eapply producer_sends; [reflexivity|unfold ENVELOPE_CAPACITY; cbn; lia]|].
    eapply rtc_l; [by apply bus_drain|]. apply rtc_refl.
  - done.
Qed.

Example bus_delivers_once_witness :
  ∃ r, rtc (bus_step true) BusRun_new r ∧ batch_signals (got r) = [SystemSignal.Tick 7] ∧
       batch_signals (got r) ++ pending (bus r) = system_rx (sent r).
Proof.
  eexists. assert (rtc (bus_step true) BusRun_new
    {| bus := UnifiedEventBus_new;
       sent := {| system_rx := [SystemSignal.Tick 7]; governance_rx := []; async_rx := [] |};
       got := {| batch_signals := [SystemSignal.Tick 7]; batch_notifications := []; batch_results := [] |} |})
    as Hr.
  { eapply rtc_l; [apply (bus_arrive true _ {| system_rx := [SystemSignal.Tick 7];
                             governance_rx := []; async_rx := [] |})|].
    eapply rtc_l; [by apply bus_drain|]. apply rtc_refl. }
  split; [exact Hr|]. split; [reflexivity|].
  apply (bus_delivers_once true _ Hr). reflexivity.
Defined.

(** ** The adapters *)

Section adapters.
Context {A : Type}.

(** What senders and the engine thread do with a channel, in the order it happens; a [send]
    happens when it no longer waits.  With what was accepted, and what was drained. *)
Inductive adapter_run (n : nat) : list A → list A → AdapterChannel A → Prop :=
  | run_new : adapter_run n [] [] (adapter_new n)
  | run_try_send accepted drained c x r c' :
      adapter_run n accepted drained c → try_send x c = (r, c') →
      adapter_run n (accepted ++ match r with Ok _ => [x] | Err _ => [] end) drained c'
  | run_send accepted drained c x r c' :
      adapter_run n accepted drained c → adapter_send x c = Some (r, c') →
      adapter_run n (accepted ++ match r with Ok _ => [x] | Err _ => [] end) drained c'
  | run_drain accepted drained c l c' :
      adapter_run n accepted drained c → adapter_drain c = (l, c') →
      adapter_run n accepted (drained ++ l) c'.

Lemma try_send_spec x (c : AdapterChannel A) r c' :
  try_send x c = (r, c') →
  adapter_capacity c' = adapter_capacity c ∧ receiver_alive c' = receiver_alive c ∧
  adapter_queue c' = adapter_queue c ++ match r with Ok _ => [x] | Err _ => [] end ∧
  (length (adapter_queue c) ≤ adapter_capacity c → length (adapter_queue c') ≤ adapter_capacity c') ∧
  (r = Ok tt ↔ receiver_alive c = true ∧ length (adapter_queue c) < adapter_capacity c).
Proof using Type.
  unfold try_send. destruct (receiver_alive c) eqn:Ea; cbn [negb].
  - destruct (Nat.ltb_spec (length (adapter_queue c)) (adapter_capacity c)) as [Hl|Hl]; intros [= <- <-];
      cbn [set_queued adapter_capacity adapter_queue receiver_alive]; rewrite ?app_nil_r, ?length_app; cbn [length].
    + split_and!; [done|done|done|lia|done].
    + split_and!; [done|done|done|done|]. split; [done|lia].
  - intros [= <- <-]. rewrite app_nil_r. split_and!; [done|done|done|done|]. split; [done|by intros []].
Qed.

(** A waiting [send] goes on once there is room, and then does what [try_send] does; one
    whose receiver is gone gives the value back. *)
Lemma adapter_send_spec x (c : AdapterChannel A) :
  match adapter_send x c with
  | Some (Ok _, c') => try_send x c = (Ok tt, c')
  | Some (Err y, c') => y = x ∧ c' = c ∧ receiver_alive c = false
  | None => receiver_alive c = true ∧ adapter_capacity c ≤ length (adapter_queue c)
  end.
Proof using Type.
  unfold adapter_send, try_send. destruct (receiver_alive c) eqn:Ea; cbn [negb]; [|done].
  destruct (Nat.ltb_spec (length (adapter_queue c)) (adapter_capacity c)) as [Hl|Hl]; [done|]. done.
Qed.

(** An adapter is a bounded queue: in any order of sends and drains, what was accepted is
    what was drained followed by what is queued, in order, and no more is queued than the
    capacity; a drain leaves nothing. *)
Theorem adapter_fifo n accepted drained (c : AdapterChannel A) :
  adapter_run n accepted drained c →
  accepted = drained ++ adapter_queue c ∧ length (adapter_queue c) ≤ n ∧ receiver_alive c = true ∧
  adapter_drain c = (adapter_queue c, set_queued [] c).
Proof using Type.
  assert (Hd : ∀ c : AdapterChannel A, adapter_drain c = (adapter_queue c, set_queued [] c)).
  { intros c0. unfold adapter_drain. by rewrite try_recv_all_spec. }
  intros H. assert (accepted = drained ++ adapter_queue c ∧ length (adapter_queue c) ≤ adapter_capacity c ∧ adapter_capacity c = n ∧
    receiver_alive c = true) as (? & ? & <- & ?); [|split_and!; done].
  induction H as [|accepted drained c x r c' _ IH E|accepted drained c x r c' _ IH E
    |accepted drained c l c' _ IH E].
  - split_and!; [done|cbn; lia|done|done].
  - destruct IH as (-> & Hl & Hc & Ha). apply try_send_spec in E as (E1 & E2 & E3 & E4 & _).
    rewrite E3, E1, E2. split_and!; [by rewrite (assoc_L (++))|rewrite <- E3, <- E1; auto|done|done].
  - destruct IH as (-> & Hl & Hc & Ha). pose proof (adapter_send_spec x c) as Hs. rewrite E in Hs.
    destruct r as [[]|y]; [|destruct Hs as (_ & _ & Hs); congruence].
    apply try_send_spec in Hs as (E1 & E2 & E3 & E4 & _).
    rewrite E3, E1, E2. split_and!; [by rewrite (assoc_L (++))|rewrite <- E3, <- E1; auto|done|done].
  - destruct IH as (-> & Hl & Hc & Ha). rewrite Hd in E. injection E as <- <-.
    cbn. rewrite app_nil_r. split_and!; [done|lia|done|done].
Qed.
End adapters.

Lemma adapter_fifo_witness :
  ∃ c, adapter_run 1 [SystemSignal.Tick 1; SystemSignal.Tick 2] [SystemSignal.Tick 1] c ∧
    adapter_queue c = [SystemSignal.Tick 2] ∧ adapter_drain c = ([SystemSignal.Tick 2], set_queued [] c).
Proof.
  assert (adapter_run 1 [SystemSignal.Tick 1; SystemSignal.Tick 2] [SystemSignal.Tick 1]
    {| adapter_capacity := 1; adapter_queue := [SystemSignal.Tick 2]; receiver_alive := true |}) as H.
  { change [SystemSignal.Tick 1; SystemSignal.Tick 2] with
      ([SystemSignal.Tick 1] ++ match Ok (E := SystemSignal) tt with Ok _ => [SystemSignal.Tick 2] | Err _ => [] end).
    eapply (run_send 1 [SystemSignal.Tick 1] _ (adapter_new 1)); [|reflexivity].
    change [SystemSignal.Tick 1] with ([] ++ [SystemSignal.Tick 1]) at 2. eapply (run_drain 1 _ [] (set_queued [SystemSignal.Tick 1] (adapter_new 1))); [|reflexivity].
    change [SystemSignal.Tick 1] with
      ([] ++ match Ok (E := TrySendError SystemSignal) tt with Ok _ => [SystemSignal.Tick 1] | Err _ => [] end).
    eapply (run_try_send 1 [] [] (adapter_new 1)); [apply run_new|reflexivity]. }
  eexists. split; [exact H|]. split; [reflexivity|]. exact (proj2 (proj2 (proj2 (adapter_fifo _ _ _ _ H)))).
Defined.
