(* ===== verification/PersistenceSpec.v ===== *)
(** * Saving, loading and losing sessions

    [stored st sid h]: the rows of session [sid] in the message table are exactly
    the encodings of [h], at the indices of [h].  Loading is shown to invert it,
    saving to extend it; a step relation then interleaves transitions, concurrent
    asynchronous saves, database faults and crashes.  The sub-routine cache follows. *)
From S2P Require Import Prelude Utf8 Types Effects Extension Session Router Persistence.
From S2P Require Import SubRoutineCache GovTypes Instances.

(** ** Iterating a table *)

Lemma message_key_cmp_antisym p q : message_key_cmp p q = CompOpp (message_key_cmp q p).
Proof. apply (text_then_antisym (λ p : _ * bytes, p.1.1) (λ p q, N.compare p.1.2 q.1.2)), N.compare_antisym. Qed.

Lemma message_key_cmp_eq p q : message_key_cmp p q = Eq → p.1 = q.1.
Proof.
  unfold message_key_cmp. destruct (String.compare p.1.1 q.1.1) eqn:E; [|done..].
  apply String.compare_eq_iff in E. intros E'%N.compare_eq_iff.
  destruct p as [[]], q as [[]]; cbn in *; congruence.
Qed.

Lemma message_key_cmp_same_sid sid i k v w :
  message_key_cmp ((sid, i), v) ((sid, k), w) = N.compare i k.
Proof. unfold message_key_cmp. cbn. by rewrite string_compare_refl. Qed.

Lemma message_key_cmp_trans p q r :
  cmp_le message_key_cmp p q → cmp_le message_key_cmp q r → cmp_le message_key_cmp p r.
Proof.
  apply (text_then_trans (λ p : _ * bytes, p.1.1) (λ p q, N.compare p.1.2 q.1.2)).
  unfold cmp_le. rewrite !N.compare_gt_iff. lia.
Qed.

Lemma table_iter_sorted t : StronglySorted (cmp_le message_key_cmp) (table_iter t).
Proof. apply sort_by_sorted; [apply message_key_cmp_antisym|apply message_key_cmp_trans]. Qed.

Lemma elem_of_table_iter t k v : (k, v) ∈ table_iter t ↔ t !! k = Some v.
Proof. unfold table_iter. by rewrite sort_by_permutation, elem_of_map_to_list. Qed.

Lemma table_iter_NoDup t : NoDup (table_iter t).
Proof. unfold table_iter. rewrite sort_by_permutation. apply NoDup_map_to_list. Qed.

Lemma sort_by_id {A} (cmp : A → A → comparison) l :
  StronglySorted (cmp_le cmp) l → sort_by cmp l = l.
Proof.
  induction 1 as [|x l _ IH Hx]; [done|]. cbn [sort_by foldr].
  change (foldr (sort_insert cmp) [] l) with (sort_by cmp l). rewrite IH.
  by apply sort_insert_head.
Qed.

Lemma StronglySorted_filter {A} (R : relation A) (Q : A → Prop) `{!∀ x, Decision (Q x)} l :
  StronglySorted R l → StronglySorted R (filter Q l).
Proof.
  induction 1 as [|x l _ IH Hx]; [constructor|]. rewrite filter_cons. case_decide; [|done].
  constructor; [done|]. by apply Forall_list_filter.
Qed.

(** The rows of one session, in index order. *)
Fixpoint rows_at (sid : string) (i : N) (vs : list bytes) : list ((string * N) * bytes) :=
  match vs with
  | [] => []
  | v :: vs' => ((sid, i), v) :: rows_at sid (i + 1)%N vs'
  end.

Lemma elem_of_rows_at sid i vs k v :
  (k, v) ∈ rows_at sid i vs ↔
  ∃ n, k = (sid, (i + N.of_nat n)%N) ∧ vs !! n = Some v.
Proof.
  revert i. induction vs as [|w vs IH]; intros i; cbn [rows_at].
  - split; [intros H; by apply not_elem_of_nil in H|]. by intros (n & _ & ?).
  - rewrite elem_of_cons, IH. split.
    + intros [[= -> ->]|(n & -> & Hn)]; [exists 0|exists (S n)]; (split; [f_equal; lia|done]).
    + intros ([|n] & -> & Hn); cbn in Hn; [left; simplify_eq; f_equal; f_equal; lia|].
      right. exists n. split; [f_equal; lia|done].
Qed.

Lemma rows_at_sorted sid i vs : StronglySorted (cmp_le message_key_cmp) (rows_at sid i vs).
Proof.
  revert i. induction vs as [|v vs IH]; intros i; cbn [rows_at]; constructor; [apply IH|].
  apply Forall_forall. intros [k w] (n & -> & _)%elem_of_rows_at.
  unfold cmp_le. rewrite message_key_cmp_same_sid, N.compare_gt_iff. lia.
Qed.

Lemma rows_at_NoDup sid i vs : NoDup (rows_at sid i vs).
Proof.
  revert i. induction vs as [|v vs IH]; intros i; cbn [rows_at]; constructor; [|apply IH].
  intros (n & E & _)%elem_of_rows_at. simplify_eq. lia.
Qed.

Lemma table_rows t sid vs :
  (∀ i v, t !! (sid, i) = Some v ↔ vs !! N.to_nat i = Some v) →
  filter (λ kv : (string * N) * bytes, kv.1.1 = sid) (table_iter t) = rows_at sid 0 vs.
Proof.
  intros Ht.
  assert (∀ k v, (k, v) ∈ rows_at sid 0 vs ↔ k.1 = sid ∧ t !! k = Some v) as Hin.
  { intros [s i] v. rewrite elem_of_rows_at. cbn. split.
    - intros (n & [= -> ->] & Hn). split; [done|]. apply Ht. by rewrite N.add_0_l, Nat2N.id.
    - intros [-> Hi%Ht]. exists (N.to_nat i). split; [f_equal; lia|done]. }
  apply (StronglySorted_unique_strong (cmp_le message_key_cmp)).
  - intros [k v] [k' v'] [_ H1%elem_of_table_iter]%list_elem_of_filter [_ H2]%Hin Hle Hge.
    assert (k = k') as ->; [|congruence].
    apply (message_key_cmp_eq (k, v) (k', v')). unfold cmp_le in *.
    rewrite message_key_cmp_antisym in Hge. by destruct (message_key_cmp (k, v) (k', v')).
  - apply StronglySorted_filter, table_iter_sorted.
  - apply rows_at_sorted.
  - apply NoDup_Permutation; [apply NoDup_filter, table_iter_NoDup|apply rows_at_NoDup|].
    intros [k v]. by rewrite list_elem_of_filter, elem_of_table_iter, Hin.
Qed.

(** ** Round trips of single rows *)

Section codec.
Context `{codec : !PersistCodec, laws : !PersistCodecLaws}.

Lemma decompress_compress data b : maybe_compress data = Ok b → maybe_decompress b = Ok data.
Proof using All.
  unfold maybe_compress. destruct (_ <? _)%N; [|by intros [= <-]].
  destruct (zstd_encode_all data) as [c|e] eqn:E; [|done]. intros [= <-]. cbn.
  by rewrite (zstd_decode_encode _ _ E).
Qed.

Lemma decode_encode_message m b : encode_message m = Ok b → decode_message b = Ok m.
Proof using All.
  unfold encode_message, decode_message, serialize_message, deserialize_message.
  destruct (message_to_vec m) as [d|e] eqn:E; [|done]. cbn. intros Hb.
  rewrite (decompress_compress _ _ Hb). cbn. by rewrite (message_decode_encode _ _ E).
Qed.

(** The checksum the writer computes. *)
Definition checksummed (d d' : SessionHeadDTO) : Prop :=
  ∃ b, head_to_vec (set_checksum None d) = Ok b ∧ d' = set_checksum (Some (crc32 b)) d.

Definition head_fits (d : SessionHeadDTO) : Prop :=
  ∀ b, serialize_head d = Ok b → (N.of_nat (length b) <= MAX_HEAD_BYTES)%N.

Lemma deserialize_serialize_head d b :
  head_fits d → serialize_head d = Ok b → ∃ d', checksummed d d' ∧ deserialize_head b = Ok d'.
Proof using All.
  intros Hfit Hs. specialize (Hfit b Hs). revert Hs. unfold serialize_head.
  destruct (head_to_vec (set_checksum None d)) as [cb|e] eqn:E; [|done]. cbn.
  change (set_checksum (Some (crc32 cb)) (set_checksum None d))
    with (set_checksum (Some (crc32 cb)) d).
  destruct (head_to_vec (set_checksum (Some (crc32 cb)) d)) as [b'|e] eqn:E'; [|done].
  intros [= ->]. exists (set_checksum (Some (crc32 cb)) d). split; [by exists cb|].
  unfold deserialize_head. destruct (N.ltb_spec MAX_HEAD_BYTES (N.of_nat (length b))); [lia|].
  rewrite (head_decode_encode _ _ E'). cbn. destruct (version d).
  change (set_checksum None (set_checksum (Some (crc32 cb)) d)) with (set_checksum None d).
  rewrite E. cbn. by rewrite N.eqb_refl.
Qed.

Lemma decode_encode_head d b :
  head_fits d → encode_head d = Ok b → ∃ d', checksummed d d' ∧ decode_head b = Ok d'.
Proof using All.
  unfold encode_head, decode_head. intros Hfit.
  destruct (serialize_head d) as [s|e] eqn:E; [|done]. cbn. intros Hb.
  rewrite (decompress_compress _ _ Hb). cbn. by apply deserialize_serialize_head.
Qed.

Lemma decode_head_inv d b d' :
  encode_head d = Ok b → decode_head b = Ok d' → checksummed d d'.
Proof using All.
  intros Hb Hd. destruct (decode_encode_head d b) as (d2 & ? & ?); [|done|congruence].
  intros b' Hs. revert Hb Hd. unfold encode_head, decode_head. rewrite Hs. cbn. intros Hb.
  rewrite (decompress_compress _ _ Hb). cbn. unfold deserialize_head.
  destruct (N.ltb_spec MAX_HEAD_BYTES (N.of_nat (length b'))); [done|lia].
Qed.

(** ** The rows of a session *)

Definition stored (sid : string) (st : RedbStorage) (h : list ChatMessage) : Prop :=
  (N.of_nat (length h) <= 4294967296)%N ∧
  ∀ i v, messages_table (db st) !! (sid, i) = Some v ↔
    ∃ m, h !! N.to_nat i = Some m ∧ encode_message m = Ok v.

(** Every message of the history can be encoded. *)
Definition encodable (h : list ChatMessage) : Prop :=
  Forall (λ m, ∃ v, encode_message m = Ok v) h.

Fixpoint indexed_from {A} (i : N) (l : list A) : list (N * A) :=
  match l with [] => [] | x :: l' => (i, x) :: indexed_from (i + 1)%N l' end.

Lemma indexed_from_snd {A} i (l : list A) : (indexed_from i l).*2 = l.
Proof. revert i. induction l as [|x l IH]; intros i; cbn; [done|]. by rewrite IH. Qed.

Lemma indexed_from_sorted {A} i (l : list A) :
  StronglySorted (cmp_le (λ p q : N * A, N.compare p.1 q.1)) (indexed_from i l).
Proof.
  revert i. induction l as [|x l IH]; intros i; cbn; constructor; [apply IH|].
  assert (∀ j, (i < j)%N → Forall (cmp_le (λ p q : N * A, N.compare p.1 q.1) (i, x)) (indexed_from j l))
    as Hall; [|apply Hall; lia].
  clear IH. induction l as [|y l IH]; intros j Hj; cbn; constructor.
  - unfold cmp_le. cbn. rewrite N.compare_gt_iff. lia.
  - apply IH. lia.
Qed.

Lemma scan_messages_filter sid rows :
  scan_messages sid rows = scan_messages sid (filter (λ kv : (string * N) * bytes, kv.1.1 = sid) rows).
Proof using Type.
  induction rows as [|[[s i] v] rows IH]; [done|]. rewrite filter_cons. cbn.
  destruct (decide (s = sid)) as [->|]; [|done]. cbn. rewrite decide_True by done. by rewrite IH.
Qed.

Lemma scan_rows_at sid i vs h :
  Forall2 (λ v m, encode_message m = Ok v) vs h →
  scan_messages sid (rows_at sid i vs) = Ok (indexed_from i h).
Proof using All.
  intros Hv. revert i. induction Hv as [|v m vs h Hm _ IH]; intros i; [done|].
  cbn. rewrite decide_True by done. by rewrite (decode_encode_message m v Hm), IH.
Qed.

Lemma encodable_values h :
  encodable h → ∃ vs, Forall2 (λ v m, encode_message m = Ok v) vs h.
Proof using Type.
  induction 1 as [|m h [v Hv] _ [vs IH]]; [by exists []|]. exists (v :: vs). by constructor.
Qed.

Lemma Forall2_values vs h i v :
  Forall2 (λ v m, encode_message m = Ok v) vs h →
  vs !! i = Some v ↔ ∃ m, h !! i = Some m ∧ encode_message m = Ok v.
Proof using Type.
  intros Hv. split.
  - intros Hi. destruct (Forall2_lookup_l _ _ _ _ _ Hv Hi) as (m & ? & ?). by exists m.
  - intros (m & Hi & Hm). destruct (Forall2_lookup_r _ _ _ _ _ Hv Hi) as (w & ? & ?). congruence.
Qed.

Lemma load_stored sid st h :
  stored sid st h → encodable h → load_messages_for_session sid st = Ok (indexed_from 0 h).
Proof using All.
  intros [_ Hst] [vs Hv]%encodable_values. unfold load_messages_for_session.
  rewrite scan_messages_filter, (table_rows _ _ vs).
  - rewrite (scan_rows_at _ _ _ _ Hv). cbn. by rewrite sort_by_id by apply indexed_from_sorted.
  - intros i v. by rewrite Hst, (Forall2_values vs h).
Qed.

(** ** One transaction *)

(** The history the table holds once [hm] was saved from [start] over [h0]. *)
Definition overwrite (start : nat) (h0 hm : list ChatMessage) : list ChatMessage :=
  take start h0 ++ drop start hm ++ drop (length hm) h0.

Lemma lookup_overwrite start h0 hm i :
  start ≤ length h0 → start ≤ length hm →
  overwrite start h0 hm !! i =
    if decide (start ≤ i < length hm) then hm !! i else h0 !! i.
Proof.
  intros H0 Hm. unfold overwrite. rewrite lookup_app, lookup_take, lookup_app, lookup_drop, lookup_drop.
  rewrite !length_take, length_drop.
  destruct (decide (i < start)) as [Hi|Hi].
  - rewrite decide_False by lia. destruct (h0 !! i) eqn:E; [done|]. apply lookup_ge_None in E. lia.
  - destruct (decide (start ≤ i < length hm)) as [Hi'|Hi'].
    + replace (start + (i - start `min` length h0)) with i by lia.
      destruct (hm !! i) eqn:E; [done|]. apply lookup_ge_None in E. lia.
    + replace (start + (i - start `min` length h0)) with i by lia.
      rewrite (lookup_ge_None_2 hm i) by lia. f_equal. lia.
Qed.

Lemma length_overwrite start h0 hm :
  start ≤ length h0 → start ≤ length hm → length (overwrite start h0 hm) = length h0 `max` length hm.
Proof. intros. unfold overwrite. rewrite !length_app, length_take, !length_drop. lia. Qed.

Lemma message_batch_ok sid i msgs :
  encodable msgs → ∃ batch, message_batch sid i msgs = Ok batch.
Proof using Type.
  intros H. revert i. induction H as [|m msgs [v Hv] _ IH]; intros i; [by exists []|].
  cbn. rewrite Hv. cbn. destruct (IH (i + 1)%N) as [batch ->]. by eexists.
Qed.

Lemma insert_batch_lookup sid i msgs batch d k :
  message_batch sid i msgs = Ok batch → (i + N.of_nat (length msgs) <= 4294967296)%N →
  messages_table (insert_messages batch d) !! k =
    if decide (k.1 = sid ∧ (i <= k.2 < i + N.of_nat (length msgs))%N)
    then match msgs !! N.to_nat (k.2 - i) with
         | Some m => match encode_message m with Ok v => Some v | Err _ => None end
         | None => None
         end
    else messages_table d !! k.
Proof using Type.
  unfold insert_messages. cbn [messages_table]. generalize (messages_table d). clear d.
  revert i batch. induction msgs as [|m msgs IH]; intros i batch t Hb Hlen; cbn in Hb.
  - injection Hb as <-. cbn. rewrite decide_False; [done|]. cbn [length]. lia.
  - destruct (encode_message m) as [v|e] eqn:Em; [|done]. cbn in Hb.
    destruct (message_batch sid (i + 1) msgs) as [batch'|e] eqn:Eb; [|done]. injection Hb as <-.
    cbn [length] in *. cbn [foldl fst snd]. rewrite (IH (i + 1)%N batch' _ Eb) by lia.
    assert (as_u32 i = i) as -> by (apply N.mod_small; lia).
    destruct k as [s n]. cbn [fst snd]. destruct (decide (s = sid)) as [->|Hs].
    + destruct (decide (n = i)) as [->|Hn].
      * rewrite decide_False by (intros [_ ?]; lia).
        rewrite lookup_insert_eq, decide_True by (split; [done|lia]).
        rewrite N.sub_diag. change ((m :: msgs) !! N.to_nat 0) with (Some m). cbn. by rewrite Em.
      * rewrite lookup_insert_ne by congruence.
        destruct (decide (i + 1 <= n < i + 1 + N.of_nat (length msgs))%N) as [Hin|Hin].
        -- rewrite !decide_True by (split; [done|lia]).
           replace (N.to_nat (n - i)) with (S (N.to_nat (n - (i + 1)))) by lia. done.
        -- rewrite !decide_False by (intros [_ ?]; lia). done.
    + rewrite !decide_False by tauto. by rewrite lookup_insert_ne by congruence.
Qed.

(** ** Saving *)

Definition watermark (e : SessionStoreEntry) : nat := N.to_nat (head_persisted_msg_count (entry_head e)).

Lemma slice_from_Some {A} (l : list A) n :
  N.to_nat n ≤ length l → slice_from l n = Some (drop (N.to_nat n) l).
Proof. intros H. unfold slice_from. destruct (N.leb_spec n (N.of_nat (length l))); [done|lia]. Qed.

Lemma slice_from_None {A} (l : list A) n : length l < N.to_nat n → slice_from l n = None.
Proof. intros H. unfold slice_from. destruct (N.leb_spec n (N.of_nat (length l))); [lia|done]. Qed.

Lemma stored_overwrite sid st h0 hm start batch d st' :
  stored sid st h0 → start ≤ length h0 → start ≤ length hm →
  (N.of_nat (length hm) <= 4294967296)%N →
  message_batch sid (N.of_nat start) (drop start hm) = Ok batch →
  messages_table d = messages_table (db st) →
  db st' = insert_messages batch d →
  stored sid st' (overwrite start h0 hm).
Proof using Type.
  intros [Hl Hst] H0 Hm Hlen Hb Hd Hst'. split.
  - rewrite length_overwrite by done. lia.
  - intros i v. rewrite Hst'. rewrite (insert_batch_lookup sid _ _ _ d _ Hb) by (rewrite length_drop; lia).
    cbn [fst snd]. rewrite Hd, lookup_overwrite by done. rewrite length_drop.
    destruct (decide (start ≤ N.to_nat i < length hm)) as [Hi|Hi].
    + rewrite decide_True by (split; [done|lia]).
      rewrite lookup_drop. replace (start + N.to_nat (i - N.of_nat start)) with (N.to_nat i) by lia.
      destruct (hm !! N.to_nat i) as [m|] eqn:E.
      * destruct (encode_message m) as [w|e] eqn:Em; split; try done.
        -- intros [= ->]. by exists m.
        -- intros (m' & [= <-] & Hm'). congruence.
        -- intros (m' & [= <-] & Hm'). congruence.
      * split; [done|]. by intros (? & ? & ?).
    + rewrite decide_False by (intros [_ ?]; lia). apply Hst.
Qed.

Lemma save_commit_panics fault sid e st :
  length (entry_messages e) < watermark e → save_commit fault sid e st = (Err Panicked, st).
Proof using Type. intros H. unfold save_commit. by rewrite slice_from_None. Qed.

Lemma save_commit_ok sid e st h0 :
  stored sid st h0 → encodable (entry_messages e) →
  (N.of_nat (length (entry_messages e)) <= 4294967296)%N →
  watermark e ≤ length h0 → watermark e ≤ length (entry_messages e) →
  match encode_head (entry_head e) with
  | Err err => save_commit None sid e st =
      (Err (Failed (ShellError.EffectExecution (PersistenceError_to_string err))), st)
  | Ok b => ∃ st', save_commit None sid e st = (Ok (N.of_nat (length (entry_messages e))), st') ∧
      session_store st' = session_store st ∧
      sessions_table (db st') = <[sid := b]> (sessions_table (db st)) ∧
      blobs_table (db st') = blobs_table (db st) ∧
      stored sid st' (overwrite (watermark e) h0 (entry_messages e)) ∧
      (∀ k, k.1 ≠ sid → messages_table (db st') !! k = messages_table (db st) !! k)
  end.
Proof using Type.
  intros Hst Henc Hlen H0 Hm. unfold save_commit. rewrite slice_from_Some by done.
  destruct (encode_head (entry_head e)) as [b|err]; [|done].
  destruct (message_batch_ok sid (head_persisted_msg_count (entry_head e))
              (drop (watermark e) (entry_messages e))) as [batch Hb]; [by apply Forall_drop|].
  fold (watermark e). rewrite Hb. eexists. split; [reflexivity|]. split_and!; try done.
  - eapply (stored_overwrite sid st h0 _ _ batch (insert_session sid b (db st))); try done.
    unfold watermark at 1. by rewrite N2Nat.id.
  - intros k Hk. cbn [db set_db].
    rewrite (insert_batch_lookup _ _ _ _ (insert_session sid b (db st)) k Hb)
      by (rewrite length_drop; unfold watermark in *; lia).
    by rewrite decide_False by tauto.
Qed.

Lemma save_commit_fault fault sid e st err :
  fault = Some err → (save_commit fault sid e st).2 = st ∧ ¬ is_ok (save_commit fault sid e st).1.
Proof using Type.
  intros ->. unfold save_commit, transaction.
  destruct (slice_from _ _) as [delta|]; [destruct (encode_head _); [destruct (message_batch _ _ _)|]|];
    (split; [done|by intros []]).
Qed.
End codec.

(** ** Transitions, concurrent saves, faults and crashes

    [SaveSession] effects are executed by background tasks.  A task has read its
    entry ([Reading]) or committed it and still has to advance the watermark
    ([Committed]); anything may happen between its steps.  The kernel is
    represented by what it does to a history that is never edited: it extends it. *)
Section system.
Context `{codec : !PersistCodec, laws : !PersistCodecLaws}.
Context {U : AnyUniverse} {P : Type} `{!CycleRollbackPolicy U P}.
Context (sid : string).
Context (Henc : ∀ m, ∃ v, encode_message m = Ok v).

Inductive SaveTask : Type :=
  | Reading (entry : SessionStoreEntry)
  | Committed (new_count : N).

Record System := {
  live : Session U P;
  storage : RedbStorage;
  tasks : list SaveTask
}.

Definition System_new : System :=
  {| live := Session_new sid;
     storage := {| db := Redb_create; session_store := ∅ |};
     tasks := [] |}.

Definition extends (s s' : Session U P) : Prop :=
  session_id s' = session_id s ∧ persisted_msg_count s' = persisted_msg_count s ∧
  history s `prefix_of` history s' ∧ (N.of_nat (length (history s')) <= 4294967296)%N.

Inductive sys_step : System → System → Prop :=
  | step_transition s session' can_read can_write session'' st' :
      extends (live s) session' →
      session_callback can_read can_write session' (storage s) = (session'', st') →
      sys_step s {| live := session''; storage := st'; tasks := tasks s |}
  | step_begin s entry :
      save_begin sid (storage s) = Ok entry →
      sys_step s {| live := live s; storage := storage s; tasks := tasks s ++ [Reading entry] |}
  | step_commit s ts1 entry ts2 fault new_count st' :
      tasks s = ts1 ++ Reading entry :: ts2 →
      save_commit fault sid entry (storage s) = (Ok new_count, st') →
      sys_step s {| live := live s; storage := st'; tasks := ts1 ++ Committed new_count :: ts2 |}
  | step_fail s ts1 entry ts2 fault e st' :
      tasks s = ts1 ++ Reading entry :: ts2 →
      save_commit fault sid entry (storage s) = (Err e, st') →
      sys_step s {| live := live s; storage := st'; tasks := ts1 ++ ts2 |}
  | step_advance s ts1 new_count ts2 :
      tasks s = ts1 ++ Committed new_count :: ts2 →
      sys_step s {| live := live s; storage := save_advance sid new_count (storage s);
                    tasks := ts1 ++ ts2 |}
  | step_crash s loaded :
      let st' := {| db := db (storage s); session_store := ∅ |} in
      load_session_full sid st' = Ok loaded →
      sys_step s {| live := session_factory_with_head sid (snd <$> loaded) (fst <$> loaded);
                    storage := st'; tasks := [] |}.

Definition reachable : System → Prop := rtc sys_step System_new.

(** The entry [e] was taken from a history of which [h] is a continuation, when at
    least [watermark e] rows had been written; [n] rows are written now. *)
Definition entry_ok (n : nat) (h : list ChatMessage) (e : SessionStoreEntry) : Prop :=
  entry_messages e `prefix_of` h ∧ watermark e ≤ n ∧ watermark e ≤ length (entry_messages e) ∧
  head_id (entry_head e) = sid.

Definition task_ok (n : nat) (store : gmap string SessionStoreEntry) (t : SaveTask) : Prop :=
  ∃ e, store !! sid = Some e ∧
  match t with
  | Reading e' => entry_ok n (entry_messages e) e'
  | Committed k => N.to_nat k ≤ n ∧ N.to_nat k ≤ length (entry_messages e)
  end.

Record sys_inv (s : System) (n : nat) : Prop := {
  inv_id : session_id (live s) = sid;
  inv_rows : stored sid (storage s) (take n (history (live s)));
  inv_n : n ≤ length (history (live s));
  inv_len : (N.of_nat (length (history (live s))) <= 4294967296)%N;
  inv_count : N.to_nat (persisted_msg_count (live s)) ≤ n;
  inv_head : ∀ b d, sessions_table (db (storage s)) !! sid = Some b → decode_head b = Ok d →
    head_id d = sid ∧ N.to_nat (head_persisted_msg_count d) ≤ n;
  inv_no_head : sessions_table (db (storage s)) !! sid = None → n = 0;
  inv_store : ∀ e, session_store (storage s) !! sid = Some e → entry_ok n (history (live s)) e;
  inv_tasks : Forall (task_ok n (session_store (storage s))) (tasks s)
}.

Lemma inv_new : sys_inv System_new 0.
Proof using Type.
  split; cbn; try done.
  - split; [done|]. intros i v. cbn. rewrite lookup_empty. split; [done|]. by intros (? & ? & ?).
Qed.

Lemma entry_ok_mono n n' h h' e :
  n ≤ n' → h `prefix_of` h' → entry_ok n h e → entry_ok n' h' e.
Proof using Type. intros Hn Hh (? & ? & ? & ?). split_and!; try done; [by etrans|lia]. Qed.

Lemma entry_ok_le n n' h e : n ≤ n' → entry_ok n h e → entry_ok n' h e.
Proof using Type. intros Hn. by apply entry_ok_mono. Qed.

Lemma take_prefix_le {A} (l : list A) n m : n ≤ m → take n l `prefix_of` take m l.
Proof. intros H. exists (take (m - n) (drop n l)). by rewrite take_take_drop, Nat.add_comm, Nat.sub_add. Qed.

Lemma prefix_of_take {A} (k l : list A) n : k `prefix_of` l → length k ≤ n → k `prefix_of` take n l.
Proof. intros [r ->] H. rewrite take_app_ge by done. by exists (take (n - length k) r). Qed.

Lemma take_prefix_same {A} n (h h' : list A) :
  h `prefix_of` h' → n ≤ length h → take n h' = take n h.
Proof. intros [k ->] Hn. by rewrite take_app_le. Qed.

Lemma overwrite_prefix (h hm : list ChatMessage) start n :
  hm `prefix_of` h → start ≤ n → start ≤ length hm → n ≤ length h →
  overwrite start (take n h) hm = take (n `max` length hm) h.
Proof using Type.
  intros [k ->] Hs Hsm Hn. rewrite length_app in Hn. apply list_eq. intros i.
  rewrite lookup_overwrite by (rewrite ?length_take, ?length_app; lia).
  rewrite !lookup_take. destruct (decide (start ≤ i < length hm)) as [Hi|Hi].
  - rewrite lookup_app_l by lia. by rewrite decide_True by lia.
  - destruct (decide (i < n)) as [Hin|Hin]; [by rewrite decide_True by lia|].
    destruct (decide (i < n `max` length hm)) as [Hin'|Hin']; [|done]. exfalso. lia.
Qed.

Lemma encodable_all h : encodable h.
Proof using Henc. by apply Forall_forall. Qed.

Lemma tasks_transition n s ts (session' : Session U P) st' (h := history session') :
  sys_inv s n → Forall (task_ok n (session_store (storage s))) ts →
  history (live s) `prefix_of` h →
  (session_store st' = session_store (storage s) ∨
   ∃ e, session_store st' = <[sid := e]> (session_store (storage s)) ∧ entry_messages e = h) →
  Forall (task_ok n (session_store st')) ts.
Proof using Type.
  intros Hinv Hts Hh [->|(e' & -> & He')]; [done|].
  eapply Forall_impl; [exact Hts|]. intros t (e & He & Ht).
  exists e'. rewrite lookup_insert_eq. split; [done|].
  destruct (inv_store s n Hinv e He) as (Hpre & _).
  assert (entry_messages e `prefix_of` h) as Hp by (by etrans).
  destruct t as [e2|k]; rewrite He'.
  - eapply entry_ok_mono; [done|exact Hp|done].
  - destruct Ht. split; [done|]. apply prefix_length in Hp. lia.
Qed.

Lemma inv_transition s n session' can_read can_write session'' st' :
  sys_inv s n → extends (live s) session' →
  session_callback can_read can_write session' (storage s) = (session'', st') →
  sys_inv {| live := session''; storage := st'; tasks := tasks s |} n.
Proof using Type.
  intros Hinv (Hid & Hpc & Hpre & Hlen) Hcb. pose proof Hinv as [Iid Irows In Ilen Ic Ih Inh Is It].
  unfold session_callback in Hcb.
  set (s2 := match session_store (storage s) !! session_id session' with
             | Some existing => if can_read then _ else session' | None => session' end) in Hcb.
  assert (session_id s2 = sid ∧ history s2 = history session' ∧
          N.to_nat (persisted_msg_count s2) ≤ n) as (H2id & H2h & H2c).
  { unfold s2. rewrite Hid, Iid. destruct (session_store (storage s) !! sid) as [e|] eqn:He.
    - destruct (Is e eq_refl) as (_ & Hw & _ & _). destruct can_read; cbn.
      + split_and!; [by rewrite ?Hid|done|]. unfold watermark in Hw. rewrite Hpc. lia.
      + split_and!; [by rewrite ?Hid|done|by rewrite Hpc].
    - split_and!; [by rewrite ?Hid|done|by rewrite Hpc]. }
  injection Hcb as <- Hst'. pose proof (prefix_length _ _ Hpre) as Hl.
  assert (take n (history session') = take n (history (live s))) as Htake by (by apply take_prefix_same).
  assert (∀ e, session_store (storage s) !! sid = Some e → entry_ok n (history session') e) as Hold.
  { intros e He. apply (entry_ok_mono n n _ _ e (le_n n) Hpre), (Is e He). }
  assert (db st' = db (storage s)) as Hdb by (subst st'; by destruct can_write).
  split; cbn; rewrite ?H2h, ?Hdb; try done; try lia.
  - destruct Irows as [? Irows]. split; [by rewrite Htake|]. by rewrite Hdb, Htake.
  - intros e. subst st'. destruct can_write; cbn; [|by apply Hold].
    rewrite H2id, lookup_insert_eq. intros [= <-]. rewrite ?H2h.
    unfold entry_ok, watermark. cbn. rewrite ?H2h. split_and!; [done|done|lia|done].
  - apply (tasks_transition n s _ session' _ Hinv It Hpre). subst st'.
    destruct can_write; [right|by left]. eexists. cbn. rewrite H2id. split; [reflexivity|done].
Qed.

Lemma tasks_mono n n' store ts :
  n ≤ n' → Forall (task_ok n store) ts → Forall (task_ok n' store) ts.
Proof using Type.
  intros Hn Hts. eapply Forall_impl; [exact Hts|]. intros t (e & He & Ht).
  exists e. split; [done|]. destruct t; [by eapply entry_ok_le|]. destruct Ht. split; [lia|done].
Qed.

Lemma inv_commit s n ts1 entry ts2 fault new_count st' :
  sys_inv s n → tasks s = ts1 ++ Reading entry :: ts2 →
  save_commit fault sid entry (storage s) = (Ok new_count, st') →
  ∃ n', n ≤ n' ∧ N.to_nat new_count ≤ n' ∧
    sys_inv {| live := live s; storage := st'; tasks := ts1 ++ Committed new_count :: ts2 |} n'.
Proof using All.
  intros Hinv Ets Hc. pose proof Hinv as [Iid Irows In Ilen Ic Ih Inh Is It].
  destruct fault as [err|];
    [by destruct (save_commit_fault (Some err) sid entry (storage s) err eq_refl) as [_ Hn];
        rewrite Hc in Hn; destruct Hn|].
  rewrite Ets in It. apply Forall_app in It as [It1 (He & It2)%Forall_cons].
  destruct He as (e & He & Hok). pose proof (Is e He) as (Hpe & _).
  destruct Hok as (Hpre & Hwn & Hwl & Hid).
  assert (entry_messages entry `prefix_of` history (live s)) as Hph by (by etrans).
  pose proof (prefix_length _ _ Hph) as Hlen. pose proof (prefix_length _ _ Hpre) as Hlen'.
  pose proof (save_commit_ok sid entry (storage s) _ Irows (encodable_all _)) as Hsave.
  specialize (Hsave ltac:(lia) ltac:(rewrite length_take; lia) Hwl).
  destruct (encode_head (entry_head entry)) as [b|err] eqn:Eb; [|by rewrite Hc in Hsave].
  destruct Hsave as (st2 & Heq & Hstore & Hsess & _ & Hst & _). rewrite Hc in Heq.
  injection Heq as -> <-. rewrite overwrite_prefix in Hst by done.
  exists (n `max` length (entry_messages entry)). split; [lia|]. split; [lia|].
  split; cbn; try done; try lia.
  - intros b' d. rewrite Hsess, lookup_insert_eq. intros [= <-] Hd.
    destruct (decode_head_inv _ _ _ Eb Hd) as (cb & _ & ->). cbn. split; [done|].
    unfold watermark in Hwn. lia.
  - intros H. by rewrite Hsess, lookup_insert_eq in H.
  - rewrite Hstore. intros e' He'. apply (entry_ok_le n); [lia|by apply Is].
  - rewrite Hstore. apply Forall_app. split; [|apply Forall_cons; split].
    + eapply tasks_mono; [|done]. lia.
    + exists e. split; [done|]. lia.
    + eapply tasks_mono; [|done]. lia.
Qed.

Lemma inv_drop s n ts1 t ts2 :
  sys_inv s n → tasks s = ts1 ++ t :: ts2 →
  sys_inv {| live := live s; storage := storage s; tasks := ts1 ++ ts2 |} n.
Proof using Type.
  intros [] Ets. split; cbn; try done. rewrite Ets in *.
  rewrite !Forall_app, !Forall_cons in *. tauto.
Qed.

Lemma save_commit_err fault entry st e st' :
  save_commit fault sid entry st = (Err e, st') → st' = st.
Proof using Type.
  unfold save_commit, transaction. destruct (slice_from _ _); [|by intros [= _ <-]].
  destruct (encode_head _); [|by intros [= _ <-]]. destruct (message_batch _ _ _); [|by intros [= _ <-]].
  by destruct fault; intros [=].
Qed.

Lemma save_commit_count fault entry st k st' :
  save_commit fault sid entry st = (Ok k, st') → k = N.of_nat (length (entry_messages entry)).
Proof using Type.
  unfold save_commit, transaction. destruct (slice_from _ _); [|done].
  destruct (encode_head _); [|done]. destruct (message_batch _ _ _); [|done].
  destruct fault; [done|]. by intros [= <- _].
Qed.

Lemma inv_advance s n ts1 k ts2 :
  sys_inv s n → tasks s = ts1 ++ Committed k :: ts2 →
  sys_inv {| live := live s; storage := save_advance sid k (storage s); tasks := ts1 ++ ts2 |} n.
Proof using Type.
  intros Hinv Ets. pose proof (inv_drop s n _ _ _ Hinv Ets) as [Iid Irows In Ilen Ic Ih Inh Is It].
  pose proof (inv_tasks s n Hinv) as Hts. rewrite Ets in Hts.
  apply Forall_app in Hts as [_ (Hk & _)%Forall_cons]. destruct Hk as (e & He & Hkn & Hkl).
  cbn in *. split; cbn; try done.
  - intros e'. rewrite lookup_alter_eq, He. intros [= <-].
    destruct (Is e He) as (? & ? & ? & ?). by split_and!.
  - eapply Forall_impl; [exact It|]. intros t (e' & He' & Ht).
    exists {| entry_head := set_watermark k (entry_head e'); entry_messages := entry_messages e' |}.
    by rewrite lookup_alter_eq, He'.
Qed.

Lemma load_full_stored st h :
  stored sid st h →
  load_session_full sid st =
    match load_session sid st with
    | Ok (Some d) => Ok (Some (d, h))
    | Ok None => Ok None
    | Err e => Err e
    end.
Proof using All.
  intros Hst. unfold load_session_full. destruct (load_session sid st) as [[d|]|e]; [|done..].
  cbn. rewrite (load_stored _ _ _ Hst (encodable_all h)). cbn. by rewrite indexed_from_snd.
Qed.

Lemma inv_crash s n loaded :
  let st' := {| db := db (storage s); session_store := ∅ |} in
  sys_inv s n → load_session_full sid st' = Ok loaded →
  sys_inv {| live := session_factory_with_head sid (snd <$> loaded) (fst <$> loaded);
             storage := st'; tasks := [] |} n.
Proof using All.
  intros st' [Iid Irows In Ilen Ic Ih Inh Is It] Hl.
  assert (stored sid st' (take n (history (live s)))) as Hst by exact Irows.
  rewrite (load_full_stored st' _ Hst) in Hl. unfold load_session in Hl. cbn [db st'] in Hl.
  assert (length (take n (history (live s))) = n) as Hn by (rewrite length_take; lia).
  destruct (sessions_table (db (storage s)) !! sid) as [b|] eqn:Eb.
  - destruct (decode_head b) as [d|e] eqn:Ed; [|done]. cbn in Hl. injection Hl as <-.
    destruct (Ih b d eq_refl Ed) as [Hid Hw].
    split; cbn; try done; rewrite ?Hn, ?(take_ge (take n _)) by lia; try done; [lia| |congruence].
    rewrite Eb. intros b' d' [= <-]. rewrite Ed. by intros [= <-].
  - cbn in Hl. injection Hl as <-. specialize (Inh eq_refl) as ->.
    split; cbn; try done; by rewrite Eb.
Qed.

Lemma inv_step s n s' :
  sys_inv s n → sys_step s s' → ∃ n', n ≤ n' ∧ sys_inv s' n' ∧
    take n (history (live s)) `prefix_of` take n' (history (live s')).
Proof using All.
  intros Hinv Hs. pose proof (inv_n s n Hinv) as Hn.
  destruct Hs as [s session' cr cw session'' st' Hext Hcb|s entry Hb
                 |s ts1 entry ts2 fault k st' Ets Hc|s ts1 entry ts2 fault e st' Ets Hc
                 |s ts1 k ts2 Ets|s loaded st' Hl].
  - exists n. split; [done|]. split; [by eapply inv_transition|]. cbn.
    pose proof Hext as (_ & _ & Hpre & _).
    assert (history session'' = history session') as ->.
    { revert Hcb. unfold session_callback. destruct (session_store _ !! _); [destruct cr|];
        by intros [= <- _]. }
    by rewrite (take_prefix_same n _ _ Hpre Hn).
  - exists n. split; [done|]. split; [|done]. destruct Hinv as [Iid Irows In Ilen Ic Ih Inh Is It].
    split; cbn; try done. apply Forall_app. split; [done|]. apply Forall_singleton.
    unfold save_begin in Hb. destruct (session_store (storage s) !! sid) as [e|] eqn:He; [|done].
    injection Hb as <-. destruct (Is e eq_refl) as (? & ? & ? & ?). exists e. split; [done|].
    by split_and!.
  - destruct (inv_commit s n _ _ _ _ _ _ Hinv Ets Hc) as (n' & Hle & _ & Hinv').
    exists n'. split; [done|]. split; [done|]. cbn. by apply take_prefix_le.
  - exists n. split; [done|]. rewrite (save_commit_err _ _ _ _ _ Hc). split; [|done].
    by eapply inv_drop.
  - exists n. split; [done|]. split; [|done]. by eapply inv_advance.
  - exists n. split; [done|]. split; [by apply inv_crash|]. cbn.
    unfold st' in Hl. rewrite (load_full_stored _ (take n (history (live s)))) in Hl
      by exact (inv_rows s n Hinv).
    destruct (load_session _ _) as [[d|]|e] eqn:Ed; [| |done]; injection Hl as <-; cbn.
    + by rewrite take_take, Nat.min_id.
    + unfold load_session in Ed. cbn in Ed.
      destruct (sessions_table (db (storage s)) !! sid) as [b|] eqn:Eb;
        [by destruct (decode_head b)|]. by rewrite (inv_no_head s n Hinv Eb), !take_0.
Qed.

Lemma inv_steps s n s' :
  sys_inv s n → rtc sys_step s s' → ∃ n', sys_inv s' n' ∧
    take n (history (live s)) `prefix_of` take n' (history (live s')).
Proof using All.
  intros Hinv Hs. revert n Hinv. induction Hs as [s|s s1 s' H1 _ IH]; intros n Hinv.
  - by exists n.
  - destruct (inv_step s n s1 Hinv H1) as (n1 & _ & Hinv1 & Hp1).
    destruct (IH n1 Hinv1) as (n' & Hinv' & Hp'). exists n'. split; [done|]. by etrans.
Qed.

Lemma inv_load s n :
  sys_inv s n → load_messages_for_session sid (storage s) =
    Ok (indexed_from 0 (take n (history (live s)))).
Proof using All. intros Hinv. apply (load_stored _ _ _ (inv_rows s n Hinv)), encodable_all. Qed.

Lemma task_does_not_panic s n fault entry :
  sys_inv s n → Reading entry ∈ tasks s →
  (save_commit fault sid entry (storage s)).1 ≠ Err Panicked.
Proof using Type.
  intros Hinv Ht. pose proof (inv_tasks s n Hinv) as Hts.
  rewrite Forall_forall in Hts. destruct (Hts _ Ht) as (e & _ & _ & _ & Hw & _).
  unfold save_commit. rewrite slice_from_Some by done.
  destruct (encode_head _); [|done]. destruct (message_batch _ _ _); [|done].
  by destruct fault.
Qed.

End system.

(** ** One session through callback, save and reload *)
Section reload.
Context `{codec : !PersistCodec, laws : !PersistCodecLaws}.
Context {U : AnyUniverse} {P : Type} `{!CycleRollbackPolicy U P}.

Lemma unflatten_flatten s : unflatten_state (flatten_state s) = s.
Proof. by destruct s as [| | |[h]|]. Qed.

(** The entry the callback leaves in the store. *)
Definition callback_count (session : Session U P) (st : RedbStorage) : N :=
  match session_store st !! session_id session with
  | Some e => N.max (persisted_msg_count session) (head_persisted_msg_count (entry_head e))
  | None => persisted_msg_count session
  end.

Definition callback_entry (session : Session U P) (st : RedbStorage) : SessionStoreEntry :=
  {| entry_head := set_watermark (callback_count session st) (from_session session);
     entry_messages := history session |}.

Lemma callback_store (session : Session U P) st :
  (session_callback true true session st).2 =
    set_store (insert (session_id session) (callback_entry session st)) st.
Proof.
  unfold session_callback, callback_entry, callback_count.
  by destruct (session_store st !! session_id session).
Qed.

(** A save right after the callback. *)
Definition callback_and_save (session : Session U P) (st : RedbStorage) :
    result unit SaveFailure * RedbStorage :=
  save_session None (session_id session) (session_callback true true session st).2.

(** What a save can rely on when no row is missing below the watermark. *)
Record savable (session : Session U P) (st : RedbStorage) (h0 : list ChatMessage) : Prop := {
  sv_stored : stored (session_id session) st h0;
  sv_count : N.to_nat (callback_count session st) ≤ length h0;
  sv_len : (N.of_nat (length (history session)) <= 4294967296)%N;
  sv_messages : encodable h0 ∧ encodable (history session)
}.

Lemma callback_and_save_panics session st h0 :
  savable session st h0 → length (history session) < N.to_nat (callback_count session st) →
  (callback_and_save session st).1 = Err Panicked ∧
  db (callback_and_save session st).2 = db st.
Proof using Type.
  intros _ Hlt. unfold callback_and_save, save_session, save_begin. rewrite callback_store.
  cbn [set_store session_store]. rewrite lookup_insert_eq. by rewrite save_commit_panics.
Qed.

Lemma callback_and_save_ok session st h0 b :
  savable session st h0 → encode_head (entry_head (callback_entry session st)) = Ok b →
  N.to_nat (callback_count session st) ≤ length (history session) →
  (callback_and_save session st).1 = Ok tt ∧
  sessions_table (db (callback_and_save session st).2) !! session_id session = Some b ∧
  stored (session_id session) (callback_and_save session st).2
    (overwrite (N.to_nat (callback_count session st)) h0 (history session)).
Proof using Type.
  intros [Hst Hc Hlen [_ Henc]] Hb Hle.
  unfold callback_and_save, save_session, save_begin. rewrite callback_store.
  set (st1 := set_store _ st). assert (session_store st1 !! session_id session
    = Some (callback_entry session st)) as -> by (cbn; by rewrite lookup_insert_eq).
  assert (stored (session_id session) st1 h0) as Hst1 by exact Hst.
  pose proof (save_commit_ok _ (callback_entry session st) st1 h0 Hst1 Henc Hlen Hc Hle) as Hs.
  rewrite Hb in Hs. destruct Hs as (st2 & -> & _ & Hsess & _ & Hst2 & _). cbn.
  split; [done|]. split; [|exact Hst2]. by rewrite Hsess, lookup_insert_eq.
Qed.

(** C28: What a reload gives back of a saved session.  If the rows on disk are a
    prefix of the history, then running the callback and [SaveSession] succeeds,
    and a full load followed by [to_session] rebuilds the session: same
    identifier, history, state, state stack and cold snapshot.  The watermark of
    the rebuilt session is the one before the save, so the next save writes the
    last messages again; the running tool calls and the text streamed so far are
    not in the head and come back empty. *)
Theorem saved_session_reloads (session : Session U P) (st : RedbStorage)
    (h0 : list ChatMessage) (b : bytes)
    (Hsave : savable session st h0) (Hpre : h0 `prefix_of` history session)
    (Hb : encode_head (entry_head (callback_entry session st)) = Ok b)
    (Hfit : head_fits (entry_head (callback_entry session st))) :
  let r := callback_and_save session st in
  r.1 = Ok tt ∧
  ∃ head, load_session_full (session_id session) r.2 = Ok (Some (head, history session)) ∧
    to_session (U:=U) (P:=P) head (history session) =
      {| session_id := session_id session; history := history session;
         persisted_msg_count := callback_count session st;
         state := state session; state_stack := state_stack session;
         extensions := restore_cold_snapshot (cold_snapshot (extensions session)) ExtensionStorage_new;
         active_tools := []; pending_assistant_text := "" |}.
Proof using All.
  cbn zeta. pose proof (prefix_length _ _ Hpre) as Hlen. pose proof Hsave as [Hst Hc Hl [Henc0 Henc]].
  destruct (callback_and_save_ok session st h0 b Hsave Hb ltac:(lia)) as (Hr & Hsess & Hst').
  split; [done|]. destruct (decode_encode_head _ _ Hfit Hb) as (d & (cb & _ & ->) & Hd).
  eexists. split.
  - unfold load_session_full, load_session. rewrite Hsess, Hd. cbn.
    rewrite (load_stored _ _ _ Hst').
    + cbn. rewrite indexed_from_snd. do 3 f_equal.
      destruct Hpre as [k Hk]. apply list_eq. intros i.
      rewrite lookup_overwrite by (rewrite ?Hk, ?length_app; lia).
      destruct (decide _) as [|Hn]; [done|]. rewrite Hk.
      destruct (decide (i < length h0)); [by rewrite lookup_app_l by done|].
      rewrite Hk, length_app in Hn. rewrite !lookup_ge_None_2; rewrite ?length_app; lia || done.
    + unfold overwrite. apply Forall_app. split; [by apply Forall_take|].
      apply Forall_app. split; by apply Forall_drop.
  - unfold to_session. cbn. rewrite unflatten_flatten, <- list_fmap_compose. f_equal.
    rewrite <- (list_fmap_id (state_stack session)) at 2. apply list_fmap_ext.
    intros i s _. apply unflatten_flatten.
Qed.

(** Edits below the watermark never reach the disk.  Suppose [h0] is on disk
    and recorded as persisted, and the history of the session is edited (as
    [HistoryEdit::Truncate] and [HistoryEdit::Insert] do when the context is
    compacted).  If the new history is shorter than [h0], the next save panics on
    its slice and the disk keeps [h0]; if it is not, the save succeeds but a reload
    returns [h0] followed by the tail of the new history, whatever the edits were.
    Either way the reloaded history is the session's only if [h0] is a prefix of
    it. *)
Theorem edited_history_not_persisted (session : Session U P) (st : RedbStorage)
    (h0 : list ChatMessage) (b : bytes)
    (Hsave : savable session st h0) (Hmark : N.to_nat (callback_count session st) = length h0)
    (Hb : encode_head (entry_head (callback_entry session st)) = Ok b) :
  let r := callback_and_save session st in
  let reloaded := if decide (length (history session) < length h0) then h0
                  else h0 ++ drop (length h0) (history session) in
  r.1 = (if decide (length (history session) < length h0) then Err Panicked else Ok tt) ∧
  load_messages_for_session (session_id session) r.2 = Ok (indexed_from 0 reloaded) ∧
  (reloaded = history session ↔ h0 `prefix_of` history session).
Proof using All.
  cbn zeta. pose proof Hsave as [Hst Hc Hl [Henc0 Henc]].
  destruct (decide (length (history session) < length h0)) as [Hlt|Hge].
  - rewrite <- Hmark in Hlt.
    destruct (callback_and_save_panics session st h0 Hsave Hlt) as [-> Hdb].
    split; [done|]. split.
    + apply load_stored; [|done]. destruct Hst as [? Hst]. split; [done|]. by rewrite Hdb.
    + rewrite Hmark in Hlt. split; [intros ->; lia|]. intros Hp%prefix_length. lia.
  - destruct (callback_and_save_ok session st h0 b Hsave Hb ltac:(lia)) as (-> & _ & Hst').
    split; [done|]. rewrite Hmark in Hst'. unfold overwrite in Hst'.
    rewrite take_ge, (drop_ge h0), app_nil_r in Hst' by lia. split.
    + apply load_stored; [done|]. apply Forall_app. split; [done|by apply Forall_drop].
    + split; [intros <-; by eexists|]. intros [k ->]. by rewrite drop_app_length.
Qed.
End reload.

(** ** Witnesses *)

Definition demo_session (h : list ChatMessage) : Session concrete_universe unit :=
  set_history (λ _, h) (Session_new "a").

Definition demo_storage0 : RedbStorage := {| db := Redb_create; session_store := ∅ |}.

Definition demo_st1 : RedbStorage :=
  (session_callback true true (demo_session [ChatMessage.User "hi"]) demo_storage0).2.

Definition demo_entry : SessionStoreEntry :=
  callback_entry (demo_session [ChatMessage.User "hi"]) demo_storage0.

(** A message arrives, a save starts and commits, and the watermark is not
    advanced yet. *)
Definition demo_system : System (U := concrete_universe) (P := unit) :=
  {| live := demo_session [ChatMessage.User "hi"];
     storage := (save_commit None "a" demo_entry demo_st1).2;
     tasks := [Committed 1] |}.

Lemma pair_fst {A B} (x : A * B) a : x.1 = a → x = (a, x.2).
Proof. destruct x. cbn. by intros ->. Qed.

Lemma demo_reachable : reachable "a" demo_system.
Proof.
  eapply rtc_l; [apply (step_transition "a" _ (demo_session [ChatMessage.User "hi"]) true true
                          (demo_session [ChatMessage.User "hi"]) demo_st1)|].
  { split_and!; [done|done|by eexists|cbn; lia]. }
  { reflexivity. }
  eapply rtc_l; [apply (step_begin "a" _ demo_entry); vm_compute; reflexivity|].
  eapply rtc_l; [|apply rtc_refl].
  apply (step_commit "a" {| live := demo_session [ChatMessage.User "hi"]; storage := demo_st1;
                            tasks := [Reading demo_entry] |} [] demo_entry [] None 1 _ eq_refl).
  apply pair_fst. vm_compute. reflexivity.
Qed.


Lemma stored_empty sid store :
  stored sid {| db := Redb_create; session_store := store |} [].
Proof.
  split; [done|]. intros i v. cbn. rewrite lookup_empty. split; [done|]. by intros (? & ? & ?).
Qed.

Lemma demo_encodable h : encodable h.
Proof. apply Forall_forall. intros m _. apply demo_encodes. Qed.

Lemma demo_savable : savable (demo_session [ChatMessage.User "hi"]) demo_storage0 [].
Proof.
  split; [apply stored_empty|vm_compute; lia|vm_compute; discriminate|]. split; apply demo_encodable.
Qed.

Example saved_session_reloads_witness :
  (callback_and_save (demo_session [ChatMessage.User "hi"]) demo_storage0).1 = Ok tt ∧
  ∃ head, load_session_full "a"
            (callback_and_save (demo_session [ChatMessage.User "hi"]) demo_storage0).2
          = Ok (Some (head, [ChatMessage.User "hi"])).
Proof.
  destruct (encode_head (entry_head (callback_entry (demo_session [ChatMessage.User "hi"]) demo_storage0)))
    as [b|] eqn:Eb; [|vm_compute in Eb; discriminate].
  destruct (saved_session_reloads (demo_session [ChatMessage.User "hi"]) demo_storage0 [] b demo_savable)
    as (Hr & head & Hl & _); [by eexists|exact Eb| |].
  - intros b' Hb'. vm_compute in Hb'. injection Hb' as <-. vm_compute. discriminate.
  - split; [exact Hr|]. exists head. exact Hl.
Defined.

(** Two messages are on disk; the history is then compacted to one summary. *)
Definition demo_two : list ChatMessage := [ChatMessage.User "hi"; ChatMessage.User "ho"].
Definition demo_saved : RedbStorage :=
  (callback_and_save (demo_session demo_two) demo_storage0).2.

Lemma demo_savable_two : savable (demo_session demo_two) demo_storage0 [].
Proof.
  split; [apply stored_empty|vm_compute; lia|vm_compute; discriminate|]. split; apply demo_encodable.
Qed.

Lemma demo_savable_compacted :
  savable (demo_session [ChatMessage.System "summary"]) demo_saved demo_two.
Proof.
  split; [|vm_compute; lia|vm_compute; discriminate|split; apply demo_encodable].
  destruct (encode_head (entry_head (callback_entry (demo_session demo_two) demo_storage0)))
    as [b|] eqn:Eb; [|vm_compute in Eb; discriminate].
  apply (callback_and_save_ok _ _ [] b demo_savable_two Eb). vm_compute. lia.
Qed.

Example edited_history_not_persisted_witness :
  (callback_and_save (demo_session [ChatMessage.System "summary"]) demo_saved).1 = Err Panicked ∧
  load_messages_for_session "a"
    (callback_and_save (demo_session [ChatMessage.System "summary"]) demo_saved).2
    = Ok (indexed_from 0 demo_two).
Proof.
  destruct (encode_head (entry_head (callback_entry (demo_session [ChatMessage.System "summary"]) demo_saved)))
    as [b|] eqn:Eb; [|vm_compute in Eb; discriminate].
  destruct (edited_history_not_persisted (demo_session [ChatMessage.System "summary"]) demo_saved
              demo_two b demo_savable_compacted) as (Hr & Hl & _);
    [vm_compute; reflexivity|exact Eb|]. split; [exact Hr|exact Hl].
Defined.

(** ** The sub-routine cache: tiers, eviction and removal, against the interface [LruCache] *)

Section spec.
Context `{cache : !LruCache SessionHeadDTO, laws : !LruLaws SessionHeadDTO, codec : !PersistCodec}.
Implicit Types c : SubRoutineCache.

(** How the shell uses the cache: opening and closing accordions, removing, and
    the two loaders.  [cache_insert] itself is only called by the loaders. *)
Inductive cache_step : SubRoutineCache → SubRoutineCache → Prop :=
  | step_promote id c : cache_step c (promote_to_l1 id c).2
  | step_demote id c : cache_step c (demote_to_l2 id c)
  | step_remove id c : cache_step c (cache_remove id c).2
  | step_load st handle c : cache_step c (load_subroutine st handle c).2
  | step_lazy st sid c : cache_step c (lazy_load st sid c).2.

Definition disjoint_tiers c : Prop :=
  ∀ id d, l1_visible c !! id = Some d → lru_peek id (l2_lru c) = None.

Lemma peek_pop id id' (l : lru SessionHeadDTO) :
  lru_peek id' (lru_pop id l).2 = if decide (id = id') then None else lru_peek id' l.
Proof using laws.
  destruct (decide (id = id')) as [->|]; [apply lru_peek_pop|by apply lru_peek_pop_ne].
Qed.

Lemma promote_unfold id c :
  promote_to_l1 id c =
    (match lru_peek id (l2_lru c) with Some _ => l1_visible c !! id | None => None end,
     {| l1_visible := match lru_peek id (l2_lru c) with
                      | Some d => <[id := d]> (l1_visible c)
                      | None => l1_visible c
                      end;
        l2_lru := (lru_pop id (l2_lru c)).2 |}).
Proof using laws.
  unfold promote_to_l1. rewrite <- (lru_pop_peek id (l2_lru c)).
  by destruct (lru_pop id (l2_lru c)) as [[d|] l].
Qed.

Lemma disjoint_promote id c : disjoint_tiers c → disjoint_tiers (promote_to_l1 id c).2.
Proof using laws.
  intros Hd id' d. rewrite promote_unfold. cbn. rewrite peek_pop.
  destruct (decide (id = id')) as [->|Hne]; [done|].
  destruct (lru_peek id (l2_lru c)); [rewrite lookup_insert_ne by done|]; apply Hd.
Qed.

Lemma put_ne id id' d (l : lru SessionHeadDTO) :
  id ≠ id' → lru_peek id' l = None → lru_peek id' (lru_put id d l) = None.
Proof using laws. intros Hne Hn. by destruct (lru_peek_put_ne id id' d l Hne) as [->| ->]. Qed.

Lemma disjoint_demote id c : disjoint_tiers c → disjoint_tiers (demote_to_l2 id c).
Proof using laws.
  intros Hd id' d. unfold demote_to_l2. destruct (l1_visible c !! id) as [d0|] eqn:E; [|apply Hd].
  cbn. intros [Hne Hl]%lookup_delete_Some. apply put_ne; [done|by eapply Hd].
Qed.

Lemma disjoint_remove id c : disjoint_tiers c → disjoint_tiers (cache_remove id c).2.
Proof using laws.
  intros Hd id' d. unfold cache_remove. destruct (l1_visible c !! id) as [d0|] eqn:E; cbn.
  - intros [_ Hl]%lookup_delete_Some. by eapply Hd.
  - pose proof (peek_pop id id' (l2_lru c)) as Hp. destruct (lru_pop id (l2_lru c)) as [r l]. cbn in *.
    intros Hl. rewrite Hp. case_decide; [done|by eapply Hd].
Qed.

Lemma disjoint_insert id d c :
  l1_visible c !! id = None → disjoint_tiers c → disjoint_tiers (cache_insert id d c).
Proof using laws.
  intros Hid Hd id' d'. cbn. intros Hl. apply put_ne; [congruence|by eapply Hd].
Qed.

Lemma load_subroutine_cases st handle c :
  (load_subroutine st handle c).2 = c ∨
  ∃ d, l1_visible c !! handle = None ∧ (load_subroutine st handle c).2 = cache_insert handle d c.
Proof using Type.
  unfold load_subroutine, cache_get. destruct (l1_visible c !! handle) as [d|]; [by left|].
  destruct (lru_peek handle (l2_lru c)); [by left|].
  destruct (load_session handle st) as [[d|]|e]; [right; by exists d|by left..].
Qed.

(** Both loaders only insert identifiers that are not visible. *)
Lemma prefetch_ind (I : SubRoutineCache → Prop) st states c :
  (∀ id d c, l1_visible c !! id = None → I c → I (cache_insert id d c)) →
  I c → I (prefetch st states c).2.
Proof using Type.
  intros Hins. revert c. induction states as [|s states IH]; intros c Hc; [done|]. cbn.
  destruct s as [| | |id|]; [by apply IH..| |by apply IH].
  unfold cache_contains. destruct (l1_visible c !! id) eqn:E; [by apply IH|].
  destruct (lru_peek id (l2_lru c)); [by apply IH|].
  destruct (load_session id st) as [[d|]|e]; [apply IH; by apply Hins|by apply IH|done].
Qed.

Lemma lazy_load_ind (I : SubRoutineCache → Prop) st sid c :
  (∀ id d c, l1_visible c !! id = None → I c → I (cache_insert id d c)) →
  I c → I (lazy_load st sid c).2.
Proof using Type.
  intros Hins Hc. unfold lazy_load. destruct (load_session_full sid st) as [[[h m]|]|e]; [|done..].
  pose proof (prefetch_ind I st (head_state h :: head_state_stack h) c Hins Hc) as Hp.
  by destruct (prefetch st _ c) as [[[]|e] c'].
Qed.

Lemma disjoint_step c c' : cache_step c c' → disjoint_tiers c → disjoint_tiers c'.
Proof using laws.
  destruct 1 as [id c|id c|id c|st h c|st sid c]; intros Hd.
  - by apply disjoint_promote.
  - by apply disjoint_demote.
  - by apply disjoint_remove.
  - destruct (load_subroutine_cases st h c) as [->|(d & Hn & ->)]; [done|by apply disjoint_insert].
  - apply lazy_load_ind; [intros id d c0; apply disjoint_insert|done].
Qed.

(** The two tiers of the cache.  In every cache the shell can reach, no
    sub-routine is in both tiers; so opening or closing an accordion does not
    change what is found under its identifier; removing one removes it from both
    tiers and returns what was found; and whatever is loaded, prefetched or evicted
    in one step, an open sub-routine keeps its data unless it is that step that
    closes or removes it. *)
Theorem cache_tiers_disjoint (n : nat) (c : SubRoutineCache)
    (Hr : rtc cache_step (SubRoutineCache_new n) c) :
  disjoint_tiers c ∧
  (∀ id, cache_get id (promote_to_l1 id c).2 = cache_get id c ∧
         cache_get id (demote_to_l2 id c) = cache_get id c) ∧
  (∀ id, (cache_remove id c).1 = cache_get id c ∧ cache_get id (cache_remove id c).2 = None) ∧
  (∀ id d c', l1_visible c !! id = Some d → cache_step c c' →
     l1_visible c' !! id = Some d ∨ c' = demote_to_l2 id c ∨ c' = (cache_remove id c).2).
Proof using laws.
  assert (disjoint_tiers c) as Hd.
  { remember (SubRoutineCache_new n) as c0 eqn:E0. assert (disjoint_tiers c0) as H0 by (by subst).
    clear E0. induction Hr as [|c1 c2 c3 H12 _ IH]; [done|]. by apply IH, (disjoint_step _ _ H12). }
  split; [done|]. split; [|split].
  - intros id. rewrite promote_unfold. unfold cache_get. cbn. split.
    + destruct (lru_peek id (l2_lru c)) as [d|] eqn:E.
      * rewrite lookup_insert_eq. destruct (l1_visible c !! id) eqn:El; [|done].
        by rewrite (Hd id _ El) in E.
      * rewrite peek_pop, decide_True by done. by destruct (l1_visible c !! id).
    + unfold demote_to_l2. destruct (l1_visible c !! id) as [d|] eqn:El; cbn; [|by rewrite El].
      by rewrite lookup_delete_eq, lru_peek_put.
  - intros id. unfold cache_remove, cache_get. destruct (l1_visible c !! id) as [d|] eqn:El; cbn.
    + by rewrite lookup_delete_eq, (Hd id d El).
    + rewrite <- (lru_pop_peek id (l2_lru c)). pose proof (lru_peek_pop id (l2_lru c)) as Hp.
      destruct (lru_pop id (l2_lru c)) as [r l]. cbn in *. by rewrite El.
  - intros id d c' Hl Hs. revert Hd Hl. destruct Hs as [id' c|id' c|id' c|st h c|st sid c]; intros Hd Hl.
    + left. rewrite promote_unfold. cbn. destruct (lru_peek id' (l2_lru c)) as [d'|] eqn:E; [|done].
      rewrite lookup_insert_ne; [done|]. intros ->. by rewrite (Hd id d Hl) in E.
    + destruct (decide (id' = id)) as [->|Hne]; [by auto|]. left. unfold demote_to_l2.
      destruct (l1_visible c !! id'); cbn; [by rewrite lookup_delete_ne|done].
    + destruct (decide (id' = id)) as [->|Hne]; [by auto|]. left. unfold cache_remove.
      destruct (l1_visible c !! id'); cbn; [by rewrite lookup_delete_ne|].
      by destruct (lru_pop id' (l2_lru c)).
    + left. by destruct (load_subroutine_cases st h c) as [->|(d' & _ & ->)].
    + left. apply (lazy_load_ind (λ c, l1_visible c !! id = Some d)); [|done]. done.
Qed.
End spec.

(** ** Witness: a loaded sub-routine is opened, a second one is loaded *)

Definition demo_disk : RedbStorage :=
  (save_session_dto None (demo_head "a") {| db := Redb_create; session_store := ∅ |}).2.

Definition demo_cache : @SubRoutineCache ListLru.ListLru :=
  (promote_to_l1 "a" (load_subroutine demo_disk "a" (SubRoutineCache_new 1)).2).2.

Lemma demo_cache_reachable : rtc cache_step (SubRoutineCache_new 1) demo_cache.
Proof.
  eapply rtc_l; [apply (step_load demo_disk "a")|].
  eapply rtc_l; [apply (step_promote "a")|apply rtc_refl].
Qed.

Example cache_tiers_disjoint_witness :
  l2_len demo_cache = 0 ∧ l1_len demo_cache = 1 ∧
  cache_get "a" (cache_remove "a" demo_cache).2 = None.
Proof.
  split; [vm_compute; reflexivity|]. split; [vm_compute; reflexivity|].
  apply (cache_tiers_disjoint 1 demo_cache demo_cache_reachable).
Defined.

(** ** Interrupting the collection *)

(** Runners the code can reach. *)
Inductive gc_reachable : GcRunner → Prop :=
  | gc_fresh : gc_reachable GcRunner_new
  | gc_cancels r : gc_reachable r → gc_reachable (gc_cancel r).

Lemma gc_cancelled_past r : gc_reachable r → ∀ t, is_cancelled t r = true ↔ t < gc_token r.
Proof.
  unfold is_cancelled. induction 1 as [|r _ IH]; intros t; rewrite bool_decide_eq_true in *.
  - cbn. split; [set_solver|lia].
  - cbn [gc_cancel gc_token gc_cancelled]. specialize (IH t). rewrite bool_decide_eq_true in IH.
    rewrite elem_of_union, elem_of_singleton, IH. lia.
Qed.

(** A cancellation stops every run that took its token before it, at its next row, and none
    that takes it afterwards. *)
Theorem gc_cancel_stops r n :
  gc_reachable r →
  let started := gc_token r in
  let after := gc_cancel r in
  stops_before started (repeat r n ++ [after]) = Some n ∧
  stops_before (gc_token after) [r; after] = None ∧
  ∀ rows sid index, stale_keys sid index (take n rows) `prefix_of` stale_keys sid index rows.
Proof.
  intros Hr started after. assert (gc_reachable after) as Ha by by constructor.
  assert (is_cancelled started r = false) as Hb.
  { apply not_true_iff_false. rewrite (gc_cancelled_past r Hr). unfold started. lia. }
  split_and!.
  - assert (list_find (λ r, is_cancelled started r = true) (repeat r n ++ [after]) = Some (n, after)) as E;
      [|unfold stops_before; by rewrite E].
    apply list_find_Some. rewrite lookup_app_r by (by rewrite repeat_length). rewrite repeat_length, Nat.sub_diag.
    split_and!; [done|apply (gc_cancelled_past after Ha); unfold after, started; cbn; lia|].
    intros j y Hy Hj. rewrite lookup_app_l in Hy by (by rewrite repeat_length).
    apply list_elem_of_lookup_2, list_elem_of_In, repeat_spec in Hy as ->. by rewrite Hb.
  - unfold stops_before. replace (list_find _ _) with (@None (nat * GcRunner)); [done|]. symmetry.
    apply list_find_None. repeat constructor.
    + rewrite (gc_cancelled_past r Hr). unfold after. cbn. lia.
    + rewrite (gc_cancelled_past after Ha). lia.
  - intros rows sid index. unfold stale_keys. rewrite <- (take_drop n rows) at 2.
    rewrite filter_app, fmap_app. by eexists.
Qed.

Lemma gc_cancel_stops_witness :
  stops_before 0 [GcRunner_new; GcRunner_new; gc_cancel GcRunner_new] = Some 2 ∧
  stops_before 1 [GcRunner_new; gc_cancel GcRunner_new] = None.
Proof.
  destruct (gc_cancel_stops GcRunner_new 2 gc_fresh) as (H1 & H2 & _). split; [exact H1|exact H2].
Defined.
