(* ===== verification/ThreadSpec.v ===== *)
(** * Correctness of the engine thread and its watchdog

    The invariants of the engine loop (journal, session, routes), what the verdicts
    of the watchdog say about the loop, and what executing [RebuildRoutes] does to
    a quarantine. *)
From S2P Require Import Prelude Utf8 Types Effects Journal Extension Session Plugins Router.
From S2P Require Import Persistence Engine GovTypes Signals Trace Hooks Finalize Dispatch Transition.
From S2P Require Import Executor EngineThread Invariants Lifecycle Ordering TransitionSpec JournalSpec Instances.

(** ** The loop *)

Section loop.
Context {U : AnyUniverse} {P : Type} `{!CycleRollbackPolicy U P, !KernelTypes U, !GovernanceTypes U}.
Context (to_allocvec : EngineInput → result bytes string) (journal_enabled : bool).
Context {C : Type} (session_callback : Session U P → C → Session U P * C).
#[local] Abbreviation prepare := (prepare to_allocvec journal_enabled).
#[local] Abbreviation run_transition := (run_transition session_callback).
#[local] Abbreviation round := (engine_thread_round to_allocvec journal_enabled session_callback).

(** The inputs processed so far and the thread at the head of its loop. *)
Inductive loop_run (t0 : EngineThread U P C) : list EngineInput → EngineThread U P C → Prop :=
  | run_start : loop_run t0 [] t0
  | run_idle log box t t' :
      loop_run t0 log t → next_input box = Empty → round box t = (Next, t') → loop_run t0 log t'
  | run_input log box i t t' :
      loop_run t0 log t → next_input box = Received i → round box t = (Next, t') →
      loop_run t0 (log ++ [i]) t'.

(** The three ways a round ends. *)
Inductive round_result (box : Inbox) (t : EngineThread U P C) :
    Control * EngineThread U P C → Prop :=
  | round_quiet c : 
      (c = Next → shutdown box = false ∧ next_input box = Empty) →
      (shutdown box = true ∨ next_input box = Empty ∨ next_input box = Disconnected) →
      round_result box t (c, with_rebuilds box t)
  | round_processed i out t' :
      shutdown box = false → next_input box = Received i →
      run_transition i (prepare i box (with_rebuilds box t)) = (out, t') →
      round_result box t (conclude_round journal_enabled (output_open box) out t').

Lemma round_cases box t : round_result box t (round box t).
Proof.
  unfold engine_thread_round. destruct (shutdown box) eqn:Es.
  { apply round_quiet; [done|by left]. }
  destruct (next_input box) as [i| |] eqn:Ei; [|apply round_quiet; auto..].
  - destruct (run_transition i (prepare i box (with_rebuilds box t))) as [out t'] eqn:Er.
    by apply (round_processed box t i).
  - done.
Qed.

Lemma prepare_journal i box (t : EngineThread U P C) :
  th_journal (prepare i box t)
  = if journal_enabled then Journal.append to_allocvec i (th_journal t) else th_journal t.
Proof.
  unfold EngineThread.prepare. destruct (SignalMultiplexer_drain _).
  destruct (insert_ext _ _) as [? ext]. by destruct (get_or_insert_default _ ext).
Qed.

(** A thread that does not journal keeps the journal it has. *)
Lemma unjournaled_run t0 log (t : EngineThread U P C) :
  journal_enabled = false → loop_run t0 log t → th_journal t = th_journal t0.
Proof.
  intros Hj. induction 1 as [|log box t t' _ IH _ E|log box i t t' _ IH _ E]; [done|..];
    rewrite <- IH; clear IH.
  all: assert (t' = (round box t).2) as -> by (by rewrite E); clear E.
  all: destruct (round_cases box t) as [c _ _|i' out t1 _ _ Hr]; [done|].
  all: unfold EngineThread.run_transition in Hr; destruct (transition _ _ _) as [[es en] s];
    destruct (session_callback _ _) as [s' c']; injection Hr as _ <-;
    unfold conclude_round; destruct (output_open box); cbn [snd th_journal]; rewrite prepare_journal;
    by rewrite Hj.
Qed.

Lemma prepare_session i box (t : EngineThread U P C) :
  ∃ ext, th_session (prepare i box t) = set_extensions ext (th_session t).
Proof.
  unfold EngineThread.prepare. destruct (SignalMultiplexer_drain _).
  destruct (insert_ext _ _) as [? ext]. destruct (get_or_insert_default _ ext). by eexists.
Qed.

Lemma prepare_engine i box (t : EngineThread U P C) :
  th_engine (prepare i box t) = th_engine t ∧ th_outputs (prepare i box t) = th_outputs t.
Proof.
  unfold EngineThread.prepare. destruct (SignalMultiplexer_drain _).
  destruct (insert_ext _ _) as [? ext]. by destruct (get_or_insert_default _ ext).
Qed.

Lemma prepare_link i box (t : EngineThread U P C) :
  ∃ epoch, th_link (prepare i box t) = respond_if_pinged epoch (queued_inputs box) (th_link t).
Proof.
  unfold EngineThread.prepare. destruct (SignalMultiplexer_drain _).
  destruct (insert_ext _ _) as [? ext]. destruct (get_or_insert_default _ ext). by eexists.
Qed.

(** What a transition and the callback leave alone. *)
Lemma run_transition_frame i (t : EngineThread U P C) out t' :
  run_transition i t = (out, t') →
  th_journal t' = th_journal t ∧ th_link t' = th_link t ∧ th_outputs t' = th_outputs t ∧
  th_engine t' = (transition i (th_engine t) (th_session t)).1.2 ∧
  th_session t' = (session_callback (transition i (th_engine t) (th_session t)).2 (th_callback t)).1.
Proof.
  unfold EngineThread.run_transition. destruct (transition _ _ _) as [[es en] s].
  destruct (session_callback s (th_callback t)) eqn:Ec. intros E. injection E as <- <-. cbn. by rewrite Ec.
Qed.

Lemma conclude_closed out (t : EngineThread U P C) : conclude_round journal_enabled false out t = (Stop, t).
Proof. done. Qed.

(** *** The plugins of the engine never change *)

Lemma with_table_twice (r : PluginRouter U P) t1 t2 :
  with_table (with_table r t1) t2 = with_table r t2.
Proof. done. Qed.

(** The configuration of an engine: what no route rebuild and no transition moves. *)
Definition same_setup (en en' : BriocheEngine U P) : Prop :=
  set_policy None (governance en') = set_policy None (governance en) ∧
  (routing_table (router en') = routing_table (router en) ∨
   ∃ mask, routing_table (router en') = masked_table mask (router en)) ∧
  router en' = with_table (router en) (routing_table (router en')).

Lemma same_setup_refl en : same_setup en en.
Proof. split; [done|]. split; [by left|]. by destruct (router en). Qed.

Lemma same_setup_rebuilds masks en en' :
  same_setup en en' → same_setup en (apply_rebuilds masks en').
Proof.
  revert en'. induction masks as [|m ms IH]; intros en' (Hg & Ht & Hr); [done|].
  apply IH. split; [exact Hg|]. unfold rebuild_routes, set_router.
  cbn [router governance]. rewrite rebuild_with_table, Hr. split; [right; by exists m|done].
Qed.

Lemma same_setup_transition i en en' s :
  same_setup en en' → same_setup en (transition i en' s).1.2.
Proof using All.
  pose proof (transition_keeps_config i en' s) as H.
  pose proof (f_equal fst H) as Hr. pose proof (f_equal snd H) as Hg. cbn in Hr, Hg.
  intros (Hg0 & Ht & Hr0). split; [congruence|]. rewrite Hr. done.
Qed.

Lemma same_setup_failover en en' :
  same_setup en en' → failover_keeps_automaton (governance en) →
  failover_keeps_automaton (governance en').
Proof.
  intros (Hg & _) Hf f e s E. apply Hf. apply (f_equal governance_failover_handler) in Hg. cbn in Hg.
  congruence.
Qed.

(** *** Invariants at the loop head *)

Context (callback_keeps : ∀ s c, automaton (session_callback s c).1 = automaton s).

Record loop_inv (en : BriocheEngine U P) (log : list EngineInput) (t : EngineThread U P C) : Prop := {
  inv_setup : same_setup en (th_engine t);
  inv_session : nested_session (th_session t);
  inv_journal : represents (th_journal t) [];
  inv_outputs : length (th_outputs t) = length log
}.

Lemma nested_automaton (s s' : Session U P) :
  automaton s' = automaton s → nested_session s → nested_session s'.
Proof.
  unfold nested_session, automaton. intros [= -> ->]. done.
Qed.

Lemma append_empty j i :
  represents j [] → represents (Journal.append to_allocvec i j) [record_of to_allocvec i].
Proof.
  intros H. apply (append_represents to_allocvec j [] i H).
  pose proof (record_of_ok to_allocvec i) as Hok. revert Hok. unfold used.
  rewrite frames_one, length_frame, capacity_value. unfold record_ok, MAX_ENTRY_BYTES.
  destruct (record_of to_allocvec i); cbn [frames concat fmap list_fmap length]; lia.
Qed.

Lemma processed_inv en log (t : EngineThread U P C) box i out t' :
  failover_keeps_automaton (governance en) → loop_inv en log t →
  run_transition i (prepare i box (with_rebuilds box t)) = (out, t') →
  same_setup en (th_engine t') ∧ nested_session (th_session t') ∧
  represents (th_journal t') (if journal_enabled then [record_of to_allocvec i] else []) ∧
  length (th_outputs t') = length log.
Proof using All.
  intros Hf [Hs Hn Hj Ho] Hr.
  apply run_transition_frame in Hr as (Ej & _ & Eo & Een & Ese).
  destruct (prepare_engine i box (with_rebuilds box t)) as [Hpe Hpo].
  destruct (prepare_session i box (with_rebuilds box t)) as [ext Hps].
  rewrite Ej, Eo, Een, Ese, prepare_journal, Hpo, Hpe, Hps. cbn.
  pose proof (same_setup_rebuilds (rebuild_commands box) en (th_engine t) Hs) as Hs'.
  split; [by apply same_setup_transition|]. split.
  - eapply nested_automaton; [apply callback_keeps|]. apply transition_nested.
    + by eapply same_setup_failover.
    + by eapply nested_automaton; [|exact Hn].
  - split; [|done]. destruct journal_enabled; [by apply append_empty|done].
Qed.

Lemma loop_run_inv en s c log t :
  failover_keeps_automaton (governance en) → nested_session s →
  loop_run (engine_thread_start en s c) log t → loop_inv en log t.
Proof using All.
  intros Hf Hns. induction 1 as [|log box t t' _ IH Hi Hr|log box i t t' _ IH Hi Hr].
  - split; [apply same_setup_refl|done|apply represents_new|done].
  - pose proof (round_cases box t) as Hc. rewrite Hr in Hc.
    inversion Hc as [? _ _ Heq|i out t1 _ Hi' _]; [|congruence].
    destruct IH as [Hs Hn Hj Ho]. subst t'. split; [by apply same_setup_rebuilds|done..].
  - pose proof (round_cases box t) as Hc. rewrite Hr in Hc.
    inversion Hc as [? Hq _ Heq|i' out t1 _ Hi' Ht Heq]; [destruct (Hq eq_refl); congruence|].
    rewrite Hi in Hi'. injection Hi' as <-.
    unfold conclude_round in Heq. destruct (output_open box); [|done]. injection Heq as <-.
    pose proof (processed_inv en log t box i out t1 Hf IH Ht) as (Hs & Hn & Hj & Ho).
    split; cbn; [done|done| |by rewrite !length_app, Ho].
    destruct journal_enabled; [by eapply acknowledge_represents|done].
Qed.

(** C8: invariants of the engine loop.  For any engine whose failover handler keeps
    the automaton, any callback that keeps it and any sequence of rounds (route
    rebuilds with any masks, signals, inputs, idle polls), at the head of the loop:
    the session is well nested with a bounded stack; the governance and the plugins
    are those the thread was started with, and the routing table is the original one
    or one rebuilt from the original plugins by a single mask; and exactly one pair
    of effects and snapshot has been handed over per processed input. *)
Theorem engine_loop_invariant (en : BriocheEngine U P) (s : Session U P) (c : C) log t
    (Hf : failover_keeps_automaton (governance en)) (Hs : nested_session s)
    (Hrun : loop_run (engine_thread_start en s c) log t) :
  nested_session (th_session t) ∧ same_setup en (th_engine t) ∧
  length (th_outputs t) = length log.
Proof using callback_keeps.
  destruct (loop_run_inv en s c log t Hf Hs Hrun) as [H1 H2 _ H4]. done.
Qed.

(** *** The journal, wherever the loop stops *)

Context (from_bytes : bytes → result EngineInput string).

(** What recovery would read, with fuel for one entry. *)
Definition recovered (t : EngineThread U P C) : option (list JournalEntry) :=
  read_unacknowledged from_bytes 1 (th_journal t).

Definition in_flight (i : EngineInput) : list JournalEntry :=
  if journal_enabled then [entry_of from_bytes (record_of to_allocvec i)] else [].

Lemma recovered_in_flight (t : EngineThread U P C) i :
  represents (th_journal t) (if journal_enabled then [record_of to_allocvec i] else []) →
  recovered t = Some (in_flight i).
Proof.
  intros H. unfold recovered, in_flight. rewrite (represents_read from_bytes _ _ 1 H).
  - by destruct journal_enabled.
  - destruct journal_enabled; cbn; lia.
Qed.

End loop.

(** ** Executing [RebuildRoutes] *)

Section rebuild.
Context {U : AnyUniverse} {P : Type} `{!CycleRollbackPolicy U P, !KernelTypes U}.

(** The [RebuildRoutes] effect lifts every quarantine.  Whatever mask the routes
    were rebuilt with before, the command the shell sends for the effect makes the
    engine route through every registered plugin again, as a fresh engine does. *)
Theorem executed_rebuild_reactivates (snapshot : StateSnapshot) (mask : list bool)
    (en : BriocheEngine U P) :
  ∃ active_mask,
    execute_effect snapshot Effect.RebuildRoutes = ExecutorCall.SendRebuildCommand active_mask ∧
    let en' := apply_rebuilds [mask; active_mask] en in
    routing_table (router en') = initial_table (router en) ∧
    router_wf (router en') ∧ governance en' = governance en.
Proof using Type.
  exists []. split; [done|]. cbn zeta. unfold apply_rebuilds. cbn [foldl].
  unfold rebuild_routes, set_router. cbn [router governance]. rewrite !rebuild_with_table.
  split; [exact (masked_nil (router en))|]. split; [apply masked_wf|done].
Qed.
End rebuild.

(** ** The watchdog beside the engine loop *)

Section watchdog.
Context {U : AnyUniverse} {P : Type} `{!CycleRollbackPolicy U P, !KernelTypes U, !GovernanceTypes U}.
Context (to_allocvec : EngineInput → result bytes string) (journal_enabled : bool).
Context {C : Type} (session_callback : Session U P → C → Session U P * C).
Context (w : EngineWatchdog).
#[local] Abbreviation round := (engine_thread_round to_allocvec journal_enabled session_callback).

Definition with_link (l : WatchdogLink) (t : EngineThread U P C) : EngineThread U P C :=
  {| th_engine := th_engine t; th_session := th_session t; th_journal := th_journal t;
     th_link := l; th_sources := th_sources t; th_callback := th_callback t;
     th_outputs := th_outputs t |}.

Definition watch_link (l : WatchdogLink) (r : WatchdogRun) : WatchdogRun :=
  {| link := l; wd_phase := wd_phase r; consecutive_recoveries := consecutive_recoveries r;
     recoveries := recoveries r |}.

(** The two sides share the channels; [busy] records that the engine has processed
    an input since the last ping. *)
Record Monitored := {
  mon_thread : EngineThread U P C;
  mon_watch : WatchdogRun;
  busy : bool
}.

Definition monitored (t : EngineThread U P C) : Monitored :=
  {| mon_thread := with_link WatchdogLink_new t; mon_watch := WatchdogRun_new; busy := false |}.

Definition mon_update (r : WatchdogRun) (b : bool) (m : Monitored) : Monitored :=
  {| mon_thread := with_link (link r) (mon_thread m); mon_watch := r; busy := b |}.

Definition took_input (box : Inbox) : bool :=
  match next_input box with Received _ => true | _ => false end.

(** One round that goes on, or one step of the watchdog; [allowed] restricts what
    the rounds find. *)
Inductive mon_step (allowed : Inbox → Prop) (m : Monitored) : Monitored → Prop :=
  | mon_round box t' :
      allowed box → round box (mon_thread m) = (Next, t') →
      mon_step allowed m {| mon_thread := t'; mon_watch := watch_link (th_link t') (mon_watch m);
                            busy := busy m || took_input box |}
  | mon_ping r : watchdog_ping (mon_watch m) = Some r → mon_step allowed m (mon_update r false m)
  | mon_pong r :
      watchdog_receive (mon_watch m) = Some r → mon_step allowed m (mon_update r (busy m) m)
  | mon_timeout r :
      watchdog_timeout w (mon_watch m) = Some r → mon_step allowed m (mon_update r (busy m) m).

Lemma round_link box t t' :
  round box t = (Next, t') →
  th_link t' = th_link t ∧ took_input box = false ∨
  (∃ epoch, th_link t' = respond_if_pinged epoch (queued_inputs box) (th_link t)) ∧
  took_input box = true.
Proof.
  intros Hr. pose proof (round_cases to_allocvec journal_enabled session_callback box t) as Hc.
  rewrite Hr in Hc. inversion Hc as [? Hq _ Heq|i out t1 _ Hi Ht Heq].
  - left. split; [done|]. unfold took_input. by destruct (Hq eq_refl) as [_ ->].
  - right. unfold took_input. rewrite Hi. split; [|done].
    unfold conclude_round in Heq. destruct (output_open box); [|done]. injection Heq as <-.
    apply run_transition_frame in Ht as (_ & El & _).
    destruct (prepare_link to_allocvec journal_enabled i box (with_rebuilds box t)) as [epoch Hl].
    exists epoch. cbn. by rewrite El, Hl.
Qed.

(** The channels agree, and a ping that waits is either still queued or, once an
    input has been processed, answered. *)
Record mon_inv (m : Monitored) : Prop := {
  mon_shared : th_link (mon_thread m) = link (mon_watch m);
  mon_waiting : wd_phase (mon_watch m) = AwaitingPong → busy m = false →
                pings (link (mon_watch m)) ≠ 0;
  mon_answered : wd_phase (mon_watch m) = AwaitingPong → busy m = true →
                 pongs (link (mon_watch m)) ≠ []
}.

Lemma respond_pongs epoch n l :
  pings l ≠ 0 ∨ pongs l ≠ [] → pongs (respond_if_pinged epoch n l) ≠ [].
Proof.
  unfold respond_if_pinged. destruct (pings l) as [|p]; [by intros [?|?]|].
  intros _. cbn. destruct (decide _); [by destruct (pongs l)|].
  intros E. rewrite E in *. unfold LINK_CAPACITY in *. cbn in *. lia.
Qed.

Lemma mon_step_inv allowed m m' : mon_inv m → mon_step allowed m m' → mon_inv m'.
Proof.
  intros [Hs Hw Ha] Hstep. destruct Hstep as [box t' _ Hr|r Hr|r Hr|r Hr].
  - apply round_link in Hr as [[Hl Hi]|[[epoch Hl] Hi]]; rewrite Hi, ?orb_false_r, ?orb_true_r.
    + split; cbn; rewrite ?Hl, ?Hs; auto.
    + split; cbn; [done|done|]. intros Hp _. rewrite Hl, Hs. apply respond_pongs.
      destruct (busy m) eqn:Eb; [by right; apply Ha|by left; apply Hw].
  - unfold watchdog_ping in Hr. destruct (wd_phase (mon_watch m)); [|done].
    destruct (decide _); [|done]. injection Hr as <-. by split.
  - unfold watchdog_receive in Hr. destruct (wd_phase (mon_watch m)); [done|].
    destruct (pongs (link (mon_watch m))); [done|]. injection Hr as <-. by split.
  - unfold watchdog_timeout in Hr. destruct (wd_phase (mon_watch m)); [done|].
    destruct (pongs (link (mon_watch m))); [|done]. injection Hr as <-. by split.
Qed.

Lemma monitored_inv t allowed m : rtc (mon_step allowed) (monitored t) m → mon_inv m.
Proof.
  intros H. remember (monitored t) as m0. assert (mon_inv m0) as Hi by (subst; by split).
  clear Heqm0. induction H as [|m1 m2 m3 Hst _ IH]; [done|]. apply IH. by eapply mon_step_inv.
Qed.

(** *** An engine with nothing to do *)

Definition nothing (box : Inbox) : Prop := next_input box = Empty.

Definition blocked (m : Monitored) : Prop :=
  watchdog_ping (mon_watch m) = None ∧ watchdog_receive (mon_watch m) = None ∧
  watchdog_timeout w (mon_watch m) = None.

Record idle_inv (m : Monitored) : Prop := {
  idle_shared : th_link (mon_thread m) = link (mon_watch m);
  idle_pongs : pongs (link (mon_watch m)) = [];
  idle_pings : pings (link (mon_watch m))
    = length (recoveries (mon_watch m))
      + match wd_phase (mon_watch m) with Beating => 0 | AwaitingPong => 1 end;
  idle_bound : pings (link (mon_watch m)) <= LINK_CAPACITY;
  idle_recoveries : Forall (eq (recovery_signal w)) (recoveries (mon_watch m))
}.

Lemma idle_step_inv m m' : idle_inv m → mon_step nothing m m' → idle_inv m'.
Proof.
  intros [Hs Hpo Hpi Hb Hr] Hstep. destruct Hstep as [box t' Hn E|r E|r E|r E].
  - apply round_link in E as [[Hl _]|[_ Ht]].
    + split; cbn; rewrite ?Hl, ?Hs; done.
    + unfold took_input in Ht. by rewrite Hn in Ht.
  - unfold watchdog_ping in E. destruct (wd_phase (mon_watch m)); [|done].
    destruct (decide _); [|done]. injection E as <-. split; cbn; try done; lia.
  - unfold watchdog_receive in E. rewrite Hpo in E. by destruct (wd_phase _).
  - unfold watchdog_timeout in E. rewrite Hpo in E. destruct (wd_phase (mon_watch m)); [done|].
    injection E as <-. split; cbn; try done.
    + rewrite length_app. cbn. lia.
    + apply Forall_app. split; [done|]. by repeat constructor.
Qed.

Lemma idle_run_inv m1 m2 : idle_inv m1 → rtc (mon_step nothing) m1 m2 → idle_inv m2.
Proof. intros Hi H. induction H as [|? ? ? Hst _ IH]; [done|]. apply IH. by eapply idle_step_inv. Qed.

(** Until the ping channel is full, the watchdog can go on, to one more recovery. *)
Lemma idle_progress m :
  idle_inv m → length (recoveries (mon_watch m)) < LINK_CAPACITY →
  ∃ m', rtc (mon_step nothing) m m' ∧
        length (recoveries (mon_watch m')) = S (length (recoveries (mon_watch m))).
Proof.
  intros Hi Hl.
  assert (∀ m, idle_inv m → wd_phase (mon_watch m) = AwaitingPong →
    ∃ m', rtc (mon_step nothing) m m' ∧
      length (recoveries (mon_watch m')) = S (length (recoveries (mon_watch m)))) as Hwait.
  { clear. intros m [_ Hpo _ _ _] Hp. eexists. split.
    - apply rtc_once, mon_timeout. unfold watchdog_timeout. by rewrite Hp, Hpo.
    - cbn. rewrite length_app. cbn. lia. }
  destruct (wd_phase (mon_watch m)) eqn:Hp; [|by apply Hwait].
  pose proof (idle_pings m Hi) as Hpi. rewrite Hp in Hpi.
  assert (∃ r, watchdog_ping (mon_watch m) = Some r ∧ wd_phase r = AwaitingPong ∧
            recoveries r = recoveries (mon_watch m)) as (r & Hr & Hph & Hrec).
  { unfold watchdog_ping. rewrite Hp. rewrite decide_True by lia. by eexists. }
  destruct (Hwait (mon_update r false m)) as (m' & Hrun & Hlen).
  - eapply idle_step_inv; [exact Hi|by apply mon_ping].
  - exact Hph.
  - exists m'. split; [eapply rtc_l; [by apply mon_ping|exact Hrun]|]. rewrite Hlen. cbn. by rewrite Hrec.
Qed.

Lemma idle_full_blocked m :
  idle_inv m → length (recoveries (mon_watch m)) = LINK_CAPACITY → blocked m.
Proof.
  intros [_ Hpo Hpi Hb _] Hl. unfold blocked, watchdog_ping, watchdog_receive, watchdog_timeout.
  rewrite Hpo. destruct (wd_phase (mon_watch m)); [|lia].
  rewrite decide_False by lia. done.
Qed.

Lemma idle_reaches_full m :
  idle_inv m → ∃ m', rtc (mon_step nothing) m m' ∧
                     length (recoveries (mon_watch m')) = LINK_CAPACITY.
Proof.
  intros Hi. remember (LINK_CAPACITY - length (recoveries (mon_watch m))) as n eqn:En.
  revert m Hi En. induction n as [|n IH]; intros m Hi En.
  - exists m. split; [done|]. pose proof (idle_bound m Hi). pose proof (idle_pings m Hi). lia.
  - destruct (idle_progress m Hi) as (m1 & H1 & L1); [lia|].
    destruct (IH m1) as (m2 & H2 & L2); [by eapply idle_run_inv|lia|].
    exists m2. split; [by etrans|done].
Qed.

(** An idle engine is taken for a dead one.  The loop answers a ping only after
    it has taken an input, so while the input channel is empty no pong is ever sent:
    every ping ends in a recovery, and every such run goes on to exactly four
    recoveries, after which the ping channel is full and the watchdog is stuck, for
    as long as no input arrives, however often the engine polls. *)
Theorem idle_engine_declared_dead (t : EngineThread U P C) (m : Monitored)
    (Hrun : rtc (mon_step nothing) (monitored t) m) :
  pongs (link (mon_watch m)) = [] ∧
  length (recoveries (mon_watch m)) <= LINK_CAPACITY ∧
  Forall (eq (recovery_signal w)) (recoveries (mon_watch m)) ∧
  (∃ m', rtc (mon_step nothing) m m' ∧ length (recoveries (mon_watch m')) = LINK_CAPACITY) ∧
  (length (recoveries (mon_watch m)) = LINK_CAPACITY →
   blocked m ∧ ∀ m', rtc (mon_step nothing) m m' → blocked m' ∧
                       recoveries (mon_watch m') = recoveries (mon_watch m)).
Proof.
  assert (idle_inv m) as Hi.
  { eapply idle_run_inv; [|exact Hrun]. split; cbn; try done. unfold LINK_CAPACITY. lia. }
  split; [apply Hi|]. split; [pose proof (idle_pings m Hi); pose proof (idle_bound m Hi); lia|].
  split; [apply Hi|]. split; [by apply idle_reaches_full|]. intros Hl.
  split; [by apply idle_full_blocked|]. intros m' H'. revert Hl. pose proof Hi as Hi2.
  clear Hrun. induction H' as [m|m m2 m3 Hst _ IH]; intros Hl; [by split; [apply idle_full_blocked|]|].
  pose proof (idle_step_inv _ _ Hi2 Hst) as Hi3.
  assert (recoveries (mon_watch m2) = recoveries (mon_watch m)) as E.
  { destruct (idle_full_blocked m Hi2 Hl) as (B1 & B2 & B3). by destruct Hst; cbn in *; congruence. }
  rewrite <- E. apply IH; [exact Hi3|exact Hi3|by rewrite E].
Qed.

(** *** Verdicts *)

(** A round that takes [i] and hands its effects over. *)
Definition box_with (i : EngineInput) : Inbox :=
  {| rebuild_commands := []; shutdown := false; next_input := Received i;
     signal_sources := Sources_new; queued_inputs := 0; output_open := true |}.

Lemma processing_round i (t : EngineThread U P C) :
  ∃ epoch t', round (box_with i) t = (Next, t') ∧
              th_link t' = respond_if_pinged epoch 0 (th_link t).
Proof.
  assert (∃ t', round (box_with i) t = (Next, t')) as [t' Hr].
  { unfold engine_thread_round. cbn.
    destruct (run_transition _ _) as [out t1]. by eexists. }
  destruct (round_link _ _ _ Hr) as [[_ H]|[[epoch Hl] _]]; [done|]. by exists epoch, t'.
Qed.

(** Two recoveries while the engine is busy elsewhere, then two inputs: two pongs
    for the watchdog, which waits for one. *)
Lemma stale_pong_run (i : EngineInput) (t : EngineThread U P C) :
  ∃ m, rtc (mon_step (λ _, True)) (monitored t) m ∧ wd_phase (mon_watch m) = AwaitingPong ∧
       busy m = false ∧ is_Some (watchdog_receive (mon_watch m)).
Proof.
  destruct (processing_round i (with_link {| pings := 2; pongs := [] |} t)) as (e1 & t1 & R1 & L1).
  destruct (processing_round i t1) as (e2 & t2 & R2 & L2). rewrite L1 in L2. cbn in L1, L2.
  eexists. split.
  { eapply rtc_l; [by apply mon_ping|]. eapply rtc_l; [by apply mon_timeout|].
    eapply rtc_l; [by apply mon_ping|].
    eapply rtc_l; [apply (mon_round _ _ (box_with i) t1); [done|exact R1]|]. rewrite L1.
    eapply rtc_l; [apply (mon_round _ _ (box_with i) t2); [done|exact R2]|]. rewrite L2.
    eapply rtc_l; [by apply mon_pong|]. eapply rtc_l; [by apply mon_ping|]. apply rtc_refl. }
  cbn. by eauto.
Qed.

(** What the verdicts of the watchdog are worth.  A time-out is never unfair to a
    working engine: whenever the watchdog can give up on a ping, the engine has
    processed no input since that ping.  The converse fails: pongs are not matched
    to pings, so after missed heartbeats the watchdog can take a stale pong for an
    answer to a ping the engine has not seen. *)
Theorem watchdog_verdicts (t : EngineThread U P C) (i : EngineInput) :
  (∀ allowed m r, rtc (mon_step allowed) (monitored t) m →
     watchdog_timeout w (mon_watch m) = Some r → busy m = false) ∧
  (∃ m, rtc (mon_step (λ _, True)) (monitored t) m ∧ wd_phase (mon_watch m) = AwaitingPong ∧
     busy m = false ∧ is_Some (watchdog_receive (mon_watch m))).
Proof.
  split; [|by apply stale_pong_run]. intros allowed m r Hrun Hr.
  destruct (monitored_inv _ _ _ Hrun) as [_ _ Ha]. unfold watchdog_timeout in Hr.
  destruct (wd_phase (mon_watch m)); [done|].
  destruct (busy m); [|done]. specialize (Ha eq_refl eq_refl).
  by destruct (pongs (link (mon_watch m))).
Qed.
End watchdog.

(** ** The back-off between recoveries *)

Section backoff.
Context (w : EngineWatchdog) (response_u64 : is_u64 (max_response_delay_ms w)).

Definition backoff_cap : N :=
  N.max (max_response_delay_ms w) (N.min (8 * heartbeat_interval_ms w) u64_max).

Lemma backoff_value n :
  compute_backoff w n = N.min (100 * 2 ^ N.min (n - 1) 63) backoff_cap.
Proof using All.
  unfold compute_backoff, saturating_mul, backoff_cap. revert response_u64.
  unfold is_u64. change u64_modulus with (u64_max + 1)%N. lia.
Qed.

(** The pause after the n-th recovery in a row.  It starts at 100 ms, doubles with
    every further recovery, never decreases, and never exceeds the larger of the
    response delay and eight heartbeats; no intermediate product overflows, for any
    configuration and any number of recoveries. *)
Theorem backoff_doubles_to_cap (n : N) :
  compute_backoff w 1 = N.min 100 backoff_cap ∧
  (compute_backoff w n <= backoff_cap)%N ∧
  (compute_backoff w n <= compute_backoff w (n + 1))%N ∧
  ((1 <= n <= 63)%N → compute_backoff w (n + 1) = N.min (2 * compute_backoff w n) backoff_cap).
Proof using All.
  rewrite !backoff_value. split; [done|]. split; [lia|]. split.
  - apply N.min_le_compat_r, N.mul_le_mono_l, N.pow_le_mono_r; lia.
  - intros [H1 H2]. replace (N.min (n + 1 - 1) 63) with (N.succ (n - 1)) by lia.
    replace (N.min (n - 1) 63) with (n - 1)%N by lia. rewrite N.pow_succ_r'. lia.
Qed.
End backoff.

(** ** Witnesses *)

Definition demo_thread : EngineThread concrete_universe unit unit :=
  engine_thread_start (plain_engine plain_governance) plain_session tt.

Definition keep_session (s : Session concrete_universe unit) (c : unit) :
    Session concrete_universe unit * unit := (s, c).

Definition demo_to_vec (i : EngineInput) : result bytes string := Err "unsupported".
Definition demo_from_vec (b : bytes) : result EngineInput string := Err "unsupported".

Lemma demo_loop :
  ∃ t, loop_run demo_to_vec true keep_session demo_thread [EngineInput.UserMessage "hi"] t.
Proof.
  destruct (processing_round demo_to_vec true keep_session (EngineInput.UserMessage "hi") demo_thread)
    as (_ & t & Ht & _).
  exists t. eapply (run_input _ _ _ _ [] (box_with (EngineInput.UserMessage "hi"))); [apply run_start|done|exact Ht].
Qed.

Lemma plain_failover : failover_keeps_automaton plain_governance.
Proof. done. Qed.

Lemma plain_nested : nested_session plain_session.
Proof. split; [reflexivity|cbn; lia]. Qed.

Example engine_loop_invariant_witness :
  ∃ t, loop_run demo_to_vec true keep_session demo_thread [EngineInput.UserMessage "hi"] t ∧
    nested_session (th_session t) ∧ length (th_outputs t) = 1.
Proof.
  destruct demo_loop as [t Ht]. exists t. split; [exact Ht|].
  destruct (engine_loop_invariant demo_to_vec true keep_session (λ s c, eq_refl)
    (plain_engine plain_governance) plain_session tt _ t plain_failover plain_nested Ht) as (H & _ & Hl).
  split; [exact H|exact Hl].
Defined.


Example idle_engine_declared_dead_witness :
  ∃ m, rtc (mon_step demo_to_vec true keep_session EngineWatchdog_default nothing)
         (monitored demo_thread) m ∧
       recoveries (mon_watch m) = replicate 4 (SystemSignal.EngineUnresponsive "NotifyAndDegrade").
Proof.
  destruct (idle_engine_declared_dead demo_to_vec true keep_session EngineWatchdog_default demo_thread
    (monitored demo_thread)) as (_ & _ & _ & (m & Hm & Hl) & _); [apply rtc_refl|].
  exists m. split; [exact Hm|].
  destruct (idle_engine_declared_dead demo_to_vec true keep_session EngineWatchdog_default demo_thread
    m Hm) as (_ & _ & Hr & _).
  apply (list_eq_Forall2 (recoveries (mon_watch m))), Forall2_same_length_lookup_2; [exact Hl|].
  intros i x y Hx Hy. apply lookup_replicate in Hy as [-> _]. symmetry. by eapply Forall_lookup_1 in Hr.
Defined.

Example backoff_doubles_to_cap_witness :
  compute_backoff EngineWatchdog_default 7 = 6400%N ∧
  compute_backoff EngineWatchdog_default 8 = 8000%N.
Proof.
  split; [reflexivity|].
  destruct (backoff_doubles_to_cap EngineWatchdog_default eq_refl 7) as (_ & _ & _ & H).
  change 8%N with (7 + 1)%N. rewrite (H ltac:(lia)). reflexivity.
Defined.
