(* ===== verification/ExecutorSpec.v ===== *)
(** * Correctness of the effect executor

    Tool rounds are always answered, with the generation the kernel waits for;
    network calls are bounded. *)
From S2P Require Import Prelude Utf8 Types Effects Extension Session Plugins Router Engine GovTypes.
From S2P Require Import Trace Hooks Finalize Dispatch Persistence Executor Lifecycle Instances.

(** ** Tools *)

Definition timeouts (calls : list (ActiveToolCall * ToolRun)) : N :=
  foldr (λ cr t, N.max (active_timeout_ms cr.1) t) 0%N calls.

(** What one call may be answered with. *)
Inductive answers (call : ActiveToolCall) (run : ToolRun) : ToolResultDTO → Prop :=
  | answer_timeout :
      (∀ c, cancelled_after run = Some c → active_timeout_ms call <= c)%N →
      (∀ f, finishes_after run = Some f → active_timeout_ms call <= f)%N →
      answers call run (timed_out call)
  | answer_cancelled c :
      cancelled_after run = Some c → (c < active_timeout_ms call)%N →
      (∀ f, finishes_after run = Some f → c <= f)%N →
      answers call run (tool_cancelled call)
  | answer_result f :
      finishes_after run = Some f → (f < active_timeout_ms call)%N →
      (∀ c, cancelled_after run = Some c → f < c)%N →
      answers call run (run_result run).

Lemma run_tool_answers call run :
  answers call run (run_tool call run).1 ∧ ((run_tool call run).2 <= active_timeout_ms call)%N.
Proof.
  unfold run_tool, no_later.
  destruct (cancelled_after run) as [c|] eqn:Ec, (finishes_after run) as [f|] eqn:Ef; cbn;
    repeat match goal with
    | |- context [(?a <=? ?b)%N] => destruct (N.leb_spec a b); cbn
    end;
    (split; [|lia]);
    first
      [ apply answer_timeout; intros ? E; rewrite E in *; simplify_eq; lia
      | eapply answer_cancelled; [eassumption|lia|intros ? E; rewrite E in *; simplify_eq; lia]
      | eapply answer_result; [eassumption|lia|intros ? E; rewrite E in *; simplify_eq; lia] ].
Qed.

Definition no_panic (calls : list (ActiveToolCall * ToolRun)) : Prop :=
  Forall (λ cr : ActiveToolCall * ToolRun, panics cr.2 = None) calls.

Lemma join_tools_ok calls :
  no_panic calls → join_tools calls = Ok ((λ cr : ActiveToolCall * ToolRun, (run_tool cr.1 cr.2).1) <$> calls).
Proof.
  induction 1 as [|[call run] calls Hp _ IH]; [done|]. cbn in *. by rewrite Hp, IH.
Qed.

Lemma join_tools_panic calls :
  ¬ no_panic calls → ∃ join_err,
    join_tools calls = Err (ShellError.EffectExecution ("tool task panicked: " +:+ join_err)).
Proof.
  unfold no_panic. induction calls as [|[call run] calls IH]; intros H; [by destruct H|]. cbn.
  destruct (panics run) as [e|] eqn:E; [by exists e|].
  destruct IH as [e ->]; [|by exists e]. intros Hc. apply H. by constructor.
Qed.

Lemma tools_done_in_time calls : (tools_done_after calls <= timeouts calls)%N.
Proof.
  induction calls as [|[call run] calls IH]; [cbn; lia|]. cbn.
  pose proof (run_tool_answers call run) as [_ H]. apply N.max_le_compat; [exact H|exact IH].
Qed.


(** ** The round trip through the kernel *)

Section round_trip.
Context {U : AnyUniverse} {P : Type} `{!CycleRollbackPolicy U P, !KernelTypes U}.

End round_trip.

(** ** Calls to the model *)

(** A recovery policy that retries exactly [max_attempts] times. *)
Class RetryLaw (R : Type) `{!NetworkRecovery R} :=
  retry_iff (r : R) n e : is_Some (next_retry r n e) ↔ (n < max_attempts r)%N.

#[export] Instance NoRetry_law : RetryLaw NoRetry.
Proof. intros r n e. cbn. rewrite is_Some_alt. lia. Qed.

#[export] Instance ExponentialBackoff_law : RetryLaw ExponentialBackoff.
Proof.
  intros p n e. cbn. destruct (N.leb_spec (backoff_max_attempts p) n); rewrite is_Some_alt; lia.
Qed.

Section call_llm.
Context {R : Type} `{!NetworkRecovery R, !RetryLaw R}.
Context (llm : N → result unit ShellError) (to_string : ShellError → string).

Definition retries (recovery : option R) : N :=
  match recovery with Some r => max_attempts r | None => 0 end.

(** The answer of the loop, from attempt [n] on. *)
Inductive call_outcome (recovery : option R) (n : N) : LlmCall * N → Prop :=
  | call_answered k :
      (k <= retries recovery - n)%N → is_ok (llm (n + k)) = true →
      (∀ j, (j < k)%N → is_ok (llm (n + j)) = false) → call_outcome recovery n (Answered, (k + 1)%N)
  | call_exhausted e :
      (∀ j, (j <= retries recovery - n)%N → is_ok (llm (n + j)) = false) →
      llm (n + (retries recovery - n))%N = Err e →
      call_outcome recovery n (NetworkUnavailable (to_string e), (retries recovery - n + 1)%N).

Lemma call_outcome_next recovery n e out calls :
  llm n = Err e → (n < retries recovery)%N → call_outcome recovery (n + 1) (out, calls) →
  call_outcome recovery n (out, (calls + 1)%N).
Proof using Type.
  intros He Hn H.
  assert (∀ j, (0 < j)%N → llm (n + j)%N = llm (n + 1 + (j - 1))%N) as Hshift by (intros; f_equal; lia).
  inversion H as [k Hk Hok Hbad|e' Hbad He']; subst.
  - apply (call_answered _ _ (k + 1)); [lia| |].
    + rewrite Hshift by lia. by replace (k + 1 - 1)%N with k by lia.
    + intros j Hj. destruct (N.eq_dec j 0%N) as [->|]; [by rewrite N.add_0_r, He|].
      rewrite Hshift by lia. apply Hbad. lia.
  - replace (retries recovery - (n + 1) + 1 + 1)%N with (retries recovery - n + 1)%N by lia.
    apply call_exhausted.
    + intros j Hj. destruct (N.eq_dec j 0%N) as [->|]; [by rewrite N.add_0_r, He|].
      rewrite Hshift by lia. apply Hbad. lia.
    + rewrite Hshift by lia. by replace (retries recovery - n - 1)%N with (retries recovery - (n + 1))%N by lia.
Qed.

Lemma call_llm_loop_spec recovery fuel n :
  (retries recovery - n < N.of_nat fuel)%N →
  ∃ out calls slept, call_llm_loop recovery llm to_string fuel n = Some (out, calls, slept) ∧
    call_outcome recovery n (out, calls).
Proof using All.
  revert n. induction fuel as [|fuel IH]; intros n Hf; [lia|]. cbn [call_llm_loop].
  assert (∀ e, llm n = Err e → (retries recovery <= n)%N →
    call_outcome recovery n (NetworkUnavailable (to_string e), 1%N)) as Hend.
  { intros e He Hn. replace 1%N with (retries recovery - n + 1)%N by lia.
    assert (∀ j, (j <= retries recovery - n)%N → (n + j = n)%N) as Hj by lia.
    apply call_exhausted; [intros j H; by rewrite Hj, He|by rewrite Hj]. }
  destruct (llm n) as [[]|e] eqn:El.
  - do 3 eexists. split; [done|]. apply (call_answered _ _ 0); [lia|by rewrite N.add_0_r, El|lia].
  - destruct recovery as [r|]; [|do 3 eexists; split; [done|apply Hend; [done|cbn; lia]]].
    pose proof (retry_iff r n (to_string e)) as Hr.
    destruct (next_retry r n (to_string e)) as [delay|].
    + assert (n < max_attempts r)%N as Hm by (apply Hr; by eexists).
      destruct (IH (n + 1)%N) as (out & calls & slept & -> & Ho); [cbn [retries] in *; lia|].
      do 3 eexists. split; [done|]. eapply call_outcome_next; [done|cbn; lia|exact Ho].
    + do 3 eexists. split; [done|]. apply Hend; [done|]. cbn.
      destruct (N.le_gt_cases (max_attempts r) n) as [|Hlt]; [done|]. by apply Hr in Hlt as [].
Qed.

(** A call to the model always ends.  With any policy that retries a bounded
    number of times, the client is called at most once more than that; the effect
    ends with the first attempt that succeeds, and reports the network unavailable,
    with the text of the last error, exactly when every attempt failed.  No policy
    means one attempt. *)
Theorem call_llm_terminates (recovery : option R) (fuel : nat)
    (Hfuel : (retries recovery < N.of_nat fuel)%N) :
  ∃ out calls slept, call_llm recovery llm to_string fuel = Some (out, calls, slept) ∧
    (1 <= calls <= retries recovery + 1)%N ∧
    (∀ j, (j + 1 < calls)%N → is_ok (llm j) = false) ∧
    (out = Answered ∧ is_ok (llm (calls - 1)) = true ∨
     ∃ e, llm (calls - 1)%N = Err e ∧ out = NetworkUnavailable (to_string e) ∧
          calls = (retries recovery + 1)%N).
Proof using All.
  destruct (call_llm_loop_spec recovery fuel 0) as (out & calls & slept & Hr & Ho); [lia|].
  exists out, calls, slept. split; [exact Hr|].
  inversion Ho as [k Hk Hok Hbad|e Hbad He]; subst.
  - split; [lia|]. split; [intros j Hj; apply (Hbad j); lia|]. left. split; [done|].
    by replace (k + 1 - 1)%N with (0 + k)%N by lia.
  - split; [lia|]. split; [intros j Hj; apply (Hbad j); lia|]. right. exists e.
    split; [|split; [done|lia]]. rewrite <- He. f_equal. lia.
Qed.
End call_llm.

(** ** Witnesses *)

Definition demo_call : ActiveToolCall :=
  {| active_tool_id := "t1"; active_tool_name := "read"; active_arguments := "{}";
     active_timeout_ms := 100 |}.

Definition demo_run (f : N) : ToolRun :=
  {| finishes_after := Some f;
     run_result := {| result_tool_id := "t1"; result_tool_name := "read";
                      outcome := ToolOutcome.Success "done" |};
     cancelled_after := None; panics := None |}.


Definition demo_executing : Kernel concrete_universe unit :=
  {| engine := plain_engine plain_governance;
     session := set_state (AgentState.ExecutingTools 1) [AgentState.Idle; AgentState.Predicting 1]
                  plain_session;
     effects := [] |}.


Definition demo_recovery : ExponentialBackoff :=
  {| backoff_max_attempts := 3; delay_ms := λ n, (500 * 2 ^ n)%N |}.

Definition demo_llm (n : N) : result unit ShellError :=
  if (n <? 2)%N then Err ShellError.ChannelSend else Ok tt.

Example call_llm_terminates_witness :
  ∃ calls slept, call_llm (Some demo_recovery) demo_llm ShellError_to_string 4
    = Some (Answered, calls, slept) ∧ (calls <= 4)%N.
Proof.
  assert (retries (Some demo_recovery) < N.of_nat 4)%N as Hf by reflexivity.
  destruct (call_llm_terminates demo_llm ShellError_to_string (Some demo_recovery) 4 Hf)
    as (out & calls & slept & H & Hc & _).
  vm_compute in H. injection H as <- <- <-. do 2 eexists. split; [vm_compute; reflexivity|apply Hc].
Defined.
