(* ===== verification/StdSpec.v ===== *)
(** * Correctness of the standard plugins *)
From S2P Require Import Prelude Utf8 Types Effects Extension Session Plugins Router Engine GovTypes.
From S2P Require Import Trace Hooks Guards Aggregators Tools StdPlugins Persistence Executor.
From S2P Require Import Instances.

Section std.
Context {U : AnyUniverse} {P : Type} `{!CycleRollbackPolicy U P, !KernelTypes U,
  !GovernanceTypes U, !StdTypes U}.

Lemma on_state_fst {T A} `{!BriocheExtensionType T} (f : T → A * T) (e : ExtensionStorage U P) :
  ext_wf e → ∃ st, (on_state f e).1 = (f st).1 ∧ get_ext T (on_state f e).2 = Some (f st).2.
Proof.
  intros H. destruct (get_or_insert_default_spec T e H) as (st & E & Hg). exists st.
  unfold on_state. rewrite E. destruct (f st) as [a st']. split; [done|]. by eapply get_ext_write.
Qed.

Lemma on_state_hit {T A} `{!BriocheExtensionType T} (f : T → A * T) (e : ExtensionStorage U P) st :
  ext_wf e → get_ext T e = Some st →
  (on_state f e).1 = (f st).1 ∧ get_ext T (on_state f e).2 = Some (f st).2.
Proof.
  intros H Hg. unfold on_state. rewrite (get_or_insert_hit T e st H Hg).
  destruct (f st) as [a st']. split; [done|]. eapply get_ext_write. by apply get_ext_borrow.
Qed.

(** ** The circuit breaker *)

Lemma count_leading_run s l :
  ∃ rest, l = replicate (N.to_nat (count_leading s l)) s ++ rest ∧ head rest ≠ Some s.
Proof.
  induction l as [|x l (rest & IH & Hr)]; cbn; [by exists []|].
  destruct (decide (x = s)) as [->|Hx]; [|exists (x :: l); split; [done|cbn; congruence]].
  exists rest. split; [|done].
  replace (N.to_nat (1 + count_leading s l)) with (S (N.to_nat (count_leading s l))) by lia.
  cbn. by rewrite <- IH.
Qed.

(** The length of the longest prefix of equal elements. *)
Lemma count_leading_ge s l n :
  (n <= count_leading s l)%N ↔ ∃ rest, l = replicate (N.to_nat n) s ++ rest.
Proof.
  split.
  - intros Hn. destruct (count_leading_run s l) as (rest & E & _).
    exists (replicate (N.to_nat (count_leading s l - n)) s ++ rest).
    rewrite app_assoc, <- replicate_add. rewrite E at 1. do 2 f_equal. lia.
  - intros (rest & ->). rewrite <- (N2Nat.id n) at 1. generalize (N.to_nat n). intros m.
    induction m as [|m IH]; cbn [replicate app count_leading]; [lia|]. rewrite decide_True by done. lia.
Qed.

Lemma rev_replicate {A} n (s : A) : rev (replicate n s) = replicate n s.
Proof. rewrite rev_alt. apply reverse_replicate. Qed.

Lemma rev_suffix {A} (l l' : list A) n s :
  rev l = replicate n s ++ l' ↔ l = rev l' ++ replicate n s.
Proof.
  split.
  - intros E. apply (f_equal (@rev A)) in E. rewrite rev_involutive, rev_app_distr in E.
    rewrite E. f_equal. apply rev_replicate.
  - intros ->. rewrite rev_app_distr, rev_involutive. f_equal. apply rev_replicate.
Qed.


Lemma breaker_blocks limit history st :
  is_block (breaker_step limit history st).1 = true ↔
  ∃ pre s, signatures history = pre ++ replicate (S (N.to_nat limit)) s.
Proof.
  unfold breaker_step. destruct (rev (signatures history)) as [|last earlier] eqn:E.
  - split; [done|]. intros (pre & s & Hs). rewrite Hs, rev_app_distr in E.
    by apply (f_equal (@length string)) in E; rewrite length_app, length_rev, length_replicate in E.
  - assert (∀ s, (∃ pre, signatures history = pre ++ replicate (S (N.to_nat limit)) s) ↔
      s = last ∧ (limit <= count_leading last earlier)%N) as Hiff.
    { intros s. rewrite count_leading_ge. split.
      - intros (pre & Hs). rewrite <- (rev_involutive pre) in Hs. apply rev_suffix in Hs.
        rewrite E in Hs. injection Hs as -> ->. split; [done|by eexists].
      - intros (-> & rest & ->). exists (rev rest). by apply rev_suffix. }
    destruct (N.ltb_spec limit (1 + count_leading last earlier)) as [Hl|Hl]; cbn.
    + split; [|done]. intros _.
      destruct (proj2 (Hiff last)) as [pre Hp]; [split; [done|lia]|]. by exists pre, last.
    + split; [done|]. intros (pre & s & Hs). destruct (proj1 (Hiff s)) as [_ ?]; [by exists pre|lia].
Qed.

Definition requests (history : list ChatMessage) : list (string * string) :=
  omap (λ m, match m with
             | ChatMessage.ToolRequest _ name arguments => Some (name, arguments)
             | _ => None
             end) history.

Lemma signatures_requests h : signatures h = (λ r, signature r.1 r.2) <$> requests h.
Proof.
  unfold signatures, requests. induction h as [|m h IH]; [done|].
  destruct m; cbn; try exact IH. by rewrite IH.
Qed.

Fixpoint colon_free (s : string) : Prop :=
  match s with
  | EmptyString => True
  | String c s' => c ≠ ":"%char ∧ colon_free s'
  end.

Lemma signature_inj n a n' a' :
  colon_free n → colon_free n' → signature n a = signature n' a' → (n, a) = (n', a').
Proof.
  unfold signature. revert n'. induction n as [|c n IH]; intros [|c' n']; cbn.
  - intros _ _ E. change (String ":" a = String ":" a') in E. by injection E as ->.
  - intros _ [H _] E. change (String ":" a = String c' (n' +:+ ":" +:+ a')) in E. 
    injection E as E _. by destruct H.
  - intros [H _] _ E. change (String c (n +:+ ":" +:+ a) = String ":" a') in E.
    injection E as E _. by destruct H.
  - intros [_ H] [_ H'] E.
    change (String c (n +:+ ":" +:+ a) = String c' (n' +:+ ":" +:+ a')) in E.
    injection E as -> E. by injection (IH _ H H' E) as -> ->.
Qed.

Lemma same_requests rs pre n s :
  Forall (λ r : string * string, colon_free r.1) rs →
  (λ r, signature r.1 r.2) <$> rs = pre ++ replicate (S n) s →
  ∃ pre' r, rs = pre' ++ replicate (S n) r.
Proof.
  intros Hf E. apply fmap_app_inv in E as (pre' & l & _ & El & ->).
  apply Forall_app in Hf as [_ Hf]. exists pre'. destruct l as [|r l]; [done|].
  exists r. f_equal. injection El as Es El. apply Forall_cons in Hf as [Hr Hf].
  replace (replicate (S n) r) with (r :: replicate n r) by done. f_equal.
  revert n El. induction l as [|x l IH]; intros [|n] El; try done.
  injection El as Ex El. apply Forall_cons in Hf as [Hx Hf]. cbn. f_equal; [|by apply IH].
  destruct x as [n1 a1], r as [n2 a2]. apply signature_inj; [done..|]. cbn in *; congruence.
Qed.

(** The circuit breaker blocks a prediction exactly when the last
    [limit + 1] tool requests of the history have the same signature, wherever they
    stand among the other messages.  When no tool name holds a colon, this is exactly
    when they name the same tool with the same arguments. *)
Theorem circuit_breaker_blocks (limit : N) (h : list ChatMessage) (e : ExtensionStorage U P)
    (He : ext_wf e) :
  ∃ d, (hook (CircuitBreaker limit) h e).1 = Ok d ∧
    (is_block d = true ↔ ∃ pre s, signatures h = pre ++ replicate (S (N.to_nat limit)) s) ∧
    (Forall (λ r : string * string, colon_free r.1) (requests h) →
     (is_block d = true ↔ ∃ pre r, requests h = pre ++ replicate (S (N.to_nat limit)) r)).
Proof.
  cbn [hook CircuitBreaker].
  edestruct (on_state_fst (λ st, let '(d, st) := breaker_step limit h st in
    (Ok d : PluginResult PolicyDecision, st)) e He) as (st & E & _).
  pose proof (breaker_blocks limit h st) as Hb.
  destruct (breaker_step limit h st) as [d st'] eqn:Ed. cbn in E, Hb. exists d.
  split; [exact E|]. split; [exact Hb|]. intros Hf. rewrite Hb, signatures_requests. split.
  - intros (pre & s & Hs). by eapply same_requests.
  - intros (pre & r & ->). exists ((λ r, signature r.1 r.2) <$> pre), (signature r.1 r.2).
    by rewrite fmap_app, fmap_replicate.
Qed.

(** ** The audit log *)

Lemma borrow_no_policy T `{!BriocheExtensionType T} (e : ExtensionStorage U P) :
  rollback_policy e = None → rollback_policy (borrow_ext T e) = None.
Proof.
  intros H. assert (rollback_policy (ensure_registered T e) = None) as H'
    by (unfold ensure_registered; by case_match).
  unfold borrow_ext. set (e0 := match _ with Some _ => _ | None => _ end).
  assert (rollback_policy e0 = None) as H0 by (unfold e0; by case_match).
  unfold notify_cow_on_first_mutation. by rewrite H0.
Qed.

Lemma on_state_frame {T A} `{!BriocheExtensionType T} (f : T → A * T) (e : ExtensionStorage U P) :
  ext_wf e →
  ext_wf (on_state f e).2 ∧
  (rollback_policy e = None → rollback_policy (on_state f e).2 = None) ∧
  ∀ T' (HT : BriocheExtensionType T'), TypeId_of T' ≠ TypeId_of T →
    get_ext T' (on_state f e).2 = get_ext T' e.
Proof.
  intros He. unfold on_state. destruct (get_or_insert_default_spec T e He) as (st & -> & _).
  destruct (f st) as [a st']. cbn [snd]. split; [|split].
  - by apply ext_wf_write, ext_wf_borrow.
  - intros Hp. apply (borrow_no_policy T) in Hp. unfold write_ext. by case_match.
  - intros T' ? Hne. unfold get_ext, write_ext. case_match; cbn; rewrite ?lookup_insert_ne by done;
      by rewrite hot_map_borrow_ne.
Qed.

Lemma borrow_frame T T' `{!BriocheExtensionType T, !BriocheExtensionType T'} (e : ExtensionStorage U P) :
  TypeId_of T' ≠ TypeId_of T → get_ext T' (borrow_ext T e) = get_ext T' e.
Proof. intros H. unfold get_ext. by rewrite hot_map_borrow_ne. Qed.

Lemma audit_not_epoch : TypeId_of AuditLoggerState ≠ TypeId_of EpochState.
Proof.
  pose proof st_distinct as H. rewrite NoDup_cons in H. destruct H as [_ H].
  rewrite NoDup_cons in H. destruct H as [H _]. intros E. apply H. rewrite <- E. do 2 right. left.
Qed.

Section audit.
Context (to_json : EngineInput → result string string).
Context (to_allocvec : list AuditEntry → result bytes string).
#[local] Abbreviation AuditLogger := (AuditLogger to_json to_allocvec).

Lemma audit_hook size input (e : ExtensionStorage U P) ep st :
  ext_wf e → get_ext EpochState e = Some ep → get_ext AuditLoggerState e = Some st →
  let r := hook (AuditLogger size) input e in
  let s := audit_step to_json to_allocvec size (current_generation ep) input st in
  r.1 = Ok s.1 ∧ get_ext AuditLoggerState r.2 = Some s.2 ∧
  ext_wf r.2 ∧ get_ext EpochState r.2 = Some ep ∧
  (rollback_policy e = None → rollback_policy r.2 = None).
Proof.
  intros He Hep Hst. cbn [hook StdPlugins.AuditLogger]. cbn zeta.
  rewrite (get_or_insert_hit _ _ _ He Hep).
  pose proof (ext_wf_borrow EpochState e He) as He'.
  assert (get_ext AuditLoggerState (borrow_ext EpochState e) = Some st) as Hst'
    by (rewrite borrow_frame by apply audit_not_epoch; done).
  set (f := λ st, let '(d, st) := audit_step to_json to_allocvec size (current_generation ep) input st in
    (Ok d : PluginResult PolicyDecision, st)).
  destruct (on_state_hit f _ st He' Hst') as [E1 E2].
  destruct (on_state_frame f _ He') as (Hw & Hp & Hg).
  assert (f st = (Ok (audit_step to_json to_allocvec size (current_generation ep) input st).1,
    (audit_step to_json to_allocvec size (current_generation ep) input st).2)) as Ef
    by (unfold f; by destruct (audit_step _ _ _ _ _ _)).
  rewrite Ef in E1, E2. split; [exact E1|]. split; [exact E2|]. split; [exact Hw|]. split.
  - rewrite Hg by (symmetry; apply audit_not_epoch). by apply get_ext_borrow.
  - intros H. by apply Hp, borrow_no_policy.
Qed.

(** The blobs written while the plugin sees a sequence of inputs. *)
Definition blob_of (d : PluginResult PolicyDecision) : option bytes :=
  match d with
  | Ok (PolicyDecision.RequestEffect (Effect.SavePluginBlob _ b)) => Some b
  | _ => None
  end.

Fixpoint audit_run (size : N) (inputs : list EngineInput) (e : ExtensionStorage U P) :
    list bytes * ExtensionStorage U P :=
  match inputs with
  | [] => ([], e)
  | input :: rest =>
      let '(d, e) := hook (AuditLogger size) input e in
      let '(bs, e) := audit_run size rest e in
      (match blob_of d with Some b => b :: bs | None => bs end, e)
  end.

(** The log the plugin documents. *)
Fixpoint audit_entries (seq epoch : N) (inputs : list EngineInput) : list AuditEntry :=
  match inputs with
  | [] => []
  | input :: rest =>
      {| sequence := seq; input_json := audit_json to_json input; audit_epoch := epoch |}
        :: audit_entries (wrapping_add seq 1) epoch rest
  end.

Context (from_bytes : bytes → option (list AuditEntry)).
Context (codec : ∀ es b, to_allocvec es = Ok b → from_bytes b = Some es).
Context (encodes : ∀ es, is_ok (to_allocvec es) = true).

Definition decoded (bs : list bytes) : list AuditEntry := concat (omap from_bytes bs).

(** The audit log is complete and in order.  Over any sequence of inputs the plugin
    sees, the batches it asks to be saved, decoded and put end to end, followed by the
    entries still pending, are the entries that were pending before followed by one
    entry per input, numbered in sequence and stamped with the epoch; with a positive
    batch size fewer entries than a batch are ever pending. *)
Theorem audit_log_complete (size : N) (inputs : list EngineInput) (e : ExtensionStorage U P) ep st
    (He : ext_wf e) (Hep : get_ext EpochState e = Some ep)
    (Hst : get_ext AuditLoggerState e = Some st) :
  let '(bs, e') := audit_run size inputs e in
  ∃ st', get_ext AuditLoggerState e' = Some st' ∧
    decoded bs ++ audit_pending st'
      = audit_pending st ++ audit_entries (next_sequence st) (current_generation ep) inputs ∧
    ((N.of_nat (length (audit_pending st)) < size)%N →
     (N.of_nat (length (audit_pending st')) < size)%N).
Proof using All.
  revert e st He Hep Hst. induction inputs as [|input inputs IH]; intros e st He Hep Hst; cbn.
  { exists st. split; [done|]. cbn. rewrite app_nil_r. by split. }
  pose proof (audit_hook size input e ep st He Hep Hst) as H. cbn zeta in H.
  cbn [hook StdPlugins.AuditLogger] in H.
  set (r := let '(es, ext) := get_or_insert_default EpochState e in _ ext) in *.
  destruct r as [d e1]. destruct H as (Hd & Hst1 & He1 & Hep1 & _). cbn [fst snd] in *.
  specialize (IH e1 _ He1 Hep1 Hst1). destruct (audit_run size inputs e1) as [bs e2].
  destruct IH as (st' & Hg & Hlog & Hlen). exists st'. split; [done|].
  set (entries := audit_pending st ++ [{| sequence := next_sequence st;
    input_json := audit_json to_json input; audit_epoch := current_generation ep |}]) in *.
  assert (entries ++ audit_entries (wrapping_add (next_sequence st) 1) (current_generation ep) inputs
    = audit_pending st ++ audit_entries (next_sequence st) (current_generation ep) (input :: inputs))
    as Hent by (unfold entries; by rewrite <- app_assoc).
  subst d. revert Hlog Hlen. unfold audit_step. fold entries.
  destruct (N.leb_spec size (N.of_nat (length entries))) as [Hs|Hs]; cbn.
  - pose proof (encodes entries) as Hok. destruct (to_allocvec entries) as [b|] eqn:Eb; [|done].
    unfold decoded. cbn. rewrite (codec _ _ Eb). cbn. intros Hlog Hlen.
    split; [|intros; apply Hlen; lia]. rewrite <- app_assoc. unfold decoded in Hlog. rewrite Hlog. exact Hent.
  - intros Hlog Hlen. unfold decoded in Hlog.
    split; [rewrite Hlog; exact Hent|]. intros _. by apply Hlen.
Qed.

(** *** Inside the kernel *)

Lemma with_rollback_no_policy {W R} hname (m : State (ExtensionStorage U P) R) (c : HookCtx U P W) :
  hc_policy c = None → rollback_policy (m (extensions (hc_session c))).2 = None →
  ∃ e, with_rollback hname (run_ext m) c =
    ((m (extensions (hc_session c))).1,
     {| hc_policy := None; hc_session := set_extensions e (hc_session c); hc_data := hc_data c |}) ∧
    rollback_policy e = None ∧
    ∀ T (HT : BriocheExtensionType T), get_ext T e = get_ext T (m (extensions (hc_session c))).2.
Proof.
  intros Hp Hm. unfold with_rollback, run_ext. rewrite Hp. cbn. unfold on_ext.
  destruct (m (extensions (hc_session c))) as [r e]. cbn in *. rewrite Hm.
  by exists (set_cow None ∅ e).
Qed.

(** A batch can be lost between the plugin and the shell.  When the audit logger runs
    first and a later plugin of the input route blocks the input that completes a
    batch, the kernel drops every effect requested on that route: the transition
    carries no [SavePluginBlob], while the pending entries are already cleared. *)
Theorem blocked_flush_loses_batch (size : N) (input : EngineInput) (k : Kernel U P)
    (blocker : OnInputPlugin U P) ep st reason
    (Hplugins : on_input_plugins (router (engine k)) = [AuditLogger size; blocker])
    (Hroute : route_on_input (routing_table (router (engine k))) = [0; 1])
    (Hblock : ∀ e, hook blocker input e = (Ok (PolicyDecision.Block reason), e))
    (Hpolicy : cycle_rollback_policy (governance (engine k)) = None)
    (Hext : rollback_policy (extensions (session k)) = None)
    (He : ext_wf (extensions (session k)))
    (Hep : get_ext EpochState (extensions (session k)) = Some ep)
    (Hst : get_ext AuditLoggerState (extensions (session k)) = Some st)
    (Hfull : (size <= N.of_nat (length (audit_pending st)) + 1)%N) :
  let r := eval_on_input input k in
  r.1 = InputResult.Block (ErrorDetail.HookConstraintFailed reason) ∧
  effects r.2 = effects k ∧
  ∃ st', get_ext AuditLoggerState (extensions (session r.2)) = Some st' ∧
    audit_pending st' = [] ∧ total_logged st' = wrapping_add (total_logged st) 1.
Proof using Type.
  pose proof (audit_hook size input _ ep st He Hep Hst) as (Hd & Hst1 & He1 & Hep1 & Hp1).
  specialize (Hp1 Hext). unfold audit_step in Hd, Hst1.
  rewrite (proj2 (N.leb_le _ _)) in Hd, Hst1 by (rewrite length_app; cbn; lia).
  cbn [fst snd] in Hd, Hst1.
  set (c := {| hc_policy := None; hc_session := session k;
    hc_data := {| accumulated := []; override_transition := None; faults := [] |} |}).
  assert (∃ e2 w, on_input_loop [AuditLogger size; blocker] input [0; 1] c =
    (Some (ErrorDetail.HookConstraintFailed reason),
     {| hc_policy := None; hc_session := set_extensions e2 (session k); hc_data := w |}) ∧
    get_ext AuditLoggerState e2 =
      get_ext AuditLoggerState (hook (AuditLogger size) input (extensions (session k))).2)
    as (e2 & w & Hloop & Hg).
  { destruct (with_rollback_no_policy "on_input" (hook (AuditLogger size) input) c eq_refl Hp1)
      as (e1 & E1 & N1 & G1).
    cbn [on_input_loop lookup list_lookup]. rewrite bind_pair, E1. cbn [fst snd].
    cbn [hc_session c] in *. rewrite Hd. rewrite bind_pair. cbn [on_input_decision].
    rewrite bind_pair. cbn [on_data modify ret fst snd hc_policy hc_session hc_data].
    set (c1 := {| hc_policy := None; hc_session := set_extensions e1 (session k); hc_data := _ |}).
    destruct (with_rollback_no_policy "on_input" (hook blocker input) c1 eq_refl)
      as (e2 & E2 & _ & G2); [by rewrite Hblock|].
    rewrite bind_pair, E2. cbn [fst snd]. rewrite Hblock in *. cbn [fst snd].
    rewrite bind_pair. cbn [on_input_decision ret fst snd]. exists e2. eexists. split; [reflexivity|].
    rewrite (G2 AuditLoggerState), <- (G1 AuditLoggerState). done. }
  cbn zeta. unfold eval_on_input. rewrite bind_pair. cbn [gets fst snd]. rewrite bind_pair.
  unfold run_hooks. rewrite Hplugins, Hroute, Hpolicy. fold c. rewrite Hloop. cbn.
  split; [done|]. split; [done|]. rewrite Hg, Hst1. by eexists.
Qed.
End audit.

(** ** Summaries *)

Lemma summary_applies (s : Session U P) summary wm :
  apply_history_edits (summary_edits (N.of_nat (length (history s))) summary wm) s
  = (Ok tt, set_history (λ _, summary :: drop (N.to_nat wm) (history s)) s).
Proof.
  apply apply_history_edits_ok. unfold edits_fold, summary_edits.
  cbn [foldl apply_edit result_bind]. rewrite decide_False by lia.
  change (N.to_nat 0) with 0. rewrite take_0, drop_0. cbn [app]. do 2 f_equal.
  destruct (decide (N.to_nat wm <= length (history s))); [f_equal; lia|].
  by rewrite !drop_ge by lia.
Qed.

(** A finished summary replaces the prefix it summarises.  Applying the optimizer's
    edits always succeeds and leaves the summary followed by the history without its
    first [watermark] messages.  When the shell summarises a mirror of the history,
    this is the summary and the last two messages, and nothing is lost; when the
    mirror holds one more message in front (the system prompt the shell builder puts
    there), the message before the last is neither summarised nor kept. *)
Theorem summary_replaces_prefix (s : Session U P) (summarize : list ChatMessage → result ChatMessage ShellError)
    (summary : ChatMessage) (extra : list ChatMessage)
    (Hshort : (N.of_nat (length (extra ++ history s)) < 4294967296)%N)
    (Hlong : KEEP_RECENT < length (extra ++ history s))
    (Hsum : summarize (messages_to_summarize (Some (extra ++ history s))) = Ok summary) :
  ∃ wm, trigger_summarization (Some (extra ++ history s)) summarize
          = Ok (Some (AsyncTaskResult.SummarizationDone summary wm)) ∧
    let r := apply_history_edits (summary_edits (N.of_nat (length (history s))) summary wm) s in
    r.1 = Ok tt ∧ history r.2 = summary :: drop (N.to_nat wm) (history s) ∧
    (extra = [] →
     messages_to_summarize (Some (extra ++ history s)) ++ drop (N.to_nat wm) (history s) = history s ∧
     length (drop (N.to_nat wm) (history s)) = KEEP_RECENT) ∧
    (∀ p, extra = [p] → ∃ lost,
       p :: history s = messages_to_summarize (Some (extra ++ history s)) ++
                        lost :: drop (N.to_nat wm) (history s)).
Proof using Type.
  set (mirror := extra ++ history s) in *.
  assert (messages_to_summarize (Some mirror) = take (length mirror - KEEP_RECENT) mirror) as Hm
    by (cbn; by rewrite decide_True).
  assert (length (messages_to_summarize (Some mirror)) = length mirror - KEEP_RECENT) as Hl
    by (rewrite Hm, length_take; lia).
  exists (N.of_nat (length mirror - KEEP_RECENT)). split.
  { unfold trigger_summarization. destruct (messages_to_summarize (Some mirror)) as [|m ms] eqn:E.
    - cbn in Hl. lia.
    - rewrite Hsum, Hl. cbn. do 3 f_equal. apply N.mod_small. lia. }
  cbn zeta. rewrite summary_applies, Nat2N.id. cbn [fst snd].
  split; [done|]. split; [done|]. rewrite Hm. unfold mirror, KEEP_RECENT in *. split.
  - intros ->. cbn [app] in *. split; [apply take_drop|]. rewrite length_drop. lia.
  - intros p ->. cbn [app length] in *.
    destruct (lookup_lt_is_Some_2 (p :: history s) (S (length (history s)) - 2)) as [lost Hlost];
      [cbn; lia|].
    exists lost. symmetry. exact (take_drop_middle _ _ _ Hlost).
Qed.

(** ** Garbage collection *)

(** Prediction cycles: [before_prediction] with the idle flag of the snapshot, then
    [after_prediction]; counts the requests. *)
Fixpoint gc_cycles (policy : GcPolicy) (idles : list bool) (st : GcPolicyState) : N * GcPolicyState :=
  match idles with
  | [] => (0%N, st)
  | idle :: rest =>
      let '(d, st) := gc_decide policy idle st in
      let '(n, st) := gc_cycles policy rest (gc_count st) in
      (match d with PolicyDecision.RequestEffect _ => n + 1 | _ => n end, st)%N
  end.

(** Collections are spaced by the interval.  Over any run of prediction cycles, the
    number of requested collections times the interval never exceeds the cycles
    counted; when every prediction starts from [Idle], the requests come exactly
    once per interval and the counter never exceeds it. *)
Theorem gc_rate (policy : GcPolicy) (idles : list bool) (st : GcPolicyState)
    (Hbound : (cycles_since_gc st + N.of_nat (length idles) < u64_modulus)%N) :
  let '(n, st') := gc_cycles policy idles st in
  (cycle_interval policy * n + cycles_since_gc st' <= cycles_since_gc st + N.of_nat (length idles))%N ∧
  (Forall (eq true) idles → (cycles_since_gc st <= cycle_interval policy)%N →
   (0 < cycle_interval policy)%N →
   (cycle_interval policy * n + cycles_since_gc st' = cycles_since_gc st + N.of_nat (length idles))%N ∧
   (cycles_since_gc st' <= cycle_interval policy)%N).
Proof using Type.
  revert st Hbound. induction idles as [|idle idles IH]; intros st Hb; cbn [gc_cycles length] in *.
  { split; [lia|]. intros _ H _. split; [lia|done]. }
  unfold gc_decide. destruct (N.leb_spec (cycle_interval policy) (cycles_since_gc st)) as [Hi|Hi];
    [destruct (negb (only_when_idle policy) || idle) eqn:Eb|]; cbn [andb].
  - assert (cycles_since_gc (gc_count {| cycles_since_gc := 0;
      gcs_triggered := wrapping_add (gcs_triggered st) 1 |}) = 1%N) as E by done.
    specialize (IH (gc_count {| cycles_since_gc := 0;
      gcs_triggered := wrapping_add (gcs_triggered st) 1 |})). rewrite E in IH.
    destruct (gc_cycles _ _ _) as [n st']. destruct IH as [IH1 IH2]; [lia|]. split; [lia|].
    intros Hf Hle Hpos. apply Forall_cons in Hf as [_ Hf].
    destruct IH2 as [IH2 IH3]; [done|lia|done|]. split; [lia|done].
  - assert (cycles_since_gc (gc_count st) = cycles_since_gc st + 1)%N as E
      by (cbn; apply wrapping_add_small; lia).
    specialize (IH (gc_count st)). rewrite E in IH. destruct (gc_cycles _ _ _) as [n st'].
    destruct IH as [IH1 IH2]; [lia|]. split; [lia|]. intros Hf. apply Forall_cons in Hf as [<- Hf].
    by rewrite orb_true_r in Eb.
  - assert (cycles_since_gc (gc_count st) = cycles_since_gc st + 1)%N as E
      by (cbn; apply wrapping_add_small; lia).
    specialize (IH (gc_count st)). rewrite E in IH. destruct (gc_cycles _ _ _) as [n st'].
    destruct IH as [IH1 IH2]; [lia|]. split; [lia|].
    intros Hf Hle Hpos. apply Forall_cons in Hf as [_ Hf].
    destruct IH2 as [IH2 IH3]; [done|lia|done|]. split; [lia|done].
Qed.

(** ** Tokens *)

Definition all_roles : list TokenRole :=
  [TokenRole.System; TokenRole.User; TokenRole.Assistant; TokenRole.ToolRequest;
   TokenRole.ToolResult; TokenRole.Unknown].

Definition role_tokens (st : TokenTrackerState) (r : TokenRole) : N :=
  match tokens_by_role st !! r with Some n => n | None => 0 end.

Definition by_role_total (st : TokenTrackerState) : N := foldr N.add 0%N (role_tokens st <$> all_roles).

Definition volume (st : TokenTrackerState) : N := (total_input_tokens st + total_output_tokens st)%N.

Definition history_tokens (h : list ChatMessage) : N :=
  foldr N.add 0%N ((λ m, (estimate_message_tokens m).1) <$> h).

Lemma count_tokens_volume st m :
  (volume (count_tokens st m) mod u64_modulus
   = (volume st + (estimate_message_tokens m).1) mod u64_modulus)%N.
Proof using Type.
  unfold volume, count_tokens, wrapping_add.
  destruct (estimate_message_tokens m) as [t r]. destruct (is_output m); cbn.
  - rewrite N.Div0.add_mod_idemp_r. f_equal. lia.
  - rewrite N.Div0.add_mod_idemp_l. f_equal. lia.
Qed.

Lemma count_tokens_roles st m r' :
  role_tokens (count_tokens st m) r' =
  if decide (r' = (estimate_message_tokens m).2)
  then wrapping_add (role_tokens st r') (estimate_message_tokens m).1 else role_tokens st r'.
Proof using Type.
  unfold role_tokens, count_tokens. destruct (estimate_message_tokens m) as [t r].
  case_decide as H; cbn in H; destruct (is_output m); cbn; subst;
    rewrite ?lookup_insert_eq, ?lookup_insert_ne by congruence; done.
Qed.

Lemma mod_add_l a b c : (a mod u64_modulus = b mod u64_modulus →
  (a + c) mod u64_modulus = (b + c) mod u64_modulus)%N.
Proof using Type.
  intros H. rewrite <- (N.Div0.add_mod_idemp_l a), <- (N.Div0.add_mod_idemp_l b). by rewrite H.
Qed.

Lemma sum_unchanged (f g : TokenRole → N) r t l :
  (∀ r', g r' = if decide (r' = r) then wrapping_add (f r') t else f r') → r ∉ l →
  foldr N.add 0%N (g <$> l) = foldr N.add 0%N (f <$> l).
Proof using Type.
  intros Hg. induction l as [|x l IH]; intros Hl; [done|]. cbn.
  apply not_elem_of_cons in Hl as [Hx Hl]. rewrite Hg, decide_False by congruence. by rewrite IH.
Qed.

Lemma sum_update (f g : TokenRole → N) r t l :
  (∀ r', g r' = if decide (r' = r) then wrapping_add (f r') t else f r') → NoDup l → r ∈ l →
  (foldr N.add 0 (g <$> l) mod u64_modulus = (foldr N.add 0 (f <$> l) + t) mod u64_modulus)%N.
Proof using Type.
  intros Hg. induction l as [|x l IH]; intros Hd Hr; [by apply elem_of_nil in Hr|]. cbn.
  apply NoDup_cons in Hd as [Hx Hd]. destruct (decide (r = x)) as [->|Hne].
  - rewrite (sum_unchanged f g x t l) by done. rewrite Hg, decide_True by done.
    unfold wrapping_add. rewrite N.Div0.add_mod_idemp_l. f_equal. lia.
  - apply elem_of_cons in Hr as [->|Hr]; [done|]. specialize (IH Hd Hr).
    rewrite Hg, decide_False by congruence. rewrite N.add_comm, (mod_add_l _ _ _ IH). f_equal. lia.
Qed.

Lemma count_tokens_by_role st m :
  (by_role_total (count_tokens st m) mod u64_modulus
   = (by_role_total st + (estimate_message_tokens m).1) mod u64_modulus)%N.
Proof using Type.
  apply (sum_update _ _ (estimate_message_tokens m).2).
  - intros r. apply count_tokens_roles.
  - by apply (bool_decide_unpack _).
  - unfold all_roles. destruct (estimate_message_tokens m).2; set_solver.
Qed.

Lemma fold_tokens (f : TokenTrackerState → N) h st :
  (∀ st m, (f (count_tokens st m) mod u64_modulus
            = (f st + (estimate_message_tokens m).1) mod u64_modulus)%N) →
  (f (foldl count_tokens st h) mod u64_modulus = (f st + history_tokens h) mod u64_modulus)%N.
Proof using Type.
  intros Hf. revert st. induction h as [|m h IH]; intros st; cbn.
  - by rewrite N.add_0_r.
  - rewrite IH. rewrite (mod_add_l _ _ _ (Hf st m)). f_equal. unfold history_tokens. cbn. lia.
Qed.

(** Token totals.  Modulo 2^64, the input and output totals grow at each prediction by
    the estimate of the whole history it is made with, messages of earlier cycles
    included, and the totals by role always add up to the same volume. *)
Theorem token_totals (h : list ChatMessage) (st : TokenTrackerState) :
  (volume (track_history h st) mod u64_modulus
    = (volume st + history_tokens h) mod u64_modulus)%N ∧
  (by_role_total st mod u64_modulus = volume st mod u64_modulus →
   by_role_total (track_history h st) mod u64_modulus
     = volume (track_history h st) mod u64_modulus)%N.
Proof using Type.
  unfold track_history.
  pose proof (fold_tokens volume h) as Hv. pose proof (fold_tokens by_role_total h) as Hr.
  rewrite Hv by apply count_tokens_volume. rewrite Hr by apply count_tokens_by_role.
  split; [done|]. apply mod_add_l.
Qed.
End std.

(** ** Witnesses *)

#[global] Instance AuditEntry_eq_dec : EqDecision AuditEntry.
Proof. solve_decision. Defined.
#[global] Instance AuditEntry_countable : Countable AuditEntry.
Proof.
  apply (inj_countable' (λ a, (sequence a, input_json a, audit_epoch a))
    (λ p, {| sequence := p.1.1; input_json := p.1.2; audit_epoch := p.2 |})). by intros [].
Defined.

Definition demo_ext : ExtensionStorage concrete_universe unit := ExtensionStorage_new.

Definition demo_request (arguments : string) : ChatMessage :=
  ChatMessage.ToolRequest "id" "read" arguments.

Example circuit_breaker_blocks_witness :
  ∃ d, (hook (CircuitBreaker 1) [demo_request "x"; ChatMessage.User "no"; demo_request "x"] demo_ext).1
       = Ok d ∧ is_block d = true.
Proof.
  destruct (circuit_breaker_blocks 1 [demo_request "x"; ChatMessage.User "no"; demo_request "x"]
    demo_ext ext_new_wf) as (d & Hd & Hb & _).
  exists d. split; [exact Hd|]. apply Hb. by exists [], "read:x".
Defined.

Definition demo_json (i : EngineInput) : result string string := Ok "input".
Definition demo_batch : list AuditEntry → result bytes string := countable_to_vec.
Definition demo_unbatch (b : bytes) : option (list AuditEntry) :=
  match countable_from_slice b with Ok es => Some es | Err _ => None end.

Lemma demo_batch_codec es b : demo_batch es = Ok b → demo_unbatch b = Some es.
Proof. intros H. unfold demo_unbatch. by rewrite (countable_roundtrip es b H). Qed.

Definition demo_audit_ext : ExtensionStorage concrete_universe unit :=
  (get_or_insert_default AuditLoggerState (get_or_insert_default EpochState demo_ext).2).2.

Lemma demo_audit_wf : ext_wf demo_audit_ext.
Proof.
  unfold demo_audit_ext. rewrite !get_or_insert_default_snd.
  apply ext_wf_borrow, ext_wf_borrow, ext_new_wf.
Qed.

Definition demo_audit_state : AuditLoggerState :=
  {| audit_pending := []; total_logged := 0; next_sequence := 0; batch_size := 0 |}.

Definition demo_inputs : list EngineInput :=
  [EngineInput.UserMessage "a"; EngineInput.UserMessage "b"; EngineInput.UserMessage "c"].

Example audit_log_complete_witness :
  let '(bs, e') := audit_run demo_json demo_batch 2 demo_inputs demo_audit_ext in
  ∃ st', get_ext AuditLoggerState e' = Some st' ∧
    decoded demo_unbatch bs ++ audit_pending st' = audit_entries demo_json 0 0 demo_inputs.
Proof.
  assert (get_ext EpochState demo_audit_ext = Some {| current_generation := 0 |}) as Hep by reflexivity.
  assert (get_ext AuditLoggerState demo_audit_ext = Some demo_audit_state) as Hst by reflexivity.
  pose proof (audit_log_complete demo_json demo_batch demo_unbatch demo_batch_codec (λ es, eq_refl)
    2 demo_inputs demo_audit_ext _ _ demo_audit_wf Hep Hst) as H.
  destruct (audit_run demo_json demo_batch 2 demo_inputs demo_audit_ext) as [bs e'].
  destruct H as (st' & H1 & H2 & _). by exists st'.
Defined.

Definition demo_blocker : OnInputPlugin concrete_universe unit :=
  {| name := "blocker"; priority := 0;
     hook _ := λ e, (Ok (PolicyDecision.Block "no"), e) |}.

Definition demo_audit_router : PluginRouter concrete_universe unit := {|
  on_input_plugins := [AuditLogger demo_json demo_batch 1; demo_blocker];
  before_prediction_plugins := [];
  on_stream_event_plugins := [];
  after_prediction_plugins := [];
  on_tool_calls_plugins := [];
  on_tool_result_plugins := [];
  on_error_plugins := [];
  routing_table := from_hooks [AuditLogger demo_json demo_batch 1; demo_blocker] [] [] [] [] [] []
|}.

Definition demo_audit_kernel : Kernel concrete_universe unit :=
  {| engine := {| router := demo_audit_router; governance := plain_governance;
                  routines := RoutineManager_new |};
     session := set_extensions demo_audit_ext plain_session; effects := [] |}.

Example blocked_flush_loses_batch_witness :
  effects (eval_on_input (EngineInput.UserMessage "a") demo_audit_kernel).2 = [] ∧
  ∃ st', get_ext AuditLoggerState
           (extensions (session (eval_on_input (EngineInput.UserMessage "a") demo_audit_kernel).2))
         = Some st' ∧ audit_pending st' = [] ∧ total_logged st' = 1%N.
Proof.
  destruct (blocked_flush_loses_batch demo_json demo_batch 1 (EngineInput.UserMessage "a")
    demo_audit_kernel demo_blocker {| current_generation := 0 |} demo_audit_state "no"
    eq_refl eq_refl (λ e, eq_refl) eq_refl eq_refl demo_audit_wf eq_refl eq_refl) as (_ & He & Hst).
  { cbn. lia. }
  split; [exact He|exact Hst].
Defined.

Definition demo_talk : Session concrete_universe unit :=
  set_history (λ _, [ChatMessage.User "1"; ChatMessage.User "2"; ChatMessage.User "3"]) plain_session.

Definition demo_summarize (ms : list ChatMessage) : result ChatMessage ShellError :=
  Ok (ChatMessage.System "summary").

Example summary_replaces_prefix_witness :
  ∃ wm, history (apply_history_edits
                   (summary_edits 3 (ChatMessage.System "summary") wm) demo_talk).2
        = ChatMessage.System "summary" :: drop (N.to_nat wm) (history demo_talk) ∧
        ∃ lost, ChatMessage.System "prompt" :: history demo_talk
          = [ChatMessage.System "prompt"; ChatMessage.User "1"] ++
            lost :: drop (N.to_nat wm) (history demo_talk).
Proof.
  destruct (summary_replaces_prefix demo_talk demo_summarize (ChatMessage.System "summary")
    [ChatMessage.System "prompt"]) as (wm & _ & _ & Hh & _ & Hl).
  - reflexivity.
  - unfold KEEP_RECENT. cbn. lia.
  - reflexivity.
  - exists wm. split; [exact Hh|]. exact (Hl _ eq_refl).
Defined.

Example gc_rate_witness :
  (gc_cycles GcPolicy_default (replicate 25 true) {| cycles_since_gc := 0; gcs_triggered := 0 |}).1 = 2%N.
Proof.
  pose proof (gc_rate GcPolicy_default (replicate 25 true)
    {| cycles_since_gc := 0; gcs_triggered := 0 |} eq_refl) as H.
  destruct (gc_cycles GcPolicy_default (replicate 25 true) _) as [n st'].
  destruct H as [_ H]. destruct H as [H1 H2].
  - by repeat constructor.
  - cbn. lia.
  - cbn. lia.
  - cbn in *. lia.
Defined.

Example token_totals_witness :
  (volume (track_history [ChatMessage.User "hello"] {| total_input_tokens := 3; total_output_tokens := 0;
     prediction_cycles := 1; tokens_by_role := ∅; buffered_output_tokens := 0 |}) mod u64_modulus = 5)%N.
Proof.
  destruct (token_totals [ChatMessage.User "hello"] {| total_input_tokens := 3; total_output_tokens := 0;
     prediction_cycles := 1; tokens_by_role := ∅; buffered_output_tokens := 0 |}) as [H _].
  rewrite H. reflexivity.
Defined.
