(* ===== verification/Profile.v ===== *)
(** * Governance profiles and the compatibility matrix
      (brioche-governance-default/src/profile.rs, compatibility_matrix.rs)

    A profile is a chain of setters on the builder of Builder.v.  The three rollback
    policies it may install are one type here, as they are one trait object there.
    Whether a release build was opted into [Permissive] is a parameter. *)
From S2P Require Import Prelude Utf8 Types Effects Extension Session Plugins Router Engine GovTypes.
From S2P Require Import Builder Guards Aggregators Subroutines Tools Rollback Telemetry.

(** ** [Box<dyn CycleRollbackPolicy>] *)

Inductive BoxedPolicy {U : AnyUniverse} : Type :=
  | NoopPolicy
  | AdaptivePolicy (p : Adaptive.AdaptiveUndoFrameGuard U)
  | TieredPolicy (p : Tiered.TieredUndoFrameGuard U).
Arguments BoxedPolicy U : clear implicits.

Section boxed.
Context {U : AnyUniverse} `{!KernelTypes U}.

#[global] Instance boxed_observer : CowObserver U (BoxedPolicy U) := {
  on_mutation tid vtable current b :=
    match b with
    | NoopPolicy => NoopPolicy
    | AdaptivePolicy p => AdaptivePolicy (Adaptive.mutation tid vtable current p)
    | TieredPolicy p => TieredPolicy (Tiered.mutation tid vtable current p)
    end
}.

#[global] Instance boxed_policy : CycleRollbackPolicy U (BoxedPolicy U) := {
  begin_hook hook b :=
    match b with
    | NoopPolicy => NoopPolicy
    | AdaptivePolicy p => AdaptivePolicy (Adaptive.begin hook p)
    | TieredPolicy p => TieredPolicy (Tiered.begin hook p)
    end;
  commit_hook b e :=
    match b with
    | NoopPolicy => (NoopPolicy, e)
    | AdaptivePolicy p =>
        (AdaptivePolicy (Adaptive.reset p), log_rollback_event (Adaptive.event false p) e)
    | TieredPolicy p =>
        (TieredPolicy (Tiered.reset p), log_rollback_event (Tiered.event false p) e)
    end;
  rollback_hook b e :=
    match b with
    | NoopPolicy => (NoopPolicy, e)
    | AdaptivePolicy p =>
        (AdaptivePolicy (Adaptive.reset p),
         log_rollback_event (Adaptive.event true p) (restore_frame (Adaptive.active_frame p) e))
    | TieredPolicy p =>
        (TieredPolicy (Tiered.reset p),
         log_rollback_event (Tiered.event true p) (restore_frame (Tiered.active_frame p) e))
    end;
  is_budget_exceeded b :=
    match b with
    | NoopPolicy => false
    | AdaptivePolicy p => Adaptive.exceeded p
    | TieredPolicy p => Tiered.exceeded p
    end;
  set_cow_budget_policy policy b :=
    match b with
    | NoopPolicy => NoopPolicy
    | AdaptivePolicy p => AdaptivePolicy (Adaptive.set_budget policy p)
    | TieredPolicy p => TieredPolicy p
    end
}.
End boxed.

(** ** profile.rs *)

Inductive GovernanceError : Type := PermissiveRequiresOptIn.

Inductive GovernanceProfile : Type := Permissive | Standard | Strict.

Definition GovernanceProfile_default : GovernanceProfile := Standard.

Section profile.
Context {U : AnyUniverse} `{!KernelTypes U, !GovernanceTypes U, !TelemetryTypes U}.
Context (debug_handle : string → string) (debug_input : EngineInput → string).
Context (to_json : TruncatedToolResult → result string string).
Let B := BriocheEngineBuilder U (BoxedPolicy U).

(** A chain of setters. *)
Definition calls {DA LG} (cs : list (BuilderCall U (BoxedPolicy U))) (b : B DA LG) : B DA LG :=
  foldl (λ b c, apply_call c b) b cs.

Definition build_permissive (b : B Missing Missing) : B Present Present :=
  calls
    [with_subroutine_handler SubRoutineOrchestrator;
     with_consistency_verifier StateConsistencyGuard;
     with_hook_effect_constraint PermissiveHookEffectConstraint;
     with_cycle_rollback_policy NoopPolicy;
     with_governance_failover_handler NoopGovernanceFailoverHandler;
     with_on_stream_event TelemetryPlugin_stream;
     with_after_prediction TelemetryPlugin_after]
    (with_subroutine_lifecycle_guard SubRoutineCleanupGuard
       (with_decision_aggregator LexicographicDecisionAggregator
          (calls [with_epoch_interceptor EpochGuard] b))).

(** [SubRoutineTimeoutPolicy::with_default_timeout] ignores its argument. *)
Definition apply_standard (b : B Missing Missing) : B Present Present :=
  calls
    [with_subroutine_handler SubRoutineOrchestrator;
     with_consistency_verifier StateConsistencyGuard;
     with_hook_effect_constraint
       (FastHookEffectConstraint.constraint FastHookEffectConstraint.standard);
     with_cycle_rollback_policy (AdaptivePolicy Adaptive.new);
     with_governance_failover_handler SystemFailoverGuard;
     with_on_error QuarantineManager;
     with_on_input (RecoveryPolicy_new debug_input);
     with_on_input (DepthGuard 10);
     with_on_stream_event TelemetryPlugin_stream;
     with_after_prediction TelemetryPlugin_after;
     with_on_tool_result (ToolResultFormatter_new to_json);
     with_on_tool_calls (ToolTimeoutPolicy_plugin (with_default_timeout 30000))]
    (with_subroutine_lifecycle_guard SubRoutineCleanupGuard
       (with_decision_aggregator LexicographicDecisionAggregator
          (calls [with_epoch_interceptor EpochGuard;
                  with_epoch_interceptor (SubRoutineTimeoutPolicy_interceptor debug_handle)] b))).

Definition apply_strict (b : B Missing Missing) : B Present Present :=
  calls
    [with_subroutine_handler SubRoutineOrchestrator;
     with_consistency_verifier StateConsistencyGuard;
     with_hook_effect_constraint
       (FastHookEffectConstraint.constraint FastHookEffectConstraint.standard);
     with_cycle_rollback_policy (TieredPolicy Tiered.new);
     with_governance_failover_handler SystemFailoverGuard;
     with_on_error QuarantineManager;
     with_on_input (RecoveryPolicy_new debug_input);
     with_on_input (DepthGuard 5);
     with_on_stream_event TelemetryPlugin_stream;
     with_after_prediction TelemetryPlugin_after;
     with_on_tool_result (ToolResultFormatter_new to_json);
     with_on_tool_calls (ToolTimeoutPolicy_plugin (with_default_timeout 10000))]
    (with_subroutine_lifecycle_guard SubRoutineCleanupGuard
       (with_decision_aggregator LexicographicDecisionAggregator
          (calls [with_epoch_interceptor EpochGuard;
                  with_epoch_interceptor (SubRoutineTimeoutPolicy_interceptor debug_handle)] b))).

(** [opted_in]: a debug build, or the environment variable is set. *)
Definition apply (opted_in : bool) (profile : GovernanceProfile) (b : B Missing Missing) :
    B Present Present :=
  match profile with
  | Permissive => if opted_in then build_permissive b else apply_standard b
  | Standard => apply_standard b
  | Strict => apply_strict b
  end.

Definition try_apply (opted_in : bool) (profile : GovernanceProfile) (b : B Missing Missing) :
    result (B Present Present) GovernanceError :=
  match profile with
  | Permissive => if opted_in then Ok (build_permissive b) else Err PermissiveRequiresOptIn
  | Standard => Ok (apply_standard b)
  | Strict => Ok (apply_strict b)
  end.
End profile.

(** ** compatibility_matrix.rs *)

Inductive CompatibilityLevel : Type := Recommended | Compatible | Caution | Incompatible.

Record CompatibilityEntry := {
  trait_a : string;
  impl_a : string;
  trait_b : string;
  impl_b : string;
  level : CompatibilityLevel;
  compatibility_note : option string
}.

Definition pair_of (ta ia tb ib : string) (l : CompatibilityLevel) (text : string) :
    CompatibilityEntry :=
  {| trait_a := ta; impl_a := ia; trait_b := tb; impl_b := ib; level := l; compatibility_note := Some text |}.

Definition matrix_entries : list CompatibilityEntry :=
  [pair_of "EpochInterceptor" "EpochGuard" "SubRoutineHandler" "SubRoutineOrchestrator" Recommended
     "Standard production pair.";
   pair_of "EpochInterceptor" "EpochGuard" "CycleRollbackPolicy" "AdaptiveUndoFrameGuard" Recommended
     "Standard profile combination.";
   pair_of "EpochInterceptor" "EpochGuard" "CycleRollbackPolicy" "TieredUndoFrameGuard" Recommended
     "Strict profile combination.";
   pair_of "DecisionAggregator" "LexicographicDecisionAggregator"
     "CycleRollbackPolicy" "NoopCycleRollbackPolicy" Recommended
     "Permissive profile standard pair.";
   pair_of "DecisionAggregator" "NegotiationBroker"
     "CycleRollbackPolicy" "AdaptiveUndoFrameGuard" Recommended
     "Multi-phase negotiation + adaptive budget.";
   pair_of "DecisionAggregator" "TreeDecisionAggregator"
     "CycleRollbackPolicy" "TieredUndoFrameGuard" Compatible
     "Conditional decisions + tiered rollback.";
   pair_of "HookEffectConstraint" "FastHookEffectConstraint"
     "GovernanceFailoverHandler" "SystemFailoverGuard" Recommended
     "Strict effects + failover safety net.";
   pair_of "HookEffectConstraint" "PermissiveHookEffectConstraint"
     "GovernanceFailoverHandler" "NoopGovernanceFailoverHandler" Recommended
     "Permissive profile pair.";
   pair_of "CycleRollbackPolicy" "NoopCycleRollbackPolicy"
     "CowBudgetPolicy" "NoopCowBudgetPolicy" Caution
     "Budget policy has no effect with noop rollback."].

Definition matches_pair (ta ia tb ib : string) (e : CompatibilityEntry) : bool :=
  (String.eqb (trait_a e) ta && String.eqb (impl_a e) ia &&
   String.eqb (trait_b e) tb && String.eqb (impl_b e) ib) ||
  (String.eqb (trait_a e) tb && String.eqb (impl_a e) ib &&
   String.eqb (trait_b e) ta && String.eqb (impl_b e) ia).

Definition matrix_lookup (ta ia tb ib : string) : option CompatibilityLevel :=
  level <$> List.find (matches_pair ta ia tb ib) matrix_entries.
