(* ===== verification/PluginSpec.v ===== *)
(** * Correctness of the default plugins: tool time-outs, result formatting,
    recovery, sub-routine timers, telemetry *)
From S2P Require Import Prelude Utf8 Types Effects Extension Session Plugins Router Engine.
From S2P Require Import GovTypes Trace Hooks Guards Subroutines Tools Telemetry Instances.

Section tools.
Context {U : AnyUniverse} {P : Type} `{!CycleRollbackPolicy U P, !KernelTypes U,
  !GovernanceTypes U}.

(** ** Tool time-outs *)

Lemma with_rollback_data {W R} hname (m : State (ExtensionStorage U P * W) R)
    (c : HookCtx U P W) :
  ∃ e, (with_rollback hname (run_ext_data m) c).1 = (m (e, hc_data c)).1 ∧
       hc_data (with_rollback hname (run_ext_data m) c).2 = (m (e, hc_data c)).2.2.
Proof using Type.
  unfold with_rollback, run_ext_data. cbn zeta.
  set (s := match begin_hook hname <$> hc_policy c with Some p => _ | None => _ end).
  exists (extensions s). cbn [fst snd]. destruct (m (extensions s, hc_data c)) as [r [e w]]. cbn.
  by repeat case_match.
Qed.

(** One plugin, on the whole route, that cannot fail. *)
Lemma single_tool_call_plugin (plugin : OnToolCallsPlugin U P) f ds (k : Kernel U P) :
  on_tool_calls_plugins (router (engine k)) = [plugin] →
  route_on_tool_calls (routing_table (router (engine k))) = [0] →
  (∀ e ds, (hook plugin (e, ds)).1 = Ok tt ∧ (hook plugin (e, ds)).2.2 = f ds) →
  (handle_tool_calls ds k).1 = Ok (f ds).
Proof using Type.
  intros Hp Hr Hf. unfold handle_tool_calls. rewrite bind_pair. cbn [gets fst snd].
  rewrite Hp, Hr. rewrite bind_pair.
  set (r := run_hooks _ ds k). enough (r.1 = ([], f ds)) as Hr1.
  { rewrite bind_pair. cbn [ret fst]. by rewrite Hr1. }
  subst r. unfold run_hooks. set (c := {| hc_policy := _ |}).
  cbn [eval_route lookup list_lookup]. unfold OnToolCallsPlugin in *.
  destruct (with_rollback_data "on_tool_calls" (hook plugin) c) as (e & H1 & H2).
  destruct (Hf e ds) as [H3 H4]. cbn [hc_data c] in H1, H2. rewrite H3 in H1. rewrite H4 in H2.
  rewrite bind_pair. unfold State in *.
  destruct (with_rollback _ _ c) as [d c']. cbn [fst snd] in *. subst d. cbn. by rewrite H2.
Qed.

Lemma bounded_timeout_max policy t :
  (0 < max_timeout_ms policy)%N → (bounded_timeout policy t ≤ max_timeout_ms policy)%N.
Proof using Type.
  intros H. unfold bounded_timeout. set (v := match t with Some _ => _ | None => _ end).
  destruct (_ && _) eqn:E; [done|]. apply andb_false_iff in E as [E|E]; [|by apply N.ltb_ge in E].
  apply N.ltb_ge in E. lia.
Qed.

(** Time-outs are bounded and never missing.  With [ToolTimeoutPolicy] on
    the tool-call route, every completed call keeps its id, name and arguments,
    runs with its own time-out or the policy's default, capped by the policy's
    maximum if that is positive, and the kernel never reports a missing
    time-out. *)
Theorem tool_timeouts_are_bounded policy ds (k : Kernel U P) :
  on_tool_calls_plugins (router (engine k)) = [ToolTimeoutPolicy_plugin policy] →
  route_on_tool_calls (routing_table (router (engine k))) = [0] →
  ∃ ds', (handle_tool_calls ds k).1 = Ok ds' ∧
    let '(active, missing) := materialize_tool_calls (governance (engine k)) ds' in
    missing = None ∧
    Forall2 (λ d a,
      active_tool_id a = tool_id d ∧ active_tool_name a = tool_name d ∧
      active_arguments a = arguments d ∧
      active_timeout_ms a = bounded_timeout policy (timeout_ms d) ∧
      ((0 < max_timeout_ms policy)%N → (active_timeout_ms a ≤ max_timeout_ms policy)%N)) ds active.
Proof using Type.
  intros Hp Hr. exists (apply_timeout policy <$> ds). split.
  { by apply (single_tool_call_plugin (ToolTimeoutPolicy_plugin policy)). }
  unfold materialize_tool_calls, seal_tool_descriptors. split.
  - induction ds as [|d ds IH]; [done|]. cbn. by destruct (existsb _ _).
  - induction ds as [|d ds IH]; cbn; constructor; [|exact IH].
    cbn. split_and!; try done. apply bounded_timeout_max.
Qed.

(** ** Formatting of tool results *)

Lemma str_get_prefix_take content limit s :
  str_get_prefix content limit = Some s → s = take limit content.
Proof using Type. unfold str_get_prefix. case_match; by intros [=]. Qed.

Lemma truncated_preview content max_bytes :
  ∃ rest, content = preview (TruncatedToolResult_from_content content max_bytes) ++ rest ∧
  length (preview (TruncatedToolResult_from_content content max_bytes)) ≤ max_bytes.
Proof using Type.
  unfold TruncatedToolResult_from_content. cbn [preview].
  destruct (str_get_prefix _ _) as [s|] eqn:E; [|by exists content; split; cbn; [|lia] ].
  apply str_get_prefix_take in E as ->. eexists. split; [symmetry; apply take_drop|].
  rewrite length_take. lia.
Qed.

Section formatter.
Context (to_json : TruncatedToolResult → result string string) (max_bytes : N).

(** The result is within the limit, or the limit is off. *)
Definition fits (r : ToolResultDTO) : bool :=
  (max_bytes =? 0)%N || (byte_length (tool_outcome_to_string (outcome r)) <=? max_bytes)%N.

Definition truncation (r : ToolResultDTO) : TruncatedToolResult :=
  TruncatedToolResult_from_content
    (String.list_byte_of_string (tool_outcome_to_string (outcome r))) (N.to_nat max_bytes).

(** A result that fits is untouched, another is replaced by its truncation record. *)
Definition formatted (r r' : ToolResultDTO) : Prop :=
  if fits r then r' = r
  else ∃ json, to_json (truncation r) = Ok json ∧
    r' = {| result_tool_id := result_tool_id r; result_tool_name := result_tool_name r;
            outcome := ToolOutcome.Success json |}.

Lemma format_result_spec r :
  match format_result to_json max_bytes r with
  | Ok r' => formatted r r'
  | Err e => fits r = false ∧ ∃ err, to_json (truncation r) = Err err ∧ e = json_failed err
  end.
Proof using Type.
  unfold format_result, formatted, fits.
  destruct (N.eqb_spec max_bytes 0) as [->|Hm]; [done|].
  replace (0 <? max_bytes)%N with true by (symmetry; apply N.ltb_lt; lia). cbn [andb orb].
  rewrite N.ltb_antisym. destruct (_ <=? max_bytes)%N; cbn [negb]; [done|].
  fold (truncation r). destruct (to_json (truncation r)) as [json|err]; by eauto.
Qed.

(** The formatter bounds what it rewrites and nothing else.  The results
    keep their number, ids and names.  A result within the limit is untouched;
    a longer one becomes the JSON of a record whose preview is a prefix of the
    content, at most the limit long.  The counter advances by the number of
    results processed.  If the record of some result cannot be encoded the hook
    fails there: the results before it stay formatted, the rest untouched. *)
Theorem format_results_spec results st :
  let '(res, out, st') := format_results to_json max_bytes results st in
  ∃ pre post, results = pre ++ post ∧
    formatted_count st' = foldl (λ n _, wrapping_add n 1) (formatted_count st) pre ∧
    (∃ pre', out = pre' ++ post ∧ Forall2 formatted pre pre') ∧
    Forall (λ r, ∃ rest, String.list_byte_of_string (tool_outcome_to_string (outcome r))
      = preview (truncation r) ++ rest ∧
      length (preview (truncation r)) ≤ N.to_nat max_bytes) results ∧
    match res with
    | Ok _ => post = []
    | Err e => ∃ r post' err, post = r :: post' ∧ fits r = false ∧
        to_json (truncation r) = Err err ∧ e = json_failed err
    end.
Proof using Type.
  revert st. induction results as [|r results IH]; intros st; cbn [format_results].
  { exists [], []. split_and!; try done. by exists []. }
  pose proof (format_result_spec r) as Hr.
  destruct (format_result to_json max_bytes r) as [r'|e].
  - specialize (IH {| formatted_count := wrapping_add (formatted_count st) 1 |}).
    destruct (format_results _ _ _ _) as [[res out] st'].
    destruct IH as (pre & post & -> & Hc & (pre' & -> & Hpre) & Hall & Hres).
    exists (r :: pre), post. split_and!; try done.
    + exists (r' :: pre'). split; [done|]. by constructor.
    + constructor; [apply truncated_preview|done].
  - exists [], (r :: results). split_and!; try done.
    + by exists [].
    + clear. apply Forall_forall. intros x _. apply truncated_preview.
    + destruct Hr as (Hf & err & Hj & ->). by exists r, results, err.
Qed.
End formatter.
End tools.

(** ** The recovery circuit *)

Section recovery.
Context {U : AnyUniverse} {P : Type} `{!CycleRollbackPolicy U P, !KernelTypes U,
  !GovernanceTypes U}.
Context (debug_input : EngineInput → string) (max_recoveries : N).
Implicit Types e : ExtensionStorage U P.

(** The kernel stores the snapshot, then runs the policy. *)
Definition recovery_step (step : SessionSnapshot * EngineInput) :
    State (ExtensionStorage U P) (PluginResult PolicyDecision) :=
  _ <-! insert_ext step.1 ;;
  hook (RecoveryPolicy debug_input max_recoveries) step.2.

Fixpoint recovery_run (steps : list (SessionSnapshot * EngineInput)) :
    State (ExtensionStorage U P) (list (PluginResult PolicyDecision)) :=
  match steps with
  | [] => ret []
  | step :: steps' => r <-! recovery_step step ;; rs <-! recovery_run steps' ;; ret (r :: rs)
  end.

Definition in_failure (snapshot : SessionSnapshot) : bool :=
  bool_decide (current_state snapshot = AgentStateTag.Failure).

Definition circuit_open : PolicyDecision :=
  PolicyDecision.Block "recovery: max consecutive failures exceeded".

Lemma recovery_distinct :
  TypeId_of RecoveryState ≠ TypeId_of SessionSnapshot.
Proof using All.
  pose proof gt_distinct as H. apply NoDup_cons in H as [H _]. intros E. apply H. rewrite <- E.
  by repeat (first [left|right]).
Qed.

Lemma recovery_step_open snapshot input e st :
  ext_wf e → registered_as SessionSnapshot e → get_ext RecoveryState e = Some st →
  is_ok (postcard_to_stdvec snapshot) = true →
  (max_recoveries ≤ consecutive_recoveries st)%N →
  (consecutive_recoveries st + 1 < u64_modulus)%N →
  let r := recovery_step (snapshot, input) e in
  r.1 = Ok (if in_failure snapshot then circuit_open else PolicyDecision.Allow) ∧
  ext_wf r.2 ∧ registered_as SessionSnapshot r.2 ∧
  ∃ st', get_ext RecoveryState r.2 = Some st' ∧
    consecutive_recoveries st' =
      if in_failure snapshot then (consecutive_recoveries st + 1)%N else consecutive_recoveries st.
Proof using All.
  intros Hwf Hreg Hst Hok Hopen Hsmall. pose proof (insert_ext_ok _ _ _ Hreg Hok) as Hins.
  unfold recovery_step, RecoveryPolicy. cbn [fst snd hook].
  rewrite bind_pair. set (e1 := (insert_ext snapshot e).2).
  assert (ext_wf e1) as Hwf1 by by apply ext_wf_insert.
  assert (get_ext RecoveryState e1 = Some st) as Hst1.
  { unfold get_ext, e1. rewrite hot_map_insert_ne by apply recovery_distinct. exact Hst. }
  assert (registered_as SessionSnapshot e1) as Hreg1.
  { eapply registered_as_ext; [apply registry_insert_ext|]. by apply registered_as_ensure. }
  assert (∀ e', registered_as SessionSnapshot e' →
    registered_as SessionSnapshot (borrow_ext RecoveryState e')) as Hregb.
  { intros e' He'. eapply registered_as_ext; [apply registry_borrow|].
    apply registered_as_ensure_ne; [apply recovery_distinct|done]. }
  unfold with_snapshot. rewrite (get_ext_insert _ _ _ Hins : get_ext SessionSnapshot e1 = _).
  rewrite (get_or_insert_hit _ _ _ Hwf1 Hst1). fold (in_failure snapshot).
  pose proof (ext_wf_borrow RecoveryState e1 Hwf1) as Hwf2.
  pose proof (get_ext_borrow RecoveryState e1 _ Hst1) as Hst2.
  rewrite bool_decide_true by done. cbn [negb]. destruct (in_failure snapshot); 
    [|split; [done|]; split; [done|]; split; [by apply Hregb|]; by exists st].
  rewrite (get_or_insert_hit _ _ _ Hwf2 Hst2).
  cbn [count_recovery consecutive_recoveries]. rewrite wrapping_add_small by done.
  rewrite decide_True by lia. cbn [fst snd]. split; [done|]. split.
  { by apply ext_wf_write, ext_wf_borrow. }
  split; [eapply registered_as_ext; [apply registry_write|]; by apply Hregb, Hregb|].
  eexists. split; [eapply get_ext_write; by apply get_ext_borrow|]. cbn.
  by rewrite wrapping_add_small.
Qed.

(** An open circuit never closes.  Once the recovery counter has reached
    the threshold, every input seen in [Failure] is blocked and healthy inputs,
    though allowed, do not reset the counter.  A threshold of 0 is reached from
    the start: it blocks the first failing input instead of none. *)
Theorem recovery_circuit_stays_open steps e st :
  ext_wf e → registered_as SessionSnapshot e → get_ext RecoveryState e = Some st →
  (∀ snapshot : SessionSnapshot, is_ok (postcard_to_stdvec snapshot) = true) →
  (max_recoveries ≤ consecutive_recoveries st)%N →
  (consecutive_recoveries st + N.of_nat (length steps) < u64_modulus)%N →
  (recovery_run steps e).1 =
  (λ step, Ok (if in_failure step.1 then circuit_open else PolicyDecision.Allow)) <$> steps.
Proof using All.
  intros Hwf Hreg Hst Hok. revert e st Hwf Hreg Hst.
  induction steps as [|[snapshot input] steps IH]; intros e st Hwf Hreg Hst Hopen Hsmall; [done|].
  cbn [length] in Hsmall. cbn [recovery_run fmap list_fmap fst]. rewrite !bind_pair.
  destruct (recovery_step_open snapshot input e st) as (Hr & Hwf' & Hreg' & st' & Hst' & Hc); try done.
  { lia. }
  rewrite Hr. cbn [ret fst]. f_equal. apply (IH _ st'); try done.
  all: rewrite Hc; destruct (in_failure snapshot); lia.
Qed.
End recovery.

(** ** Witnesses *)

Definition timeout_kernel : Kernel concrete_universe unit :=
  {| engine :=
       {| router := {|
            on_input_plugins := []; before_prediction_plugins := [];
            on_stream_event_plugins := []; after_prediction_plugins := [];
            on_tool_calls_plugins := [ToolTimeoutPolicy_plugin (with_bounds 10000 20000)];
            on_tool_result_plugins := []; on_error_plugins := [];
            routing_table := from_hooks (U := concrete_universe) (P := unit) [] [] [] []
              [ToolTimeoutPolicy_plugin (with_bounds 10000 20000)] [] [] |};
          governance := plain_governance;
          routines := RoutineManager_new |};
     session := plain_session;
     effects := [] |}.

Definition two_calls : list ToolCallDescriptor :=
  [{| tool_id := "a"; tool_name := "ls"; arguments := "{}"; timeout_ms := None |};
   {| tool_id := "b"; tool_name := "cat"; arguments := "{}"; timeout_ms := Some 50000%N |}].

Lemma tool_timeouts_are_bounded_witness :
  ∃ ds', (handle_tool_calls two_calls timeout_kernel).1 = Ok ds' ∧
  (materialize_tool_calls plain_governance ds').2 = None ∧
  active_timeout_ms <$> (materialize_tool_calls plain_governance ds').1 = [10000%N; 20000%N].
Proof.
  destruct (tool_timeouts_are_bounded (with_bounds 10000 20000) two_calls timeout_kernel)
    as (ds' & H & Hm); [reflexivity|reflexivity|].
  exists ds'. split; [exact H|]. change (governance (engine timeout_kernel)) with plain_governance in Hm.
  destruct (materialize_tool_calls _ ds') as [active missing]. destruct Hm as [-> Hall].
  split; [reflexivity|].
  apply Forall2_cons_inv_l in Hall as (a & l & (_ & _ & _ & Ha & _) & Hall & ->).
  apply Forall2_cons_inv_l in Hall as (b & l' & (_ & _ & _ & Hb & _) & Hall & ->).
  apply Forall2_nil_inv_l in Hall as ->. cbn. by rewrite Ha, Hb.
Defined.

Definition failing : SessionSnapshot :=
  {| current_state := AgentStateTag.Failure; state_stack_depth := 1 |}.
Definition healthy : SessionSnapshot :=
  {| current_state := AgentStateTag.Idle; state_stack_depth := 0 |}.
Definition retry : EngineInput := EngineInput.UserMessage "retry".

(** A storage in which the policy already ran once, with threshold 0. *)
Definition recovering : ExtensionStorage concrete_universe unit :=
  (get_or_insert_default RecoveryState ExtensionStorage_new).2.

Lemma recovery_circuit_stays_open_witness :
  (recovery_run (λ _, "") 0 [(healthy, retry); (failing, retry)] recovering).1
  = [Ok PolicyDecision.Allow; Ok circuit_open].
Proof.
  rewrite (recovery_circuit_stays_open (λ _, "") 0 _ recovering
    {| consecutive_recoveries := 0; last_error := None; inputs_blocked := 0 |}).
  - reflexivity.
  - unfold recovering. rewrite get_or_insert_default_snd. apply ext_wf_borrow, ext_new_wf.
  - left. vm_compute. reflexivity.
  - vm_compute. reflexivity.
  - by intros [].
  - cbn. lia.
  - vm_compute. reflexivity.
Defined.

(** ** The telemetry observers *)

(** What the counters stand for: computed from all the events at once. *)
Definition is_abandoned (e : RollbackEvent) : bool := was_rollback e && budget_exceeded e.
Definition is_restored (e : RollbackEvent) : bool := was_rollback e && negb (budget_exceeded e).

Definition count_of (p : RollbackEvent → bool) (l : list RollbackEvent) : N :=
  (N.of_nat (length (List.filter p l)) mod u64_modulus)%N.

Definition of_hook (h : string) (p : RollbackEvent → bool) (e : RollbackEvent) : bool :=
  String.eqb (hook_name e) h && p e.

(** Hooks in the order they were first seen. *)
Definition first_seen (hs : list string) : list string :=
  foldl (λ acc h, if decide (h ∈ acc) then acc else acc ++ [h]) [] hs.

Definition stats_of (all : list RollbackEvent) : RollbackTelemetryState := {|
  abandoned_count := count_of is_abandoned all;
  restored_count := count_of is_restored all;
  abandoned_weight_total :=
    (foldr N.add 0 (frame_weight <$> List.filter is_abandoned all) mod u64_modulus)%N;
  per_hook_stats :=
    (λ h, (h, (count_of (of_hook h is_abandoned) all, count_of (of_hook h is_restored) all)))
      <$> first_seen (hook_name <$> all)
|}.

Lemma count_of_snoc p l e :
  count_of p (l ++ [e]) = bump (p e) (count_of p l).
Proof.
  unfold count_of, bump, wrapping_add. rewrite List.filter_app, length_app. cbn [List.filter].
  destruct (p e); cbn [length].
  - rewrite N.Div0.add_mod_idemp_l. f_equal. lia.
  - f_equal. lia.
Qed.

Lemma sum_snoc l (n : N) : foldr N.add 0%N (l ++ [n]) = (foldr N.add 0%N l + n)%N.
Proof. induction l as [|m l IH]; cbn; [lia|]. rewrite IH. lia. Qed.

Lemma first_seen_snoc hs h :
  first_seen (hs ++ [h])
  = if decide (h ∈ first_seen hs) then first_seen hs else first_seen hs ++ [h].
Proof. unfold first_seen. by rewrite foldl_app. Qed.

Lemma elem_of_first_seen h hs : h ∈ first_seen hs ↔ h ∈ hs.
Proof.
  induction hs as [|x hs IH] using rev_ind; [done|]. rewrite first_seen_snoc.
  case_decide as Hx; rewrite ?elem_of_app, IH, ?list_elem_of_singleton; set_solver.
Qed.

Lemma first_seen_nodup hs : NoDup (first_seen hs).
Proof.
  induction hs as [|x hs IH] using rev_ind; [constructor|]. rewrite first_seen_snoc.
  case_decide; [done|]. apply NoDup_app. split_and!; [done| |by apply NoDup_singleton]. set_solver.
Qed.

Section hook_stats.
Context (f g : string → N * N) (h : string) (ab re : bool).
Hypothesis Hh : g h = (bump ab (f h).1, bump re (f h).2).
Hypothesis Hother : ∀ h', h' ≠ h → g h' = f h'.

Lemma hook_stats_other (hs : list string) : h ∉ hs → (λ x, (x, g x)) <$> hs = (λ x, (x, f x)) <$> hs.
Proof using Hother.
  intros H. apply list_fmap_ext. intros i x Hx. rewrite Hother; [done|].
  intros ->. apply H. by eapply list_elem_of_lookup_2.
Qed.

Lemma hook_stats_seen (hs : list string) :
  NoDup hs → h ∈ hs →
  hook_stats h ab re ((λ x, (x, f x)) <$> hs) = (λ x, (x, g x)) <$> hs.
Proof using All.
  induction 1 as [|x hs Hx Hn IH]; [set_solver|]. intros Hin. cbn [fmap list_fmap hook_stats].
  destruct (f x) as [a r] eqn:Ef. destruct (decide (x = h)) as [->|Hne].
  - rewrite Hh, Ef. f_equal. symmetry. by apply hook_stats_other.
  - rewrite (Hother x Hne), Ef. f_equal. apply IH. set_solver.
Qed.

End hook_stats.

Lemma hook_stats_new (f : string → N * N) h ab re (hs : list string) :
  h ∉ hs →
  hook_stats h ab re ((λ x, (x, f x)) <$> hs)
  = ((λ x, (x, f x)) <$> hs) ++ [(h, (flag ab, flag re))].
Proof.
  induction hs as [|x hs IH]; [done|]. intros Hin. cbn [fmap list_fmap hook_stats].
  destruct (f x) as [a r] eqn:Ef. rewrite decide_False by set_solver. cbn [app]. f_equal.
  apply IH. set_solver.
Qed.

Lemma count_of_fresh h p all :
  h ∉ hook_name <$> all → count_of (of_hook h p) all = 0%N.
Proof.
  intros H. unfold count_of. replace (List.filter _ _) with (@nil RollbackEvent); [done|].
  induction all as [|e all IH]; [done|]. cbn in *. unfold of_hook at 1.
  destruct (String.eqb_spec (hook_name e) h) as [<-|_]; cbn; [set_solver|]. apply IH. set_solver.
Qed.

Lemma archive_rollback_snoc all e : archive_rollback (stats_of all) e = stats_of (all ++ [e]).
Proof.
  unfold archive_rollback. fold (is_abandoned e) (is_restored e). unfold stats_of.
  cbn [abandoned_count restored_count abandoned_weight_total per_hook_stats].
  rewrite !count_of_snoc. f_equal.
  - rewrite List.filter_app, fmap_app. cbn [List.filter]. destruct (is_abandoned e).
    + cbn [fmap list_fmap]. rewrite sum_snoc. unfold wrapping_add. by rewrite N.Div0.add_mod_idemp_l.
    + cbn [fmap list_fmap]. by rewrite app_nil_r.
  - rewrite fmap_app. cbn [fmap list_fmap]. rewrite first_seen_snoc.
    set (f := λ h, (count_of (of_hook h is_abandoned) all, count_of (of_hook h is_restored) all)).
    set (g := λ h, (count_of (of_hook h is_abandoned) (all ++ [e]),
                    count_of (of_hook h is_restored) (all ++ [e]))).
    assert (g (hook_name e) = (bump (is_abandoned e) (f (hook_name e)).1,
                               bump (is_restored e) (f (hook_name e)).2)) as Hh.
    { unfold g, f. rewrite !count_of_snoc. unfold of_hook at 1 3. by rewrite String.eqb_refl. }
    assert (∀ h, h ≠ hook_name e → g h = f h) as Ho.
    { intros h Hne. unfold g, f. rewrite !count_of_snoc. unfold of_hook at 1 3.
      destruct (String.eqb_spec (hook_name e) h); [congruence|done]. }
    change (hook_stats (hook_name e) (is_abandoned e) (is_restored e)
              ((λ h, (h, f h)) <$> first_seen (hook_name <$> all))
            = (λ h, (h, g h)) <$> (if decide (hook_name e ∈ first_seen (hook_name <$> all))
                then first_seen (hook_name <$> all)
                else first_seen (hook_name <$> all) ++ [hook_name e])).
    case_decide as Hin.
    + apply hook_stats_seen; [done|done|apply first_seen_nodup|done].
    + rewrite (hook_stats_new f _ _ _ _ Hin), fmap_app. f_equal.
      * symmetry. by apply (hook_stats_other f g (hook_name e)).
      * cbn. rewrite Hh. unfold f. rewrite elem_of_first_seen in Hin.
        by rewrite !(count_of_fresh _ _ _ Hin).
Qed.

Lemma archive_rollbacks_spec past es :
  foldl archive_rollback (stats_of past) es = stats_of (past ++ es).
Proof.
  revert past. induction es as [|e es IH]; intros past; cbn [foldl]; [by rewrite app_nil_r|].
  rewrite archive_rollback_snoc, IH. by rewrite <- (assoc_L (++)).
Qed.

Section telemetry.
Context {U : AnyUniverse} {P : Type} `{!CycleRollbackPolicy U P, !KernelTypes U,
  !TelemetryTypes U}.

(** Borrow, then write: the value is replaced, the other types are untouched. *)
Lemma access_frame {T} `{!BriocheExtensionType T} (e : ExtensionStorage U P) x y :
  ext_wf e → get_ext T e = Some x →
  get_or_insert_default T e = (x, borrow_ext T e) ∧
  ext_wf (write_ext y (borrow_ext T e)) ∧
  get_ext T (write_ext y (borrow_ext T e)) = Some y ∧
  ∀ T' (HT : BriocheExtensionType T'), TypeId_of T' ≠ TypeId_of T →
    get_ext T' (write_ext y (borrow_ext T e)) = get_ext T' e.
Proof using All.
  intros He Hx. split; [by apply get_or_insert_hit|]. split; [by apply ext_wf_write, ext_wf_borrow|].
  split; [by eapply get_ext_write, get_ext_borrow|]. intros T' HT Hne.
  unfold get_ext, write_ext. case_match; cbn; rewrite ?lookup_insert_ne by done;
    by rewrite hot_map_borrow_ne.
Qed.

(** The archived rollback metrics are exact.  When the metrics of the storage
    are those of the events archived so far, the after-prediction hook succeeds,
    empties both logs, and leaves the metrics of the events so far followed by
    the logged ones: the totals and, for every hook in the order hooks were first
    seen, its abandonments and restorations, all counts modulo 2^64. *)
Theorem rollback_metrics_exact (e : ExtensionStorage U P) past log slog conflicts :
  ext_wf e →
  get_ext RollbackEventLog e = Some log →
  get_ext RollbackTelemetryState e = Some (stats_of past) →
  get_ext SupersededTransitionTraceLog e = Some slog →
  get_ext TransitionConflictState e = Some conflicts →
  let r := hook TelemetryPlugin_after e in
  r.1 = Ok tt ∧
  get_ext RollbackTelemetryState r.2 = Some (stats_of (past ++ events log)) ∧
  get_ext RollbackEventLog r.2 = Some {| events := [] |} ∧
  get_ext SupersededTransitionTraceLog r.2 = Some {| superseded_entries := [] |} ∧
  (∃ c, get_ext TransitionConflictState r.2 = Some c ∧
    total_conflicts c
    = match superseded_entries slog with
      | [] => total_conflicts conflicts
      | es => wrapping_add (total_conflicts conflicts) (N.of_nat (length es))
      end).
Proof using All.
  intros He Hl Hs Hsl Hc r.
  pose proof tt_distinct as D. rewrite !NoDup_cons in D. rewrite !not_elem_of_cons in D.
  destruct D as ((D12 & D13 & D14 & D15 & _) & (D23 & D24 & D25 & _) & (D34 & D35 & _) &
    (D45 & _) & _).
  set (e1 := archive_superseded e).
  assert (ext_wf e1 ∧ get_ext RollbackEventLog e1 = Some log ∧
    get_ext RollbackTelemetryState e1 = Some (stats_of past) ∧
    get_ext SupersededTransitionTraceLog e1 = Some {| superseded_entries := [] |} ∧
    ∃ c, get_ext TransitionConflictState e1 = Some c ∧
      total_conflicts c = match superseded_entries slog with
      | [] => total_conflicts conflicts
      | es => wrapping_add (total_conflicts conflicts) (N.of_nat (length es))
      end) as (He1 & Hl1 & Hs1 & Hsl1 & c & Hc1 & Htot).
  { destruct (access_frame e slog {| superseded_entries := [] |} He Hsl) as (Hg & Hw & Hn & Hf).
    unfold e1, archive_superseded. rewrite Hg. cbn [SupersededTransitionTraceLog_take_entries].
    destruct slog as [[|t es]]; cbn [superseded_entries] in *.
    - split_and!; [done|by rewrite Hf|by rewrite Hf|done|]. exists conflicts. by rewrite Hf.
    - set (e' := write_ext _ _) in *.
      assert (get_ext TransitionConflictState e' = Some conflicts) as Hc' by by rewrite Hf.
      destruct (access_frame e' conflicts (archive_conflicts (t :: es) conflicts) Hw Hc')
        as (-> & Hw' & Hn' & Hf').
      split_and!; [done|by rewrite Hf', Hf|by rewrite Hf', Hf|by rewrite Hf'|].
      eexists. by split. }
  subst r. cbn [hook TelemetryPlugin_after fst snd]. fold e1.
  destruct (access_frame e1 log {| events := [] |} He1 Hl1) as (Hg & Hw & Hn & Hf).
  unfold archive_rollbacks. rewrite Hg. set (e2 := write_ext _ _) in *.
  assert (get_ext RollbackTelemetryState e2 = Some (stats_of past)) as Hs2 by by rewrite Hf.
  destruct (access_frame e2 (stats_of past) (stats_of (past ++ events log)) Hw Hs2)
    as (-> & Hw2 & Hn2 & Hf2).
  rewrite archive_rollbacks_spec.
  split_and!; [done|done|by rewrite Hf2|by rewrite Hf2, Hf|]. exists c. by rewrite Hf2, Hf.
Qed.
End telemetry.

(** ** Witness: two hooks, one abandonment and one restoration *)

Definition demo_event (hook : string) (rollback exceeded : bool) : RollbackEvent :=
  {| hook_name := hook; was_rollback := rollback; frame_weight := 7; budget_exceeded := exceeded |}.

Definition demo_log : RollbackEventLog :=
  {| events := [demo_event "on_input" true true; demo_event "on_error" false false;
                demo_event "on_input" true false] |}.

Definition demo_conflict : SupersededTransitionTraceLog :=
  {| superseded_entries :=
       [{| superseded_source_plugin := "a"; attempted_decision := PolicyDecision.Allow;
           preempted_by := "prior_override_plugin"; superseded_epoch := 1 |}] |}.

Definition demo_storage : ExtensionStorage concrete_universe unit :=
  update_ext (λ _, demo_log) (update_ext (λ _, demo_conflict)
    (update_ext (λ c : TransitionConflictState, c)
      (update_ext (λ c : RollbackTelemetryState, c) ExtensionStorage_new))).

Lemma rollback_metrics_exact_witness :
  per_hook_stats (stats_of (events demo_log)) = [("on_input", (1, 1)); ("on_error", (0, 0))]%N ∧
  get_ext RollbackTelemetryState (hook TelemetryPlugin_after demo_storage).2
    = Some (stats_of (events demo_log)).
Proof.
  split; [vm_compute; reflexivity|].
  assert (ext_wf demo_storage) as Hwf.
  { unfold demo_storage. do 4 apply ext_wf_update. apply ext_new_wf. }
  destruct (rollback_metrics_exact demo_storage [] demo_log demo_conflict
    {| total_conflicts := 0; unique_preempted_plugins := 0; last_preempted_plugin := None |} Hwf)
    as (_ & H & _); [vm_compute; reflexivity..|exact H].
Defined.
