(* ===== verification/Projection.v ===== *)
(** * The projection of effects for the user interface (brioche-shell-projection/src/)

    Each object of the crate is a record and its methods are functions on it.  The
    clock ([Instant::elapsed]) is an argument of the calls that read it; the
    MessagePack encoder is a parameter.  A [BTreeMap] is a [gmap]: no operation
    modelled here depends on the order of its keys except [traces] and [iter],
    which list them in key order. *)
From S2P Require Import Prelude Utf8 Types Effects Persistence SubRoutineCache GovTypes.

(** ** ui_registry.rs *)

Definition WIDGET_SYSTEM_DEGRADED : string := "system_degraded".
Definition WIDGET_NETWORK_ERROR : string := "network_error".
Definition WIDGET_STATUS : string := "status".
Definition WIDGET_ERROR : string := "error".
Definition WIDGET_SUBROUTINE_TIMEOUT : string := "subroutine_timeout".
Definition WIDGET_TEXT_CHUNK : string := "text_chunk".
Definition WIDGET_SUBROUTINE_LOADED : string := "subroutine_loaded".
Definition WIDGET_PENDING_TASK : string := "pending_task".

Inductive AnchorSlot : Type :=
  | TopBar
  | Sidebar
  | StatusBar
  | InputActions
  | InputOverlay
  | ContentRendererSlot
  | MessageFooter
  | SettingsPanel.

Definition UiRegistry : Type := gmap string AnchorSlot.

Definition UiRegistry_new : UiRegistry := ∅.
Definition register (widget_type : string) (slot : AnchorSlot) (r : gmap string AnchorSlot) :
    gmap string AnchorSlot :=
  <[widget_type := slot]> r.
Definition resolve (widget_type : string) (r : gmap string AnchorSlot) : option AnchorSlot :=
  r !! widget_type.
Definition registry_contains (widget_type : string) (r : gmap string AnchorSlot) : bool :=
  bool_decide (is_Some (r !! widget_type)).

Definition with_special_widgets : UiRegistry :=
  register WIDGET_SUBROUTINE_TIMEOUT ContentRendererSlot
    (register WIDGET_ERROR ContentRendererSlot
      (register WIDGET_STATUS StatusBar
        (register WIDGET_NETWORK_ERROR TopBar
          (register WIDGET_SYSTEM_DEGRADED TopBar UiRegistry_new)))).

Definition is_special_widget (widget_type : string) : bool :=
  bool_decide (widget_type ∈ [WIDGET_SYSTEM_DEGRADED; WIDGET_NETWORK_ERROR; WIDGET_STATUS;
    WIDGET_ERROR; WIDGET_SUBROUTINE_TIMEOUT]).

(** ** stream_buffer.rs *)

Definition StreamBuffer : Type := gmap string string.

Definition StreamBuffer_new : StreamBuffer := ∅.

(** [get_mut] and [push_str], or [insert]; [StreamBatch::append] is the same code. *)
Definition buffer_append (trace_id fragment : string) (b : gmap string string) :
    gmap string string :=
  match b !! trace_id with
  | Some existing => <[trace_id := existing +:+ fragment]> b
  | None => <[trace_id := fragment]> b
  end.

Definition buffer_get (trace_id : string) (b : gmap string string) : option string := b !! trace_id.
Definition buffer_flush (trace_id : string) (b : gmap string string) :
    option string * gmap string string :=
  (b !! trace_id, delete trace_id b).
Definition buffer_clear (b : gmap string string) : gmap string string := ∅.
Definition buffer_len (b : gmap string string) : nat := size b.
Definition buffer_is_empty (b : gmap string string) : bool := bool_decide (b = ∅).

Record ContentRenderer := { renderer_buffer : gmap string string }.

Definition ContentRenderer_new : ContentRenderer := {| renderer_buffer := StreamBuffer_new |}.

Definition process_effect (effect : Effect) (r : ContentRenderer) : bool * ContentRenderer :=
  match effect with
  | Effect.ForwardToUi (UiWidget.TextChunk trace_id text) =>
      (true, {| renderer_buffer := buffer_append trace_id text (renderer_buffer r) |})
  | _ => (false, r)
  end.

Definition drain_trace (trace_id : string) (r : ContentRenderer) : option string * ContentRenderer :=
  let '(t, b) := buffer_flush trace_id (renderer_buffer r) in (t, {| renderer_buffer := b |}).

Definition renderer_clear (r : ContentRenderer) : ContentRenderer :=
  {| renderer_buffer := buffer_clear (renderer_buffer r) |}.

(** ** ipc_command.rs: [IpcRateLimiter]

    Clones share the timestamp; [try_emit] is a load and a compare-and-swap that
    other tasks may separate. *)

Definition NEVER : N := (u64_modulus - 1)%N.

Record IpcRateLimiter := { frame_budget_ms : N; last_emit_ms : N }.

Definition IpcRateLimiter_new (frame_budget : N) : IpcRateLimiter :=
  {| frame_budget_ms := frame_budget; last_emit_ms := NEVER |}.

Definition set_last (now : N) (l : IpcRateLimiter) : IpcRateLimiter :=
  {| frame_budget_ms := frame_budget_ms l; last_emit_ms := now |}.

(** The decision on the loaded timestamp; subtraction saturates. *)
Definition may_emit (now last : N) (l : IpcRateLimiter) : bool :=
  (last =? NEVER)%N || (frame_budget_ms l <=? now - last)%N.

(** The compare-and-swap, whose result is ignored. *)
Definition compare_exchange (last now : N) (l : IpcRateLimiter) : IpcRateLimiter :=
  if (last_emit_ms l =? last)%N then set_last now l else l.

(** [try_emit] run without interference. *)
Definition limiter_try_emit (now : N) (l : IpcRateLimiter) : bool * IpcRateLimiter :=
  let last := last_emit_ms l in
  if may_emit now last l then (true, compare_exchange last now l) else (false, l).

Definition limiter_force_emit (now : N) (l : IpcRateLimiter) : IpcRateLimiter := set_last now l.

(** Several tasks on one limiter: each loads, then decides and swaps. *)
Module IpcTask.
Inductive IpcTask : Type :=
  | Ready
  | Loaded (now last : N)
  | Emitted (at_ms : N)
  | Held.
End IpcTask.
Abbreviation IpcTask := IpcTask.IpcTask.

Inductive limiter_step : IpcRateLimiter * list IpcTask → IpcRateLimiter * list IpcTask → Prop :=
  | limiter_load l ts1 ts2 now :
      limiter_step (l, ts1 ++ IpcTask.Ready :: ts2)
        (l, ts1 ++ IpcTask.Loaded now (last_emit_ms l) :: ts2)
  | limiter_swap l ts1 ts2 now last :
      may_emit now last l = true →
      limiter_step (l, ts1 ++ IpcTask.Loaded now last :: ts2)
        (compare_exchange last now l, ts1 ++ IpcTask.Emitted now :: ts2)
  | limiter_hold l ts1 ts2 now last :
      may_emit now last l = false →
      limiter_step (l, ts1 ++ IpcTask.Loaded now last :: ts2) (l, ts1 ++ IpcTask.Held :: ts2).

(** ** stream_batch.rs *)

Definition StreamBatch : Type := gmap string string.

Section batch.
Context (to_messagepack : gmap string string → result bytes string).

Record StreamBatchEmitter := { batch : gmap string string; limiter : IpcRateLimiter }.

Definition StreamBatchEmitter_new (l : IpcRateLimiter) : StreamBatchEmitter :=
  {| batch := ∅; limiter := l |}.

Definition accumulate (trace_id text : string) (e : StreamBatchEmitter) : StreamBatchEmitter :=
  {| batch := buffer_append trace_id text (batch e); limiter := limiter e |}.

Definition force_emit (now : N) (e : StreamBatchEmitter) : option bytes * StreamBatchEmitter :=
  if bool_decide (batch e = ∅) then (None, e)
  else match to_messagepack (batch e) with
       | Err _ => (None, e)
       | Ok payload =>
           (Some payload, {| batch := ∅; limiter := limiter_force_emit now (limiter e) |})
       end.

(** The clock is read again by [force_emit]. *)
Definition try_emit (now now' : N) (e : StreamBatchEmitter) : option bytes * StreamBatchEmitter :=
  let '(ok, l) := limiter_try_emit now (limiter e) in
  let e := {| batch := batch e; limiter := l |} in
  if (ok : bool) then force_emit now' e else (None, e).

Definition has_pending (e : StreamBatchEmitter) : bool := negb (bool_decide (batch e = ∅)).
End batch.

(** ** ui_composer.rs *)

Module EffectPriority.
Inductive EffectPriority : Type := TextChunk | Navigation | Semantic | Cosmetic.
End EffectPriority.
Abbreviation EffectPriority := EffectPriority.EffectPriority.

#[global] Instance EffectPriority_eq_dec : EqDecision EffectPriority.
Proof. solve_decision. Defined.

Definition classify_widget (w : UiWidget) : EffectPriority :=
  match w with
  | UiWidget.TextChunk _ _ => EffectPriority.TextChunk
  | UiWidget.Error _ _ | UiWidget.CriticalError _ _ | UiWidget.SystemDegraded _
  | UiWidget.NetworkError _ | UiWidget.Status _ | UiWidget.SubRoutineTimeout _ _
  | UiWidget.SubRoutineLoaded _ | UiWidget.PendingTask _ _ => EffectPriority.Semantic
  | UiWidget.Test _ => EffectPriority.Cosmetic
  | UiWidget.Custom t _ =>
      if bool_decide (t ∈ ["focus"; "scroll"]) then EffectPriority.Navigation
      else if bool_decide (t ∈ ["accordion_expand"; "highlight"; "subroutine_loaded"])
              || is_special_widget t then EffectPriority.Semantic
      else EffectPriority.Cosmetic
  end.

(** [priority as u8] *)
Definition priority_rank (p : EffectPriority) : N :=
  match p with
  | EffectPriority.TextChunk => 0
  | EffectPriority.Navigation => 1
  | EffectPriority.Semantic => 2
  | EffectPriority.Cosmetic => 3
  end.

Record ScheduledEffect := {
  scheduled_effect : Effect;
  effect_priority : EffectPriority;
  age_frames : N
}.

Record UiComposer := {
  composer_budget_ms : N;
  pending : list ScheduledEffect;
  cost_per_priority : N * N * N * N
}.

Definition with_budget (frame_budget : N) : UiComposer :=
  {| composer_budget_ms := frame_budget; pending := []; cost_per_priority := (0, 1, 2, 3)%N |}.
Definition UiComposer_new : UiComposer := with_budget 2.
(** The derived default has no budget and no costs. *)
Definition UiComposer_default : UiComposer :=
  {| composer_budget_ms := 0; pending := []; cost_per_priority := (0, 0, 0, 0)%N |}.

Definition set_frame_budget (ms : N) (c : UiComposer) : UiComposer :=
  {| composer_budget_ms := ms; pending := pending c; cost_per_priority := cost_per_priority c |}.

Definition set_pending (p : list ScheduledEffect) (c : UiComposer) : UiComposer :=
  {| composer_budget_ms := composer_budget_ms c; pending := p;
     cost_per_priority := cost_per_priority c |}.

Definition enqueue (effect : Effect) (c : UiComposer) : UiComposer :=
  match effect with
  | Effect.ForwardToUi w =>
      set_pending (pending c ++ [{| scheduled_effect := effect;
                                    effect_priority := classify_widget w; age_frames := 0 |}]) c
  | _ => c
  end.

Definition cost_for_priority (c : UiComposer) (p : EffectPriority) : N :=
  let '(c0, c1, c2, c3) := cost_per_priority c in
  match p with
  | EffectPriority.TextChunk => c0
  | EffectPriority.Navigation => c1
  | EffectPriority.Semantic => c2
  | EffectPriority.Cosmetic => c3
  end.

(** [saturating_add(1)] on a [u8]. *)
Definition grow_older (s : ScheduledEffect) : ScheduledEffect :=
  {| scheduled_effect := scheduled_effect s; effect_priority := effect_priority s;
     age_frames := N.min 255 (age_frames s + 1) |}.

Definition expired (s : ScheduledEffect) : bool :=
  bool_decide (effect_priority s = EffectPriority.Cosmetic) && (3 <? age_frames s)%N.

(** The loop: the chosen effects and the retained ones, both in queue order. *)
Fixpoint compose_loop (c : UiComposer) (cost : N) (l : list ScheduledEffect) :
    list Effect * list ScheduledEffect :=
  match l with
  | [] => ([], [])
  | s :: l' =>
      let tier_cost := cost_for_priority c (effect_priority s) in
      if expired s then compose_loop c cost l'
      else if bool_decide (effect_priority s = EffectPriority.TextChunk)
              || (cost + tier_cost <=? composer_budget_ms c)%N then
        let '(chosen, retained) := compose_loop c (cost + tier_cost) l' in
        (scheduled_effect s :: chosen, retained)
      else
        let '(chosen, retained) := compose_loop c cost l' in
        (chosen, grow_older s :: retained)
  end.

Definition sort_key (e : Effect) : N :=
  match e with
  | Effect.ForwardToUi w => priority_rank (classify_widget w)
  | _ => 255
  end.

Definition key_cmp (e e' : Effect) : comparison := (sort_key e ?= sort_key e')%N.

Definition compose_frame (c : UiComposer) : list Effect * UiComposer :=
  let '(chosen, retained) := compose_loop c 0 (pending c) in
  (sort_by key_cmp chosen, set_pending retained c).

Definition composer_clear (c : UiComposer) : UiComposer := set_pending [] c.

(** ** ui_performance_policy.rs *)

Definition is_ui (e : Effect) : bool :=
  match e with Effect.ForwardToUi _ => true | _ => false end.

Definition process_effects (effects : list Effect) (c : UiComposer) : list Effect * UiComposer :=
  let non_ui := List.filter (λ e, negb (is_ui e)) effects in
  let c := foldl (λ c e, if is_ui e then enqueue e c else c) c effects in
  let '(frame, c) := compose_frame c in
  (non_ui ++ frame, c).

(** ** subroutine_manager.rs *)

Module AccordionState.
Inductive AccordionState : Type := Idle | Loading | Loaded | Error | Timeout.
End AccordionState.
Abbreviation AccordionState := AccordionState.AccordionState.

Record SubRoutineUiState := { accordion : AccordionState; renderer : ContentRenderer }.

Definition SubRoutineUiState_idle : SubRoutineUiState :=
  {| accordion := AccordionState.Idle; renderer := ContentRenderer_new |}.
Definition SubRoutineUiState_loading : SubRoutineUiState :=
  {| accordion := AccordionState.Loading; renderer := ContentRenderer_new |}.

(** Keyed by the handle's identifier. *)
Definition SubRoutineManager : Type := gmap string SubRoutineUiState.

Definition SubRoutineManager_new : SubRoutineManager := ∅.

Definition set_accordion (a : AccordionState) (s : SubRoutineUiState) : SubRoutineUiState :=
  {| accordion := a; renderer := renderer s |}.

Definition begin_load (h : SubRoutineHandle) (m : gmap string SubRoutineUiState) :
    gmap string SubRoutineUiState :=
  match m !! handle_id h with
  | Some _ => m
  | None => <[handle_id h := SubRoutineUiState_loading]> m
  end.

Definition mark_loaded (h : SubRoutineHandle) (m : gmap string SubRoutineUiState) :
    gmap string SubRoutineUiState :=
  let state := match m !! handle_id h with
               | Some s => s
               | None => {| accordion := AccordionState.Loaded; renderer := ContentRenderer_new |}
               end in
  <[handle_id h := set_accordion AccordionState.Loaded state]> m.

Definition mark (a : AccordionState) (h : SubRoutineHandle) (m : gmap string SubRoutineUiState) :
    gmap string SubRoutineUiState :=
  match m !! handle_id h with
  | Some s => <[handle_id h := set_accordion a s]> m
  | None => m
  end.
Definition mark_error : SubRoutineHandle → SubRoutineManager → SubRoutineManager :=
  mark AccordionState.Error.
Definition mark_timeout : SubRoutineHandle → SubRoutineManager → SubRoutineManager :=
  mark AccordionState.Timeout.

Definition manager_remove (h : SubRoutineHandle) (m : gmap string SubRoutineUiState) :
    option SubRoutineUiState * gmap string SubRoutineUiState :=
  (m !! handle_id h, delete (handle_id h) m).

(** The renderer of a sub-routine, through [get_mut]. *)
Definition render_in (h : SubRoutineHandle) (effect : Effect) (m : gmap string SubRoutineUiState) :
    gmap string SubRoutineUiState :=
  match m !! handle_id h with
  | Some s =>
      <[handle_id h := {| accordion := accordion s;
                          renderer := (process_effect effect (renderer s)).2 |}]> m
  | None => m
  end.

(** ** ipc_command.rs: [IpcCommandService]

    [service_storage] and [service_cache] are [None] until [with_persistence]. *)

Section ipc.
Context `{!PersistCodec, !LruCache SessionHeadDTO}.

Record IpcCommandService := {
  service_storage : option RedbStorage;
  service_cache : option SubRoutineCache
}.

Definition IpcCommandService_new : IpcCommandService :=
  {| service_storage := None; service_cache := None |}.

Definition with_persistence (storage : RedbStorage) (cache : SubRoutineCache)
    (s : IpcCommandService) : IpcCommandService :=
  {| service_storage := Some storage; service_cache := Some cache |}.

Definition not_found (id : string) : string := "sub-routine " +:+ id +:+ " not found".

(** What is handed to [send_input], or the error; the cache after the command. *)
Definition ipc_load_subroutine (handle : SubRoutineHandle) (s : IpcCommandService) :
    result EngineInput ShellError * IpcCommandService :=
  match service_storage s, service_cache s with
  | None, _ => (Err (ShellError.EffectExecution "load_subroutine requires persistence"), s)
  | Some _, None => (Err (ShellError.EffectExecution "load_subroutine requires cache"), s)
  | Some storage, Some cache =>
      let id := handle_id handle in
      let '(dto, cache) :=
        match cache_get id cache with
        | Some d => (Ok d, cache)
        | None =>
            match load_session id storage with
            | Err e =>
                (Err (ShellError.EffectExecution
                   ("persistence error: " +:+ PersistenceError_to_string e)), cache)
            | Ok None => (Err (ShellError.EffectExecution (not_found id)), cache)
            | Ok (Some d) => (Ok d, cache_insert id d cache)
            end
        end in
      let s := {| service_storage := Some storage; service_cache := Some cache |} in
      (result_bind dto (λ d,
         match head_to_vec d with
         | Err e => Err (ShellError.EffectExecution ("serialize error: " +:+ e))
         | Ok head_blob => Ok (EngineInput.RestoreSubRoutine handle head_blob)
         end), s)
  end.

Definition send_message (text : string) : EngineInput := EngineInput.UserMessage text.
Definition cancel_action : SystemSignal := SystemSignal.OperationCancelled.
End ipc.
