(* ===== verification/ProjectionSpec.v ===== *)
(** * Correctness of the projection: no text lost, rate limit, accordions, lazy
      loading, and the frame composer *)
From S2P Require Import Prelude Utf8 Types Effects Extension Session Persistence.
From S2P Require Import SubRoutineCache GovTypes Instances PersistenceSpec.
From S2P Require Import Projection.

(** ** The text of a trace *)

Definition text_of (t : string) (b : gmap string string) : string :=
  match b !! t with Some x => x | None => "" end.

Lemma text_of_append t t' x b :
  text_of t (buffer_append t' x b) = text_of t b +:+ (if decide (t' = t) then x else "").
Proof.
  unfold text_of, buffer_append. destruct (decide (t' = t)) as [->|Hne].
  - destruct (b !! t); by rewrite lookup_insert_eq.
  - rewrite string_app_nil_r. destruct (b !! t'); by rewrite lookup_insert_ne.
Qed.

Section emitter.
Context (to_messagepack : gmap string string → result bytes string).
Context (from_messagepack : bytes → gmap string string).
Hypothesis decode_encode : ∀ b p, to_messagepack b = Ok p → from_messagepack p = b.

(** What a caller of the emitter does. *)
Inductive EmitterCall : Type :=
  | Accumulate (trace_id text : string)
  | TryEmit (now now' : N)
  | ForceEmit (now : N).

Definition emitter_call (e : StreamBatchEmitter) (c : EmitterCall) :
    option bytes * StreamBatchEmitter :=
  match c with
  | Accumulate t x => (None, accumulate t x e)
  | TryEmit now now' => try_emit to_messagepack now now' e
  | ForceEmit now => force_emit to_messagepack now e
  end.

(** The payloads sent, in order, and the emitter afterwards. *)
Definition emitter_run (cs : list EmitterCall) (e : StreamBatchEmitter) :
    list bytes * StreamBatchEmitter :=
  foldl (λ out c, let '(p, e) := emitter_call out.2 c in
                  (out.1 ++ match p with Some p => [p] | None => [] end, e)) ([], e) cs.

Definition concat_strings (l : list string) : string := foldr String.append "" l.

Definition fragments_of (t : string) (cs : list EmitterCall) : list string :=
  omap (λ c, match c with
             | Accumulate t' x => if decide (t' = t) then Some x else None
             | _ => None
             end) cs.

Definition delivered (t : string) (payloads : list bytes) : string :=
  concat_strings ((λ p, text_of t (from_messagepack p)) <$> payloads).

Lemma concat_strings_app l l' :
  concat_strings (l ++ l') = concat_strings l +:+ concat_strings l'.
Proof using Type.
  unfold concat_strings. induction l as [|x l IH]; [done|]. cbn. by rewrite IH, string_app_assoc.
Qed.

Lemma force_emit_text now e t p e' :
  force_emit to_messagepack now e = (p, e') →
  match p with Some p => text_of t (from_messagepack p) | None => "" end +:+ text_of t (batch e')
  = text_of t (batch e).
Proof using decode_encode.
  unfold force_emit. case_bool_decide as Hb; [by intros [= <- <-]|].
  destruct (to_messagepack (batch e)) as [payload|err] eqn:E; intros [= <- <-]; [|done].
  cbn. rewrite (decode_encode _ _ E). unfold text_of at 2. rewrite lookup_empty.
  by rewrite string_app_nil_r.
Qed.

Lemma emitter_call_text c e t p e' :
  emitter_call e c = (p, e') →
  match p with Some p => text_of t (from_messagepack p) | None => "" end +:+ text_of t (batch e')
  = text_of t (batch e) +:+ concat_strings (fragments_of t [c]).
Proof using decode_encode.
  destruct c as [t' x|now now'|now]; cbn [emitter_call].
  - intros [= <- <-]. cbn. rewrite text_of_append. case_decide; cbn; by rewrite ?string_app_nil_r.
  - unfold try_emit. destruct (limiter_try_emit now (limiter e)) as [ok l].
    destruct ok; intros H; cbn; rewrite string_app_nil_r.
    + by apply force_emit_text with (t := t) in H.
    + by injection H as <- <-.
  - intros H. cbn. rewrite string_app_nil_r. by eapply force_emit_text.
Qed.

(** Streamed text is delivered exactly once, in order.  Whatever calls are made
    to an emitter and whatever the rate limiter and the encoder answer, for every
    trace the text in the payloads sent, in the order they were sent, followed by
    the text still pending, is the concatenation of the fragments accumulated. *)
Theorem streamed_fragments_delivered cs l t :
  let '(payloads, e) := emitter_run cs (StreamBatchEmitter_new l) in
  delivered t payloads +:+ text_of t (batch e) = concat_strings (fragments_of t cs).
Proof using decode_encode.
  induction cs as [|c cs IH] using rev_ind; [done|].
  unfold emitter_run in *. rewrite foldl_app. cbn [foldl].
  destruct (foldl _ _ cs) as [payloads e]. cbn [fst snd].
  destruct (emitter_call e c) as [p e'] eqn:E. apply emitter_call_text with (t := t) in E.
  unfold fragments_of. rewrite omap_app. fold (fragments_of t cs) (fragments_of t [c]).
  rewrite concat_strings_app, <- IH, <- string_app_assoc, <- E.
  unfold delivered. rewrite fmap_app, concat_strings_app.
  destruct p; cbn; rewrite ?string_app_nil_r; by rewrite <- ?string_app_assoc.
Qed.
End emitter.

(** ** The rate limiter *)

(** Calls at given times, in sequence: the answers. *)
Fixpoint limiter_run (times : list N) (l : IpcRateLimiter) : list (N * bool) :=
  match times with
  | [] => []
  | now :: times' =>
      let '(ok, l) := limiter_try_emit now l in (now, ok) :: limiter_run times' l
  end.

Definition emissions (out : list (N * bool)) : list N :=
  omap (λ a : N * bool, if a.2 then Some a.1 else None) out.

(** Reference: take a time when it is the first or far enough from the last one
    taken. *)
Fixpoint spaced_times (budget : N) (last : option N) (times : list N) : list N :=
  match times with
  | [] => []
  | now :: times' =>
      if (match last with None => true | Some t => t + budget <=? now end)%N
      then now :: spaced_times budget (Some now) times'
      else spaced_times budget last times'
  end.

Definition limiter_at (budget : N) (last : option N) : IpcRateLimiter :=
  {| frame_budget_ms := budget;
     last_emit_ms := match last with None => NEVER | Some t => t end |}.

Lemma limiter_run_spaced budget times last :
  Sorted N.le times → Forall (λ t, t < NEVER)%N times →
  (∀ t, last = Some t → t < NEVER ∧ Forall (N.le t) times)%N →
  emissions (limiter_run times (limiter_at budget last)) = spaced_times budget last times.
Proof.
  intros Hs. apply Sorted_StronglySorted in Hs; [|intros ? ? ?; lia].
  revert last. induction Hs as [|now times Hs IH Hall]; intros last Hn Hl; [done|].
  inversion_clear Hn as [|? ? Hnow Hn']. cbn [limiter_run spaced_times].
  unfold limiter_try_emit, may_emit, compare_exchange.
  assert (∀ t, Some now = Some t → (t < NEVER ∧ Forall (N.le t) times)%N) as Hnext
    by (by intros t [= <-]).
  destruct last as [t|]; cbn [limiter_at last_emit_ms frame_budget_ms].
  - destruct (Hl t eq_refl) as [Ht Hle]. inversion_clear Hle as [|? ? Hle1 Hle2].
    destruct (N.eqb_spec t NEVER); [lia|]. cbn [orb]. rewrite N.eqb_refl.
    destruct (N.leb_spec budget (now - t)), (N.leb_spec (t + budget) now); try lia.
    + cbn [emissions omap list_omap snd fst]. f_equal. by apply (IH (Some now)).
    + cbn [emissions omap list_omap snd fst]. apply (IH (Some t)); [done|].
      intros t' [= <-]. done.
  - rewrite N.eqb_refl. cbn [orb emissions omap list_omap snd fst]. f_equal.
    rewrite ?N.eqb_refl. by apply (IH (Some now)).
Qed.

(** What interleaved calls can do to the timestamp. *)
Definition limiter_reachable (budget : N) (n : nat) : IpcRateLimiter * list IpcTask → Prop :=
  rtc limiter_step (IpcRateLimiter_new budget, replicate n IpcTask.Ready).

Lemma both_emit budget now : limiter_reachable budget 2
  (set_last now (IpcRateLimiter_new budget), [IpcTask.Emitted now; IpcTask.Emitted now]).
Proof.
  set (l := IpcRateLimiter_new budget).
  assert (compare_exchange NEVER now l = set_last now l) as H1 by done.
  eapply rtc_l; [apply (limiter_load l [] [IpcTask.Ready] now)|]. cbn [app].
  eapply rtc_l; [apply (limiter_load l [IpcTask.Loaded now NEVER] [] now)|]. cbn [app].
  eapply rtc_l; [apply (limiter_swap l [] [IpcTask.Loaded now NEVER] now NEVER); done|].
  cbn [app]. rewrite H1.
  eapply rtc_l; [apply (limiter_swap (set_last now l) [IpcTask.Emitted now] [] now NEVER); done|].
  cbn [app]. unfold compare_exchange. destruct (N.eqb_spec now NEVER) as [->|Hne].
  - cbn. rewrite ?N.eqb_refl. apply rtc_refl.
  - cbn. destruct (N.eqb_spec now NEVER); [done|]. apply rtc_refl.
Qed.

(** The rate limit, and where it stops.  For calls made one after the other at
    non-decreasing times, the calls answered [true] are exactly the greedy
    choice: the first, then each one at least the frame budget after the last
    answered [true].  Two interleaved calls can both be answered [true] at the same
    time, whatever the budget: the result of the compare-and-swap is ignored. *)
Theorem rate_limit_is_sequential budget :
  (∀ times, Sorted N.le times → Forall (λ t, t < NEVER)%N times →
     emissions (limiter_run times (IpcRateLimiter_new budget))
     = spaced_times budget None times) ∧
  (∀ now, limiter_reachable budget 2
     (set_last now (IpcRateLimiter_new budget), [IpcTask.Emitted now; IpcTask.Emitted now])).
Proof.
  split; [|apply both_emit]. intros times Hs Hn.
  by apply (limiter_run_spaced budget times None).
Qed.

(** ** Accordions *)

(** What the shell reports about sub-routines. *)
Inductive AccordionEvent : Type :=
  | BeginLoad (h : SubRoutineHandle)
  | MarkLoaded (h : SubRoutineHandle)
  | MarkError (h : SubRoutineHandle)
  | MarkTimeout (h : SubRoutineHandle)
  | Remove (h : SubRoutineHandle)
  | Render (h : SubRoutineHandle) (effect : Effect).

Definition event_handle (ev : AccordionEvent) : SubRoutineHandle :=
  match ev with
  | BeginLoad h | MarkLoaded h | MarkError h | MarkTimeout h | Remove h | Render h _ => h
  end.

Definition manager_event (ev : AccordionEvent) (m : gmap string SubRoutineUiState) :
    gmap string SubRoutineUiState :=
  match ev with
  | BeginLoad h => begin_load h m
  | MarkLoaded h => mark_loaded h m
  | MarkError h => mark_error h m
  | MarkTimeout h => mark_timeout h m
  | Remove h => (manager_remove h m).2
  | Render h effect => render_in h effect m
  end.

(** The life of one accordion: absent, or a state and its text. *)
Definition accordion_event (ev : AccordionEvent) (s : option SubRoutineUiState) :
    option SubRoutineUiState :=
  match ev, s with
  | BeginLoad _, None => Some SubRoutineUiState_loading
  | MarkLoaded _, None => Some (set_accordion AccordionState.Loaded SubRoutineUiState_idle)
  | MarkLoaded _, Some s => Some (set_accordion AccordionState.Loaded s)
  | MarkError _, Some s => Some (set_accordion AccordionState.Error s)
  | MarkTimeout _, Some s => Some (set_accordion AccordionState.Timeout s)
  | Remove _, _ => None
  | Render _ effect, Some s =>
      Some {| accordion := accordion s; renderer := (process_effect effect (renderer s)).2 |}
  | _, s => s
  end.

Lemma manager_event_lookup ev (m : gmap string SubRoutineUiState) id :
  manager_event ev m !! id =
    if decide (handle_id (event_handle ev) = id) then accordion_event ev (m !! id) else m !! id.
Proof.
  destruct ev; cbn [manager_event event_handle accordion_event];
    unfold begin_load, mark_loaded, mark_error, mark_timeout, mark, render_in, manager_remove;
    cbn [snd]; case_decide as E; subst;
    repeat case_match; simplify_eq; rewrite ?lookup_insert_eq, ?lookup_delete_eq,
      ?lookup_insert_ne, ?lookup_delete_ne by done; try congruence; try done.
Qed.

(** Accordions are independent.  After any events, the state and the text of
    each sub-routine are those its own events alone give, in their order; a
    failed or timed-out one that is opened again keeps its state. *)
Theorem accordions_independent events (m : gmap string SubRoutineUiState) id :
  foldl (λ m ev, manager_event ev m) m events !! id
  = foldl (λ s ev, accordion_event ev s) (m !! id)
      (filter (λ ev, handle_id (event_handle ev) = id) events) ∧
  (∀ h s, m !! handle_id h = Some s → begin_load h m !! handle_id h = Some s).
Proof.
  split.
  - revert m. induction events as [|ev events IH]; intros m; [done|].
    cbn [foldl]. rewrite IH, manager_event_lookup, filter_cons. by case_decide.
  - intros h s E. unfold begin_load. by rewrite E, E.
Qed.

(** ** Lazy loading of a sub-routine *)

Section ipc.
Context {U : AnyUniverse} {P : Type} `{!CycleRollbackPolicy U P}.
Context `{codec : !PersistCodec, claws : !PersistCodecLaws}.
Context `{cache : !LruCache SessionHeadDTO, laws : !LruLaws SessionHeadDTO}.

(** Encoding a head that was decoded gives bytes that decode to it. *)
Lemma reencode_head d b b' :
  decode_head b = Ok d → head_to_vec d = Ok b' → (N.of_nat (length b') <= MAX_HEAD_BYTES)%N →
  deserialize_head b' = Ok d.
Proof using claws.
  unfold decode_head. destruct (maybe_decompress b) as [blob|e]; [|done]. cbn.
  intros Hd Hv Hlen. unfold deserialize_head in *.
  destruct (N.ltb_spec MAX_HEAD_BYTES (N.of_nat (length b'))); [lia|].
  rewrite (head_decode_encode _ _ Hv). cbn.
  destruct (N.ltb_spec MAX_HEAD_BYTES (N.of_nat (length blob))); [done|].
  destruct (head_from_slice blob) as [d0|e]; [|done]. cbn in Hd.
  assert (d0 = d) as ->; [|exact Hd].
  destruct (version d0), (checksum d0); [|congruence].
  destruct (head_to_vec (set_checksum None d0)); [|done]. cbn in Hd.
  destruct (_ =? _)%N; congruence.
Qed.

(** Opening a saved sub-routine, and opening it again.  A sub-routine that is
    not cached is read from storage, and what is sent to the engine is turned by
    the hydrator into exactly the stored head with the stored messages.  The head
    is then cached and never refreshed: opened again after any change of the
    storage, the command sends the same head, which the hydrator combines with
    the messages stored by then. *)
Theorem ipc_load_restores (storage storage' : RedbStorage) (c : SubRoutineCache)
    handle d blob msgs msgs' :
  cache_get (handle_id handle) c = None →
  load_session (handle_id handle) storage = Ok (Some d) →
  head_to_vec d = Ok blob → (N.of_nat (length blob) <= MAX_HEAD_BYTES)%N →
  load_messages_for_session (head_id d) storage = Ok msgs →
  load_messages_for_session (head_id d) storage' = Ok msgs' →
  let opened := ipc_load_subroutine handle
    {| service_storage := Some storage; service_cache := Some c |} in
  opened.1 = Ok (EngineInput.RestoreSubRoutine handle blob) ∧
  hydrate (U := U) (P := P) storage blob = Ok (to_session d msgs.*2) ∧
  ∃ c', service_cache opened.2 = Some c' ∧
  (let again := ipc_load_subroutine handle
     {| service_storage := Some storage'; service_cache := Some c' |} in
   again.1 = Ok (EngineInput.RestoreSubRoutine handle blob) ∧ service_cache again.2 = Some c') ∧
  hydrate (U := U) (P := P) storage' blob = Ok (to_session d msgs'.*2).
Proof using All.
  intros Hc Hl Hv Hlen Hm Hm' opened.
  assert (deserialize_head blob = Ok d) as Hd.
  { unfold load_session in Hl. destruct (sessions_table _ !! _) as [b|]; [|done].
    destruct (decode_head b) as [d'|e] eqn:E; [|done]. cbn in Hl. injection Hl as ->.
    by eapply reencode_head. }
  assert (cache_get (handle_id handle) (cache_insert (handle_id handle) d c) = Some d) as Hhit.
  { revert Hc. unfold cache_get. cbn. destruct (l1_visible c !! _); [done|]. intros _.
    apply lru_peek_put. }
  subst opened. unfold ipc_load_subroutine. cbn [service_storage service_cache].
  rewrite Hc, Hl. cbn [result_bind]. rewrite Hv. cbn [fst snd service_cache].
  split; [done|]. split; [unfold hydrate; by rewrite Hd, Hm|].
  eexists. split; [done|]. rewrite Hhit. cbn. rewrite Hv.
  split; [done|]. unfold hydrate. by rewrite Hd, Hm'.
Qed.
End ipc.

(** ** Witnesses *)

Definition demo_pack : gmap string string → result bytes string := countable_to_vec.
Definition demo_unpack (b : bytes) : gmap string string :=
  match countable_from_slice b with Ok m => m | Err _ => ∅ end.

Lemma demo_pack_roundtrip b p : demo_pack b = Ok p → demo_unpack p = b.
Proof. intros H. unfold demo_unpack. by rewrite (countable_roundtrip _ _ H). Qed.

Definition demo_calls : list EmitterCall :=
  [Accumulate "a" "he"; TryEmit 0 0; Accumulate "a" "ll"; TryEmit 5 5; Accumulate "a" "o";
   TryEmit 16 16; Accumulate "a" "!"].

Lemma streamed_fragments_delivered_witness :
  length (emitter_run demo_pack demo_calls (StreamBatchEmitter_new (IpcRateLimiter_new 16))).1 = 2 ∧
  (let '(payloads, e) :=
     emitter_run demo_pack demo_calls (StreamBatchEmitter_new (IpcRateLimiter_new 16)) in
   delivered demo_unpack "a" payloads +:+ text_of "a" (batch e) = "hello!").
Proof.
  split; [vm_compute; reflexivity|].
  exact (streamed_fragments_delivered demo_pack demo_unpack demo_pack_roundtrip demo_calls
    (IpcRateLimiter_new 16) "a").
Defined.

Lemma rate_limit_is_sequential_witness :
  emissions (limiter_run [0; 10; 16; 20; 40]%N (IpcRateLimiter_new 16)) = [0; 16; 40]%N ∧
  limiter_reachable 16 2
    (set_last 3 (IpcRateLimiter_new 16), [IpcTask.Emitted 3; IpcTask.Emitted 3]).
Proof.
  destruct (rate_limit_is_sequential 16) as [Hs Hr]. split; [|apply Hr].
  rewrite Hs; [reflexivity| |].
  - repeat constructor; lia.
  - repeat constructor; vm_compute; reflexivity.
Defined.

Definition saved_head : RedbStorage :=
  (save_session_dto None (demo_head "a") {| db := Redb_create; session_store := ∅ |}).2.
Definition saved_one : RedbStorage := (save_messages None "a" [ChatMessage.User "hi"] 0 saved_head).2.
Definition saved_two : RedbStorage := (save_messages None "a" [ChatMessage.User "ho"] 1 saved_one).2.

Lemma ipc_load_restores_witness :
  ∃ d blob, load_session "a" saved_one = Ok (Some d) ∧
    hydrate (U := concrete_universe) (P := unit) saved_one blob
      = Ok (to_session d [ChatMessage.User "hi"]) ∧
    hydrate (U := concrete_universe) (P := unit) saved_two blob
      = Ok (to_session d [ChatMessage.User "hi"; ChatMessage.User "ho"]).
Proof.
  destruct (load_session "a" saved_one) as [[d|]|] eqn:El; [|vm_compute in El; discriminate..].
  assert (head_id d = "a" ∧ (N.of_nat (length (positive_to_bytes (encode d))) <= MAX_HEAD_BYTES)%N)
    as [Hid Hlen].
  { vm_compute in El. injection El as <-. split; vm_compute; [reflexivity|discriminate]. }
  exists d, (positive_to_bytes (encode d)). split; [done|].
  destruct (ipc_load_restores (U := concrete_universe) (P := unit)
    (cache := ListLru.ListLru) (laws := ListLru.ListLru_laws) saved_one saved_two
    (SubRoutineCache_new 1) (SubRoutineHandle_new "a") d (positive_to_bytes (encode d))
    [(0%N, ChatMessage.User "hi")] [(0%N, ChatMessage.User "hi"); (1%N, ChatMessage.User "ho")])
    as (_ & H1 & c' & _ & _ & H2).
  - reflexivity.
  - exact El.
  - reflexivity.
  - exact Hlen.
  - rewrite Hid. vm_compute. reflexivity.
  - rewrite Hid. vm_compute. reflexivity.
  - split; [exact H1|exact H2].
Defined.

(** ** The frame composer: the contract of a frame, no starvation, the default budget *)

Definition is_text_chunk (e : Effect) : bool :=
  match e with Effect.ForwardToUi (UiWidget.TextChunk _ _) => true | _ => false end.

(** Every queued entry is a widget with its own priority, and the costs are the
    ones [with_budget] sets: 0 to 3, the rank of the priority. *)
Definition scheduled_wf (s : ScheduledEffect) : Prop :=
  ∃ w, scheduled_effect s = Effect.ForwardToUi w ∧ effect_priority s = classify_widget w.

Definition composer_wf (c : UiComposer) : Prop :=
  Forall scheduled_wf (pending c) ∧ cost_per_priority c = (0, 1, 2, 3)%N.

Definition total_key (l : list Effect) : N := foldr (λ e n, sort_key e + n)%N 0%N l.

Lemma scheduled_key s : scheduled_wf s → sort_key (scheduled_effect s) = priority_rank (effect_priority s).
Proof. intros (w & -> & ->). done. Qed.

Lemma classify_text w : classify_widget w = EffectPriority.TextChunk ↔
  is_text_chunk (Effect.ForwardToUi w) = true.
Proof.
  destruct w; cbn; try done. case_bool_decide; [done|]. by destruct (bool_decide _ || _).
Qed.

Lemma sort_key_text e : sort_key e = 0%N ↔ is_text_chunk e = true.
Proof.
  destruct e; try done. rewrite <- classify_text. cbn.
  by destruct (classify_widget _).
Qed.

Lemma scheduled_text s : scheduled_wf s →
  effect_priority s = EffectPriority.TextChunk ↔ is_text_chunk (scheduled_effect s) = true.
Proof. intros (w & -> & ->). apply classify_text. Qed.

Lemma total_key_permutation l l' : l ≡ₚ l' → total_key l = total_key l'.
Proof. unfold total_key. induction 1; cbn; lia. Qed.

Section loop.
Context (c : UiComposer).
Hypothesis costs : cost_per_priority c = (0, 1, 2, 3)%N.

Lemma tier_cost p : cost_for_priority c p = priority_rank p.
Proof using costs. unfold cost_for_priority. rewrite costs. by destruct p. Qed.

(** One entry: dropped, chosen or retained. *)
Lemma compose_loop_cons cost s l :
  scheduled_wf s →
  compose_loop c cost (s :: l) =
    if expired s then compose_loop c cost l
    else if bool_decide (cost + sort_key (scheduled_effect s) <= composer_budget_ms c)%N
            || is_text_chunk (scheduled_effect s)
    then let r := compose_loop c (cost + sort_key (scheduled_effect s)) l in
         (scheduled_effect s :: r.1, r.2)
    else let r := compose_loop c cost l in (r.1, grow_older s :: r.2).
Proof using costs.
  intros Hs. cbn [compose_loop]. rewrite tier_cost, <- (scheduled_key s Hs).
  destruct (expired s); [done|].
  assert (bool_decide (effect_priority s = EffectPriority.TextChunk)
          = is_text_chunk (scheduled_effect s)) as ->.
  { pose proof (scheduled_text s Hs). case_bool_decide; destruct (is_text_chunk _); try tauto.
    by symmetry; apply H. }
  rewrite orb_comm. set (cost' := (cost + sort_key (scheduled_effect s))%N).
  assert ((cost' <=? composer_budget_ms c)%N = bool_decide (cost' <= composer_budget_ms c)%N) as ->.
  { case_bool_decide; [by apply N.leb_le|by apply N.leb_gt, N.lt_nge]. }
  destruct (_ || _); by destruct (compose_loop c _ l).
Qed.

Lemma loop_cost cost l :
  Forall scheduled_wf l → (cost <= composer_budget_ms c)%N →
  (cost + total_key (compose_loop c cost l).1 <= composer_budget_ms c)%N.
Proof using costs.
  intros H. revert cost. induction H as [|s l Hs H IH]; intros cost Hc; [cbn; lia|].
  rewrite compose_loop_cons by done. destruct (expired s); [by apply IH|].
  case_bool_decide as Hle; cbn [orb].
  - cbn [fst total_key foldr]. specialize (IH _ Hle). unfold total_key in IH. lia.
  - destruct (is_text_chunk _) eqn:Ht; [|by apply IH].
    apply sort_key_text in Ht. rewrite Ht in *. lia.
Qed.

Lemma loop_permutation cost l :
  Forall scheduled_wf l →
  scheduled_effect <$> l ≡ₚ (compose_loop c cost l).1
    ++ (scheduled_effect <$> (compose_loop c cost l).2)
    ++ (scheduled_effect <$> List.filter expired l).
Proof using costs.
  intros H. revert cost. induction H as [|s l Hs H IH]; intros cost; [done|].
  rewrite compose_loop_cons by done. cbn [List.filter]. destruct (expired s).
  - cbn [fmap list_fmap]. rewrite (IH cost) at 1. rewrite !Permutation_middle. done.
  - destruct (_ || _); cbn [fmap list_fmap fst snd app].
    + f_equiv. apply IH.
    + rewrite (IH cost) at 1. by rewrite Permutation_middle.
Qed.

Lemma loop_text cost l :
  Forall scheduled_wf l →
  List.filter is_text_chunk (compose_loop c cost l).1
  = List.filter is_text_chunk (scheduled_effect <$> l) ∧
  Forall (λ s, is_text_chunk (scheduled_effect s) = false) (compose_loop c cost l).2.
Proof using costs.
  intros H. revert cost. induction H as [|s l Hs H IH]; intros cost; [by repeat constructor|].
  rewrite compose_loop_cons by done. cbn [fmap list_fmap List.filter].
  assert (expired s = true → is_text_chunk (scheduled_effect s) = false) as Hex.
  { unfold expired. intros [Hp _]%andb_prop. apply bool_decide_eq_true in Hp.
    apply not_true_is_false. rewrite <- (scheduled_text s Hs). congruence. }
  destruct (expired s); [rewrite Hex by done; by apply IH|].
  destruct (is_text_chunk (scheduled_effect s)) eqn:Ht.
  - rewrite orb_true_r. cbn [fst snd List.filter]. rewrite Ht.
    destruct (IH (cost + sort_key (scheduled_effect s))%N) as [-> ?]. done.
  - rewrite orb_false_r. case_bool_decide; cbn [fst snd List.filter]; rewrite ?Ht.
    + apply IH.
    + destruct (IH cost) as [-> ?]. by repeat constructor.
Qed.

Lemma loop_retained cost l :
  Forall scheduled_wf l →
  Forall (λ s, ∃ s0, s = grow_older s0 ∧ s0 ∈ l ∧ expired s0 = false) (compose_loop c cost l).2.
Proof using costs.
  intros H. revert cost. induction H as [|s l Hs H IH]; intros cost; [constructor|].
  assert (∀ cost, Forall (λ s', ∃ s0, s' = grow_older s0 ∧ s0 ∈ s :: l ∧ expired s0 = false)
    (compose_loop c cost l).2) as IH'.
  { intros cost'. eapply Forall_impl; [apply IH|]. cbn. intros s' (s0 & ? & ? & ?).
    exists s0. split_and!; [done|by right|done]. }
  rewrite compose_loop_cons by done. destruct (expired s) eqn:E; [apply IH'|].
  destruct (_ || _); cbn [snd]; [apply IH'|]. constructor; [|apply IH'].
  exists s. split_and!; [done|left|done].
Qed.
End loop.

Lemma grow_older_wf s : scheduled_wf s → scheduled_wf (grow_older s).
Proof. intros (w & E & Ep). by exists w. Qed.

Lemma compose_wf c : composer_wf c → composer_wf (compose_frame c).2.
Proof.
  intros [Hp Hc]. unfold compose_frame.
  pose proof (loop_retained c Hc 0 (pending c) Hp) as Hr.
  destruct (compose_loop c 0 (pending c)) as [chosen retained]. split; [|done]. cbn in *.
  eapply Forall_impl; [exact Hr|]. intros s (s0 & -> & Hin & _). apply grow_older_wf.
  rewrite Forall_forall in Hp. by apply Hp.
Qed.

Lemma enqueue_wf c e : composer_wf c → composer_wf (enqueue e c).
Proof.
  intros [Hp Hc]. destruct e; try done. split; [|done]. cbn. apply Forall_app. split; [done|].
  constructor; [|constructor]. by eexists.
Qed.

Lemma with_budget_wf ms : composer_wf (with_budget ms).
Proof. split; [constructor|done]. Qed.

Lemma key_le_trans (e e' e'' : Effect) :
  cmp_le key_cmp e e' → cmp_le key_cmp e' e'' → cmp_le key_cmp e e''.
Proof. unfold cmp_le, key_cmp. rewrite !N.compare_le_iff. lia. Qed.

Lemma key_antisym (e e' : Effect) : key_cmp e e' = CompOpp (key_cmp e' e).
Proof. unfold key_cmp. apply N.compare_antisym. Qed.

Lemma filter_key_text l :
  filter (λ y, key_cmp (Effect.ForwardToUi (UiWidget.TextChunk "" "")) y = Eq) l
  = List.filter is_text_chunk l.
Proof.
  induction l as [|e l IH]; [done|]. rewrite filter_cons. cbn [List.filter]. rewrite IH.
  pose proof (sort_key_text e) as H. unfold key_cmp. cbn [sort_key priority_rank classify_widget].
  destruct (is_text_chunk e).
  - rewrite decide_True; [done|]. apply N.compare_eq_iff. symmetry. by apply H.
  - rewrite decide_False; [done|]. rewrite N.compare_eq_iff. intros E. symmetry in E.
    apply H in E. done.
Qed.

Lemma StronglySorted_weaken {A} (R R' : relation A) l :
  (∀ x y, R x y → R' x y) → StronglySorted R l → StronglySorted R' l.
Proof. induction 2; constructor; [done|]. eapply Forall_impl; eauto. Qed.

(** The contract of a frame.  The frame lists the chosen effects by priority,
    its total cost is within the budget, every text chunk pending is in it, in the
    order of arrival, none is kept back, and no effect appears from nowhere or is
    lost: what was pending is the frame, what stays pending, and the cosmetic
    effects older than three frames. *)
Theorem composer_frame_contract c :
  composer_wf c →
  let '(frame, c') := compose_frame c in
  StronglySorted (λ e e', sort_key e <= sort_key e')%N frame ∧
  (total_key frame <= composer_budget_ms c)%N ∧
  List.filter is_text_chunk frame = List.filter is_text_chunk (scheduled_effect <$> pending c) ∧
  Forall (λ s, is_text_chunk (scheduled_effect s) = false) (pending c') ∧
  scheduled_effect <$> pending c ≡ₚ frame ++ (scheduled_effect <$> pending c')
    ++ (scheduled_effect <$> List.filter expired (pending c)) ∧
  composer_wf c'.
Proof.
  intros Hwf. pose proof (compose_wf c Hwf) as Hwf'. revert Hwf'. destruct Hwf as [Hp Hc].
  unfold compose_frame. pose proof (loop_cost c Hc 0 (pending c) Hp) as Hcost.
  pose proof (loop_permutation c Hc 0 (pending c) Hp) as Hperm.
  destruct (loop_text c Hc 0 (pending c) Hp) as [Ht Hnt].
  destruct (compose_loop c 0 (pending c)) as [chosen retained]. cbn in *. intros Hwf'.
  split_and!; [| | |done| |done].
  - pose proof (sort_by_sorted key_cmp key_antisym key_le_trans chosen) as Hs.
    eapply StronglySorted_weaken; [|exact Hs]. intros e e'. unfold cmp_le, key_cmp.
    by rewrite N.compare_le_iff.
  - rewrite (total_key_permutation _ _ (sort_by_permutation key_cmp chosen)).
    apply Hcost, N.le_0_l.
  - rewrite <- Ht, <- !filter_key_text. apply (sort_by_stable key_cmp key_antisym key_le_trans).
  - by rewrite (sort_by_permutation key_cmp chosen).
Qed.

(** A sequence of frames: each takes the effects of a transition. *)
Definition frames (batches : list (list Effect)) (c : UiComposer) : list (list Effect) * UiComposer :=
  foldl (λ out effects, let '(frame, c) := process_effects effects out.2 in
                        (out.1 ++ [frame], c)) ([], c) batches.

Lemma composed_frames_cons effects batches c :
  frames (effects :: batches) c
  = let '(frame, c') := process_effects effects c in
    (frame :: (frames batches c').1, (frames batches c').2).
Proof.
  unfold frames. cbn [foldl fst snd]. destruct (process_effects effects c) as [frame c'].
  assert (∀ acc c, foldl (λ out effects, let '(frame, c) := process_effects effects out.2 in
      (out.1 ++ [frame], c)) (acc, c) batches
    = (acc ++ (frames batches c).1, (frames batches c).2)) as H.
  { clear. unfold frames. induction batches as [|b batches IH]; intros acc c; cbn [foldl fst snd].
    - by rewrite app_nil_r.
    - destruct (process_effects b c) as [frame c']. rewrite (IH (acc ++ [frame]) c').
      rewrite (IH ([] ++ [frame]) c'). cbn [fst snd app]. by rewrite <- (assoc_L (++)). }
  rewrite H. done.
Qed.

Definition ui_entries (effects : list Effect) : list ScheduledEffect :=
  omap (λ e, match e with
             | Effect.ForwardToUi w =>
                 Some {| scheduled_effect := e; effect_priority := classify_widget w;
                         age_frames := 0 |}
             | _ => None
             end) effects.

Lemma enqueue_all effects c :
  foldl (λ c e, if is_ui e then enqueue e c else c) c effects
  = set_pending (pending c ++ ui_entries effects) c.
Proof.
  revert c. induction effects as [|e effects IH]; intros c.
  - cbn. rewrite app_nil_r. by destruct c.
  - cbn [foldl]. destruct e; cbn [is_ui]; rewrite IH; try done.
    cbn. by rewrite <- (assoc_L (++)).
Qed.

(** A frame is composed of the queue extended with the new widgets. *)
Lemma process_effects_frame effects c :
  let queue := set_pending (pending c ++ ui_entries effects) c in
  process_effects effects c
  = (List.filter (λ e, negb (is_ui e)) effects ++ (compose_frame queue).1, (compose_frame queue).2).
Proof.
  cbn zeta. unfold process_effects. rewrite enqueue_all. by destruct (compose_frame _).
Qed.

Lemma queue_wf effects c :
  composer_wf c → composer_wf (set_pending (pending c ++ ui_entries effects) c).
Proof.
  intros [Hp Hc]. split; [|done]. cbn. apply Forall_app. split; [done|].
  induction effects as [|e effects IH]; [constructor|]. destruct e; try exact IH.
  constructor; [by eexists|exact IH].
Qed.

(** Entries that compete for the budget. *)
Definition schedulable (budget : N) (s : ScheduledEffect) : bool :=
  let k := sort_key (scheduled_effect s) in (0 <? k)%N && (k <=? budget)%N.
Definition competing (budget : N) (l : list ScheduledEffect) : nat :=
  length (List.filter (schedulable budget) l).

Section progress.
Context (c : UiComposer).
Hypothesis costs : cost_per_priority c = (0, 1, 2, 3)%N.
Let budget := composer_budget_ms c.

Lemma loop_app cost l1 l2 :
  Forall scheduled_wf l1 →
  compose_loop c cost (l1 ++ l2) =
    let r1 := compose_loop c cost l1 in
    let r2 := compose_loop c (cost + total_key r1.1) l2 in
    (r1.1 ++ r2.1, r1.2 ++ r2.2).
Proof using costs.
  intros H. revert cost. induction H as [|s l Hs H IH]; intros cost.
  - cbn. rewrite N.add_0_r. by destruct (compose_loop c cost l2).
  - cbn [app]. rewrite !(compose_loop_cons c costs) by done. destruct (expired s); [apply IH|].
    destruct (_ || _); rewrite IH; cbn zeta; cbn [fst snd app]; [|done].
    change (total_key (scheduled_effect s :: ?l)) with (sort_key (scheduled_effect s) + total_key l)%N.
    by rewrite N.add_assoc.
Qed.

Lemma retained_competing cost l :
  Forall scheduled_wf l → competing budget (compose_loop c cost l).2 ≤ competing budget l.
Proof using costs.
  intros H. revert cost. induction H as [|s l Hs H IH]; intros cost; [done|].
  rewrite (compose_loop_cons c costs) by done. unfold competing in *. cbn [List.filter].
  destruct (expired s); [|destruct (_ || _)]; cbn [snd].
  - specialize (IH cost). destruct (schedulable budget s); cbn [length]; lia.
  - specialize (IH (cost + sort_key (scheduled_effect s))%N).
    destruct (schedulable budget s); cbn [length]; lia.
  - specialize (IH cost). cbn [List.filter].
    change (schedulable budget (grow_older s)) with (schedulable budget s).
    destruct (schedulable budget s); cbn [length]; lia.
Qed.

(** Whoever competes first is served; when nobody does, nothing is spent. *)
Lemma first_served l :
  Forall scheduled_wf l →
  (competing budget l = 0 → total_key (compose_loop c 0 l).1 = 0%N) ∧
  (0 < competing budget l → competing budget (compose_loop c 0 l).2 < competing budget l).
Proof using costs.
  induction 1 as [|s l Hs H [IH1 IH2]]; [done|].
  rewrite (compose_loop_cons c costs) by done. unfold competing in *. cbn [List.filter].
  assert (schedulable budget s = true ↔
    (0 < sort_key (scheduled_effect s) ∧ sort_key (scheduled_effect s) <= budget)%N) as Es.
  { unfold schedulable. rewrite andb_true_iff, N.ltb_lt, N.leb_le. done. }
  pose proof (retained_competing (0 + sort_key (scheduled_effect s)) l H) as Hr.
  pose proof (retained_competing 0 l H) as Hr0. unfold competing in *.
  destruct (expired s).
  - destruct (schedulable budget s); cbn [length]; split; lia || done.
  - pose proof (sort_key_text (scheduled_effect s)) as Ht. rewrite N.add_0_l in *.
    case_bool_decide as Hle; cbn [orb].
    + cbn [fst snd]. destruct (schedulable budget s) eqn:E; cbn [length]; [split; lia|].
      assert (sort_key (scheduled_effect s) = 0%N) as E0.
      { assert (¬ (0 < sort_key (scheduled_effect s) ∧ sort_key (scheduled_effect s) <= budget))%N
          as Hn by (by rewrite <- Es).
        unfold budget in Hn. lia. }
      rewrite E0. change (total_key (scheduled_effect s :: ?l))
        with (sort_key (scheduled_effect s) + total_key l)%N. rewrite E0. split; [exact IH1|exact IH2].
    + destruct (is_text_chunk (scheduled_effect s)) eqn:Etext; [lia|]. cbn [fst snd List.filter].
      change (schedulable budget (grow_older s)) with (schedulable budget s).
      assert (schedulable budget s = false) as ->.
      { apply not_true_iff_false. rewrite Es. unfold budget. tauto. }
      split; [exact IH1|exact IH2].
Qed.
End progress.

(** One frame: served, or fewer competitors ahead. *)
Lemma frame_progress c pre s post :
  composer_wf c → pending c = pre ++ s :: post →
  effect_priority s ≠ EffectPriority.Cosmetic →
  (sort_key (scheduled_effect s) <= composer_budget_ms c)%N →
  scheduled_effect s ∈ (compose_frame c).1 ∨
  ∃ pre' post', pending (compose_frame c).2 = pre' ++ grow_older s :: post' ∧
    competing (composer_budget_ms c) pre' < competing (composer_budget_ms c) pre.
Proof.
  intros [Hp Hc] E Hcos Hb. unfold compose_frame. rewrite E in *.
  apply Forall_app in Hp as [Hpre Hs]. inversion_clear Hs as [|? ? Hs1 Hpost].
  rewrite (loop_app c Hc) by done. cbn zeta.
  destruct (first_served c Hc pre Hpre) as [H0 Hlt].
  destruct (compose_loop c 0 pre) as [ch1 rt1]. cbn [fst snd] in *. rewrite N.add_0_l.
  rewrite (compose_loop_cons c Hc) by done.
  assert (expired s = false) as ->.
  { unfold expired. by rewrite bool_decide_eq_false_2. }
  destruct (bool_decide _ || is_text_chunk _) eqn:Ech; cbn [fst snd].
  - left. rewrite (sort_by_permutation key_cmp), elem_of_app. right. left.
  - right. exists rt1. eexists. split; [done|]. apply Hlt.
    destruct (decide (competing (composer_budget_ms c) pre = 0)) as [Hz|]; [|lia].
    exfalso. rewrite (H0 Hz), N.add_0_l, bool_decide_eq_true_2 in Ech by done. done.
Qed.

(** No starvation.  Whatever effects arrive meanwhile, a pending effect that is
    not cosmetic and whose cost fits the budget is shown at the latest after as
    many further frames as there are entries ahead of it that compete for the
    budget. *)
Theorem composer_liveness batches c pre s post :
  composer_wf c → pending c = pre ++ s :: post →
  effect_priority s ≠ EffectPriority.Cosmetic →
  (sort_key (scheduled_effect s) <= composer_budget_ms c)%N →
  competing (composer_budget_ms c) pre < length batches →
  ∃ i frame, (frames batches c).1 !! i = Some frame ∧
    i ≤ competing (composer_budget_ms c) pre ∧ scheduled_effect s ∈ frame.
Proof.
  revert c pre s post. induction batches as [|effects batches IH];
    intros c pre s post Hwf E Hcos Hb Hn; [cbn in Hn; lia|].
  rewrite composed_frames_cons, process_effects_frame.
  set (queue := set_pending (pending c ++ ui_entries effects) c).
  assert (composer_wf queue) as Hq by by apply queue_wf.
  assert (pending queue = pre ++ s :: (post ++ ui_entries effects)) as Eq
    by (cbn; by rewrite E, <- (assoc_L (++))).
  destruct (frame_progress queue pre s _ Hq Eq Hcos Hb) as [Hin|(pre' & post' & E' & Hlt)].
  - exists 0. eexists. split; [done|]. split; [lia|]. apply elem_of_app. by right.
  - pose proof (compose_wf queue Hq) as Hwf'.
    assert (composer_budget_ms (compose_frame queue).2 = composer_budget_ms c) as Hbud.
    { unfold compose_frame. by destruct (compose_loop _ _ _). }
    destruct (IH (compose_frame queue).2 pre' (grow_older s) post' Hwf' E' Hcos)
      as (i & frame & Hi & Hle & Hin).
    + by rewrite Hbud.
    + rewrite Hbud. cbn [length] in Hn. change (composer_budget_ms queue) with (composer_budget_ms c) in *.
      lia.
    + exists (S i), frame. split; [done|]. rewrite Hbud in Hle.
      change (composer_budget_ms queue) with (composer_budget_ms c) in *. split; [lia|exact Hin].
Qed.

(** Cosmetic entries under a budget below their cost: never chosen, and young. *)
Definition cosmetics_young (c : UiComposer) : Prop :=
  Forall (λ s, effect_priority s = EffectPriority.Cosmetic → (age_frames s <= 4)%N) (pending c).

Lemma frame_small_budget c :
  composer_wf c → (composer_budget_ms c <= 2)%N → cosmetics_young c →
  Forall (λ e, sort_key e ≠ 3%N) (compose_frame c).1 ∧ cosmetics_young (compose_frame c).2.
Proof.
  intros Hwf Hb Hy. pose proof (composer_frame_contract c Hwf) as H.
  destruct Hwf as [Hp Hc]. pose proof (loop_retained c Hc 0 (pending c) Hp) as Hr.
  revert H Hr. unfold compose_frame.
  destruct (compose_loop c 0 (pending c)) as [chosen retained]. intros (_ & Hcost & _) Hr.
  cbn [fst snd] in *. split.
  - revert Hcost. generalize (sort_by key_cmp chosen). clear -Hb. intros frame. unfold total_key.
    induction frame as [|e frame IH]; [by constructor|]. cbn. intros Hle.
    constructor; [lia|apply IH; lia].
  - unfold cosmetics_young in *. cbn. rewrite Forall_forall in *. intros s Hs Hcos.
    destruct (Hr s Hs) as (s0 & -> & Hin & Hex). cbn in *. unfold expired in Hex.
    rewrite bool_decide_eq_true_2 in Hex by done. cbn in Hex. apply N.ltb_ge in Hex. lia.
Qed.

(** The default budget hides cosmetic effects.  A composer made by [new] (2 ms)
    never puts a cosmetic effect (animation, transition, spinner, test or unknown
    widget: cost 3) in a frame, whatever effects it is given, and keeps none for
    more than five frames. *)
Theorem default_budget_hides_cosmetics batches :
  let '(fs, c) := frames batches UiComposer_new in
  Forall (λ frame, Forall (λ e, is_ui e = true → sort_key e ≠ 3%N) frame) fs ∧ cosmetics_young c.
Proof.
  assert (∀ c, composer_wf c → (composer_budget_ms c <= 2)%N → cosmetics_young c →
    let '(fs, c') := frames batches c in
    Forall (λ frame, Forall (λ e, is_ui e = true → sort_key e ≠ 3%N) frame) fs ∧
    cosmetics_young c') as H.
  { induction batches as [|effects batches IH]; intros c Hwf Hb Hy; [by repeat constructor|].
    rewrite composed_frames_cons, process_effects_frame.
    set (queue := set_pending (pending c ++ ui_entries effects) c).
    assert (composer_wf queue) as Hq by by apply queue_wf.
    assert (cosmetics_young queue) as Hyq.
    { apply Forall_app. split; [exact Hy|]. apply Forall_forall. unfold ui_entries.
      intros s (e & _ & He)%list_elem_of_omap. destruct e; try done. injection He as <-. cbn. lia. }
    destruct (frame_small_budget queue Hq Hb Hyq) as [Hf Hy'].
    pose proof (IH (compose_frame queue).2 (compose_wf queue Hq)) as IHq.
    destruct (frames batches _) as [fs c']. cbn [fst snd].
    destruct IHq as [Hfs Hc'].
    - unfold compose_frame. by destruct (compose_loop _ _ _).
    - done.
    - split; [|done]. constructor; [|done]. apply Forall_app. split.
      + apply Forall_forall. intros e He. apply list_elem_of_In, filter_In in He as [_ He].
        intros Hui. by rewrite Hui in He.
      + eapply Forall_impl; [exact Hf|]. auto. }
  apply H; [apply with_budget_wf|done|constructor].
Qed.

(** ** Witnesses *)

Definition demo_widget (t : string) : Effect := Effect.ForwardToUi (UiWidget.Custom t []).
Definition demo_status (t : string) : Effect := Effect.ForwardToUi (UiWidget.Status t).
Definition demo_text (t : string) : Effect := Effect.ForwardToUi (UiWidget.TextChunk "a" t).

Definition demo_composer : UiComposer :=
  enqueue (demo_text "x") (enqueue (demo_status "s") (enqueue (demo_widget "focus")
    (enqueue (demo_widget "spinner") UiComposer_new))).

Lemma demo_composer_wf : composer_wf demo_composer.
Proof. unfold demo_composer. do 4 apply enqueue_wf. apply with_budget_wf. Qed.

Lemma composer_frame_contract_witness :
  (compose_frame demo_composer).1 = [demo_text "x"; demo_widget "focus"] ∧
  (total_key (compose_frame demo_composer).1 <= 2)%N.
Proof.
  split; [vm_compute; reflexivity|].
  pose proof (composer_frame_contract demo_composer demo_composer_wf) as H.
  destruct (compose_frame demo_composer) as [frame c']. apply H.
Defined.

(** The status waits behind the focus, and is shown in the second frame although
    another focus arrives. *)
Lemma composer_liveness_witness :
  ∃ i frame, (frames [[]; [demo_widget "focus"]] demo_composer).1 !! i = Some frame ∧ i ≤ 1 ∧
    demo_status "s" ∈ frame.
Proof.
  apply (composer_liveness [[]; [demo_widget "focus"]] demo_composer
    (take 2 (pending demo_composer))
    {| scheduled_effect := demo_status "s"; effect_priority := EffectPriority.Semantic;
       age_frames := 0 |} (drop 3 (pending demo_composer))).
  - exact demo_composer_wf.
  - vm_compute. reflexivity.
  - discriminate.
  - vm_compute. discriminate.
  - vm_compute. lia.
Defined.

(** Entries are served as they arrived, not by priority: a status that came first
    takes the whole budget, and the focus behind it waits. *)
Example composer_is_first_come :
  (compose_frame (enqueue (demo_widget "focus") (enqueue (demo_status "s") UiComposer_new))).1
  = [demo_status "s"].
Proof. reflexivity. Qed.
