(* ===== verification/Sse.v ===== *)
(** * Server-sent events of the OpenAI provider (brioche-provider-openai/src/:
      sse.rs, extractor.rs, client/retry.rs)

    A JSON value is the enum of serde_json; parsing a text into one is a parameter,
    as is the Unicode lower-casing of a model name.  Texts are byte sequences;
    where the code counts or takes [chars], the decoder of Utf8.v splits them. *)
From S2P Require Import Prelude Utf8.

(** ** serde_json: [Value] and its accessors *)

Inductive Number : Type :=
  | PosInt (n : N)
  | NegInt (z : Z)
  | Float (bits : N).

Inductive Value : Type :=
  | Null
  | Bool (b : bool)
  | Num (n : Number)
  | Str (s : string)
  | Array (l : list Value)
  | Object (l : list (string * Value)).

Fixpoint object_get (key : string) (l : list (string * Value)) : option Value :=
  match l with
  | [] => None
  | (k, v) :: l' => if decide (k = key) then Some v else object_get key l'
  end.

Definition get (key : string) (v : Value) : option Value :=
  match v with Object l => object_get key l | _ => None end.
Definition as_str (v : Value) : option string := match v with Str s => Some s | _ => None end.
Definition as_array (v : Value) : option (list Value) :=
  match v with Array l => Some l | _ => None end.
Definition as_u64 (v : Value) : option N :=
  match v with Num (PosInt n) => Some n | _ => None end.

(** ** [str]: chars and whitespace *)

Fixpoint chars_go (fuel : nat) (l : bytes) : list bytes :=
  match fuel, l with
  | S fuel', b :: l' =>
      let n := (next_seq b l').2 in take n l :: chars_go fuel' (drop n l)
  | _, _ => []
  end.
Definition chars (l : bytes) : list bytes := chars_go (length l) l.
Definition char_count (s : string) : N := N.of_nat (length (chars (bytes_of_string s))).
(** [s.chars().take(n).collect::<String>()] *)
Definition take_chars (n : nat) (s : string) : string :=
  string_of_bytes (mjoin (take n (chars (bytes_of_string s)))).

(** Unicode White_Space, as UTF-8. *)
Definition is_whitespace (c : bytes) : bool :=
  match c with
  | [b] => byte_in 0x09 0x0D b || byte_in 0x20 0x20 b
  | [b0; b1] => byte_in 0xC2 0xC2 b0 && (byte_in 0x85 0x85 b1 || byte_in 0xA0 0xA0 b1)
  | [b0; b1; b2] =>
      (byte_in 0xE1 0xE1 b0 && byte_in 0x9A 0x9A b1 && byte_in 0x80 0x80 b2) ||
      (byte_in 0xE2 0xE2 b0 && byte_in 0x80 0x80 b1 &&
         (byte_in 0x80 0x8A b2 || byte_in 0xA8 0xA9 b2 || byte_in 0xAF 0xAF b2)) ||
      (byte_in 0xE2 0xE2 b0 && byte_in 0x81 0x81 b1 && byte_in 0x9F 0x9F b2) ||
      (byte_in 0xE3 0xE3 b0 && byte_in 0x80 0x80 b1 && byte_in 0x80 0x80 b2)
  | _ => false
  end.

Fixpoint trim_start (l : list bytes) : list bytes :=
  match l with
  | c :: l' => if is_whitespace c then trim_start l' else l
  | [] => []
  end.
Definition trim (l : bytes) : bytes :=
  mjoin (rev (trim_start (rev (trim_start (chars l))))).

Fixpoint strip_prefix (p l : bytes) : option bytes :=
  match p, l with
  | [], _ => Some l
  | b :: p', b' :: l' => if decide (b = b') then strip_prefix p' l' else None
  | _ :: _, [] => None
  end.

(** ** sse.rs *)

Definition DEFAULT_MAX_CONSECUTIVE_FAILURES : N := 5%N.

Inductive SseError : Type := TooManyMalformedLines (count : N) (preview : string).

Definition SseError_to_string (e : SseError) : string :=
  match e with
  | TooManyMalformedLines count preview =>
      "aborting SSE stream after " +:+ pretty count +:+
      " consecutive malformed data: lines; last line preview: " +:+ preview
  end.

Record SseParser := {
  buffer : bytes;
  consecutive_failures : N;
  max_consecutive_failures : N
}.

Definition with_threshold (max : N) : SseParser :=
  {| buffer := []; consecutive_failures := 0; max_consecutive_failures := max |}.
Definition SseParser_new : SseParser := with_threshold DEFAULT_MAX_CONSECUTIVE_FAILURES.

Definition remaining_buffer (p : SseParser) : bytes := buffer p.

(** [find('\n')] and [drain(..=pos)]: the first line with its newline, and the rest. *)
Fixpoint next_line (l : bytes) : option (bytes * bytes) :=
  match l with
  | [] => None
  | b :: l' =>
      if decide (b = x0a) then Some ([b], l')
      else match next_line l' with
           | Some (line, rest) => Some (b :: line, rest)
           | None => None
           end
  end.

Section sse.
Context (from_str : bytes → option Value).

Definition DATA_PREFIX : bytes := bytes_of_string "data: ".
Definition DONE_MARKER : bytes := bytes_of_string "[DONE]".

Inductive LineKind : Type :=
  | Ignored
  | Event (v : Value)
  | Malformed (json_str : bytes).

Definition read_line (line : bytes) : LineKind :=
  match strip_prefix DATA_PREFIX (trim line) with
  | None => Ignored
  | Some json_str =>
      if decide (json_str = DONE_MARKER) then Ignored
      else match from_str json_str with Some v => Event v | None => Malformed json_str end
  end.

(** The loop on the buffer; fuel is its length.  An abort returns what is left of
    the buffer and drops the events read so far. *)
Fixpoint feed_loop (fuel : nat) (max : N) (buf : bytes) (failures : N) (lines : list Value) :
    result (list Value) SseError * SseParser :=
  let p buf failures :=
    {| buffer := buf; consecutive_failures := failures; max_consecutive_failures := max |} in
  match fuel with
  | O => (Ok lines, p buf failures)
  | S fuel' =>
      match next_line buf with
      | None => (Ok lines, p buf failures)
      | Some (line, rest) =>
          match read_line line with
          | Ignored => feed_loop fuel' max rest failures lines
          | Event v => feed_loop fuel' max rest 0 (lines ++ [v])
          | Malformed json_str =>
              let failures := (failures + 1)%N in
              if (max <=? failures)%N then
                (Err (TooManyMalformedLines failures
                        (take_chars 200 (string_of_bytes json_str))), p rest failures)
              else feed_loop fuel' max rest failures lines
          end
      end
  end.

Definition feed (chunk : bytes) (p : SseParser) : result (list Value) SseError * SseParser :=
  let buf := buffer p ++ lossy chunk in
  feed_loop (length buf) (max_consecutive_failures p) buf (consecutive_failures p) [].
End sse.

(** ** extractor.rs *)

Record ExtractedText := { text : string; is_reasoning : bool }.

(** [get(..).and_then(as_str).filter(non-empty)] *)
Definition non_empty_str (v : option Value) : option string :=
  match v with
  | Some (Str s) => if decide (s = "") then None else Some s
  | _ => None
  end.

Definition ChunkExtractor : Type := Value → option ExtractedText.

Definition StandardExtractor : ChunkExtractor :=
  λ delta, (λ s, {| text := s; is_reasoning := false |}) <$> non_empty_str (get "content" delta).

Definition ReasoningModelExtractor : ChunkExtractor :=
  λ delta,
    let reasoning := match get "reasoning" delta with
                     | Some v => Some v
                     | None => get "reasoning_content" delta
                     end in
    match non_empty_str reasoning with
    | Some s => Some {| text := s; is_reasoning := true |}
    | None => StandardExtractor delta
    end.

Definition str_contains (pattern s : string) : bool :=
  match String.index 0 pattern s with Some _ => true | None => false end.

Definition StreamErrorDetector : Type := Value → option string.

Definition NoOpErrorDetector : StreamErrorDetector := λ _, None.

Definition OpenRouterErrorDetector : StreamErrorDetector :=
  λ event,
    match get "error" event with
    | None => None
    | Some error =>
        let code := match get "code" error with
                    | Some c => match as_u64 c with Some n => n | None => 0%N end
                    | None => 0%N
                    end in
        let message := match get "message" error with
                       | Some m => match as_str m with Some s => s | None => "unknown provider error" end
                       | None => "unknown provider error"
                       end in
        Some ("Provider error (code " +:+ pretty code +:+ "): " +:+ message)
    end.

Section dispatch.
Context (to_lowercase : string → string).

Definition chunk_extractor_for_model (model : string) : ChunkExtractor :=
  let lower := to_lowercase model in
  if str_contains "qwen" lower || str_contains "deepseek" lower || str_contains "minimax" lower
  then ReasoningModelExtractor else StandardExtractor.

Definition error_detector_for_model (model : string) : StreamErrorDetector :=
  let lower := to_lowercase model in
  if str_contains "/" lower || str_contains "openrouter" lower
  then OpenRouterErrorDetector else NoOpErrorDetector.
End dispatch.

(** ** client/retry.rs *)

Record RetryConfig := { max_retries : N; base_backoff_ms : N; max_backoff_ms : N }.

Definition RetryConfig_none : RetryConfig :=
  {| max_retries := 0; base_backoff_ms := 0; max_backoff_ms := 0 |}.
Definition RetryConfig_default : RetryConfig :=
  {| max_retries := 2; base_backoff_ms := 1000; max_backoff_ms := 30000 |}.

(** [1u64 << shift] with [shift] at most 63; [saturating_mul]. *)
Definition backoff_ms (attempt : N) (c : RetryConfig) : N :=
  if (base_backoff_ms c =? 0)%N || (max_retries c =? 0)%N then 0
  else
    let shift := N.min (attempt - 1) 63 in
    let raw := N.min (u64_modulus - 1) (base_backoff_ms c * N.shiftl 1 shift) in
    N.min raw (max_backoff_ms c).

Definition is_retriable_status (status : N) : bool :=
  ((500 <=? status) && (status <=? 599))%N || (status =? 429)%N.

(** A missing or unreadable header gives nothing; seconds are turned into
    milliseconds. *)
Definition parse_retry_after (secs : option N) (max_delay_ms : N) : option N :=
  (λ s, N.min (s * 1000) max_delay_ms) <$> secs.

Definition MAX_ERROR_BODY_BYTES : nat := 64 * 1024.

(** The body as the chunks read before the end or a read error. *)
Fixpoint collect_body (limit : nat) (chunks : list bytes) (collected : bytes) : bytes :=
  match chunks with
  | [] => collected
  | chunk :: rest =>
      let remaining := limit - length collected in
      if decide (remaining = 0) then collected
      else
        let collected := collected ++ take remaining chunk in
        if decide (limit ≤ length collected) then collected
        else collect_body limit rest collected
  end.

Definition limited_error_body (limit : nat) (chunks : list bytes) : string :=
  from_utf8_lossy (collect_body limit chunks []).
