(* ===== verification/Provider.v ===== *)
(** * The OpenAI client (brioche-provider-openai/src/: config.rs, request.rs,
      client.rs, client/stream.rs, client/request_flow.rs, client/errors.rs)

    The client is a record threaded through its methods, together with the list of
    what it did: inputs and signals handed to the shell, messages broadcast to the
    user interface, waits.  The shell may refuse an input or a signal (a
    parameter of what was done so far).  The network is data: the answers to the
    successive requests, and the items of the response stream.  The JSON parser, the
    [Debug] forms in diagnostics, the URL parser and the status texts are
    parameters. *)
From S2P Require Import Prelude Utf8 Types Effects Persistence GovTypes Sse.

(** ** llm_client.rs: [LlmChunk] *)

Module LlmChunk.
Inductive LlmChunk : Type :=
  | Text (s : string)
  | Reasoning (s : string)
  | ToolCallStart (id name : string)
  | ToolArgument (id fragment : string)
  | ToolCallDone (id : string)
  | ToolResult (name output : string)
  | Done
  | Error (s : string)
  | Warning (s : string)
  | Status (s : string).
End LlmChunk.
Abbreviation LlmChunk := LlmChunk.LlmChunk.

(** ** config.rs *)

Inductive OpenAiConfigError : Type :=
  | EmptyApiKey
  | EmptyModel
  | InvalidBaseUrl (url : string)
  | BlockedBaseUrl (host : string).

Definition OpenAiConfigError_to_string (e : OpenAiConfigError) : string :=
  match e with
  | EmptyApiKey => "api_key must not be empty"
  | EmptyModel => "model must not be empty"
  | InvalidBaseUrl url => "base_url is not a valid HTTP(S) URL: " +:+ url
  | BlockedBaseUrl host => "base_url host is not allowed: " +:+ host
  end.

Record OpenAiConfig := {
  api_key : string;
  model : string;
  base_url : string;
  max_tokens : N;
  request_timeout_ms : N;
  allow_loopback : bool;
  reasoning_effort : option string
}.

Definition OpenAiConfig_default : OpenAiConfig :=
  {| api_key := ""; model := "gpt-4o-mini"; base_url := "https://api.openai.com/v1";
     max_tokens := 4096; request_timeout_ms := 120000; allow_loopback := false;
     reasoning_effort := None |}.

(** [std::net::IpAddr]: octets, or eight 16-bit segments. *)
Inductive IpAddr : Type :=
  | V4 (a b c d : N)
  | V6 (segments : list N).

(** [is_loopback], [is_private], [is_link_local], [is_unspecified]. *)
Definition v4_is_loopback (a : N) : bool := (a =? 127)%N.
Definition v4_is_private (a b : N) : bool :=
  (a =? 10)%N || ((a =? 172) && (16 <=? b) && (b <=? 31))%N || ((a =? 192) && (b =? 168))%N.
Definition v4_is_link_local (a b : N) : bool := ((a =? 169) && (b =? 254))%N.
Definition v6_is_loopback (s : list N) : bool := bool_decide (s = [0; 0; 0; 0; 0; 0; 0; 1]%N).
Definition v6_is_unspecified (s : list N) : bool := bool_decide (s = replicate 8 0%N).

Section config.
Context (parse_ip : string → option IpAddr).
(** [Url::parse]: the scheme and the host. *)
Context (parse_url : string → option (string * option string)).

Definition is_bracket (a : ascii) : bool := bool_decide (a ∈ ["["; "]"]%char).

Fixpoint trim_start_brackets (s : string) : string :=
  match s with
  | String a s' => if is_bracket a then trim_start_brackets s' else s
  | EmptyString => EmptyString
  end.
Fixpoint trim_end_brackets (s : string) : string :=
  match s with
  | EmptyString => EmptyString
  | String a s' =>
      match trim_end_brackets s' with
      | EmptyString => if is_bracket a then EmptyString else String a EmptyString
      | t => String a t
      end
  end.

Definition ascii_lower (a : ascii) : ascii :=
  let n := N_of_ascii a in if ((65 <=? n) && (n <=? 90))%N then ascii_of_N (n + 32) else a.
Fixpoint to_ascii_lowercase (s : string) : string :=
  match s with
  | EmptyString => EmptyString
  | String a s' => String (ascii_lower a) (to_ascii_lowercase s')
  end.

Definition is_blocked_host (host : string) : bool :=
  let normalized := to_ascii_lowercase (trim_end_brackets (trim_start_brackets host)) in
  if bool_decide (normalized ∈ ["localhost"; "localhost.localdomain"]) then true
  else
    match parse_ip normalized with
    | Some (V4 a b c d) =>
        v4_is_loopback a || v4_is_private a b || v4_is_link_local a b
        || ((a =? 0) && (b =? 0) && (c =? 0) && (d =? 0))%N || (a =? 0)%N
    | Some (V6 segments) =>
        let first_segment := match segments with s :: _ => s | [] => 0%N end in
        v6_is_loopback segments || v6_is_unspecified segments
        || (N.land first_segment 0xfe00 =? 0xfc00)%N
    | None => false
    end.

Definition validate_base_url (url : string) (loopback : bool) : result unit OpenAiConfigError :=
  match parse_url url with
  | None => Err (InvalidBaseUrl url)
  | Some (scheme, host) =>
      if negb (bool_decide (scheme ∈ ["http"; "https"])) then Err (InvalidBaseUrl url)
      else match host with
           | None => Err (InvalidBaseUrl url)
           | Some host =>
               if negb loopback && is_blocked_host host then Err (BlockedBaseUrl host) else Ok tt
           end
  end.

Definition validate (c : OpenAiConfig) : result unit OpenAiConfigError :=
  if decide (api_key c = "") then Err EmptyApiKey
  else if decide (model c = "") then Err EmptyModel
  else validate_base_url (base_url c) (allow_loopback c).
End config.

(** ** request.rs *)

Definition simple_msg (role content : string) : Value :=
  Object [("role", Str role); ("content", Str content)].

Definition MAX_TOOL_RESULT_CHARS : nat := 4000.
Definition MAX_MESSAGES_PER_REQUEST : nat := 30.

Definition truncate (s : string) (max_len : nat) : string :=
  if (char_count s <=? N.of_nat max_len)%N then s else take_chars (max_len - 3) s +:+ "...".

Definition openai_tool_call (id name args : string) : Value :=
  Object [("id", Str id); ("type", Str "function");
          ("function", Object [("name", Str name); ("arguments", Str args)])].

Definition build_message (msg : ChatMessage) : Value :=
  match msg with
  | ChatMessage.System content => simple_msg "system" content
  | ChatMessage.User content => simple_msg "user" content
  | ChatMessage.Assistant content reasoning tool_calls =>
      Object ([("role", Str "assistant"); ("content", Str content)]
        ++ match tool_calls with
           | [] => []
           | _ => [("tool_calls",
                    Array ((λ tc, openai_tool_call (tool_id tc) (tool_name tc) (arguments tc))
                             <$> tool_calls))]
           end
        ++ match reasoning with
           | Some r => if decide (r = "") then [] else [("reasoning", Str r)]
           | None => []
           end)
  | ChatMessage.ToolRequest id name args =>
      Object [("role", Str "assistant"); ("content", Str "");
              ("tool_calls", Array [openai_tool_call id name args])]
  | ChatMessage.ToolResult id content =>
      Object [("role", Str "tool"); ("tool_call_id", Str id);
              ("content", Str (truncate content MAX_TOOL_RESULT_CHARS))]
  end.

(** Where the window starts, and whether the system message is put before it. *)
Definition window (history : list ChatMessage) : nat * bool :=
  if decide (MAX_MESSAGES_PER_REQUEST < length history) then
    match history with
    | ChatMessage.System _ :: _ => (length history - (MAX_MESSAGES_PER_REQUEST - 1), true)
    | _ => (length history - MAX_MESSAGES_PER_REQUEST, false)
    end
  else (0, false).

Definition build_messages (history : list ChatMessage) : list Value :=
  let '(start_idx, keep_first) := window history in
  (if (keep_first : bool)
   then match history with
        | ChatMessage.System content :: _ => [simple_msg "system" content]
        | _ => []
        end
   else []) ++ (build_message <$> drop start_idx history).

Definition build_request_body (model : string) (messages : list Value) (max_tokens : N)
    (reasoning_effort : option string) (tools : option (list Value)) (stream : bool) : Value :=
  Object ([("model", Str model); ("messages", Array messages);
           ("max_tokens", Num (PosInt max_tokens)); ("stream", Bool stream)]
    ++ match reasoning_effort with
       | Some effort => [("reasoning", Object [("effort", Str effort)])]
       | None => []
       end
    ++ match tools with
       | Some (t :: ts) => [("tools", Array (t :: ts)); ("tool_choice", Str "auto")]
       | _ => []
       end).

(** ** client.rs, client/stream.rs: state *)

Inductive ClientOut : Type :=
  | Input (input : EngineInput)
  | Signal (signal : SystemSignal)
  | Ui (chunk : LlmChunk)
  | Sleep (ms : N).

Record OpenAiLlmClient := {
  pending_text : string;
  pending_reasoning_text : string;
  mirror : list ChatMessage;
  outs : list ClientOut
}.

Definition OpenAiLlmClient_new : OpenAiLlmClient :=
  {| pending_text := ""; pending_reasoning_text := ""; mirror := []; outs := [] |}.

Definition Client (A : Type) : Type := State OpenAiLlmClient (result A ShellError).

Definition ok {A} (a : A) : Client A := ret (Ok a).

Definition emit (o : ClientOut) : State OpenAiLlmClient unit :=
  modify (λ c, {| pending_text := pending_text c; pending_reasoning_text := pending_reasoning_text c;
                  mirror := mirror c; outs := outs c ++ [o] |}).
Definition push_pending (s : string) : State OpenAiLlmClient unit :=
  modify (λ c, {| pending_text := pending_text c +:+ s;
                  pending_reasoning_text := pending_reasoning_text c;
                  mirror := mirror c; outs := outs c |}).
Definition push_pending_reasoning (s : string) : State OpenAiLlmClient unit :=
  modify (λ c, {| pending_text := pending_text c;
                  pending_reasoning_text := pending_reasoning_text c +:+ s;
                  mirror := mirror c; outs := outs c |}).
(** [push_message] *)
Definition push_message (m : ChatMessage) : State OpenAiLlmClient unit :=
  modify (λ c, {| pending_text := pending_text c; pending_reasoning_text := pending_reasoning_text c;
                  mirror := mirror c ++ [m]; outs := outs c |}).
(** [mem::take] of both buffers. *)
Definition take_pending : State OpenAiLlmClient (string * string) :=
  λ c, ((pending_text c, pending_reasoning_text c),
        {| pending_text := ""; pending_reasoning_text := ""; mirror := mirror c; outs := outs c |}).

Record ToolCallAccumulator := {
  acc_id : string;
  acc_name : string;
  acc_args : string;
  start_emitted : bool
}.

Definition ToolCallAccumulator_default : ToolCallAccumulator :=
  {| acc_id := ""; acc_name := ""; acc_args := ""; start_emitted := false |}.

Record SseAccumulators := {
  first_chunk : bool;
  content_chars : N;
  reasoning_chars : N;
  tool_acc : gmap N ToolCallAccumulator;
  finish_reason : option string
}.

Definition SseAccumulators_new : SseAccumulators :=
  {| first_chunk := false; content_chars := 0; reasoning_chars := 0; tool_acc := ∅;
     finish_reason := None |}.

(** [StreamOutcome] has the same fields but [first_chunk]. *)
Definition StreamOutcome : Type := SseAccumulators.

(** [BTreeMap::values]. *)
Definition values (m : gmap N ToolCallAccumulator) : list ToolCallAccumulator :=
  (sort_by (λ p q, (p.1 ?= q.1)%N) (map_to_list m)).*2.

Definition empty_path : ExecutionPath := {| nodes := [] |}.

(** ** client.rs: emitting *)

(** The loop of [segment_bytes]; each round takes at least one byte when
    [max_chunk] is positive. *)
Fixpoint segment_loop (fuel : nat) (max_chunk : nat) (l : bytes) : list bytes :=
  match fuel, l with
  | S fuel', _ :: _ => take max_chunk l :: segment_loop fuel' max_chunk (drop max_chunk l)
  | _, _ => []
  end.
Definition segment_bytes (l : bytes) (max_chunk : nat) : list bytes :=
  if decide (length l ≤ max_chunk) then [l] else segment_loop (length l) max_chunk l.

Section client.
Context (refuse : list ClientOut → ClientOut → option ShellError).
Context (from_str : bytes → option Value).
Context (debug : option string → string).
Context (extract_text : ChunkExtractor) (detect_error : StreamErrorDetector).

Definition json_ok (s : string) : bool :=
  match from_str (bytes_of_string s) with Some _ => true | None => false end.

(** [shell.send_input], [shell.send_system_signal]. *)
Definition hand_over (o : ClientOut) : Client unit :=
  λ c, match refuse (outs c) o with
       | Some err => (Err err, c)
       | None => let '(_, c) := emit o c in (Ok tt, c)
       end.
Definition send_input (e : StreamEvent) : Client unit := hand_over (Input (EngineInput.LlmStream e)).
Definition send_system_signal (s : SystemSignal) : Client unit := hand_over (Signal s).
Definition ui (chunk : LlmChunk) : Client unit := emit (Ui chunk) ;;! ok tt.

Fixpoint send_all (es : list StreamEvent) : Client unit :=
  match es with
  | [] => ok tt
  | e :: es' => _ <-? send_input e ;; send_all es'
  end.

Definition emit_text_chunk (s : string) : Client unit :=
  push_pending s ;;!
  _ <-? send_all ((λ chunk, StreamEvent.TextChunk empty_path chunk)
                    <$> segment_bytes (bytes_of_string s) MAX_INLINE_CHUNK) ;;
  ui (LlmChunk.Text s).

Definition broadcast_reasoning (s : string) : Client unit :=
  push_pending_reasoning s ;;! ui (LlmChunk.Reasoning s).

Definition emit_tool_call_start (id name : string) : Client unit :=
  _ <-? send_input (StreamEvent.ToolCallStart empty_path id name) ;;
  ui (LlmChunk.ToolCallStart id name).

Definition emit_tool_argument (id fragment : string) : Client unit :=
  _ <-? send_all ((λ chunk, StreamEvent.ToolArgumentChunk empty_path id chunk)
                    <$> segment_bytes (bytes_of_string fragment) MAX_INLINE_CHUNK) ;;
  ui (LlmChunk.ToolArgument id fragment).

Definition emit_tool_call_done (id : string) : Client unit :=
  _ <-? send_input (StreamEvent.ToolCallDone empty_path) ;; ui (LlmChunk.ToolCallDone id).

(** ** client/stream.rs: one event *)

(** What the fields of a tool-call delta change in its entry, and the argument
    fragment. *)
Definition str_field (key : string) (v : Value) : option string :=
  match get key v with Some (Str s) => Some s | _ => None end.

Definition merge_delta (tc : Value) (entry : ToolCallAccumulator) : ToolCallAccumulator * string :=
  let id := match non_empty_str (get "id" tc) with Some s => s | None => acc_id entry end in
  match get "function" tc with
  | None =>
      ({| acc_id := id; acc_name := acc_name entry; acc_args := acc_args entry;
          start_emitted := start_emitted entry |}, "")
  | Some func =>
      let name := match non_empty_str (get "name" func) with
                  | Some s => s | None => acc_name entry end in
      let fragment := match str_field "arguments" func with Some s => s | None => "" end in
      ({| acc_id := id; acc_name := name; acc_args := acc_args entry +:+ fragment;
          start_emitted := start_emitted entry |}, fragment)
  end.

Definition delta_index (tc : Value) : N :=
  match get "index" tc with
  | Some i => match as_u64 i with Some n => n | None => 0 end
  | None => 0
  end.

Definition set_started (e : ToolCallAccumulator) : ToolCallAccumulator :=
  {| acc_id := acc_id e; acc_name := acc_name e; acc_args := acc_args e; start_emitted := true |}.

Definition tool_delta (tc : Value) (accs : gmap N ToolCallAccumulator) :
    Client (gmap N ToolCallAccumulator) :=
  let idx := delta_index tc in
  let entry := match accs !! idx with Some e => e | None => ToolCallAccumulator_default end in
  let '(entry, fragment) := merge_delta tc entry in
  let starts := negb (bool_decide (acc_id entry = "")) && negb (bool_decide (acc_name entry = ""))
                && negb (start_emitted entry) in
  _ <-? (if (starts : bool) then emit_tool_call_start (acc_id entry) (acc_name entry) else ok tt) ;;
  let entry := if starts then set_started entry else entry in
  _ <-? (if start_emitted entry && negb (bool_decide (fragment = ""))
         then emit_tool_argument (acc_id entry) fragment else ok tt) ;;
  ok (<[idx := entry]> accs).

Fixpoint tool_deltas (tcs : list Value) (accs : gmap N ToolCallAccumulator) :
    Client (gmap N ToolCallAccumulator) :=
  match tcs with
  | [] => ok accs
  | tc :: tcs' => accs <-? tool_delta tc accs ;; tool_deltas tcs' accs
  end.

Definition set_tool_acc (m : gmap N ToolCallAccumulator) (acc : SseAccumulators) : SseAccumulators :=
  {| first_chunk := first_chunk acc; content_chars := content_chars acc;
     reasoning_chars := reasoning_chars acc; tool_acc := m; finish_reason := finish_reason acc |}.
Definition set_finish (f : option string) (acc : SseAccumulators) : SseAccumulators :=
  {| first_chunk := first_chunk acc; content_chars := content_chars acc;
     reasoning_chars := reasoning_chars acc; tool_acc := tool_acc acc;
     finish_reason := match f with Some s => Some s | None => finish_reason acc end |}.

Definition announce (acc : SseAccumulators) : Client SseAccumulators :=
  if first_chunk acc then ok acc
  else
    _ <-? ui (LlmChunk.Status "Receiving response…") ;;
    ok {| first_chunk := true; content_chars := content_chars acc;
          reasoning_chars := reasoning_chars acc; tool_acc := tool_acc acc;
          finish_reason := finish_reason acc |}.

Definition add_chars (reasoning : bool) (n : N) (acc : SseAccumulators) : SseAccumulators :=
  {| first_chunk := first_chunk acc;
     content_chars := if reasoning then content_chars acc else (content_chars acc + n)%N;
     reasoning_chars := if reasoning then (reasoning_chars acc + n)%N else reasoning_chars acc;
     tool_acc := tool_acc acc; finish_reason := finish_reason acc |}.

Definition emit_extracted (x : ExtractedText) (acc : SseAccumulators) : Client SseAccumulators :=
  acc <-? announce acc ;;
  let acc := add_chars (is_reasoning x) (char_count (text x)) acc in
  _ <-? (if is_reasoning x then broadcast_reasoning (text x) else emit_text_chunk (text x)) ;;
  ok acc.

Definition process_choice (choice : Value) (acc : SseAccumulators) : Client SseAccumulators :=
  let delta := get "delta" choice in
  let acc := set_finish (str_field "finish_reason" choice) acc in
  acc <-? match delta with
          | Some d => match extract_text d with
                      | Some x => emit_extracted x acc
                      | None => ok acc
                      end
          | None => ok acc
          end ;;
  match delta with
  | Some d =>
      match get "tool_calls" d with
      | Some (Array tcs) =>
          acc <-? announce acc ;;
          accs <-? tool_deltas tcs (tool_acc acc) ;;
          ok (set_tool_acc accs acc)
      | _ => ok acc
      end
  | None => ok acc
  end.

Fixpoint process_choices (choices : list Value) (acc : SseAccumulators) : Client SseAccumulators :=
  match choices with
  | [] => ok acc
  | choice :: rest => acc <-? process_choice choice acc ;; process_choices rest acc
  end.

Definition process_sse_event (event : Value) (acc : SseAccumulators) : Client SseAccumulators :=
  match detect_error event with
  | Some err_msg =>
      _ <-? ui (LlmChunk.Error err_msg) ;;
      _ <-? send_system_signal (SystemSignal.NetworkUnavailable err_msg) ;;
      ok acc
  | None =>
      match get "choices" event with
      | Some (Array choices) => process_choices choices acc
      | _ => ok acc
      end
  end.

Fixpoint process_events (events : list Value) (acc : SseAccumulators) : Client SseAccumulators :=
  match events with
  | [] => ok acc
  | event :: rest => acc <-? process_sse_event event acc ;; process_events rest acc
  end.

(** ** client/errors.rs *)

Inductive OpenAiError : Type :=
  | HttpClientBuilder (e : string)
  | Network (e : string)
  | Http (status : N) (message : string)
  | IdleTimeout
  | Sse (e : string)
  | SummaryParse (e : string).

Definition OpenAiError_to_string (e : OpenAiError) : string :=
  match e with
  | HttpClientBuilder e => "failed to build HTTP client: " +:+ e
  | Network e => "network request failed: " +:+ e
  | Http status message => "HTTP " +:+ pretty status +:+ ": " +:+ message
  | IdleTimeout => "SSE stream idle timeout"
  | Sse e => "SSE provider error: " +:+ e
  | SummaryParse e => "failed to parse summary response: " +:+ e
  end.

Definition into_shell_error (e : OpenAiError) : ShellError :=
  ShellError.EffectExecution (OpenAiError_to_string e).

(** A failure shown to the user, signalled to the kernel and returned. *)
Definition network_failure {A} (shown : option LlmChunk) (reason : string) (e : OpenAiError) :
    Client A :=
  _ <-? match shown with Some chunk => ui chunk | None => ok tt end ;;
  _ <-? send_system_signal (SystemSignal.NetworkUnavailable reason) ;;
  ret (Err (into_shell_error e)).

(** ** client/stream.rs: the response stream

    [Chunk]: bytes, and whether the heartbeat fired in time.  [Failed]: a transport
    error.  [Idle]: nothing for 45 seconds.  The end of the list is the end of the
    stream. *)
Inductive StreamItem : Type :=
  | Chunk (b : bytes) (heartbeat : bool)
  | Failed (err : string)
  | Idle.

Record StreamCounters := { chunk_count : N; total_bytes : N; event_count : N }.

Definition progress (k : StreamCounters) : string :=
  pretty (chunk_count k) +:+ " chunks, " +:+ pretty (total_bytes k) +:+ " bytes, " +:+
  pretty (event_count k) +:+ " events".

(** The counters of characters printed here are never updated. *)
Definition idle_diagnostic (k : StreamCounters) (acc : SseAccumulators) : string :=
  "Idle timeout: no data for 45s. Chunks: " +:+ pretty (chunk_count k) +:+ ", bytes: " +:+
  pretty (total_bytes k) +:+ ", events: " +:+ pretty (event_count k) +:+
  ", content: 0c, reasoning: 0c, tool_calls: " +:+ pretty (N.of_nat (size (tool_acc acc))) +:+
  ", finish_reason: " +:+ debug (finish_reason acc).

Fixpoint read_loop (items : list StreamItem) (parser : SseParser) (k : StreamCounters)
    (acc : SseAccumulators) : Client StreamOutcome :=
  match items with
  | [] =>
      _ <-? ui (LlmChunk.Status ("Stream closed after " +:+ progress k)) ;;
      ok acc
  | Idle :: _ =>
      let diag := idle_diagnostic k acc in
      network_failure (Some (LlmChunk.Warning diag)) diag IdleTimeout
  | Failed err :: _ =>
      match finish_reason acc with
      | Some _ =>
          _ <-? ui (LlmChunk.Warning ("Provider closed connection early (" +:+ err +:+ "). Using "
                      +:+ pretty (event_count k) +:+ " events received so far.")) ;;
          ok acc
      | None =>
          let msg := "SSE error: " +:+ err in
          network_failure (Some (LlmChunk.Error msg)) msg (Sse msg)
      end
  | Chunk b heartbeat :: rest =>
      let k := {| chunk_count := chunk_count k + 1;
                  total_bytes := total_bytes k + N.of_nat (length b);
                  event_count := event_count k |} in
      _ <-? (if (heartbeat : bool) then ui (LlmChunk.Status ("Still reading… " +:+ progress k)) else ok tt) ;;
      match feed from_str b parser with
      | (Err err, _) =>
          let msg := "SSE parser error: " +:+ SseError_to_string err in
          network_failure (Some (LlmChunk.Error msg)) msg (Sse msg)
      | (Ok events, parser) =>
          acc <-? process_events events acc ;;
          read_loop rest parser
            {| chunk_count := chunk_count k; total_bytes := total_bytes k;
               event_count := event_count k + N.of_nat (length events) |} acc
      end
  end.

Definition read_sse_stream (items : list StreamItem) : Client StreamOutcome :=
  read_loop items SseParser_new {| chunk_count := 0; total_bytes := 0; event_count := 0 |}
    SseAccumulators_new.

(** ** client/stream.rs: the assistant message *)

Definition MAX_ASSISTANT_CHARS : nat := 8000.

Definition truncate_assistant_text (s : string) : string :=
  if (N.of_nat MAX_ASSISTANT_CHARS <? char_count s)%N
  then take_chars (MAX_ASSISTANT_CHARS - 3) s +:+ "..." else s.

Definition TRUNCATED_ARGUMENTS : string :=
  "{" +:+ String "034" "error" +:+ String "034" ":" +:+ String "034" "truncated by provider"
  +:+ String "034" "}".

Definition invalid_arguments (tc : ToolCallDescriptor) : bool :=
  negb (bool_decide (arguments tc = "")) && negb (json_ok (arguments tc)).

Definition sanitize (tc : ToolCallDescriptor) : ToolCallDescriptor :=
  if invalid_arguments tc then
    {| tool_id := tool_id tc; tool_name := tool_name tc; arguments := TRUNCATED_ARGUMENTS;
       timeout_ms := timeout_ms tc |}
  else tc.

Definition invalid_diagnostic (idx : nat) (tc : ToolCallDescriptor) : option string :=
  if invalid_arguments tc then
    Some ("tool_call[" +:+ pretty (N.of_nat idx) +:+ "] '" +:+ tool_name tc +:+ "' (id="
          +:+ tool_id tc +:+ "): args_preview=" +:+ take_chars 80 (arguments tc))
  else None.

Definition validate_and_sanitize_tool_calls (tcs : list ToolCallDescriptor) :
    list ToolCallDescriptor * list string :=
  (sanitize <$> tcs, omap id (imap invalid_diagnostic tcs)).

Definition descriptor (e : ToolCallAccumulator) : ToolCallDescriptor :=
  {| tool_id := acc_id e; tool_name := acc_name e; arguments := acc_args e; timeout_ms := None |}.

Definition non_empty (s : string) : option string := if decide (s = "") then None else Some s.

Fixpoint join_lines (l : list string) : string :=
  match l with
  | [] => ""
  | [s] => s
  | s :: l' => s +:+ String "010" (join_lines l')
  end.

Definition finalize_assistant_message (outcome : StreamOutcome) : Client unit :=
  pending <-! take_pending ;;
  let text := non_empty pending.1 in
  let reasoning := non_empty pending.2 in
  _ <-? ui (LlmChunk.Status
    ("Stream summary: content=" +:+ pretty (content_chars outcome) +:+ "c, reasoning="
     +:+ pretty (reasoning_chars outcome) +:+ "c, tool_calls="
     +:+ pretty (N.of_nat (size (tool_acc outcome))) +:+ ", finish="
     +:+ debug (finish_reason outcome))) ;;
  if decide (finish_reason outcome = Some "tool_calls") then
    let '(sanitized, invalid) :=
      validate_and_sanitize_tool_calls (descriptor <$> values (tool_acc outcome)) in
    _ <-? match invalid with
          | [] => ok tt
          | _ => ui (LlmChunk.Warning ("Tool call arguments invalid JSON — "
                      +:+ pretty (N.of_nat (length invalid)) +:+ " failed:"
                      +:+ String "010" (join_lines invalid)))
          end ;;
    let content := match text with Some t => truncate_assistant_text t | None => "" end in
    push_message (ChatMessage.Assistant content reasoning sanitized) ;;! ok tt
  else
    match text with
    | Some t =>
        push_message (ChatMessage.Assistant (truncate_assistant_text t) reasoning []) ;;! ok tt
    | None =>
        match finish_reason outcome with
        | Some _ =>
            ui (LlmChunk.Warning ("Model returned empty content (finish_reason="
                  +:+ debug (finish_reason outcome)
                  +:+ "). This may indicate a provider limitation or context window issue."))
        | None =>
            ui (LlmChunk.Warning ("Stream closed with no content and no finish_reason. "
                  +:+ "Provider may have dropped the connection."))
        end
    end.

(** ** client/request_flow.rs: the request *)

(** What a request answers: a stream, an HTTP status with its [Retry-After] seconds
    and the chunks of its body, a transport error, nothing in time. *)
Inductive HttpAnswer : Type :=
  | Success (status : N) (items : list StreamItem)
  | Status (status : N) (retry_after : option N) (body : list bytes)
  | NetworkError (err : string)
  | TimedOut.

Section request.
Context (retry_config : RetryConfig) (timeout : N).
Context (show_status : N → string) (show_duration : N → string).

(** [lines().next()]: up to the newline, without the carriage return before it. *)
Definition first_line (s : string) : string :=
  match next_line (bytes_of_string s) with
  | None => s
  | Some (line, _) =>
      let line := removelast line in
      string_of_bytes (match last line with
                       | Some b => if decide (b = x0d) then removelast line else line
                       | None => line
                       end)
  end.

(** The message of an error body: [error.message] when it is JSON. *)
Definition compact_body (body_text : string) : string :=
  match from_str (bytes_of_string body_text) with
  | Some json =>
      match get "error" json with
      | Some e => match str_field "message" e with Some s => s | None => body_text end
      | None => body_text
      end
  | None => first_line body_text
  end.

Definition wait_and_tell (msg : string) (attempt delay : N) : Client unit :=
  _ <-? ui (LlmChunk.Status (msg +:+ " — retry " +:+ pretty attempt +:+ "/"
              +:+ pretty (max_retries retry_config) +:+ " in " +:+ show_duration delay)) ;;
  emit (Sleep delay) ;;! ok tt.

(** [answer n]: what request number [n] answers.  One unit of fuel per request. *)
Fixpoint send_loop (fuel : nat) (answer : N → HttpAnswer) (attempt : N) :
    option (Client (list StreamItem)) :=
  match fuel with
  | O => None
  | S fuel' =>
      let again (msg : string) (delay : N → N) : option (Client (list StreamItem)) :=
        let attempt := (attempt + 1)%N in
        match send_loop fuel' answer attempt with
        | Some next => Some (_ <-? wait_and_tell msg attempt (delay attempt) ;; next)
        | None => None
        end in
      let exhausted := (max_retries retry_config <=? attempt)%N in
      let backoff n := backoff_ms n retry_config in
      match answer attempt with
      | Success status items =>
          Some (_ <-? ui (LlmChunk.Status ("HTTP " +:+ show_status status +:+ " — starting SSE stream")) ;;
                ok items)
      | Status status retry_after body =>
          if negb (is_retriable_status status) || exhausted then
            let compact := compact_body (limited_error_body MAX_ERROR_BODY_BYTES body) in
            let msg := "HTTP " +:+ show_status status +:+ ": " +:+ compact in
            Some (network_failure (Some (LlmChunk.Error msg)) msg (Http status compact))
          else
            again ("HTTP " +:+ show_status status)
              (λ n, match parse_retry_after retry_after (max_backoff_ms retry_config) with
                    | Some d => d | None => backoff n end)
      | NetworkError err =>
          let msg := "Network error: " +:+ err in
          if exhausted then Some (network_failure (Some (LlmChunk.Error msg)) msg (Network err))
          else again msg backoff
      | TimedOut =>
          let msg := "Request timed out after " +:+ show_duration timeout in
          if exhausted then Some (network_failure (Some (LlmChunk.Error msg)) msg (Network msg))
          else again msg backoff
      end
  end.

(** Enough for every policy: one request and [max_retries] more. *)
Definition send_request (answer : N → HttpAnswer) : option (Client (list StreamItem)) :=
  send_loop (S (N.to_nat (max_retries retry_config))) answer 0.

(** ** client.rs: [call_llm]

    [valid]: the result of [config.validate()]. *)

Definition finish_with_done : Client unit :=
  _ <-? send_input StreamEvent.Done ;; ui LlmChunk.Done.

Definition count_assistant (h : list ChatMessage) : N :=
  N.of_nat (length (List.filter (λ m, match m with ChatMessage.Assistant _ _ _ => true | _ => false end) h)).

Definition stream_reply (items : list StreamItem) : Client unit :=
  r <-! read_sse_stream items ;;
  match r with
  | Err _ => finish_with_done
  | Ok outcome =>
      _ <-? match decide (finish_reason outcome = Some "tool_calls"), values (tool_acc outcome) with
            | left _, first :: _ => emit_tool_call_done (acc_id first)
            | _, _ => ok tt
            end ;;
      _ <-? finalize_assistant_message outcome ;;
      finish_with_done
  end.

Definition call_llm (valid : result unit OpenAiConfigError) (request_line : string)
    (answer : N → HttpAnswer) : option (Client unit) :=
  match valid with
  | Err err =>
      Some (let msg := OpenAiConfigError_to_string err in
            _ <-? ui (LlmChunk.Error msg) ;; ret (Err (ShellError.EffectExecution msg)))
  | Ok _ =>
      match send_request answer with
      | None => None
      | Some request =>
          Some (turn <-! gets (λ c, (count_assistant (mirror c) + 1)%N) ;;
                _ <-? ui (LlmChunk.Status ("Calling LLM (turn " +:+ pretty turn +:+ ")…")) ;;
                _ <-? ui (LlmChunk.Status request_line) ;;
                r <-! request ;;
                match r with
                | Err _ => finish_with_done
                | Ok items => stream_reply items
                end)
      end
  end.
End request.
End client.

(** ** client.rs: the mirror history *)

Definition result_content (r : ToolResultDTO) : string :=
  match outcome r with
  | ToolOutcome.Success s | ToolOutcome.BusinessError s | ToolOutcome.SystemError s => s
  | ToolOutcome.TimeoutWithPartialData (Some s) => s
  | ToolOutcome.TimeoutWithPartialData None => ""
  end.

Fixpoint push_tool_results (results : list ToolResultDTO) : State OpenAiLlmClient unit :=
  match results with
  | [] => ret tt
  | r :: rest =>
      push_message (ChatMessage.ToolResult (result_tool_id r) (result_content r)) ;;!
      push_tool_results rest
  end.

(** The request is built from the mirror history, transformed when a transform is
    registered, and the tools known when it is made. *)
Definition build_request (config : OpenAiConfig)
    (history_transform : option (list ChatMessage → list ChatMessage)) (tools_schema : list Value)
    (c : OpenAiLlmClient) : Value * nat :=
  let transformed := match history_transform with
                     | Some transform => transform (mirror c)
                     | None => mirror c
                     end in
  let messages := build_messages transformed in
  (build_request_body (model config) messages (max_tokens config) (reasoning_effort config)
     (match tools_schema with [] => None | _ => Some tools_schema end) true,
   length messages).

Definition SUMMARY_PROMPT : string :=
  "Summarize the following conversation concisely. Preserve key facts, user intent, and any decisions or tool results. The summary will replace the messages it covers.".

Definition build_summary_request (config : OpenAiConfig) (messages : list ChatMessage) : Value :=
  build_request_body (model config)
    (build_messages [ChatMessage.System SUMMARY_PROMPT] ++ build_messages messages)
    (N.min (max_tokens config) 512) None None false.

Definition extract_summary_text (body : Value) : option string :=
  match get "choices" body with
  | Some (Array (choice :: _)) =>
      match get "message" choice with
      | Some m => str_field "content" m
      | None => None
      end
  | _ => None
  end.

(** [body]: the JSON of the answer, or why it could not be had. *)
Definition summarize (messages : list ChatMessage) (body : result Value ShellError) :
    result ChatMessage ShellError :=
  match messages with
  | [] => Ok (ChatMessage.System "[no messages to summarize]")
  | _ =>
      result_bind body (λ json,
        Ok (ChatMessage.System
          match extract_summary_text json with Some s => s | None => "[summary unavailable]" end))
  end.

(** ** client/diagnostics.rs: the redacted request body *)

Definition REDACTED : string := "[REDACTED]".

Definition is_sensitive (k : string) : bool := bool_decide (k ∈ ["content"; "description"]).

Definition is_string (v : Value) : bool := match v with Str _ => true | _ => false end.

Fixpoint redact_request_body (v : Value) : Value :=
  match v with
  | Object map =>
      let fix fields (l : list (string * Value)) : list (string * Value) :=
        match l with
        | [] => []
        | (k, f) :: l' =>
            (k, if is_sensitive k && is_string f then Str REDACTED else redact_request_body f)
              :: fields l'
        end in
      Object (fields map)
  | Array arr =>
      let fix items (l : list Value) : list Value :=
        match l with
        | [] => []
        | i :: l' => redact_request_body i :: items l'
        end in
      Array (items arr)
  | _ => v
  end.

(** ** client/diagnostics.rs: where it is written *)

(** The size limit, in bytes, and what a text that exceeds it ends with. *)
Definition MAX_DIAG_BYTES : N := 1048576.
Definition TRUNCATION_SUFFIX : bytes := bytes_of_string (String "010" "...[truncated]").

(** [str::floor_char_boundary]. *)
Fixpoint floor_boundary (l : bytes) (i : nat) : nat :=
  if is_char_boundary l i then i else match i with O => O | S i => floor_boundary l i end.
Definition floor_char_boundary (l : bytes) (i : nat) : nat :=
  if length l <=? i then length l else floor_boundary l i.

Definition cap_diag (text : bytes) : bytes :=
  if (MAX_DIAG_BYTES <? N.of_nat (length text))%N then
    let limit := N.to_nat (MAX_DIAG_BYTES - N.of_nat (length TRUNCATION_SUFFIX)) in
    take (floor_char_boundary text limit) text ++ TRUNCATION_SUFFIX
  else text.

Section diagnostics.
(** The environment, the outcomes of creating the directory and of changing its permissions,
    and its mode once it exists. *)
Context (xdg_cache_home home : option string).
Context (create_dir_all set_permissions : string → bool) (mode : string → option N).

(** [PathBuf::push] of a relative path. *)
Definition path_push (base name : string) : string :=
  match last (bytes_of_string base) with
  | None => name
  | Some b => if decide (b = x2f)%byte then base +:+ name else base +:+ "/" +:+ name
  end.

(** The directory, with its mode when it is returned. *)
Definition private_diag_dir : option (string * N) :=
  base ← match xdg_cache_home with
         | Some base => Some base
         | None => (λ home, path_push home ".cache") <$> home
         end;
  let dir := path_push (path_push base "brioche") "diag" in
  if create_dir_all dir then
    m ← mode dir;
    let m := N.land m 511 in
    if (N.land m 63 =? 0)%N then Some (dir, m)
    else if set_permissions dir then Some (dir, 448%N) else None
  else None.

(** The file that is written, with its content. *)
Definition write_diag_request (to_string : Value → bytes) (turn : N) (body : Value) :
    option (string * bytes) :=
  '(dir, _) ← private_diag_dir;
  Some (path_push dir ("brioche_request_turn_" +:+ pretty turn +:+ ".json"),
        cap_diag (to_string (redact_request_body body))).
End diagnostics.

(** ** brioche-shell-runtime/src/llm_client.rs: [MockLlmClient]

    [segment_bytes] is the one of the runtime, which the provider repeats. *)

Record MockLlmClient := { mock_chunks : list string }.
Definition MockLlmClient_default : MockLlmClient := {| mock_chunks := ["Hello"; " "; "world"] |}.

Definition mock_fragments (m : MockLlmClient) : list bytes :=
  flat_map (λ chunk, segment_bytes (bytes_of_string chunk) MAX_INLINE_CHUNK) (mock_chunks m).
Definition mock_inputs (m : MockLlmClient) : list EngineInput :=
  ((λ fragment, EngineInput.LlmStream (StreamEvent.TextChunk empty_path fragment)) <$> mock_fragments m) ++
  [EngineInput.LlmStream StreamEvent.Done].

Section mock.
(** [shell.send_input]. *)
Context {W : Type} (send : EngineInput → State W (result unit ShellError)).

Fixpoint send_inputs (inputs : list EngineInput) : State W (result unit ShellError) :=
  match inputs with
  | [] => ret (Ok tt)
  | input :: inputs => _ <-? send input ;; send_inputs inputs
  end.
Definition mock_call_llm (m : MockLlmClient) : State W (result unit ShellError) :=
  send_inputs (mock_inputs m).
Definition mock_push_tool_results (results : list ToolResultDTO) : State W unit := ret tt.
End mock.

Definition mock_summarize (messages : list ChatMessage) : result ChatMessage ShellError :=
  Ok (ChatMessage.System ("Mock summary of " +:+ pretty (N.of_nat (length messages)) +:+ " messages")).
