(* ===== verification/ProviderSpec.v ===== *)
(** * Correctness of the event parser and of the OpenAI client: every call is concluded, retries are bounded,
      the mirror history and the kernel receive the same text and arguments *)
From S2P Require Import Prelude Utf8 Types Effects Persistence GovTypes Sse Provider.

(** ** The event parser: independence of the chunking, abort *)

Section spec.
Context (from_str : bytes → option Value).
#[local] Abbreviation feed_loop := (feed_loop from_str).
#[local] Abbreviation feed := (feed from_str).
#[local] Abbreviation read_line := (read_line from_str).

Lemma next_line_length l line rest :
  next_line l = Some (line, rest) → length l = length line + length rest ∧ 0 < length line.
Proof.
  revert line rest. induction l as [|b l IH]; intros line rest; [done|]. cbn [next_line].
  case_decide; [intros [= <- <-]; cbn; lia|].
  destruct (next_line l) as [[line' rest']|]; [|done]. intros [= <- <-].
  destruct (IH _ _ eq_refl). cbn. lia.
Qed.

(** Bytes after the line do not change it. *)
Lemma next_line_app l line rest l' :
  next_line l = Some (line, rest) → next_line (l ++ l') = Some (line, rest ++ l').
Proof.
  revert line rest. induction l as [|b l IH]; intros line rest; [done|]. cbn [next_line app].
  case_decide; [by intros [= <- <-]|].
  destruct (next_line l) as [[line0 rest0]|]; [|done]. intros [= <- <-]. by rewrite (IH _ _ eq_refl).
Qed.

(** The loop without fuel or accumulator. *)
Inductive parses (max : N) : bytes → N → list Value → option SseError → N → bytes → Prop :=
  | parses_end buf failures :
      next_line buf = None → parses max buf failures [] None failures buf
  | parses_ignored buf line rest failures vs e f b :
      next_line buf = Some (line, rest) → read_line line = Ignored →
      parses max rest failures vs e f b → parses max buf failures vs e f b
  | parses_event buf line rest failures v vs e f b :
      next_line buf = Some (line, rest) → read_line line = Event v →
      parses max rest 0 vs e f b → parses max buf failures (v :: vs) e f b
  | parses_malformed buf line rest failures j vs e f b :
      next_line buf = Some (line, rest) → read_line line = Malformed j →
      (failures + 1 < max)%N →
      parses max rest (failures + 1) vs e f b → parses max buf failures vs e f b
  | parses_abort buf line rest failures j :
      next_line buf = Some (line, rest) → read_line line = Malformed j →
      (max <= failures + 1)%N →
      parses max buf failures []
        (Some (TooManyMalformedLines (failures + 1) (take_chars 200 (string_of_bytes j))))
        (failures + 1) rest.

Lemma feed_loop_parses max fuel buf failures lines :
  length buf ≤ fuel →
  ∃ vs e f b, parses max buf failures vs e f b ∧
    feed_loop fuel max buf failures lines =
      (match e with None => Ok (lines ++ vs) | Some e => Err e end,
       {| buffer := b; consecutive_failures := f; max_consecutive_failures := max |}).
Proof using Type.
  revert buf failures lines. induction fuel as [|fuel IH]; intros buf failures lines Hlen.
  - destruct buf; [|cbn in Hlen; lia]. eexists [], None, _, _. split; [by constructor|].
    cbn. by rewrite app_nil_r.
  - cbn [Sse.feed_loop]. destruct (next_line buf) as [[line rest]|] eqn:En.
    2: { eexists [], None, _, _. split; [by constructor|]. by rewrite app_nil_r. }
    pose proof (next_line_length _ _ _ En) as [Hl Hpos].
    destruct (Sse.read_line from_str line) as [|v|j] eqn:Er.
    + destruct (IH rest failures lines) as (vs & e & f & b & Hp & E); [lia|].
      exists vs, e, f, b. split; [by eapply parses_ignored|done].
    + destruct (IH rest 0%N (lines ++ [v])) as (vs & e & f & b & Hp & E); [lia|].
      exists (v :: vs), e, f, b. split; [by eapply parses_event|].
      rewrite E, <- (assoc_L (++)). done.
    + destruct (N.leb_spec max (failures + 1)) as [Hm|Hm].
      * eexists [], (Some _), _, _. split; [by eapply parses_abort|done].
      * destruct (IH rest (failures + 1)%N lines) as (vs & e & f & b & Hp & E); [lia|].
        exists vs, e, f, b. split; [by eapply parses_malformed|done].
Qed.

Lemma parses_det max buf failures vs e f b vs' e' f' b' :
  parses max buf failures vs e f b → parses max buf failures vs' e' f' b' →
  vs = vs' ∧ e = e' ∧ f = f' ∧ b = b'.
Proof using Type.
  intros H. revert vs' e' f' b'.
  induction H; intros vs' e' f' b' H'; inversion H'; simplify_eq; try congruence;
    try match goal with
        | H1 : Sse.read_line _ ?l = _, H2 : Sse.read_line _ ?l = _ |- _ =>
            rewrite H1 in H2; simplify_eq
        end; try lia; try done;
    match goal with
    | IH : ∀ _ _ _ _, _ → _ ∧ _, H : parses _ _ _ _ _ _ _ |- _ =>
        destruct (IH _ _ _ _ H) as (-> & -> & -> & ->); done
    end.
Qed.

(** Parsing a buffer and then more bytes is parsing them together. *)
Lemma parses_app max buf failures vs f b more :
  parses max buf failures vs None f b →
  ∀ vs' e' f' b', parses max (b ++ more) f vs' e' f' b' →
    parses max (buf ++ more) failures (vs ++ vs') e' f' b'.
Proof using Type.
  remember None as e eqn:Ee. intros H. revert Ee.
  induction H as [buf failures Hn|buf line rest failures vs e f b Hn Hr H IH
    |buf line rest failures v vs e f b Hn Hr H IH
    |buf line rest failures j vs e f b Hn Hr Hlt H IH|]; intros Ee vs' e' f' b' H'; [done| | | |done].
  - eapply parses_ignored; [by apply next_line_app|done|by apply IH].
  - eapply parses_event; [by apply next_line_app|done|by apply IH].
  - eapply parses_malformed; [by apply next_line_app|done|done|by apply IH].
Qed.

Lemma parses_app_abort max buf failures vs e f b more :
  parses max buf failures vs (Some e) f b →
  parses max (buf ++ more) failures vs (Some e) f (b ++ more).
Proof using Type.
  remember (Some e) as e0 eqn:Ee. intros H. revert Ee.
  induction H as [buf failures Hn|buf line rest failures vs e0 f b Hn Hr H IH
    |buf line rest failures v vs e0 f b Hn Hr H IH
    |buf line rest failures j vs e0 f b Hn Hr Hlt H IH|buf line rest failures j Hn Hr Hle];
    intros Ee; [done| | | |].
  - eapply parses_ignored; [by apply next_line_app|done|by apply IH].
  - eapply parses_event; [by apply next_line_app|done|by apply IH].
  - eapply parses_malformed; [by apply next_line_app|done|done|by apply IH].
  - injection Ee as <-. eapply parses_abort; [by apply next_line_app|done|done].
Qed.

Lemma feed_parses chunk p :
  ∃ vs e f b,
    parses (max_consecutive_failures p) (buffer p ++ lossy chunk) (consecutive_failures p) vs e f b ∧
    feed chunk p =
      (match e with None => Ok vs | Some e => Err e end,
       {| buffer := b; consecutive_failures := f;
          max_consecutive_failures := max_consecutive_failures p |}).
Proof using Type.
  destruct (feed_loop_parses (max_consecutive_failures p) (length (buffer p ++ lossy chunk))
    (buffer p ++ lossy chunk) (consecutive_failures p) []) as (vs & e & f & b & Hp & E); [done|].
  exists vs, e, f, b. split; [done|]. unfold Sse.feed. cbn zeta. rewrite E. by destruct e.
Qed.

(** Feeding chunk after chunk, up to the first abort. *)
Fixpoint feed_all (chunks : list bytes) (p : SseParser) : result (list Value) SseError * SseParser :=
  match chunks with
  | [] => (Ok [], p)
  | chunk :: rest =>
      match feed chunk p with
      | (Err e, p) => (Err e, p)
      | (Ok vs, p) => let '(r, p) := feed_all rest p in (result_bind r (λ vs', Ok (vs ++ vs')), p)
      end
  end.

Lemma parses_empty max buf f vs e f' b' vs' :
  parses max buf f vs None f' b' → parses max (b' ++ []) f' vs' e f' b' → vs' = [] ∧ e = None.
Proof using Type.
  rewrite app_nil_r. intros H H'.
  assert (next_line b' = None) as Hn.
  { clear H'. remember None as e0 eqn:Ee. revert Ee. by induction H. }
  inversion H'; simplify_eq; done.
Qed.

Lemma parses_rest max buf f vs f' b' : parses max buf f vs None f' b' → next_line b' = None.
Proof using Type. remember None as e0 eqn:Ee. intros H. revert Ee. by induction H. Qed.

(** C34: the events do not depend on how the network cuts the stream.  When every
    chunk is valid UTF-8 (no character is cut), feeding the chunks one by one and
    feeding their concatenation give the same events, the same parser and the
    same error, except that an abort leaves the chunks that follow unread. *)
Theorem sse_chunking_invariant chunks p :
  Forall (λ chunk, valid_utf8 chunk = true) chunks → next_line (buffer p) = None →
  let '(r, p1) := feed_all chunks p in
  let '(r', p2) := feed (mjoin chunks) p in
  r = r' ∧ consecutive_failures p1 = consecutive_failures p2 ∧
  (is_ok r = true → p1 = p2) ∧ buffer p1 `prefix_of` buffer p2.
Proof using Type.
  revert p. induction chunks as [|chunk chunks IH]; intros p Hv Hn.
  - cbn [feed_all]. destruct (feed_parses [] p) as (vs & e & f & b & Hp & E).
    cbn [mjoin list_join]. rewrite E. cbn [lossy lossy_go length] in Hp. rewrite app_nil_r in Hp.
    inversion Hp; simplify_eq. destruct p; done.
  - inversion_clear Hv as [|? ? Hv1 Hv2]. cbn [feed_all].
    destruct (feed_parses chunk p) as (vs & e & f & b & Hp & ->).
    destruct (feed_parses (mjoin (chunk :: chunks)) p) as (vs' & e' & f' & b' & Hp' & ->).
    cbn [mjoin list_join] in Hp'. rewrite (lossy_app _ _ Hv1) in Hp'.
    rewrite (lossy_valid _ Hv1) in Hp. rewrite (assoc_L (++)) in Hp'.
    destruct e as [e|].
    + destruct (parses_det _ _ _ _ _ _ _ _ _ _ _ (parses_app_abort _ _ _ _ _ _ _ _ Hp) Hp')
        as (-> & <- & -> & <-). cbn. split_and!; [done|done|done|by eexists].
    + set (p1 := {| buffer := b; consecutive_failures := f;
        max_consecutive_failures := max_consecutive_failures p |}).
      specialize (IH p1 Hv2 (parses_rest _ _ _ _ _ _ Hp)).
      destruct (feed_all chunks p1) as [r q].
      destruct (feed_parses (mjoin chunks) p1) as (vs2 & e2 & f2 & b2 & Hp2 & E2).
      rewrite E2 in IH. cbn in IH.
      destruct (parses_det _ _ _ _ _ _ _ _ _ _ _ (parses_app _ _ _ _ _ _ _ Hp _ _ _ _ Hp2) Hp')
        as (<- & <- & <- & <-).
      destruct IH as (-> & Hf & Hq & Hpre). destruct e2 as [e2|]; cbn in *; done.
Qed.
End spec.

(** ** Witness: two events cut in three chunks *)

(** A reader of JSON strings without escapes. *)
Definition cut_from_str (l : bytes) : option Value :=
  match l with
  | x22 :: rest => match rev rest with x22 :: body => Some (Str (string_of_bytes (rev body))) | _ => None end
  | _ => None
  end%byte.

Definition quoted (s : string) : string := String "034" s +:+ String "034" "".
Definition newline : string := String "010" "".

Definition cut_chunks : list bytes :=
  bytes_of_string <$> ["dat"; "a: " +:+ quoted "a" +:+ newline +:+ newline +:+ "data: " +:+ String "034" "b";
    String "034" newline +:+ "data: [DONE]" +:+ newline +:+ ": ping"].

Lemma sse_chunking_invariant_witness :
  (feed_all cut_from_str cut_chunks SseParser_new).1 = Ok [Str "a"; Str "b"] ∧
  (feed cut_from_str (mjoin cut_chunks) SseParser_new).1 = Ok [Str "a"; Str "b"].
Proof.
  assert ((feed_all cut_from_str cut_chunks SseParser_new).1 = Ok [Str "a"; Str "b"]) as H
    by (vm_compute; reflexivity).
  split; [exact H|].
  pose proof (sse_chunking_invariant cut_from_str cut_chunks SseParser_new) as T.
  destruct (feed_all cut_from_str cut_chunks SseParser_new) as [r p1].
  destruct (feed cut_from_str (mjoin cut_chunks) SseParser_new) as [r' p2]. cbn [fst] in *.
  destruct T as [<- _]; [repeat constructor|reflexivity|exact H].
Defined.

(** An abort discards the events read before it in the same chunk. *)
Example abort_drops_events :
  feed cut_from_str
    (bytes_of_string ("data: " +:+ quoted "a" +:+ newline +:+ "data: x" +:+ newline))
    (with_threshold 1)
  = (Err (TooManyMalformedLines 1 "x"),
     {| buffer := []; consecutive_failures := 1; max_consecutive_failures := 1 |}).
Proof. vm_compute. reflexivity. Qed.

(** ** Segmentation *)

Lemma segment_loop_spec fuel n l :
  0 < n → length l ≤ fuel →
  mjoin (segment_loop fuel n l) = l ∧
  Forall (λ s, 0 < length s ∧ length s ≤ n) (segment_loop fuel n l).
Proof.
  intros Hn. revert l. induction fuel as [|fuel IH]; intros l Hl.
  - destruct l; [|cbn in Hl; lia]. by split; [|constructor].
  - destruct l as [|b l]; [by split; [|constructor]|].
    change (segment_loop (S fuel) n (b :: l))
      with (take n (b :: l) :: segment_loop fuel n (drop n (b :: l))).
    destruct (IH (drop n (b :: l))) as [Hj Hf].
    + rewrite length_drop. cbn [length] in *. lia.
    + split.
      * change (take n (b :: l) ++ mjoin (segment_loop fuel n (drop n (b :: l))) = b :: l).
        rewrite Hj. apply take_drop.
      * constructor; [|exact Hf]. rewrite length_take. cbn [length]. lia.
Qed.

Lemma segment_bytes_join n l : 0 < n → mjoin (segment_bytes l n) = l.
Proof.
  intros Hn. unfold segment_bytes. case_decide; [cbn; apply app_nil_r|].
  by apply segment_loop_spec.
Qed.

Lemma concat_mjoin {A} (l : list (list A)) : concat l = mjoin l.
Proof. induction l as [|x l IH]; cbn; [done|]. by rewrite IH. Qed.

(** Four kilobytes and one byte, the last character two bytes long. *)
Definition straddling : string := string_of_bytes (repeat x61 4095 ++ [xc3; xa9]%byte).

(** Segmentation of a text.  The segments handed to the kernel are at most 4096
    bytes, none is empty unless the text is, and they concatenate to the text;
    the kernel, which decodes each segment on its own, recovers the text when every
    segment is valid UTF-8 (always so up to 4096 bytes), but the cut is made at a
    fixed byte: a longer text with a character across it is not recovered. *)
Theorem segments_reassemble (s : string) :
  let segments := segment_bytes (bytes_of_string s) MAX_INLINE_CHUNK in
  mjoin segments = bytes_of_string s ∧
  Forall (λ g, length g ≤ MAX_INLINE_CHUNK ∧ (s ≠ "" → 0 < length g)) segments ∧
  (Forall (λ g, valid_utf8 g = true) segments → text_of_chunks segments = s) ∧
  (valid_utf8 (bytes_of_string s) = true → String.length s ≤ MAX_INLINE_CHUNK →
     text_of_chunks segments = s) ∧
  valid_utf8 (bytes_of_string straddling) = true ∧
  text_of_chunks (segment_bytes (bytes_of_string straddling) MAX_INLINE_CHUNK) ≠ straddling.
Proof.
  intros segments. assert (0 < MAX_INLINE_CHUNK) as Hpos by (unfold MAX_INLINE_CHUNK; lia).
  assert (mjoin segments = bytes_of_string s) as Hj by by apply segment_bytes_join.
  assert (Forall (λ g, valid_utf8 g = true) segments → text_of_chunks segments = s) as Hv.
  { intros H. rewrite (text_of_valid_chunks _ H), concat_mjoin, Hj. apply string_of_bytes_of_string. }
  split_and!; [done| |done| |vm_compute; reflexivity|vm_compute; discriminate].
  - unfold segments, segment_bytes. case_decide as Hd.
    + constructor; [|constructor]. split; [done|]. intros Hs. destruct s; [done|cbn; lia].
    + eapply Forall_impl; [apply segment_loop_spec; [done|reflexivity]|]. cbn. intros g [? ?].
      by split.
  - intros Hval Hlen. apply Hv. unfold segments, segment_bytes.
    rewrite length_bytes_of_string, decide_True by done. by constructor.
Qed.

(** ** What a call does, when the shell refuses nothing *)

Definition accept : list ClientOut → ClientOut → option ShellError := λ _ _, None.

(** Outputs appended, text and reasoning added to the pending buffers. *)
Definition act (t r : string) (l : list ClientOut) (c : OpenAiLlmClient) : OpenAiLlmClient :=
  {| pending_text := pending_text c +:+ t;
     pending_reasoning_text := pending_reasoning_text c +:+ r;
     mirror := mirror c; outs := outs c ++ l |}.

Definition performs {A} (m : Client A) (a : result A ShellError) (t r : string)
    (l : list ClientOut) : Prop := ∀ c, m c = (a, act t r l c).

Lemma act_act t r l t' r' l' c :
  act t' r' l' (act t r l c) = act (t +:+ t') (r +:+ r') (l ++ l') c.
Proof. unfold act. cbn. by rewrite !string_app_assoc, (assoc_L (++)). Qed.

Lemma act_nil c : act "" "" [] c = c.
Proof. unfold act. rewrite !string_app_nil_r, app_nil_r. by destruct c. Qed.

(** The text handed to the kernel. *)
Definition text_chunks (l : list ClientOut) : list bytes :=
  omap (λ o, match o with
             | Input (EngineInput.LlmStream (StreamEvent.TextChunk _ b)) => Some b
             | _ => None
             end) l.

(** Neither the end of a stream nor a wait. *)
Definition quiet (o : ClientOut) : Prop :=
  o ≠ Input (EngineInput.LlmStream StreamEvent.Done) ∧ ∀ d, o ≠ Sleep d.

Definition logged (t : string) (l : list ClientOut) : Prop :=
  mjoin (text_chunks l) = bytes_of_string t ∧ Forall quiet l.

Definition acts {A} (m : Client A) : Prop :=
  ∃ res t r l, performs m res t r l ∧ logged t l.

Lemma bytes_of_string_app s s' : bytes_of_string (s +:+ s') = bytes_of_string s ++ bytes_of_string s'.
Proof. induction s as [|a s IH]; [done|]. exact (f_equal (cons (byte_of_ascii a)) IH). Qed.

Lemma mjoin_app {A} (l l' : list (list A)) : mjoin (l ++ l') = mjoin l ++ mjoin l'.
Proof. by rewrite <- !concat_mjoin, concat_app. Qed.

Lemma logged_app t t' l l' : logged t l → logged t' l' → logged (t +:+ t') (l ++ l').
Proof.
  intros [H1 H2] [H1' H2']. split; [|by apply Forall_app].
  unfold text_chunks in *. by rewrite omap_app, mjoin_app, H1, H1', bytes_of_string_app.
Qed.

Lemma acts_ok {A} (a : A) : acts (ok a).
Proof.
  exists (Ok a), "", "", []. split; [|split; [done|constructor]]. intros c. by rewrite act_nil.
Qed.

Lemma acts_bind {A B} (m : Client A) (f : A → Client B) :
  acts m → (∀ a, acts (f a)) → acts (bind_ok m f).
Proof.
  intros (res & t & r & l & Hm & Hl) Hf. unfold bind_ok, bind. destruct res as [a|e].
  - destruct (Hf a) as (res' & t' & r' & l' & Hm' & Hl').
    exists res', (t +:+ t'), (r +:+ r'), (l ++ l'). split; [|by apply logged_app].
    intros c. rewrite Hm. cbn. by rewrite Hm', act_act.
  - exists (Err e), t, r, l. split; [|done]. intros c. by rewrite Hm.
Qed.

(** Only outputs. *)
Lemma acts_emits {A} (m : Client A) res l :
  performs m res "" "" l → text_chunks l = [] → Forall quiet l → acts m.
Proof. intros Hm Ht Hq. exists res, "", "", l. split; [done|]. split; [by rewrite Ht|done]. Qed.

Ltac solve_quiet := repeat constructor; try discriminate; intros; discriminate.

Lemma performs_ui chunk : performs (ui chunk) (Ok tt) "" "" [Ui chunk].
Proof.
  intros c. unfold ui, ok, ret, bind, emit, modify, act. cbn. by rewrite !string_app_nil_r.
Qed.

Lemma performs_hand o : performs (hand_over accept o) (Ok tt) "" "" [o].
Proof. intros c. unfold hand_over, accept, emit, modify, act. cbn. by rewrite !string_app_nil_r. Qed.

Lemma acts_ui chunk : acts (ui chunk).
Proof. eapply acts_emits; [apply performs_ui|done|]. solve_quiet. Qed.

Lemma acts_signal s : acts (send_system_signal accept s).
Proof. eapply acts_emits; [apply performs_hand|done|]. solve_quiet. Qed.

Lemma performs_send_all es :
  performs (send_all accept es) (Ok tt) "" "" ((λ e, Input (EngineInput.LlmStream e)) <$> es).
Proof.
  induction es as [|e es IH]; intros c; [cbn; by rewrite act_nil|].
  cbn [send_all]. unfold bind_ok, bind. unfold send_input. rewrite performs_hand. cbn [fst snd].
  rewrite IH, act_act. done.
Qed.

Lemma text_chunks_segments gs :
  text_chunks ((λ e, Input (EngineInput.LlmStream e))
    <$> ((λ g, StreamEvent.TextChunk empty_path g) <$> gs)) = gs.
Proof. induction gs as [|g gs IH]; [done|]. exact (f_equal (cons g) IH). Qed.

Lemma quiet_inputs es :
  Forall (λ e, e ≠ StreamEvent.Done) es →
  Forall quiet ((λ e, Input (EngineInput.LlmStream e)) <$> es).
Proof.
  induction 1 as [|e es He H IH]; constructor; [|exact IH]. split; [congruence|by intros].
Qed.

Lemma acts_text s : acts (emit_text_chunk accept s).
Proof.
  exists (Ok tt), s, "", (((λ e, Input (EngineInput.LlmStream e))
    <$> ((λ g, StreamEvent.TextChunk empty_path g)
           <$> segment_bytes (bytes_of_string s) MAX_INLINE_CHUNK)) ++ [Ui (LlmChunk.Text s)]).
  split; [|split].
  - intros c. unfold emit_text_chunk, bind_ok, bind. rewrite performs_send_all. cbn [fst snd].
    rewrite performs_ui, act_act. unfold act. cbn.
    by rewrite !string_app_nil_r, <- ?(assoc_L (++)).
  - unfold text_chunks. rewrite omap_app. fold (text_chunks) in *.
    change (mjoin (text_chunks ((λ e, Input (EngineInput.LlmStream e))
      <$> ((λ g, StreamEvent.TextChunk empty_path g)
             <$> segment_bytes (bytes_of_string s) MAX_INLINE_CHUNK)) ++ []) = bytes_of_string s).
    rewrite app_nil_r, text_chunks_segments. apply segment_bytes_join. unfold MAX_INLINE_CHUNK. lia.
  - apply Forall_app. split; [|solve_quiet]. apply quiet_inputs. apply Forall_fmap.
    apply Forall_true. intros g. by cbn.
Qed.

Lemma acts_reasoning s : acts (broadcast_reasoning s).
Proof.
  exists (Ok tt), "", s, [Ui (LlmChunk.Reasoning s)]. split; [|split; [done|solve_quiet]].
  intros c. unfold broadcast_reasoning, bind. rewrite performs_ui. unfold act. cbn.
  by rewrite !string_app_nil_r.
Qed.

Lemma acts_start id name : acts (emit_tool_call_start accept id name).
Proof.
  apply acts_bind; [|intros; apply acts_ui].
  eapply acts_emits; [apply performs_hand|done|]. solve_quiet.
Qed.

Lemma acts_argument id fragment : acts (emit_tool_argument accept id fragment).
Proof.
  apply acts_bind; [|intros; apply acts_ui].
  eapply acts_emits; [apply performs_send_all| |].
  - induction (segment_bytes _ _) as [|g gs IH]; [done|exact IH].
  - apply quiet_inputs, Forall_fmap, Forall_true. by intros.
Qed.

Create HintDb acts.
#[local] Hint Resolve acts_ok acts_ui acts_signal acts_text acts_reasoning acts_start
  acts_argument : acts.

(** Every step of a client program is a bind of the above, or a case analysis. *)
Ltac acts_auto :=
  repeat first
    [ progress intros
    | solve [auto with acts]
    | apply acts_bind
    | progress cbn zeta
    | match goal with |- context [match ?x with _ => _ end] => destruct x end ].

Section events.
Context (from_str : bytes → option Value) (debug : option string → string).
Context (extract_text : ChunkExtractor) (detect_error : StreamErrorDetector).

Lemma acts_tool_delta tc accs : acts (tool_delta accept tc accs).
Proof using Type.
  unfold tool_delta. acts_auto.
Qed.
#[local] Hint Resolve acts_tool_delta : acts.

Lemma acts_tool_deltas tcs accs : acts (tool_deltas accept tcs accs).
Proof using Type. revert accs. induction tcs; cbn [tool_deltas]; acts_auto. Qed.
#[local] Hint Resolve acts_tool_deltas : acts.

Lemma acts_announce acc : acts (announce acc).
Proof using Type. unfold announce. acts_auto. Qed.
#[local] Hint Resolve acts_announce : acts.

Lemma acts_extracted x acc : acts (emit_extracted accept x acc).
Proof using Type. unfold emit_extracted. acts_auto. Qed.
#[local] Hint Resolve acts_extracted : acts.

Lemma acts_choice choice acc : acts (process_choice accept extract_text choice acc).
Proof using Type. unfold process_choice. acts_auto. Qed.
#[local] Hint Resolve acts_choice : acts.

Lemma acts_choices choices acc : acts (process_choices accept extract_text choices acc).
Proof using Type. revert acc. induction choices; cbn [process_choices]; acts_auto. Qed.
#[local] Hint Resolve acts_choices : acts.

Lemma acts_event event acc : acts (process_sse_event accept extract_text detect_error event acc).
Proof using Type. unfold process_sse_event. acts_auto. Qed.
#[local] Hint Resolve acts_event : acts.

Lemma acts_events events acc : acts (process_events accept extract_text detect_error events acc).
Proof using Type. revert acc. induction events; cbn [process_events]; acts_auto. Qed.
#[local] Hint Resolve acts_events : acts.

Lemma acts_failure {A} shown reason e : acts (network_failure (A := A) accept shown reason e).
Proof using Type.
  unfold network_failure. apply acts_bind; [destruct shown; auto with acts|]. intros _.
  apply acts_bind; [auto with acts|]. intros _.
  eapply (acts_emits _ (Err _) []); [|done|constructor]. intros c. by rewrite act_nil.
Qed.
#[local] Hint Resolve acts_failure : acts.

Lemma acts_read_loop items parser k acc :
  acts (read_loop accept from_str debug extract_text detect_error items parser k acc).
Proof using Type.
  revert parser k acc. induction items as [|item items IH]; intros parser k acc; cbn [read_loop].
  - acts_auto.
  - destruct item as [b heartbeat|err|]; [|acts_auto|acts_auto].
    apply acts_bind; [destruct heartbeat; auto with acts|]. intros _.
    destruct (feed from_str b parser) as [[events|e] parser']; acts_auto.
Qed.

Lemma acts_read_sse_stream items :
  acts (read_sse_stream accept from_str debug extract_text detect_error items).
Proof using Type. apply acts_read_loop. Qed.
End events.

(** ** The request loop *)

Definition sleeps (l : list ClientOut) : list N :=
  omap (λ o, match o with Sleep d => Some d | _ => None end) l.

Definition not_done (o : ClientOut) : Prop := o ≠ Input (EngineInput.LlmStream StreamEvent.Done).

Lemma quiet_log l : Forall quiet l → sleeps l = [] ∧ Forall not_done l.
Proof.
  induction 1 as [|o l [Ho Hs] H [IH1 IH2]]; [done|]. split; [|by constructor].
  destruct o; try exact IH1. by destruct (Hs ms).
Qed.

Lemma backoff_bounded n c : (backoff_ms n c <= max_backoff_ms c)%N.
Proof. unfold backoff_ms. destruct (_ || _); lia. Qed.

Section request.
Context (from_str : bytes → option Value) (debug : option string → string).
Context (extract_text : ChunkExtractor) (detect_error : StreamErrorDetector).
Context (retry : RetryConfig) (timeout : N) (show_status show_duration : N → string).
#[local] Abbreviation send_loop := (send_loop accept from_str retry timeout show_status show_duration).
#[local] Abbreviation send_request :=
  (send_request accept from_str retry timeout show_status show_duration).

(** What a request may log before attempt [n]. *)
Definition request_log (n : N) (l : list ClientOut) : Prop :=
  text_chunks l = [] ∧ Forall not_done l ∧ Forall (λ d, d <= max_backoff_ms retry)%N (sleeps l) ∧
  (N.of_nat (length (sleeps l)) + n <= max_retries retry)%N.

Lemma failure_log {A} chunk reason e :
  performs (network_failure (A := A) accept (Some chunk) reason e) (Err (into_shell_error e)) "" ""
    [Ui chunk; Signal (SystemSignal.NetworkUnavailable reason)].
Proof using Type.
  intros c. unfold network_failure, bind_ok, bind. rewrite performs_ui. cbn [fst snd].
  unfold send_system_signal. rewrite performs_hand. cbn [fst snd ret]. by rewrite act_act.
Qed.

Lemma retry_log {A} msg attempt delay (next : Client A) res l n :
  (delay <= max_backoff_ms retry)%N → (n + 1 = attempt)%N →
  performs next res "" "" l → request_log attempt l →
  performs (_ <-? wait_and_tell retry show_duration msg attempt delay ;; next) res "" ""
    (Ui (LlmChunk.Status (msg +:+ " — retry " +:+ pretty attempt +:+ "/"
           +:+ pretty (max_retries retry) +:+ " in " +:+ show_duration delay)) :: Sleep delay :: l) ∧
  request_log n (Ui (LlmChunk.Status (msg +:+ " — retry " +:+ pretty attempt +:+ "/"
           +:+ pretty (max_retries retry) +:+ " in " +:+ show_duration delay)) :: Sleep delay :: l).
Proof using Type.
  intros Hd Hn Hp (H1 & H2 & H3 & H4). split.
  - intros c. unfold wait_and_tell, bind_ok at 1, bind at 1. unfold bind_ok, bind.
    rewrite performs_ui. cbn [fst snd emit modify ok ret]. rewrite Hp. unfold act. cbn.
    by rewrite !string_app_nil_r, <- !(assoc_L (++)).
  - split_and!; [exact H1| | |].
    + by repeat constructor.
    + by constructor.
    + cbn [sleeps omap list_omap length]. unfold sleeps in H4. cbn in *. lia.
Qed.

Lemma request_log_plain n l :
  text_chunks l = [] → Forall quiet l → (n <= max_retries retry)%N → request_log n l.
Proof using Type.
  intros Ht Hq Hn. destruct (quiet_log l Hq) as [Hs Hd]. split_and!; [done|done| |].
  - rewrite Hs. constructor.
  - rewrite Hs. cbn. lia.
Qed.

Lemma send_loop_log fuel answer attempt :
  (attempt <= max_retries retry)%N → N.to_nat (max_retries retry) < fuel + N.to_nat attempt →
  ∃ m res l, send_loop fuel answer attempt = Some m ∧ performs m res "" "" l ∧
    request_log attempt l ∧
    ∀ items, res = Ok items →
      ∃ n status, (n <= max_retries retry)%N ∧ answer n = Success status items.
Proof using Type.
  revert attempt. induction fuel as [|fuel IH]; intros attempt Ha Hf; [lia|].
  assert (∀ (chunk : LlmChunk) reason e, ∃ m res l,
    Some (network_failure accept (Some chunk) reason e) = Some m ∧ performs m res "" "" l ∧
    request_log attempt l ∧ ∀ items : list StreamItem, res = Ok items →
      ∃ n status, (n <= max_retries retry)%N ∧ answer n = Success status items) as Hfail.
  { intros. eexists _, _, _. split; [done|]. split; [apply failure_log|].
    split; [|done]. apply request_log_plain; [done| |done]. solve_quiet. }
  assert (∀ msg (delay : N → N), (∀ n, delay n <= max_backoff_ms retry)%N →
    (attempt < max_retries retry)%N → ∃ m res l,
    match send_loop fuel answer (attempt + 1) with
    | Some next =>
        Some (_ <-? wait_and_tell retry show_duration msg (attempt + 1) (delay (attempt + 1)%N) ;; next)
    | None => None
    end = Some m ∧ performs m res "" "" l ∧ request_log attempt l ∧
    ∀ items : list StreamItem, res = Ok items →
      ∃ n status, (n <= max_retries retry)%N ∧ answer n = Success status items) as Hagain.
  { intros msg delay Hd Hlt. destruct (IH (attempt + 1)%N) as (m & res & l & -> & Hp & Hl & Hi); [lia|lia|].
    destruct (retry_log msg (attempt + 1) (delay (attempt + 1)%N) m res l attempt)
      as [Hp' Hl']; [done|done|done|done|].
    eexists _, _, _. split; [done|]. split; [exact Hp'|]. by split. }
  cbn [Provider.send_loop]. destruct (answer attempt) as [status items|status after body|err|] eqn:Ea.
  - eexists _, (Ok items), _. split; [done|]. split.
    + intros c. unfold bind_ok, bind. rewrite performs_ui. reflexivity.
    + split; [|intros ? [= <-]; by exists attempt, status].
      apply request_log_plain; [done| |done]. solve_quiet.
  - destruct (negb _ || _)%bool eqn:E; [apply Hfail|]. apply orb_false_iff in E as [_ E].
    apply N.leb_gt in E.
    apply (Hagain _ (λ n, match parse_retry_after after (max_backoff_ms retry) with
                          | Some d => d | None => backoff_ms n retry end)); [|exact E].
    intros n. unfold parse_retry_after. destruct after; cbn; [apply N.le_min_r|apply backoff_bounded].
  - destruct (N.leb_spec (max_retries retry) attempt) as [|E]; [apply Hfail|].
    apply (Hagain _ (λ n, backoff_ms n retry)); [|exact E]. intros; apply backoff_bounded.
  - destruct (N.leb_spec (max_retries retry) attempt) as [|E]; [apply Hfail|].
    apply (Hagain _ (λ n, backoff_ms n retry)); [|exact E]. intros; apply backoff_bounded.
Qed.

End request.

(** ** A whole call *)

Section call.
Context (from_str : bytes → option Value) (debug : option string → string).
Context (extract_text : ChunkExtractor) (detect_error : StreamErrorDetector).
Context (retry : RetryConfig) (timeout : N) (show_status show_duration : N → string).
#[local] Abbreviation stream_reply :=
  (stream_reply accept from_str debug extract_text detect_error).
#[local] Abbreviation call_llm :=
  (call_llm accept from_str debug extract_text detect_error retry timeout show_status show_duration).

(** What the end of a turn does to the mirror: nothing was pending, or one assistant
    message carries what was. *)
Definition appended (pending : string) (ms : list ChatMessage) : Prop :=
  (ms = [] ∧ pending = "") ∨
  ∃ reasoning calls, ms = [ChatMessage.Assistant (truncate_assistant_text pending) reasoning calls].

Lemma finalize_log outcome c :
  ∃ ms l, finalize_assistant_message from_str debug outcome c =
      (Ok tt, {| pending_text := ""; pending_reasoning_text := ""; mirror := mirror c ++ ms;
                 outs := outs c ++ l |}) ∧
    appended (pending_text c) ms ∧ text_chunks l = [] ∧ Forall quiet l.
Proof using Type.
  unfold finalize_assistant_message, bind at 1, take_pending. cbn [fst snd].
  unfold bind_ok at 1, bind at 1. rewrite performs_ui. cbn [fst snd].
  assert (truncate_assistant_text "" = "") as Ht0 by reflexivity.
  destruct (decide (finish_reason outcome = Some "tool_calls")) as [E|E].
  - destruct (validate_and_sanitize_tool_calls from_str _) as [calls invalid].
    eexists [ChatMessage.Assistant _ _ _]. destruct invalid as [|d ds].
    + eexists. split_and!.
      * unfold bind_ok, bind, ok, ret, push_message, modify, act. cbn. reflexivity.
      * right. eexists _, _. unfold non_empty. destruct (decide (pending_text c = "")) as [->|];
          reflexivity.
      * done.
      * solve_quiet.
    + eexists. split_and!.
      * unfold bind_ok, bind. rewrite performs_ui. cbn.
        unfold ok, ret, push_message, modify, act. cbn. by rewrite <- (assoc_L (++)).
      * right. eexists _, _. unfold non_empty. destruct (decide (pending_text c = "")) as [->|];
          reflexivity.
      * done.
      * solve_quiet.
  - unfold non_empty at 1. destruct (decide (pending_text c = "")) as [Hp|Hp].
    + destruct (finish_reason outcome); (eexists [], _; split_and!;
        [rewrite performs_ui, act_act; unfold act; cbn; by rewrite app_nil_r|by left|done|solve_quiet]).
    + eexists [ChatMessage.Assistant _ _ _], _. split_and!.
      * unfold bind, ok, ret, push_message, modify, act. cbn. reflexivity.
      * right. by eexists _, _.
      * done.
      * solve_quiet.
Qed.

(** What a call that started leaves: its log, ended by [Done]; and either the stream
    failed and its text is still pending, or the mirror has the turn. *)
Definition stream_done : list ClientOut :=
  [Input (EngineInput.LlmStream StreamEvent.Done); Ui LlmChunk.Done].

Definition concluded (m : Client unit) (c : OpenAiLlmClient) (P : list ClientOut → Prop) : Prop :=
  ∃ t l c', m c = (Ok tt, c') ∧ outs c' = outs c ++ l ++ stream_done ∧
    mjoin (text_chunks l) = bytes_of_string t ∧ Forall not_done l ∧ P l ∧
    ((mirror c' = mirror c ∧ pending_text c' = pending_text c +:+ t) ∨
     (∃ ms, mirror c' = mirror c ++ ms ∧ pending_text c' = "" ∧
        appended (pending_text c +:+ t) ms)).

Lemma finish_log : performs (finish_with_done accept) (Ok tt) "" "" stream_done.
Proof using Type.
  intros c. unfold finish_with_done, bind_ok, bind, send_input. rewrite performs_hand. cbn [fst snd].
  by rewrite performs_ui, act_act.
Qed.

Lemma stream_reply_log items c : concluded (stream_reply items) c (λ l, sleeps l = []).
Proof using Type.
  destruct (acts_read_sse_stream from_str debug extract_text detect_error items)
    as (res & t & r & l & Hm & [Ht Hq]).
  unfold concluded, Provider.stream_reply, bind at 1. rewrite Hm. cbn [fst snd].
  destruct res as [outcome|e].
  - set (sealed := match decide _, values _ with left _, _ :: _ => _ | _, _ => _ end).
    assert (∃ l', performs sealed (Ok tt) "" "" l' ∧ text_chunks l' = [] ∧ Forall quiet l')
      as (l' & Hs & Ht' & Hq').
    { subst sealed. destruct (decide _); [|exists []; split; [intros ?; by rewrite act_nil|done]].
      destruct (values (tool_acc outcome)) as [|first rest];
        [exists []; split; [intros ?; by rewrite act_nil|done]|].
      exists [Input (EngineInput.LlmStream (StreamEvent.ToolCallDone empty_path));
              Ui (LlmChunk.ToolCallDone (acc_id first))].
      split; [|split; [done|solve_quiet]].
      intros c'. unfold emit_tool_call_done, bind_ok, bind, send_input. rewrite performs_hand.
      cbn [fst snd]. by rewrite performs_ui, act_act. }
    unfold bind_ok at 1, bind at 1. rewrite Hs. cbn [fst snd].
    destruct (finalize_log outcome (act "" "" l' (act t r l c))) as (ms & l'' & Hf & Ha & Ht'' & Hq'').
    unfold bind_ok, bind. rewrite Hf. cbn [fst snd]. rewrite finish_log.
    eexists t, (l ++ l' ++ l''), _. split_and!; [reflexivity| | | | |].
    + cbn. by rewrite <- !(assoc_L (++)).
    + unfold text_chunks in *. by rewrite !omap_app, Ht', Ht'', !app_nil_r.
    + apply quiet_log. rewrite !Forall_app. done.
    + apply quiet_log. rewrite !Forall_app. done.
    + right. exists ms. cbn in *. by rewrite string_app_nil_r in Ha.
  - rewrite finish_log. eexists t, l, _. destruct (quiet_log l Hq) as [Hs Hn].
    split_and!; [reflexivity| |done|done|done|].
    + cbn. by rewrite <- (assoc_L (++)).
    + left. cbn. by rewrite string_app_nil_r.
Qed.

Lemma sleeps_app l l' : sleeps (l ++ l') = sleeps l ++ sleeps l'.
Proof using Type. apply omap_app. Qed.

(** Outputs made before, no text among them. *)
Lemma concluded_after (m : Client unit) l0 c (P Q : list ClientOut → Prop) :
  text_chunks l0 = [] → Forall not_done l0 → (∀ l, P l → Q (l0 ++ l)) →
  concluded m (act "" "" l0 c) P → concluded (λ c, m (act "" "" l0 c)) c Q.
Proof using Type.
  intros Ht Hn HQ (t & l & c' & Hm & Ho & Htl & Hnl & HP & Hmir).
  exists t, (l0 ++ l), c'. unfold act in Ho, Hmir. cbn in Ho, Hmir.
  rewrite string_app_nil_r in Hmir. split_and!; [done| | | |by apply HQ|done].
  - by rewrite Ho, <- !(assoc_L (++)).
  - unfold text_chunks in *. by rewrite omap_app, Ht.
  - by apply Forall_app.
Qed.

Lemma done_concluded c : concluded (finish_with_done accept) c (λ l, sleeps l = []).
Proof using Type.
  eexists "", [], _. split_and!; [apply finish_log|done|done|constructor|done|]. left. cbn.
  by rewrite !string_app_nil_r.
Qed.

Definition waits_bounded (l : list ClientOut) : Prop :=
  Forall (λ d, d <= max_backoff_ms retry)%N (sleeps l) ∧
  (N.of_nat (length (sleeps l)) <= max_retries retry)%N.

Lemma call_llm_log line answer :
  ∃ m, call_llm (Ok tt) line answer = Some m ∧ ∀ c, concluded m c waits_bounded.
Proof using Type.
  destruct (send_loop_log from_str retry timeout show_status show_duration
              (S (N.to_nat (max_retries retry))) answer 0)
    as (request & res & l & Hs & Hp & (Ht & Hn & Hb & Hlen) & _); [lia|lia|].
  unfold Provider.call_llm, send_request. rewrite Hs. eexists. split; [reflexivity|]. intros c.
  set (s1 := LlmChunk.Status
    ("Calling LLM (turn " +:+ pretty (count_assistant (mirror c) + 1)%N +:+ ")…")). set (s2 := LlmChunk.Status line).
  assert (concluded (λ c, match res with
                          | Ok items => stream_reply items
                          | Err _ => finish_with_done accept
                          end (act "" "" (Ui s1 :: Ui s2 :: l) c)) c waits_bounded) as Hc.
  { apply (concluded_after _ _ _ (λ l, sleeps l = [])); [done|by repeat constructor| |].
    - intros l' Hl'. assert (sleeps ((Ui s1 :: Ui s2 :: l) ++ l') = sleeps l) as Hsl.
      { etrans; [apply sleeps_app|]. rewrite Hl'. apply app_nil_r. }
      unfold waits_bounded. rewrite Hsl. split; [exact Hb|lia].
    - destruct res; [apply stream_reply_log|apply done_concluded]. }
  destruct Hc as (t & l' & c' & Hm & Hrest). exists t, l', c'. split; [|exact Hrest].
  rewrite <- Hm. unfold bind_ok, bind, gets. cbn [fst snd]. fold s1 s2. rewrite performs_ui.
  cbn [fst snd]. rewrite performs_ui.
  cbn [fst snd]. rewrite Hp, !act_act. by destruct res.
Qed.


(** The mirror history follows the kernel.  The text a call hands to the kernel is
    [t].  When the stream was read to its end, the mirror receives at most one
    assistant message, which carries the pending text and [t], cut to 8000
    characters, and nothing stays pending; when the request or the stream failed, the
    mirror is unchanged and [t] stays pending: it is the beginning of the next
    assistant message, where the kernel has it in the failed one. *)
Theorem mirror_follows_kernel line answer :
  ∃ m, call_llm (Ok tt) line answer = Some m ∧
    ∀ c, ∃ t l c', m c = (Ok tt, c') ∧ outs c' = outs c ++ l ++ stream_done ∧
      mjoin (text_chunks l) = bytes_of_string t ∧
      ((mirror c' = mirror c ∧ pending_text c' = pending_text c +:+ t) ∨
       (∃ ms, mirror c' = mirror c ++ ms ∧ pending_text c' = "" ∧
          appended (pending_text c +:+ t) ms)).
Proof using Type.
  destruct (call_llm_log line answer) as (m & Hm & Hc). exists m. split; [exact Hm|]. intros c.
  destruct (Hc c) as (t & l & c' & H1 & H2 & H3 & _ & _ & H4). by exists t, l, c'.
Qed.
End call.

(** Two calls: a stream that breaks after "ab", then one that answers "cd". *)
Definition delta_event (s : string) : Value :=
  Object [("choices", Array [Object [("delta", Object [("content", Str s)])]])].
Definition demo_from_str (b : bytes) : option Value :=
  match string_of_bytes b with
  | "1" => Some (delta_event "ab")
  | "2" => Some (delta_event "cd")
  | _ => None
  end.
Definition demo_call (items : list StreamItem) : option (Client unit) :=
  call_llm accept demo_from_str (λ _, "") StandardExtractor
    NoOpErrorDetector
    RetryConfig_default 1000 (λ _, "") (λ _, "") (Ok tt) "" (λ _, Success 200 items).
Definition demo_chunk (s : string) : StreamItem :=
  Chunk (bytes_of_string ("data: " +:+ s +:+ String "010" (String "010" ""))) false.

Example failed_text_leaks :
  match demo_call [demo_chunk "1"; Failed "reset"], demo_call [demo_chunk "2"] with
  | Some m1, Some m2 =>
      let '(_, c) := m1 OpenAiLlmClient_new in mirror (m2 c).2
  | _, _ => []
  end = [ChatMessage.Assistant "abcd" None []].
Proof. vm_compute. reflexivity. Qed.

(** ** Tool calls: the kernel's arguments and the mirror's *)

(** The argument bytes handed to the kernel for call [id]. *)
Definition argument_bytes (id : string) (l : list ClientOut) : bytes :=
  mjoin (omap (λ o, match o with
                    | Input (EngineInput.LlmStream (StreamEvent.ToolArgumentChunk _ i b)) =>
                        if decide (i = id) then Some b else None
                    | _ => None
                    end) l).

Lemma argument_bytes_app id l l' :
  argument_bytes id (l ++ l') = argument_bytes id l ++ argument_bytes id l'.
Proof. unfold argument_bytes. by rewrite omap_app, mjoin_app. Qed.

Lemma argument_log id fragment :
  ∃ l, performs (emit_tool_argument accept id fragment) (Ok tt) "" "" l ∧
    argument_bytes id l = bytes_of_string fragment.
Proof.
  eexists. split.
  - intros c. unfold emit_tool_argument, bind_ok, bind. rewrite performs_send_all. cbn [fst snd].
    rewrite performs_ui, act_act. reflexivity.
  - rewrite argument_bytes_app. change (argument_bytes id [Ui _]) with (@nil byte).
    rewrite app_nil_r.
    assert (∀ gs, argument_bytes id ((λ e, Input (EngineInput.LlmStream e))
      <$> ((λ g, StreamEvent.ToolArgumentChunk empty_path id g) <$> gs)) = mjoin gs) as ->.
    { induction gs as [|g gs IH]; [done|]. unfold argument_bytes in *. cbn.
      rewrite decide_True by done. exact (f_equal (app g) IH). }
    apply segment_bytes_join. unfold MAX_INLINE_CHUNK. lia.
Qed.

(** A delta of call [i] that does not rename it. *)
Definition continues (i : N) (id : string) (tc : Value) : Prop :=
  delta_index tc = i ∧ (non_empty_str (get "id" tc) = None ∨ non_empty_str (get "id" tc) = Some id).

(** The entry of a call that was announced to the kernel. *)
Definition announced (id : string) (e : ToolCallAccumulator) : Prop :=
  acc_id e = id ∧ start_emitted e = true.

Lemma tool_delta_log i id tc accs e :
  continues i id tc → accs !! i = Some e → announced id e →
  ∃ l e', performs (tool_delta accept tc accs) (Ok (<[i := e']> accs)) "" "" l ∧ announced id e' ∧
    ∃ fragment, acc_args e' = acc_args e +:+ fragment ∧
      argument_bytes id l = bytes_of_string fragment.
Proof.
  intros [Hi Hid] He [Hacc Hst]. unfold tool_delta. rewrite Hi, He.
  destruct (merge_delta tc e) as [e' fragment] eqn:Em.
  assert (acc_id e' = id ∧ start_emitted e' = true ∧ acc_args e' = acc_args e +:+ fragment)
    as (Hid' & Hst' & Hargs).
  { unfold merge_delta in Em.
    assert (match non_empty_str (get "id" tc) with Some s => s | None => acc_id e end = id) as Hid'
      by (destruct Hid as [-> | ->]; done).
    destruct (get "function" tc); injection Em as <- <-; cbn; rewrite ?string_app_nil_r; auto. }
  rewrite Hst', andb_false_r. destruct (argument_log id fragment) as (l & Hl & Hb).
  destruct (decide (fragment = "")) as [->|Hne].
  - exists [], e'. split; [|split; [done|by exists ""]]. intros c. unfold bind_ok, bind, ok, ret.
    cbn [fst snd]. rewrite Hst', bool_decide_true by done. by rewrite act_nil.
  - exists l, e'. split; [|split; [done|by exists fragment]]. intros c. unfold bind_ok, bind, ok, ret.
    cbn [fst snd]. rewrite Hst', bool_decide_false by done. cbn [negb andb]. by rewrite Hid', Hl.
Qed.

(** The arguments of a call reach the kernel unchanged.  Once a tool call has been
    announced, the argument bytes handed to the kernel for it, over any run of deltas
    that continue it (empty fragments, absent or repeated ids included, whatever
    the other calls do), are exactly what the client accumulates for its mirror. *)
Theorem tool_arguments_agree i id tcs accs e :
  Forall (continues i id) tcs → accs !! i = Some e → announced id e →
  ∃ l accs' e', performs (tool_deltas accept tcs accs) (Ok accs') "" "" l ∧
    accs' !! i = Some e' ∧ announced id e' ∧
    bytes_of_string (acc_args e') = bytes_of_string (acc_args e) ++ argument_bytes id l.
Proof.
  intros Hc. revert accs e. induction Hc as [|tc tcs H Hc IH]; intros accs e He Ha.
  - exists [], accs, e. split; [intros c; by rewrite act_nil|]. split_and!; try done.
    by rewrite app_nil_r.
  - destruct (tool_delta_log i id tc accs e H He Ha) as (l & e1 & Hp & Ha1 & fragment & Hargs & Hb).
    destruct (IH (<[i:=e1]> accs) e1) as (l' & accs' & e' & Hp' & He' & Ha' & Hb');
      [apply lookup_insert_eq|done|].
    exists (l ++ l'), accs', e'. split_and!; [|exact He'|exact Ha'|].
    + intros c. cbn [tool_deltas]. unfold bind_ok, bind. rewrite Hp. cbn [fst snd].
      by rewrite Hp', act_act.
    + by rewrite Hb', Hargs, bytes_of_string_app, argument_bytes_app, Hb, (assoc_L (++)).
Qed.

Definition demo_delta (fragment : string) : Value :=
  Object [("index", Num (PosInt 0)); ("function", Object [("arguments", Str fragment)])].
Definition demo_entry : ToolCallAccumulator :=
  {| acc_id := "call_1"; acc_name := "read"; acc_args := "{"; start_emitted := true |}.

Lemma tool_arguments_agree_witness :
  ∃ l accs' e',
    performs (tool_deltas accept [demo_delta "}"; demo_delta ""] {[ 0%N := demo_entry ]}) (Ok accs')
      "" "" l ∧
    accs' !! 0%N = Some e' ∧ announced "call_1" e' ∧
    bytes_of_string (acc_args e') = bytes_of_string "{" ++ argument_bytes "call_1" l.
Proof.
  apply (tool_arguments_agree 0 "call_1" [demo_delta "}"; demo_delta ""] {[ 0%N := demo_entry ]}
           demo_entry).
  - repeat constructor.
  - reflexivity.
  - split; reflexivity.
Defined.

(** A fragment that arrives before the name is accumulated by the mirror only. *)
Example early_fragment_lost :
  let early := Object [("index", Num (PosInt 0)); ("id", Str "call_1");
                       ("function", Object [("arguments", Str "{")])] in
  let late := Object [("index", Num (PosInt 0));
                      ("function", Object [("name", Str "read"); ("arguments", Str "}")])] in
  match tool_deltas accept [early; late] ∅ OpenAiLlmClient_new with
  | (Ok accs, c) => (acc_args <$> accs !! 0%N, argument_bytes "call_1" (outs c))
  | _ => (None, [])
  end = (Some "{}", bytes_of_string "}").
Proof. vm_compute. reflexivity. Qed.

(** ** The window of a request *)

(** The window of a request.  However long the history, a request has at most 30
    messages: the whole history when it fits, else its most recent messages in
    order, preceded by the system prompt when the history starts with one. *)
Theorem request_window history :
  length (build_messages history) = Nat.min (length history) MAX_MESSAGES_PER_REQUEST ∧
  (length history ≤ MAX_MESSAGES_PER_REQUEST →
     build_messages history = build_message <$> history) ∧
  (MAX_MESSAGES_PER_REQUEST < length history →
     match history with
     | ChatMessage.System content :: _ =>
         build_messages history = simple_msg "system" content
           :: (build_message <$> drop (length history - 29) history)
     | _ => build_messages history = build_message <$> drop (length history - 30) history
     end).
Proof.
  unfold build_messages, window, MAX_MESSAGES_PER_REQUEST.
  destruct (decide (30 < length history)) as [H|H].
  - destruct history as [|m h]; [cbn in H; lia|]. split_and!; [|lia|by destruct m].
    destruct m; cbn -[drop]; rewrite length_fmap, length_drop; cbn [length] in *; lia.
  - split_and!; [|done|lia]. cbn [app]. rewrite drop_0, length_fmap. lia.
Qed.

(** ** Diagnostics *)

(** The values reachable in a value. *)
Inductive within (v : Value) : Value → Prop :=
  | within_here : within v v
  | within_field k w l : within v w → (k, w) ∈ l → within v (Object l)
  | within_item w l : within v w → w ∈ l → within v (Array l).

Lemma redact_object l :
  redact_request_body (Object l) =
    Object ((λ p, (p.1, if is_sensitive p.1 && is_string p.2 then Str REDACTED
                        else redact_request_body p.2)) <$> l).
Proof.
  change (redact_request_body (Object l)) with
    (Object ((fix fields (l : list (string * Value)) :=
                match l with
                | [] => []
                | (k, f) :: l' =>
                    (k, if is_sensitive k && is_string f then Str REDACTED
                        else redact_request_body f) :: fields l'
                end) l)).
  f_equal. induction l as [|[k w] l IH]; [done|]. exact (f_equal (cons _) IH).
Qed.

Lemma redact_string_not k w : is_sensitive k && is_string w = false → is_sensitive k = true →
  is_string (redact_request_body w) = false.
Proof. intros H Hk. rewrite Hk in H. by destruct w. Qed.

Lemma redact_array l : redact_request_body (Array l) = Array (redact_request_body <$> l).
Proof. reflexivity. Qed.

(** Nothing sensitive: a [content] or [description] that is a string is the marker. *)
Definition redacted_fields (v : Value) : Prop :=
  ∀ l k s, within (Object l) v → (k, Str s) ∈ l → is_sensitive k = true → s = REDACTED.

Lemma value_induction (P : Value → Prop) :
  (∀ v, (∀ l, v ≠ Object l) → (∀ l, v ≠ Array l) → P v) →
  (∀ l, Forall (λ p, P p.2) l → P (Object l)) →
  (∀ l, Forall P l → P (Array l)) →
  ∀ v, P v.
Proof.
  intros Hb Ho Ha. fix IH 1. intros [|b|n|s|l|l]; try by apply Hb.
  - apply Ha. induction l as [|w l IHl]; constructor; [apply IH|exact IHl].
  - apply Ho. induction l as [|[k w] l IHl]; constructor; [apply IH|exact IHl].
Qed.

(** Redaction of the diagnostic body.  In the redacted request, at any depth, every
    string [content] or [description] is the marker; redacting twice is redacting
    once; the other fields stay where they are.  Only these two are covered: the arguments
    of tool calls and the reasoning text of the assistant stay in clear. *)
Theorem diagnostics_redacted (v : Value) :
  redacted_fields (redact_request_body v) ∧
  redact_request_body (redact_request_body v) = redact_request_body v ∧
  (∀ k, is_sensitive k = false →
     get k (redact_request_body v) = redact_request_body <$> get k v) ∧
  (∀ id name args, redact_request_body (openai_tool_call id name args)
     = openai_tool_call id name args).
Proof.
  split_and!; [| | |done].
  - intros l k s Hw Hin Hk. remember (redact_request_body v) as r eqn:Hr. revert v Hr.
    remember (Object l) as o eqn:Ho.
    induction Hw as [|k' w l' Hw IH Hl|w l' Hw IH Hl]; intros v Hr.
    + subst o. destruct v; try discriminate. rewrite redact_object in Hr. injection Hr as ->.
      apply list_elem_of_fmap in Hin as ([k2 w] & E & _). cbn in E. injection E as <- E.
      destruct (is_sensitive k && is_string w) eqn:Hk2; [congruence|].
      pose proof (redact_string_not _ _ Hk2 Hk) as Hs. by rewrite <- E in Hs.
    + destruct v; try discriminate. rewrite redact_object in Hr. injection Hr as ->.
      apply list_elem_of_fmap in Hl as ([k2 w2] & E & _). cbn in E. injection E as -> E.
      destruct (is_sensitive k2 && is_string w2); [|by apply (IH w2)].
      subst w o. inversion Hw.
    + destruct v; try discriminate. rewrite redact_array in Hr. injection Hr as ->.
      apply list_elem_of_fmap in Hl as (w2 & -> & _). by apply (IH w2).
  - induction v as [v Ho Ha|l IH|l IH] using value_induction.
    + destruct v; try done; [by destruct (Ha l)|by destruct (Ho l)].
    + rewrite !redact_object. f_equal. induction IH as [|[k w] l Hw IH IHl]; [done|]. cbn.
      rewrite IHl. do 2 f_equal. cbn in Hw. destruct (is_sensitive k && is_string w) eqn:Hk.
      * apply andb_true_iff in Hk as [-> _]. done.
      * destruct (is_sensitive k) eqn:Hs; [|by rewrite Hw].
        by rewrite (redact_string_not k w) by (by rewrite ?Hs).
    + rewrite !redact_array. f_equal. induction IH as [|w l Hw IH IHl]; [done|]. cbn. by rewrite Hw, IHl.
  - intros k Hk. destruct v as [| | | | |l]; try done. rewrite redact_object. cbn [get].
    induction l as [|[k2 w] l IH]; [done|]. cbn. destruct (decide (k2 = k)) as [->|]; [|exact IH].
    by rewrite Hk.
Qed.

(** ** What is written of a request *)

Lemma floor_boundary_spec l i :
  floor_boundary l i ≤ i ∧ is_char_boundary l (floor_boundary l i) = true.
Proof.
  induction i as [|i IH]; cbn [floor_boundary].
  - destruct (is_char_boundary l 0) eqn:E; [by split|]. discriminate.
  - destruct (is_char_boundary l (S i)) eqn:E; [by split|]. destruct IH. split; [lia|done].
Qed.

(** The diagnostic file is in a directory nobody else can read or search, holds at most a
    mebibyte, and holds what was redacted, cut at a character when it is longer. *)
Theorem diagnostics_private xdg home create set_permissions mode to_string turn body path text :
  write_diag_request xdg home create set_permissions mode to_string turn body = Some (path, text) →
  (∃ dir m, private_diag_dir xdg home create set_permissions mode = Some (dir, m) ∧ N.land m 63 = 0%N ∧
     path = path_push dir ("brioche_request_turn_" +:+ pretty turn +:+ ".json")) ∧
  (N.of_nat (length text) ≤ MAX_DIAG_BYTES)%N ∧
  (text = to_string (redact_request_body body) ∨
   ∃ n, is_char_boundary (to_string (redact_request_body body)) n = true ∧
        text = take n (to_string (redact_request_body body)) ++ TRUNCATION_SUFFIX).
Proof.
  unfold write_diag_request. destruct (private_diag_dir _ _ _ _ _) as [[dir m]|] eqn:Ed; [|done].
  cbn. intros [= <- <-]. set (whole := to_string (redact_request_body body)). split_and!.
  - exists dir, m. split; [done|]. split; [|done]. unfold private_diag_dir in Ed.
    destruct (match xdg with Some _ => _ | None => _ end) as [base|]; [|done]. cbn in Ed.
    destruct (create _); [|done]. destruct (mode _) as [m0|]; [|done]. cbn in Ed.
    destruct (N.eqb_spec (N.land (N.land m0 511) 63) 0) as [E|E]; [by injection Ed as _ <-|].
    destruct (set_permissions _); [by injection Ed as _ <-|done].
  - unfold cap_diag. destruct (N.ltb_spec MAX_DIAG_BYTES (N.of_nat (length whole))) as [Hl|Hl]; [|done].
    rewrite length_app, length_take. unfold floor_char_boundary.
    set (limit := N.to_nat (MAX_DIAG_BYTES - N.of_nat (length TRUNCATION_SUFFIX))).
    assert (N.of_nat limit + N.of_nat (length TRUNCATION_SUFFIX) = MAX_DIAG_BYTES)%N as Hs.
    { unfold limit. rewrite N2Nat.id. reflexivity. }
    destruct (Nat.leb_spec (length whole) limit) as [Hle|Hle]; [lia|].
    destruct (floor_boundary_spec whole limit). lia.
  - unfold cap_diag. destruct (N.ltb_spec MAX_DIAG_BYTES (N.of_nat (length whole))) as [Hl|Hl]; [|by left].
    right. eexists. split; [|reflexivity]. unfold floor_char_boundary.
    destruct (Nat.leb_spec (length whole) (N.to_nat (MAX_DIAG_BYTES - N.of_nat (length TRUNCATION_SUFFIX)))).
    + unfold is_char_boundary. destruct (length whole) as [|n] eqn:E; [done|].
      rewrite lookup_ge_None_2 by lia. by apply bool_decide_eq_true.
    + apply floor_boundary_spec.
Qed.

Lemma diagnostics_private_witness :
  write_diag_request None (Some "/home/me") (λ _, true) (λ _, true) (λ _, Some 16877%N)
    (λ v, match v with Str s => bytes_of_string s | _ => [] end) 3 (Str "hi") =
    Some ("/home/me/.cache/brioche/diag/brioche_request_turn_3.json", bytes_of_string "hi") ∧
  (N.of_nat (length (bytes_of_string "hi")) ≤ MAX_DIAG_BYTES)%N.
Proof.
  assert (write_diag_request None (Some "/home/me") (λ _, true) (λ _, true) (λ _, Some 16877%N)
    (λ v, match v with Str s => bytes_of_string s | _ => [] end) 3 (Str "hi") =
    Some ("/home/me/.cache/brioche/diag/brioche_request_turn_3.json", bytes_of_string "hi")) as H
    by reflexivity.
  split; [exact H|]. exact (proj1 (proj2 (diagnostics_private _ _ _ _ _ _ _ _ _ _ H))).
Defined.

(** An empty [XDG_CACHE_HOME] is taken for a path: the file goes below the current directory. *)
Example empty_cache_home :
  private_diag_dir (Some "") (Some "/home/me") (λ _, true) (λ _, true) (λ _, Some 448%N) =
    Some ("brioche/diag", 448%N).
Proof. reflexivity. Qed.
