(* ===== verification/SystemTools.v ===== *)
(** * System tools (brioche-tools-system/src/: registry.rs, tools/filesystem.rs,
      tools/shell.rs, tools/web.rs; tool_schema.rs of the shell runtime)

    A path is the list of its components, as [Path::components] gives them; two
    paths of the standard library are equal when their components are.  The file
    system, the process launcher and the HTTP client are parameters with a state of
    their own type [F]; JSON parsing, schema validation, URL and IP parsing are
    parameters.  An [io::Error] is its message. *)
From S2P Require Import Prelude Utf8 Types Effects Persistence GovTypes Sse Provider.

(** ** tool_schema.rs *)

Inductive ToolSchemaPropertyType : Type := TString | TBoolean | TInteger.

Definition as_json_type (t : ToolSchemaPropertyType) : string :=
  match t with TString => "string" | TBoolean => "boolean" | TInteger => "integer" end.

Record ToolSchemaProperty := {
  property_name : string;
  property_type : ToolSchemaPropertyType;
  property_description : string;
  property_required : bool
}.

Definition property_schema (p : ToolSchemaProperty) : string * Value :=
  (property_name p,
   Object [("type", Str (as_json_type (property_type p)));
           ("description", Str (property_description p))]).

Definition tool_parameters_schema (properties : list ToolSchemaProperty) : Value :=
  let required := (λ p, Str (property_name p)) <$> List.filter property_required properties in
  Object ([("type", Str "object"); ("properties", Object (property_schema <$> properties))]
    ++ match required with [] => [] | _ => [("required", Array required)] end).

Definition openai_function_tool_schema (name description : string) (parameters : Value) : Value :=
  Object [("type", Str "function");
          ("function", Object [("name", Str name); ("description", Str description);
                               ("parameters", parameters)])].

(** ** registry.rs *)

Definition IoError : Type := string.

Inductive ToolError : Type :=
  | SandboxDenied (reason : string)
  | Io (err : IoError)
  | InvalidArgs (reason : string)
  | NotFound (name : string).

Definition AllowList : Type := gset string.

Definition AllowList_new : AllowList := ∅.
Definition with_command (cmd : string) (l : AllowList) : AllowList := {[ cmd ]} ∪ l.

(** [split_whitespace().next()]: the first run of characters that are not white
    space, or the empty string. *)
Fixpoint take_word (l : list bytes) : list bytes :=
  match l with
  | c :: l' => if is_whitespace c then [] else c :: take_word l'
  | [] => []
  end.
Definition first_word (s : string) : string :=
  string_of_bytes (mjoin (take_word (trim_start (chars (bytes_of_string s))))).

Definition is_allowed (l : AllowList) (command : string) : bool :=
  bool_decide (first_word command ∈ l).

Definition with_development_tools (l : AllowList) : AllowList :=
  with_command "rustc" (with_command "cargo" l).
Definition with_vcs_tools (l : AllowList) : AllowList := with_command "git" l.
Definition with_filesystem_search_tools (l : AllowList) : AllowList := with_command "find" l.

Definition AllowList_default : AllowList :=
  foldr with_command AllowList_new ["wc"; "tail"; "head"; "echo"; "pwd"; "grep"; "cat"; "ls"].

Module SandboxPolicy.
Inductive SandboxPolicy : Type :=
  | Permissive
  | AllowList (l : AllowList)
  | Interactive.
End SandboxPolicy.
Abbreviation SandboxPolicy := SandboxPolicy.SandboxPolicy.

Definition SandboxPolicy_default : SandboxPolicy := SandboxPolicy.AllowList AllowList_default.

(** One tool: [run] acts on the outside world [F]. *)
Record SystemTool (F : Type) := {
  system_tool_name : string;
  system_tool_description : string;
  parameters_schema : Value;
  run : Value → State F (result string ToolError)
}.
Arguments system_tool_name {F}.
Arguments system_tool_description {F}.
Arguments parameters_schema {F}.
Arguments run {F}.

Definition SystemToolExecutor (F : Type) : Type := gmap string (SystemTool F).

Section registry.
Context {F : Type}.
(** [serde_json::from_str] with its error text; the errors of [jsonschema]. *)
Context (parse_json : string → result Value string).
Context (schema_errors : Value → Value → result (list string) string).

Definition SystemToolExecutor_new : SystemToolExecutor F := ∅.

Definition with_tool (tool : SystemTool F) (x : SystemToolExecutor F) : SystemToolExecutor F :=
  <[system_tool_name tool := tool]> x.

Definition schema_json (x : SystemToolExecutor F) : list Value :=
  (λ t, openai_function_tool_schema (system_tool_name t) (system_tool_description t)
          (parameters_schema t)) <$> btree_values x.

Definition tool_not_found (name : string) : ToolOutcome :=
  ToolOutcome.BusinessError ("tool '" +:+ name +:+ "' not found").

Definition error_outcome (e : ToolError) : ToolOutcome :=
  match e with
  | SandboxDenied reason => ToolOutcome.BusinessError ("sandbox denied: " +:+ reason)
  | Io err => ToolOutcome.SystemError ("io error: " +:+ err)
  | InvalidArgs reason => ToolOutcome.BusinessError ("invalid arguments: " +:+ reason)
  | NotFound name => tool_not_found name
  end.

Fixpoint join_semicolons (l : list string) : string :=
  match l with
  | [] => ""
  | [s] => s
  | s :: l' => s +:+ "; " +:+ join_semicolons l'
  end.

Definition registry_run_tool (x : SystemToolExecutor F) (call : ActiveToolCall) :
    State F ToolResultDTO :=
  let answer o := {| result_tool_id := active_tool_id call;
                     result_tool_name := active_tool_name call; outcome := o |} in
  match x !! active_tool_name call with
  | None => ret (answer (tool_not_found (active_tool_name call)))
  | Some tool =>
      match parse_json (active_arguments call) with
      | Err err =>
          ret (answer (ToolOutcome.BusinessError ("invalid JSON arguments: " +:+ err)))
      | Ok args =>
          match schema_errors (parameters_schema tool) args with
          | Err err => ret (answer (ToolOutcome.SystemError ("invalid tool schema: " +:+ err)))
          | Ok (e :: es) =>
              ret (answer (ToolOutcome.BusinessError
                ("arguments do not match schema: " +:+ join_semicolons (e :: es))))
          | Ok [] =>
              r <-! run tool args ;;
              ret (answer match r with
                          | Ok output => ToolOutcome.Success output
                          | Err e => error_outcome e
                          end)
          end
      end
  end.
End registry.

(** ** Paths *)

Inductive Component : Type :=
  | RootDir
  | CurDir
  | ParentDir
  | Normal (c : string).

#[global] Instance Component_eq_dec : EqDecision Component.
Proof. solve_decision. Defined.

Definition Path : Type := list Component.

(** The pieces of a text between slashes. *)
Fixpoint split_slash (s : string) : string * list string :=
  match s with
  | EmptyString => ("", [])
  | String a s' =>
      let '(piece, rest) := split_slash s' in
      if decide (a = "/"%char) then ("", piece :: rest) else (String a piece, rest)
  end.

Definition component_of (piece : string) : option Component :=
  if decide (piece = "") then None
  else if decide (piece = ".") then None
  else if decide (piece = "..") then Some ParentDir
  else Some (Normal piece).

(** [Path::components]: empty pieces and [.] are skipped, except a leading [.]. *)
Definition components (s : string) : Path :=
  let '(first, rest) := split_slash s in
  match s with
  | String "/" _ => RootDir :: omap component_of rest
  | _ => (if decide (first = ".") then [CurDir] else []) ++ omap component_of (first :: rest)
  end.

Definition is_absolute (p : Path) : bool := match p with RootDir :: _ => true | _ => false end.

(** [Path::join]. *)
Definition join (base p : Path) : Path :=
  if is_absolute p then p
  else match base with
       | [] => p
       | _ => base ++ List.filter (λ c, negb (bool_decide (c = CurDir))) p
       end.

(** [PathBuf::pop], and whether it changed the path. *)
Definition pop (p : Path) : bool * Path :=
  match last p with
  | None | Some RootDir => (false, p)
  | Some _ => (true, removelast p)
  end.

(** [Path::parent]. *)
Definition parent (p : Path) : option Path :=
  let '(popped, q) := pop p in if (popped : bool) then Some q else None.

Definition starts_with (p base : Path) : bool := bool_decide (base `prefix_of` p).

Definition component_text (c : Component) : string :=
  match c with RootDir => "" | CurDir => "." | ParentDir => ".." | Normal c => c end.
Fixpoint join_slash (l : list string) : string :=
  match l with
  | [] => ""
  | [s] => s
  | s :: l' => s +:+ "/" +:+ join_slash l'
  end.
(** [path.display()]. *)
Definition display (p : Path) : string :=
  match p with [RootDir] => "/" | _ => join_slash (component_text <$> p) end.

(** ** tools/filesystem.rs: the sandbox *)

Fixpoint trim_end_slashes (s : string) : string :=
  match s with
  | EmptyString => EmptyString
  | String a s' =>
      match trim_end_slashes s' with
      | EmptyString => if decide (a = "/"%char) then EmptyString else String a EmptyString
      | t => String a t
      end
  end.

(** [home]: the [HOME] variable, when it is set to a text. *)
Definition expand_tilde (home : option string) (path : string) : string :=
  match path, home with
  | String "~" (String "/" rest), Some home => trim_end_slashes home +:+ "/" +:+ rest
  | _, _ => path
  end.

Record FileSystemSandbox := { base_dir : option Path; allow_absolute : bool }.

Definition FileSystemSandbox_new : FileSystemSandbox :=
  {| base_dir := None; allow_absolute := false |}.
Definition with_base_dir (base : Path) (s : FileSystemSandbox) : FileSystemSandbox :=
  {| base_dir := Some base; allow_absolute := allow_absolute s |}.
Definition set_allow_absolute (allow : bool) (s : FileSystemSandbox) : FileSystemSandbox :=
  {| base_dir := base_dir s; allow_absolute := allow |}.

(** The three tools are built the same way from an optional base directory. *)
Definition tool_sandbox (base : option Path) : FileSystemSandbox :=
  match base with
  | Some b => with_base_dir b FileSystemSandbox_new
  | None => FileSystemSandbox_new
  end.

Definition normalize_step (n : Path) (c : Component) : Path :=
  match c with
  | RootDir => [RootDir]
  | CurDir => n
  | ParentDir => let '(popped, m) := pop n in if (popped : bool) then m else n ++ [ParentDir]
  | Normal c => n ++ [Normal c]
  end.
Definition normalize_path (p : Path) : Path := foldl normalize_step [] p.

Section sandbox.
(** [env::current_dir] and the [HOME] variable. *)
Context (cwd : result Path IoError) (home : option string).

(** [std::path::absolute]. *)
Definition absolute (p : Path) : result Path IoError :=
  match p with
  | [] => Err "cannot make an empty path absolute"
  | _ => if is_absolute p then Ok p else result_bind cwd (λ d, Ok (join d p))
  end.

Definition from_io {A} (r : result A IoError) : result A ToolError :=
  match r with Ok a => Ok a | Err e => Err (Io e) end.

Definition resolve_path (raw : string) (sandbox : FileSystemSandbox) : result Path ToolError :=
  let path := components (expand_tilde home raw) in
  if is_absolute path then
    if allow_absolute sandbox then Ok path
    else
      let denied := Err (SandboxDenied ("absolute path '" +:+ raw +:+ "' is not allowed")) in
      match base_dir sandbox with
      | Some base =>
          result_bind (from_io (absolute base)) (λ base_abs,
            if starts_with (normalize_path path) (normalize_path base_abs) then Ok path else denied)
      | None => denied
      end
  else
    result_bind (from_io match base_dir sandbox with Some base => absolute base | None => cwd end)
      (λ base,
        let resolved_norm := normalize_path (join base path) in
        if negb (starts_with resolved_norm (normalize_path base)) then
          Err (SandboxDenied ("path '" +:+ raw +:+ "' escapes base directory '"
                 +:+ display base +:+ "'"))
        else Ok resolved_norm).

(** ** tools/filesystem.rs: the tools *)

Context {F : Type}.
Context (read_to_string : Path → State F (result string IoError)).
Context (create_dir_all : Path → State F (result unit IoError)).
Context (write_file : Path → string → State F (result unit IoError)).
(** Open for appending, write all, flush. *)
Context (append_file : Path → string → State F (result unit IoError)).
(** The entries with whether they are directories, in the order of the system. *)
Context (read_dir : Path → State F (result (list (bool * string)) IoError)).

Definition io {A} (m : State F (result A IoError)) : State F (result A ToolError) :=
  r <-! m ;; ret (from_io r).
Definition lift {A} (r : result A ToolError) : State F (result A ToolError) := ret r.

Definition string_arg (key : string) (args : Value) : result string ToolError :=
  match str_field key args with
  | Some s => Ok s
  | None => Err (InvalidArgs ("missing '" +:+ key +:+ "'"))
  end.

Definition path_property (description : string) : ToolSchemaProperty :=
  {| property_name := "path"; property_type := TString; property_description := description;
     property_required := true |}.

Definition ReadFileTool_run (sandbox : FileSystemSandbox) (args : Value) :
    State F (result string ToolError) :=
  path_raw <-? lift (string_arg "path" args) ;;
  path <-? lift (resolve_path path_raw sandbox) ;;
  io (read_to_string path).

Definition ReadFileTool (sandbox : FileSystemSandbox) : SystemTool F :=
  {| system_tool_name := "read_file";
     system_tool_description := "Read the contents of a text file.";
     parameters_schema :=
       tool_parameters_schema [path_property "Absolute or relative path to the file"];
     run := ReadFileTool_run sandbox |}.

Definition bool_arg (key : string) (args : Value) : bool :=
  match get key args with Some (Bool b) => b | _ => false end.

Definition written (verb : string) (content : string) (path : Path) : string :=
  verb +:+ " " +:+ pretty (N.of_nat (String.length content)) +:+ " bytes to " +:+ display path.

Definition WriteFileTool_run (sandbox : FileSystemSandbox) (args : Value) :
    State F (result string ToolError) :=
  path_raw <-? lift (string_arg "path" args) ;;
  path <-? lift (resolve_path path_raw sandbox) ;;
  let content := match str_field "content" args with Some s => s | None => "" end in
  _ <-? match parent path with
        | Some dir => io (create_dir_all dir)
        | None => lift (Ok tt)
        end ;;
  if bool_arg "append" args
  then _ <-? io (append_file path content) ;; lift (Ok (written "appended" content path))
  else _ <-? io (write_file path content) ;; lift (Ok (written "written" content path)).

Definition WriteFileTool (sandbox : FileSystemSandbox) : SystemTool F :=
  {| system_tool_name := "write_file";
     system_tool_description := "Write content to a text file. Creates the file if it does not exist.";
     parameters_schema := tool_parameters_schema
       [path_property "Absolute or relative path to the file";
        {| property_name := "content"; property_type := TString;
           property_description := "Text content to write"; property_required := true |};
        {| property_name := "append"; property_type := TBoolean;
           property_description := "If true, append to the file instead of overwriting";
           property_required := false |}];
     run := WriteFileTool_run sandbox |}.

Definition entry_line (e : bool * string) : string :=
  (if (e.1 : bool) then "dir" else "file") +:+ " " +:+ e.2.

Definition ListDirTool_run (sandbox : FileSystemSandbox) (args : Value) :
    State F (result string ToolError) :=
  path_raw <-? lift (string_arg "path" args) ;;
  path <-? lift (resolve_path path_raw sandbox) ;;
  entries <-? io (read_dir path) ;;
  lift (Ok (join_lines (entry_line <$> entries))).

Definition ListDirTool (sandbox : FileSystemSandbox) : SystemTool F :=
  {| system_tool_name := "list_dir";
     system_tool_description := "List the contents of a directory.";
     parameters_schema :=
       tool_parameters_schema [path_property "Absolute or relative path to the directory"];
     run := ListDirTool_run sandbox |}.
End sandbox.

(** ** tools/shell.rs *)

(** A [char] is its UTF-8 bytes. *)
Definition char_is (a : ascii) (c : bytes) : bool := bool_decide (c = [byte_of_ascii a]).
Definition char_text (c : bytes) : string := string_of_bytes c.

Definition METACHARACTERS : list ascii :=
  [";"; "|"; "&"; "$"; "`"; "010"; "013"; "<"; ">"; "("; ")"; "{"; "}"]%char.

Definition is_metacharacter (c : bytes) : bool := existsb (λ a, char_is a c) METACHARACTERS.

Definition validate_no_shell_metacharacters (command : string) : result unit ToolError :=
  match List.find is_metacharacter (chars (bytes_of_string command)) with
  | Some c => Err (InvalidArgs ("command contains shell metacharacter: " +:+ char_text c))
  | None => Ok tt
  end.

(** The loop of [split_command]: what remains of the text, the words so far, the word
    under way, the two quotes, and whether a word is under way. *)
Fixpoint split_loop (cs : list bytes) (argv : list string) (current : string)
    (in_single in_double in_token : bool) : result (list string) ToolError :=
  match cs with
  | [] =>
      if in_single || in_double then Err (InvalidArgs "command has an unclosed quote")
      else
        let argv := if in_token then argv ++ [current] else argv in
        match argv with
        | [] => Err (InvalidArgs "command is empty")
        | _ => Ok argv
        end
  | c :: cs' =>
      if char_is "'" c && negb in_double
      then split_loop cs' argv current (negb in_single) in_double true
      else if char_is "034" c && negb in_single
      then split_loop cs' argv current in_single (negb in_double) true
      else if char_is "\" c && negb in_single then
        match cs' with
        | next :: cs'' =>
            split_loop cs'' argv (current +:+ char_text next) in_single in_double true
        | [] => Err (InvalidArgs "command ends with a backslash")
        end
      else if is_whitespace c && negb in_single && negb in_double then
        if in_token then split_loop cs' (argv ++ [current]) "" in_single in_double false
        else split_loop cs' argv current in_single in_double in_token
      else split_loop cs' argv (current +:+ char_text c) in_single in_double true
  end.

Definition split_command (command : string) : result (list string) ToolError :=
  split_loop (chars (bytes_of_string command)) [] "" false false false.

(** The user's answer, or the error of the task that asked. *)
Definition ConfirmHandler : Type := string → result bool string.

Record ExecuteCommandTool := {
  policy : SandboxPolicy;
  confirm_handler : option ConfirmHandler;
  default_cwd : option string
}.

Definition ExecuteCommandTool_new : ExecuteCommandTool :=
  {| policy := SandboxPolicy_default; confirm_handler := None; default_cwd := None |}.
Definition with_policy (p : SandboxPolicy) (t : ExecuteCommandTool) : ExecuteCommandTool :=
  {| policy := p; confirm_handler := confirm_handler t; default_cwd := default_cwd t |}.
Definition with_default_cwd (cwd : string) (t : ExecuteCommandTool) : ExecuteCommandTool :=
  {| policy := policy t; confirm_handler := confirm_handler t; default_cwd := Some cwd |}.
Definition with_allow_list (l : AllowList) : ExecuteCommandTool :=
  {| policy := SandboxPolicy.AllowList l; confirm_handler := None; default_cwd := None |}.
Definition with_confirm_handler (h : ConfirmHandler) (t : ExecuteCommandTool) :
    ExecuteCommandTool :=
  {| policy := policy t; confirm_handler := Some h; default_cwd := default_cwd t |}.

Definition ask (h : ConfirmHandler) (command : string) : result unit ToolError :=
  match h command with
  | Err e => Err (Io ("confirm task failed: " +:+ e))
  | Ok false => Err (SandboxDenied ("command '" +:+ command +:+ "' was denied by user"))
  | Ok true => Ok tt
  end.

Definition check_policy (t : ExecuteCommandTool) (command program : string) :
    result unit ToolError :=
  match policy t with
  | SandboxPolicy.Permissive => Ok tt
  | SandboxPolicy.AllowList list =>
      if is_allowed list program then Ok tt
      else match confirm_handler t with
           | Some h => ask h command
           | None =>
               Err (SandboxDenied ("command '" +:+ command +:+ "' is not in the allow-list"))
           end
  | SandboxPolicy.Interactive =>
      match confirm_handler t with
      | Some h => ask h command
      | None => Err (SandboxDenied "interactive confirmation not available in headless mode")
      end
  end.

(** What becomes of a child process. *)
Inductive ProcessEnd : Type :=
  | NotStarted (err : IoError)
  | Cancelled
  | WaitFailed (err : IoError)
  | Exited (stdout stderr : bytes) (code : option Z).

(** [{:?}] of an exit code. *)
Definition show_code (code : option Z) : string :=
  match code with Some z => "Some(" +:+ pretty z +:+ ")" | None => "None" end.

Definition command_output (stdout stderr : bytes) : string :=
  let stdout := from_utf8_lossy stdout in
  let stderr := from_utf8_lossy stderr in
  stdout +:+
  (if decide (stderr = "") then ""
   else (if decide (stdout = "") then "" else String "010" "") +:+ "stderr: " +:+ stderr).

Definition process_result (e : ProcessEnd) : result string ToolError :=
  match e with
  | NotStarted err | WaitFailed err => Err (Io err)
  | Cancelled => Err (Io "cancelled")
  | Exited stdout stderr code =>
      if decide (code = Some 0%Z) then Ok (command_output stdout stderr)
      else Err (Io ("exit code: " +:+ show_code code))
  end.

Section shell.
Context {F : Type}.
(** [Command::new(program)] with its arguments and directory, run to its end. *)
Context (execute : string → list string → option string → State F ProcessEnd).

Definition ExecuteCommandTool_run (t : ExecuteCommandTool) (args : Value) :
    State F (result string ToolError) :=
  command <-? lift (string_arg "command" args) ;;
  _ <-? lift (validate_no_shell_metacharacters command) ;;
  argv <-? lift (split_command command) ;;
  match argv with
  | [] => lift (Err (InvalidArgs "command is empty"))
  | program :: rest =>
      _ <-? lift (check_policy t command program) ;;
      let cwd := match str_field "cwd" args with Some d => Some d | None => default_cwd t end in
      e <-! execute program rest cwd ;;
      lift (process_result e)
  end.

Definition ExecuteCommandTool_tool (t : ExecuteCommandTool) : SystemTool F :=
  {| system_tool_name := "execute_command";
     system_tool_description :=
       "Execute a command. Only allowed commands are permitted by default.";
     parameters_schema := tool_parameters_schema
       [{| property_name := "command"; property_type := TString;
           property_description := "The command to execute"; property_required := true |};
        {| property_name := "cwd"; property_type := TString;
           property_description := "Working directory (optional)";
           property_required := false |}];
     run := ExecuteCommandTool_run t |}.
End shell.

(** ** tools/web.rs *)

Record HttpPolicy := {
  http_allow_loopback : bool;
  http_timeout_ms : N;
  max_response_bytes : nat;
  max_redirects : N
}.

Definition HttpPolicy_external : HttpPolicy :=
  {| http_allow_loopback := false; http_timeout_ms := 30000;
     max_response_bytes := 1024 * 1024; max_redirects := 3 |}.

Definition is_blocked_ipv4 (a b c d : N) : bool :=
  v4_is_loopback a || v4_is_private a b || v4_is_link_local a b
  || ((a =? 0) && (b =? 0) && (c =? 0) && (d =? 0))%N || (a =? 0)%N.
Definition is_blocked_ipv6 (segments : list N) : bool :=
  let first_segment := match segments with s :: _ => s | [] => 0%N end in
  v6_is_loopback segments || v6_is_unspecified segments
  || (N.land first_segment 0xfe00 =? 0xfc00)%N.

Inductive HttpMethod : Type :=
  | Get
  | PostJson (body : Value).

(** What a request comes to: its end, or a response with its status, whether the
    status is a success, and the pieces of the body with the error that ended it. *)
Inductive HttpEnd : Type :=
  | BuildFailed (err : string)
  | HttpCancelled
  | SendTimedOut
  | RequestFailed (is_timeout : bool) (err : string)
  | Response (status : string) (success : bool) (body : list (result bytes string))
      (body_in_time : bool).

Definition request_error (is_timeout : bool) (err : string) : ToolError :=
  Io (if is_timeout then "request exceeded timeout" else err).

Section web.
Context {F : Type} (parse_ip : string → option IpAddr).
(** [Url::parse]: the scheme and the host, or its error. *)
Context (parse_url : string → result (string * option string) string).
Context (utf8_error : bytes → string).
(** The client of a policy: redirects are followed by the client itself. *)
Context (send : HttpPolicy → HttpMethod → string → list (string * string) → State F HttpEnd).

Definition web_is_blocked_host (host : string) : bool :=
  let normalized := to_ascii_lowercase (trim_end_brackets (trim_start_brackets host)) in
  if bool_decide (normalized ∈ ["localhost"; "localhost.localdomain"]) then true
  else match parse_ip normalized with
       | Some (V4 a b c d) => is_blocked_ipv4 a b c d
       | Some (V6 segments) => is_blocked_ipv6 segments
       | None => false
       end.

Definition validate_external_url (url : string) (p : HttpPolicy) : result unit ToolError :=
  match parse_url url with
  | Err err => Err (InvalidArgs err)
  | Ok (scheme, host) =>
      if negb (bool_decide (scheme ∈ ["http"; "https"])) then
        Err (SandboxDenied ("URL scheme '" +:+ scheme +:+ "' is not allowed"))
      else match host with
           | None => Err (SandboxDenied "URL host is required")
           | Some host =>
               if negb (http_allow_loopback p) && web_is_blocked_host host then
                 Err (SandboxDenied ("URL host '" +:+ host +:+ "' is not allowed"))
               else Ok tt
           end
  end.

Fixpoint body_loop (limit : nat) (pieces : list (result bytes string)) (bytes : bytes) :
    result string ToolError :=
  match pieces with
  | [] => if valid_utf8 bytes then Ok (string_of_bytes bytes) else Err (Io (utf8_error bytes))
  | Err err :: _ => Err (Io err)
  | Ok chunk :: rest =>
      if decide (limit < length bytes + length chunk) then
        Err (Io ("response body exceeded " +:+ pretty (N.of_nat limit) +:+ " bytes"))
      else body_loop limit rest (bytes ++ chunk)
  end.
Definition limited_body (pieces : list (result bytes string)) (limit : nat) :
    result string ToolError := body_loop limit pieces [].

Definition response_result (p : HttpPolicy) (e : HttpEnd) : result string ToolError :=
  match e with
  | BuildFailed err => Err (Io err)
  | HttpCancelled => Err (Io "cancelled")
  | SendTimedOut => Err (Io "request exceeded timeout")
  | RequestFailed is_timeout err => Err (request_error is_timeout err)
  | Response status success pieces in_time =>
      if negb in_time then Err (Io "response body exceeded timeout")
      else result_bind (limited_body pieces (max_response_bytes p)) (λ body,
             if success then Ok body
             else Err (Io ("HTTP " +:+ status +:+ ": " +:+ body)))
  end.

(** No caller gives a content type. *)
Definition execute_request (m : HttpMethod) (url : string) (headers : list (string * string))
    (p : HttpPolicy) : State F (result string ToolError) :=
  _ <-? lift (validate_external_url url p) ;;
  e <-! send p m url headers ;;
  lift (response_result p e).

Definition fetch_url (url : string) : State F (result string ToolError) :=
  execute_request Get url [] HttpPolicy_external.
Definition post_json (url : string) (headers : list (string * string)) (body : Value) :
    State F (result string ToolError) :=
  execute_request (PostJson body) url headers HttpPolicy_external.

Definition FetchUrlTool_run (args : Value) : State F (result string ToolError) :=
  url <-? lift (string_arg "url" args) ;;
  fetch_url url.

Definition FetchUrlTool : SystemTool F :=
  {| system_tool_name := "fetch_url";
     system_tool_description := "Fetch the content of a URL via HTTP GET.";
     parameters_schema := tool_parameters_schema
       [{| property_name := "url"; property_type := TString;
           property_description := "URL to fetch"; property_required := true |}];
     run := FetchUrlTool_run |}.
End web.
