(* ===== verification/SystemToolsSpec.v ===== *)
(** * Correctness of the system tools: the file sandbox, the command policy, the
      limits of web requests, the answers of the registry *)
From S2P Require Import Prelude Utf8 Types Effects Persistence GovTypes Sse Provider SystemTools.

(** ** The sandbox *)

(** How a system without symbolic links resolves an absolute path: [..] at the root
    stays there. *)
Definition os_step (here : list string) (c : Component) : list string :=
  match c with
  | RootDir => []
  | CurDir => here
  | ParentDir => removelast here
  | Normal c => here ++ [c]
  end.
Definition os_resolve (p : Path) : list string := foldl os_step [] p.

(** What normalisation makes of an absolute path: one [..] may remain at the root. *)
Definition rooted (k : bool) (names : list string) : Path :=
  RootDir :: (if k then [ParentDir] else []) ++ (Normal <$> names).

Lemma last_rooted k x names : last (rooted k (names ++ [x])) = Some (Normal x).
Proof.
  unfold rooted. rewrite fmap_app, app_comm_cons, (assoc_L (++)). cbn [fmap list_fmap].
  by rewrite last_snoc.
Qed.

Lemma removelast_rooted k x names : removelast (rooted k (names ++ [x])) = rooted k names.
Proof.
  unfold rooted. rewrite fmap_app, app_comm_cons, (assoc_L (++)). cbn [fmap list_fmap].
  by rewrite removelast_last.
Qed.

Lemma normalize_step_rooted k names c :
  ∃ k', normalize_step (rooted k names) c = rooted k' (os_step names c).
Proof.
  destruct c as [| | |c]; cbn [normalize_step os_step].
  - by exists false.
  - by exists k.
  - destruct names as [|x names _] using rev_ind.
    + destruct k; [by exists false|by exists true].
    + exists k. unfold pop. by rewrite last_rooted, removelast_rooted, removelast_last.
  - exists k. unfold rooted. by rewrite fmap_app, app_comm_cons, (assoc_L (++)).
Qed.

Lemma normalize_absolute p :
  is_absolute p = true → ∃ k, normalize_path p = rooted k (os_resolve p).
Proof.
  destruct p as [|[] p]; try discriminate. intros _. unfold normalize_path, os_resolve.
  cbn [foldl normalize_step os_step].
  assert (∀ k names, ∃ k', foldl normalize_step (rooted k names) p = rooted k' (foldl os_step names p))
    as H; [|exact (H false [])].
  induction p as [|c p IH]; intros k names; [by exists k|]. cbn [foldl].
  destruct (normalize_step_rooted k names c) as [k' ->]. apply IH.
Qed.

Lemma os_rooted k names : os_resolve (rooted k names) = names.
Proof.
  unfold os_resolve, rooted. cbn [foldl os_step]. rewrite foldl_app.
  assert (∀ here, foldl os_step here (Normal <$> names) = here ++ names) as H.
  { induction names as [|x names IH]; intros here; cbn; [by rewrite app_nil_r|].
    by rewrite IH, <- (assoc_L (++)). }
  by destruct k; rewrite H.
Qed.

Lemma rooted_prefix k k' names names' :
  rooted k names `prefix_of` rooted k' names' →
  names `prefix_of` names' ∧ (names ≠ [] → k = false → k' = false).
Proof.
  unfold rooted. intros [rest H]. injection H as H.
  assert (∀ (l l' : list string) (rest : Path), Normal <$> l' = (Normal <$> l) ++ rest →
            l `prefix_of` l') as Hn.
  { intros l. induction l as [|x l IH]; intros l' rest' E; [apply prefix_nil|].
    destruct l' as [|x' l']; [done|]. injection E as -> E. by apply prefix_cons, (IH l' rest'). }
  destruct k, k'; cbn in H.
  - injection H as H. split; [by apply (Hn _ _ rest)|done].
  - destruct names'; done.
  - destruct names as [|x names]; [by split; [apply prefix_nil|]|done].
  - split; [by apply (Hn _ _ rest)|done].
Qed.

Lemma join_absolute base p : is_absolute base = true → is_absolute (join base p) = true.
Proof. unfold join. destruct (is_absolute p) eqn:E; [done|]. by destruct base as [|[]]. Qed.

Section sandbox.
Context (d : Path) (home : option string) (Hd : is_absolute d = true).
#[local] Abbreviation resolve_path := (resolve_path (Ok d) home).
#[local] Abbreviation absolute := (absolute (Ok d)).

Lemma absolute_absolute b b' : absolute b = Ok b' → is_absolute b' = true.
Proof using Hd.
  unfold SystemTools.absolute. destruct b as [|c b]; [done|].
  destruct (is_absolute (c :: b)) eqn:E; [by intros [= <-]|]. cbn. intros [= <-].
  by apply join_absolute.
Qed.

(** The directory paths are confined to. *)
Definition root_of (s : FileSystemSandbox) : result Path IoError :=
  match base_dir s with Some b => absolute b | None => Ok d end.

Definition confined (s : FileSystemSandbox) (p : Path) : Prop :=
  ∃ root, root_of s = Ok root ∧ os_resolve root `prefix_of` os_resolve p.

Lemma below_base base p :
  is_absolute base = true → is_absolute p = true →
  starts_with (normalize_path p) (normalize_path base) = true →
  os_resolve base `prefix_of` os_resolve p.
Proof using Type.
  intros Hb Hp H. apply bool_decide_eq_true in H.
  destruct (normalize_absolute base Hb) as [k Ek], (normalize_absolute p Hp) as [k' Ek'].
  rewrite Ek, Ek' in H. by apply rooted_prefix in H as [? _].
Qed.

Lemma resolve_path_confined raw s p :
  resolve_path raw s = Ok p → allow_absolute s = false → confined s p ∧ is_absolute p = true.
Proof using Hd.
  unfold SystemTools.resolve_path. intros H Hs. rewrite Hs in H.
  set (path := components (expand_tilde home raw)) in *. unfold confined, root_of.
  destruct (is_absolute path) eqn:Ea.
  - destruct (base_dir s) as [b|]; [|done]. destruct (absolute b) as [root|] eqn:Eb; [|done].
    cbn in H. destruct (starts_with _ _) eqn:E; [|done]. injection H as <-.
    split; [|done]. exists root. split; [done|].
    by apply below_base; [eapply absolute_absolute| |].
  - assert (∀ root, is_absolute root = true →
      (if negb (starts_with (normalize_path (join root path)) (normalize_path root))
       then Err (SandboxDenied ("path '" +:+ raw +:+ "' escapes base directory '"
                   +:+ display root +:+ "'"))
       else Ok (normalize_path (join root path))) = Ok p →
      os_resolve root `prefix_of` os_resolve p ∧ is_absolute p = true) as Hroot.
    { intros root Hr H'. pose proof (join_absolute root path Hr) as Hj.
      destruct (starts_with _ _) eqn:E; [|done]. injection H' as <-.
      pose proof (below_base _ _ Hr Hj E) as Hbelow.
      destruct (normalize_absolute _ Hj) as [k ->]. by rewrite os_rooted. }
    destruct (base_dir s) as [b|].
    + destruct (absolute b) as [root|] eqn:Eb; [|done]. cbn in H.
      apply Hroot in H as [? ?]; [|by eapply absolute_absolute]. eauto.
    + cbn in H. apply Hroot in H as [? ?]; [|done]. eauto.
Qed.

(** A relative path is handed over without any [..], unless the base is the root. *)
Lemma resolve_relative raw s p root :
  is_absolute (components (expand_tilde home raw)) = false → root_of s = Ok root →
  resolve_path raw s = Ok p → ParentDir ∉ normalize_path root → os_resolve root ≠ [] →
  ParentDir ∉ p.
Proof using Hd.
  unfold SystemTools.resolve_path, root_of. intros Ha Hr H Hroot Hne. rewrite Ha in H.
  assert (is_absolute root = true) as Hra.
  { destruct (base_dir s); [by eapply absolute_absolute|by injection Hr as <-]. }
  assert (from_io match base_dir s with Some b => absolute b | None => Ok d end = Ok root) as Hb
    by (by rewrite Hr).
  rewrite Hb in H. cbn in H. destruct (starts_with _ _) eqn:E; [|done]. injection H as <-.
  apply bool_decide_eq_true in E.
  pose proof (join_absolute root (components (expand_tilde home raw)) Hra) as Hj.
  destruct (normalize_absolute root Hra) as [k Ek], (normalize_absolute _ Hj) as [k' Ek'].
  rewrite Ek, Ek' in *. apply rooted_prefix in E as [_ E].
  destruct k; [exfalso; apply Hroot; unfold rooted; cbn; by right; left|].
  rewrite (E Hne eq_refl). unfold rooted. cbn. rewrite elem_of_cons, list_elem_of_fmap.
  by intros [|(x & ? & _)].
Qed.
End sandbox.

Section tools.
Context {F : Type} (cwd : Path) (home : option string).
Context (read_to_string : Path → State F (result string IoError)).
Context (create_dir_all : Path → State F (result unit IoError)).
Context (write_file append_file : Path → string → State F (result unit IoError)).
Context (read_dir : Path → State F (result (list (bool * string)) IoError)).

(** A relation that covers what the operations do below the base directory. *)
Record covers (s : FileSystemSandbox) (R : relation F) : Prop := {
  covers_read p : confined cwd s p → respects R (read_to_string p);
  covers_dir p q : confined cwd s p → parent p = Some q → respects R (create_dir_all q);
  covers_write p t : confined cwd s p → respects R (write_file p t);
  covers_append p t : confined cwd s p → respects R (append_file p t);
  covers_list p : confined cwd s p → respects R (read_dir p)
}.

Definition file_tools (s : FileSystemSandbox) : list (SystemTool F) :=
  [ReadFileTool (Ok cwd) home read_to_string s;
   WriteFileTool (Ok cwd) home create_dir_all write_file append_file s;
   ListDirTool (Ok cwd) home read_dir s].

Lemma respects_io (R : relation F) {A} (m : State F (result A IoError)) :
  respects R m → respects R (io m).
Proof using Type. intros H s. apply H. Qed.

(** C10: the file tools stay in their sandbox.  When absolute paths are not allowed at
    large, whatever the arguments (absolute paths, [..], [~], missing fields), reading,
    writing and listing act on the file system only through paths that resolve, in a
    system without symbolic links, below the base directory; a write may also create
    the parent of such a path.  Hence every relation that holds across these
    operations holds across a run of the tools. *)
Theorem file_tools_confined (s : FileSystemSandbox) (R : relation F) tool args
    (Hcwd : is_absolute cwd = true) (Hs : allow_absolute s = false)
    (Hrefl : Reflexive R) (Htrans : Transitive R) (Hcov : covers s R)
    (Htool : tool ∈ file_tools s) :
  respects R (run tool args).
Proof using Type.
  destruct Hcov as [Hread Hdir Hwrite Happend Hlist].
  pose proof (resolve_path_confined cwd home Hcwd) as Hconf.
  assert (∀ A (r : result A ToolError), respects R (lift r)) as Hlift by (intros A r st; apply Hrefl).
  assert (∀ (f : Path → State F (result string ToolError)),
    (∀ p, confined cwd s p → respects R (f p)) →
    respects R (path_raw <-? lift (string_arg "path" args) ;;
                path <-? lift (resolve_path (Ok cwd) home path_raw s) ;; f path)) as Hpath.
  { intros f Hf. apply (respects_bind_ok R); [exact (Hlift _ _)|]. intros raw st.
    unfold bind_ok, bind, lift, ret. cbn [fst snd].
    destruct (resolve_path (Ok cwd) home raw s) as [p|e] eqn:E; [|done].
    apply Hf. by apply (Hconf raw s p). }
  unfold file_tools in Htool. rewrite !elem_of_cons in Htool.
  destruct Htool as [->|[->|[->|H]]]; [| | |by apply not_elem_of_nil in H].
  - apply Hpath. intros p Hp. by apply respects_io, Hread.
  - apply Hpath. intros p Hp. apply (respects_bind_ok R).
    + destruct (parent p) as [q|] eqn:E; [|exact (Hlift _ _)]. apply respects_io. by apply (Hdir p).
    + intros _. destruct (bool_arg "append" args);
        (apply (respects_bind_ok R); [apply respects_io; auto|intros; exact (Hlift _ _)]).
  - apply Hpath. intros p Hp. apply (respects_bind_ok R); [by apply respects_io, Hlist|].
    intros. exact (Hlift _ _).
Qed.
End tools.

(** A demonstration system: the paths written to. *)
Definition log_unit (p : Path) : State (list Path) (result unit IoError) := λ l, (Ok tt, l ++ [p]).
Definition demo_root : Path := components "/srv/ws".
Definition demo_sandbox : FileSystemSandbox := tool_sandbox (Some demo_root).

(** Everything written to is [/srv/ws] itself, its parent, or below it. *)
Definition below_parent (l : list Path) : Prop :=
  Forall (λ p, ["srv"] `prefix_of` os_resolve p) l.

Lemma os_resolve_snoc p c : os_resolve (p ++ [c]) = os_step (os_resolve p) c.
Proof. unfold os_resolve. by rewrite foldl_app. Qed.

Lemma demo_confined p : confined (components "/home") demo_sandbox p →
  ["srv"; "ws"] `prefix_of` os_resolve p.
Proof. intros (root & E & H). injection E as <-. exact H. Qed.

Lemma removelast_prefix (l l' : list string) x : l ++ [x] `prefix_of` l' → l `prefix_of` removelast l'.
Proof.
  intros [k ->]. destruct k as [|y k _] using rev_ind.
  - by rewrite app_nil_r, removelast_last.
  - rewrite (assoc_L (++)), removelast_last. by rewrite <- (assoc_L (++)); apply prefix_app_r.
Qed.

Lemma demo_covers :
  covers (components "/home") (λ _ l, (Ok "", l)) log_unit (λ p _, log_unit p) (λ p _, log_unit p)
    (λ _ l, (Ok [], l)) demo_sandbox (keeps below_parent).
Proof.
  assert (∀ p, ["srv"] `prefix_of` os_resolve p → respects (keeps below_parent) (log_unit p)) as Hlog.
  { intros p Hp l Hl. cbn. apply Forall_app. by split; [|constructor]. }
  assert (∀ l : list string, ["srv"; "ws"] `prefix_of` l → ["srv"] `prefix_of` l) as Hsub.
  { intros l Hl. etrans; [|exact Hl]. by exists ["ws"]. }
  split.
  - intros p _ l Hl. exact Hl.
  - intros p q Hp%demo_confined Hq. apply Hlog. unfold parent, pop in Hq.
    destruct p as [|c p _] using rev_ind; [done|]. rewrite last_snoc, removelast_last in Hq.
    rewrite os_resolve_snoc in Hp. destruct c as [| | |c]; try discriminate; injection Hq as <-; cbn in Hp.
    + by apply Hsub.
    + apply Hsub. etrans; [exact Hp|]. destruct (os_resolve p) as [|x l _] using rev_ind;
        [done|]. rewrite removelast_last. by apply prefix_app_r.
    + apply (removelast_prefix ["srv"] _ "ws") in Hp. by rewrite removelast_last in Hp.
  - intros p t Hp%demo_confined. by apply Hlog, Hsub.
  - intros p t Hp%demo_confined. by apply Hlog, Hsub.
  - intros p _ l Hl. exact Hl.
Qed.

Definition demo_write : Value :=
  Object [("path", Str "sub/../notes.txt"); ("content", Str "x")].

Lemma file_tools_confined_witness :
  below_parent (run (WriteFileTool (Ok (components "/home")) None log_unit (λ p _, log_unit p)
                       (λ p _, log_unit p) demo_sandbox) demo_write []).2 ∧
  (run (WriteFileTool (Ok (components "/home")) None log_unit (λ p _, log_unit p)
          (λ p _, log_unit p) demo_sandbox) demo_write []).2
    = [demo_root; components "/srv/ws/notes.txt"].
Proof.
  split; [|vm_compute; reflexivity].
  apply (file_tools_confined (components "/home") None (λ _ l, (Ok "", l)) log_unit
           (λ p _, log_unit p) (λ p _, log_unit p) (λ _ l, (Ok [], l)) demo_sandbox
           (keeps below_parent) _ demo_write).
  - reflexivity.
  - reflexivity.
  - intros l H. exact H.
  - intros l1 l2 l3 H1 H2 H. exact (H2 (H1 H)).
  - exact demo_covers.
  - unfold file_tools. right. left.
  - constructor.
Defined.

(** Symbolic links are not looked at: [links] maps a name to what it points to. *)
Definition walk_step (links : gmap (list string) (list string)) (here : list string)
    (c : Component) : list string :=
  let there := os_step here c in
  match c, links !! there with Normal _, Some target => target | _, _ => there end.

(** A link inside the base leads out; and an absolute path is checked in its normal
    form, where [out/..] disappears, but used as it was given. *)
Example symlinks_escape :
  let links := {[ ["srv"; "ws"; "out"] := ["etc"; "ssl"] ]} in
  let used raw := match resolve_path (Ok (components "/home")) None raw demo_sandbox with
                  | Ok p => Some (foldl (walk_step links) [] p)
                  | Err _ => None
                  end in
  used "out/key.pem" = Some ["etc"; "ssl"; "key.pem"] ∧
  used "out/../passwd" = Some ["srv"; "ws"; "passwd"] ∧
  used "/srv/ws/out/../passwd" = Some ["etc"; "passwd"].
Proof. vm_compute. done. Qed.

(** ** Commands *)

(** Who let the command pass. *)
Definition permitted (t : ExecuteCommandTool) (command program : string) : Prop :=
  match policy t with
  | SandboxPolicy.Permissive => True
  | SandboxPolicy.AllowList l =>
      first_word program ∈ l ∨ ∃ h, confirm_handler t = Some h ∧ h command = Ok true
  | SandboxPolicy.Interactive => ∃ h, confirm_handler t = Some h ∧ h command = Ok true
  end.

Lemma ask_ok h command : ask h command = Ok tt → h command = Ok true.
Proof. unfold ask. by destruct (h command) as [[]|]. Qed.

Lemma check_policy_ok t command program :
  check_policy t command program = Ok tt → permitted t command program.
Proof.
  unfold check_policy, permitted. destruct (policy t) as [|l|]; [done| |].
  - unfold is_allowed. case_bool_decide; [by left|].
    destruct (confirm_handler t) as [h|]; [|done]. intros Ha%ask_ok. right. eauto.
  - destruct (confirm_handler t) as [h|]; [|done]. intros H%ask_ok. eauto.
Qed.

Lemma metacharacters_absent command :
  validate_no_shell_metacharacters command = Ok tt →
  Forall (λ c, is_metacharacter c = false) (chars (bytes_of_string command)).
Proof.
  unfold validate_no_shell_metacharacters. destruct (List.find _ _) eqn:E; [done|]. intros _.
  apply Forall_forall. intros c Hc. by apply (find_none _ _ E), list_elem_of_In.
Qed.

(** C9: what is executed was permitted.  Running the command tool either fails without
    starting anything, or starts exactly one process, whose program and arguments are
    the words of the command; the command then has no shell metacharacter, and the
    policy is Permissive, or the first word of the program is on the allow-list, or
    the user confirmed the very command.  The outcome is that of the process. *)
Theorem executed_commands_permitted {F} execute (t : ExecuteCommandTool) args (f : F) :
  (∃ e, ExecuteCommandTool_run execute t args f = (Err e, f)) ∨
  ∃ command program rest cwd,
    string_arg "command" args = Ok command ∧ split_command command = Ok (program :: rest) ∧
    Forall (λ c, is_metacharacter c = false) (chars (bytes_of_string command)) ∧
    permitted t command program ∧
    ExecuteCommandTool_run execute t args f =
      (process_result (execute program rest cwd f).1, (execute program rest cwd f).2).
Proof.
  unfold ExecuteCommandTool_run, bind_ok, bind, lift, ret. cbn [fst snd].
  destruct (string_arg "command" args) as [command|e]; [|left; by exists e].
  destruct (validate_no_shell_metacharacters command) as [[]|e] eqn:Em; [|left; by exists e].
  destruct (split_command command) as [[|program rest]|e] eqn:Es; [left; eauto| |left; by exists e].
  destruct (check_policy t command program) as [[]|e] eqn:Ep; [|left; by exists e].
  right. eexists command, program, rest, _. split_and!; [done|done| | |reflexivity].
  - by apply metacharacters_absent.
  - by apply check_policy_ok.
Qed.

(** A quoted program may hold spaces: the allow-list then looks at another word than the
    program that is started. *)
Example quoted_program_passes :
  split_command ("'ls x' y") = Ok ["ls x"; "y"] ∧
  check_policy ExecuteCommandTool_new "'ls x' y" "ls x" = Ok tt ∧ "ls x" ∉ AllowList_default.
Proof. split_and!; [vm_compute; reflexivity..|]. apply (bool_decide_eq_false _). by vm_compute. Qed.

(** *** Round trip: quoting every character *)

(** A word with every character escaped; the empty word as two quotes. *)
Definition quote_word (cs : list bytes) : list bytes :=
  match cs with
  | [] => [[byte_of_ascii "'"]; [byte_of_ascii "'"]]
  | _ => c ← cs; [[byte_of_ascii "\"]; c]
  end.
Fixpoint quote_argv (ws : list (list bytes)) : list bytes :=
  match ws with
  | [] => []
  | [w] => quote_word w
  | w :: ws' => quote_word w ++ [byte_of_ascii " "] :: quote_argv ws'
  end.

Definition word_text (cs : list bytes) : string := foldr (λ c s, char_text c +:+ s) "" cs.

Lemma split_escaped cs rest argv current b :
  split_loop ((c ← cs; [[byte_of_ascii "\"]; c]) ++ rest) argv current false false b =
  split_loop rest argv (current +:+ word_text cs) false false (match cs with [] => b | _ => true end).
Proof.
  revert current b. induction cs as [|c cs IH]; intros current b.
  - cbn. by rewrite string_app_nil_r.
  - cbn [mbind list_bind app]. rewrite <- ?app_comm_cons.
    change (split_loop ([byte_of_ascii "\"] :: c :: (mbind (λ c, [[byte_of_ascii "\"]; c]) cs ++ rest))
              argv current false false b)
      with (split_loop (mbind (λ c, [[byte_of_ascii "\"]; c]) cs ++ rest) argv
              (current +:+ char_text c) false false true).
    rewrite IH. cbn [word_text foldr]. rewrite string_app_assoc. by destruct cs.
Qed.

Lemma split_quoted w rest argv :
  split_loop (quote_word w ++ rest) argv "" false false false =
  split_loop rest argv (word_text w) false false true.
Proof. destruct w as [|c w]; [reflexivity|]. unfold quote_word. by rewrite split_escaped. Qed.

Lemma split_quote_argv w ws argv :
  split_loop (quote_argv (w :: ws)) argv "" false false false =
    Ok (argv ++ (word_text <$> w :: ws)).
Proof.
  revert w argv. induction ws as [|w' ws IH]; intros w argv.
  - cbn [quote_argv]. rewrite <- (app_nil_r (quote_word w)), split_quoted. cbn.
    by destruct argv.
  - change (quote_argv (w :: w' :: ws))
      with (quote_word w ++ [byte_of_ascii " "] :: quote_argv (w' :: ws)).
    rewrite split_quoted.
    change (split_loop ([byte_of_ascii " "] :: quote_argv (w' :: ws)) argv (word_text w) false false true)
      with (split_loop (quote_argv (w' :: ws)) (argv ++ [word_text w]) "" false false false).
    rewrite IH. by rewrite <- (assoc_L (++)).
Qed.

(** *** The characters of a text *)

Lemma chars_go_fuel l f1 f2 : length l ≤ f1 → length l ≤ f2 → chars_go f1 l = chars_go f2 l.
Proof.
  revert l f2. induction f1 as [|f1 IH]; intros [|b l] [|f2] H1 H2; cbn in *; try lia; try done.
  pose proof (next_seq_pos b l) as Hp. f_equal. apply IH; rewrite length_drop; cbn; lia.
Qed.

Lemma chars_cons b l :
  chars (b :: l) = take (next_seq b l).2 (b :: l) :: chars (drop (next_seq b l).2 (b :: l)).
Proof.
  unfold chars at 1. cbn [length chars_go]. f_equal. pose proof (next_seq_pos b l) as Hp.
  apply chars_go_fuel; rewrite length_drop; cbn; lia.
Qed.

Lemma chars_app l1 l2 : valid_utf8 l1 = true → chars (l1 ++ l2) = chars l1 ++ chars l2.
Proof.
  induction l1 as [|b l1 IH] using seq_ind; intros Hv; [done|].
  rewrite valid_cons in Hv. apply andb_prop in Hv as [Hg Hv]. pose proof (next_seq_fits b l1 Hg) as Hf.
  rewrite <- app_comm_cons, chars_cons, (chars_cons b l1), (next_seq_app b l1 l2 Hg).
  rewrite !app_comm_cons, take_app_le, drop_app_le by (cbn; lia). by rewrite IH.
Qed.

(** One character. *)
Definition is_char (c : bytes) : Prop := chars c = [c] ∧ valid_utf8 c = true.

Lemma chars_mjoin cs : Forall is_char cs → chars (mjoin cs) = cs.
Proof.
  induction 1 as [|c cs [Hc Hv] H IH]; [done|]. change (mjoin (c :: cs)) with (c ++ mjoin cs).
  by rewrite (chars_app c _ Hv), Hc, IH.
Qed.

Lemma chars_valid l : valid_utf8 l = true → Forall is_char (chars l) ∧ mjoin (chars l) = l.
Proof.
  induction l as [|b l IH] using seq_ind; intros Hv; [by split|].
  rewrite valid_cons in Hv. apply andb_prop in Hv as [Hg Hv].
  pose proof (next_seq_fits b l Hg) as Hf. pose proof (next_seq_pos b l) as Hp.
  destruct (next_seq b l) as [g n] eqn:E. cbn in Hg, Hf, Hp. subst g.
  destruct (IH Hv) as [IH1 IH2]. rewrite chars_cons, E. cbn [fst snd] in *. split.
  - constructor; [|exact IH1]. split; [|by apply valid_seq].
    destruct n as [|n]; [lia|]. cbn [take]. rewrite chars_cons.
    pose proof (next_seq_prefix b l (S n) [] E) as E'. cbn [Nat.sub] in E'.
    rewrite Nat.sub_0_r, app_nil_r in E'. rewrite E'. cbn [fst snd take].
    rewrite take_take, Nat.min_id. f_equal.
    by rewrite drop_ge by (cbn; rewrite length_take; lia).
  - change (take n (b :: l) ++ mjoin (chars (drop n (b :: l))) = b :: l). rewrite IH2.
    apply take_drop.
Qed.

Lemma word_text_mjoin cs : word_text cs = string_of_bytes (mjoin cs).
Proof.
  induction cs as [|c cs IH]; [done|]. change (mjoin (c :: cs)) with (c ++ mjoin cs).
  rewrite string_of_bytes_app, <- IH. reflexivity.
Qed.

Definition shell_quote (argv : list string) : string :=
  string_of_bytes (mjoin (quote_argv ((λ w, chars (bytes_of_string w)) <$> argv))).

Lemma quote_word_chars w : Forall is_char w → Forall is_char (quote_word w).
Proof.
  assert (is_char [byte_of_ascii "'"] ∧ is_char [byte_of_ascii "\"]) as [Hq Hb]
    by (by repeat split).
  destruct w as [|c w]; intros H; [repeat constructor; exact Hq|]. unfold quote_word.
  induction H as [|c' w' Hc H IH]; [constructor|].
  constructor; [exact Hb|]. constructor; [exact Hc|exact IH].
Qed.

Lemma quote_argv_chars ws : Forall (Forall is_char) ws → Forall is_char (quote_argv ws).
Proof.
  induction 1 as [|w ws Hw H IH]; [constructor|]. destruct ws as [|w' ws].
  - by apply quote_word_chars.
  - change (Forall is_char (quote_word w ++ [byte_of_ascii " "] :: quote_argv (w' :: ws))).
    apply Forall_app. split; [by apply quote_word_chars|]. by constructor.
Qed.

(** Splitting inverts quoting.  For every non-empty list of words (words may be
    empty, and hold spaces, quotes, backslashes or any other character), splitting the
    command in which every character is escaped gives the words back. *)
Theorem split_inverts_quote (argv : list string)
    (Hne : argv ≠ []) (Hutf8 : Forall (λ w, valid_utf8 (bytes_of_string w) = true) argv) :
  split_command (shell_quote argv) = Ok argv.
Proof.
  unfold split_command, shell_quote. rewrite bytes_of_string_of_bytes, chars_mjoin.
  - destruct argv as [|w argv]; [done|]. rewrite fmap_cons, split_quote_argv. f_equal. cbn [app].
    change (word_text <$> ((λ w, chars (bytes_of_string w)) <$> w :: argv) = w :: argv).
    rewrite <- list_fmap_compose. rewrite <- (list_fmap_id (w :: argv)) at 2.
    apply list_fmap_ext. intros i x Hx. cbn [compose id]. unfold compose. rewrite word_text_mjoin.
    destruct (chars_valid (bytes_of_string x)) as [_ ->]; [exact (Forall_lookup_1 _ _ i x Hutf8 Hx)|].
    apply string_of_bytes_of_string.
  - apply quote_argv_chars, Forall_fmap. eapply Forall_impl; [exact Hutf8|]. intros w Hw.
    by apply chars_valid.
Qed.

Lemma split_inverts_quote_witness :
  split_command (shell_quote ["grep"; ""; "it's a \ test"]) = Ok ["grep"; ""; "it's a \ test"].
Proof. apply split_inverts_quote; [discriminate|]. repeat constructor. Defined.

(** ** The registry *)

Definition is_success (o : ToolOutcome) : bool :=
  match o with ToolOutcome.Success _ => true | _ => false end.

(** Every call is answered, and a tool only sees arguments its schema accepts.  The
    answer carries the identifier and name of the call.  The tool of that name runs
    when the arguments are JSON that satisfies its schema, and the call succeeds
    exactly when it does; in every other case nothing is run and the answer is an
    error. *)
Theorem calls_answered {F} parse_json schema_errors (x : SystemToolExecutor F) call (f : F) :
  let r := registry_run_tool parse_json schema_errors x call f in
  result_tool_id r.1 = active_tool_id call ∧ result_tool_name r.1 = active_tool_name call ∧
  ((∃ tool args, x !! active_tool_name call = Some tool ∧
      parse_json (active_arguments call) = Ok args ∧
      schema_errors (parameters_schema tool) args = Ok [] ∧ r.2 = (run tool args f).2 ∧
      (∀ s, outcome r.1 = ToolOutcome.Success s ↔ (run tool args f).1 = Ok s)) ∨
   (r.2 = f ∧ is_success (outcome r.1) = false ∧
      ∀ tool args, x !! active_tool_name call = Some tool →
        parse_json (active_arguments call) = Ok args →
        schema_errors (parameters_schema tool) args ≠ Ok [])).
Proof.
  intros r. subst r. unfold registry_run_tool.
  destruct (x !! active_tool_name call) as [tool|] eqn:Ex; [|split_and!; [done..|by right]].
  destruct (parse_json _) as [args|e] eqn:Ep; [|split_and!; [done..|by right]].
  destruct (schema_errors _ _) as [[|e es]|e] eqn:Es.
  - unfold bind, ret. cbn [fst snd]. split_and!; [done..|]. left. exists tool, args.
    split_and!; [done..|]. intros s. destruct (run tool args f).1 as [s'|[]]; cbn; split; intros H; (discriminate || congruence).
  - split_and!; [done..|]. right. split_and!; [done..|]. intros ? ? [= <-] [= <-]. by rewrite Es.
  - split_and!; [done..|]. right. split_and!; [done..|]. intros ? ? [= <-] [= <-]. by rewrite Es.
Qed.

(** ** Web requests *)

Lemma body_loop_ok utf8_error limit pieces acc s :
  length acc ≤ limit → body_loop utf8_error limit pieces acc = Ok s →
  ∃ chunks, pieces = Ok <$> chunks ∧ length (acc ++ mjoin chunks) ≤ limit ∧
    valid_utf8 (acc ++ mjoin chunks) = true ∧ s = string_of_bytes (acc ++ mjoin chunks).
Proof.
  revert acc. induction pieces as [|[chunk|e] pieces IH]; intros acc Hacc; cbn [body_loop]; [| |done].
  - destruct (valid_utf8 acc) eqn:E; [|done]. intros [= <-]. exists []. by rewrite app_nil_r.
  - destruct (decide _) as [|Hle]; [done|]. intros H.
    apply IH in H as (chunks & -> & H); [|rewrite length_app; lia].
    exists (chunk :: chunks). change (mjoin (chunk :: chunks)) with (chunk ++ mjoin chunks).
    rewrite (assoc_L (++)). by split.
Qed.

Lemma body_loop_complete utf8_error limit chunks acc :
  length (acc ++ mjoin chunks) ≤ limit → valid_utf8 (acc ++ mjoin chunks) = true →
  body_loop utf8_error limit (Ok <$> chunks) acc = Ok (string_of_bytes (acc ++ mjoin chunks)).
Proof.
  revert acc. induction chunks as [|chunk chunks IH]; intros acc.
  - intros _ Hv. rewrite app_nil_r in *. cbn. by rewrite Hv.
  - change (mjoin (chunk :: chunks)) with (chunk ++ mjoin chunks). rewrite (assoc_L (++)).
    intros Hl Hv. cbn [fmap list_fmap body_loop]. rewrite decide_False.
    + by apply IH.
    + rewrite !length_app in Hl. lia.
Qed.

(** What a fetch may bring in.  A page is returned only for an [http] or [https] URL
    whose host is not a private or loopback address or name, when the request succeeded
    in time with a success status and the whole body is at most 1 MiB of valid UTF-8;
    the page is then exactly the body. *)
Theorem fetched_pages_bounded {F} parse_ip parse_url utf8_error
    (send : HttpPolicy → HttpMethod → string → list (string * string) → State F HttpEnd) url f s f' :
  fetch_url parse_ip parse_url utf8_error send url f = (Ok s, f') ↔
  ∃ scheme host status chunks,
    parse_url url = Ok (scheme, Some host) ∧ scheme ∈ ["http"; "https"] ∧
    web_is_blocked_host parse_ip host = false ∧
    send HttpPolicy_external Get url [] f = (Response status true (Ok <$> chunks) true, f') ∧
    length (mjoin chunks) ≤ max_response_bytes HttpPolicy_external ∧
    valid_utf8 (mjoin chunks) = true ∧ s = string_of_bytes (mjoin chunks).
Proof.
  unfold fetch_url, execute_request, validate_external_url, bind_ok, bind, lift, ret.
  cbn [fst snd http_allow_loopback HttpPolicy_external negb andb].
  remember HttpPolicy_external as p eqn:Hp. split.
  - destruct (parse_url url) as [[scheme [host|]]|e] eqn:Eu; cbn [fst snd];
      [|by case_bool_decide|done].
    case_bool_decide as Hs; cbn [negb]; [|done].
    destruct (web_is_blocked_host parse_ip host) eqn:Eb; [done|]. cbn [fst snd].
    destruct (send p Get url [] f) as [e f1] eqn:Es. cbn [fst snd]. intros [= He ->].
    destruct e as [| | | |status ok pieces in_time]; try done. cbn in He.
    destruct in_time; [|done]. cbn in He.
    destruct (limited_body utf8_error pieces (max_response_bytes p)) as [b|e] eqn:El; [|done].
    cbn in He. destruct ok; [|done]. injection He as <-.
    apply body_loop_ok in El as (chunks & -> & Hl & Hv & ->); [|cbn; lia].
    by exists scheme, host, status, chunks.
  - intros (scheme & host & status & chunks & -> & Hs & Eb & Es & Hl & Hv & ->). cbn [fst snd].
    rewrite bool_decide_true by done. cbn [negb]. rewrite Eb. cbn [fst snd]. rewrite Es.
    cbn [fst snd response_result negb]. unfold limited_body.
    by rewrite (body_loop_complete utf8_error _ _ []).
Qed.
