(* ===== verification/Settings.v ===== *)
(** * Settings and profiles of the desktop shell (brioche-shell-persistence/src/:
      secrets.rs, settings.rs, profiles.rs, extensions/settings_sections.rs)

    Settings are JSON values in named modules, read and written under dotted keys;
    their defaults come from the built-in settings sections.  API keys are sealed
    before they are written to disk.  The cipher, base64, the key derivation, the
    random generator, the environment, JSON files and [serde_json::from_value] are
    parameters. *)
From S2P Require Import Prelude Utf8 Types Effects Persistence GovTypes Sse Provider SystemTools.

(** ** extensions/settings_sections.rs *)

Module FieldType.
Inductive FieldType : Type :=
  | String
  | Text
  | Password
  | Number
  | Boolean
  | Select
  | MultiSelect
  | List
  | Object
  | Path
  | ProtectedMarkdown.
End FieldType.

Module ListFieldType.
Inductive SettingsListFieldType : Type :=
  | Text
  | Number
  | Select
  | NullableBoolean.
End ListFieldType.

Module ListRenderer.
Inductive SettingsListRenderer : Type :=
  | Record
  | String
  | MemoryEndpoints.
End ListRenderer.

Record SettingsOption := { option_value : string; option_label : string }.

Record SettingsListField := {
  item_key : string;
  item_type : ListFieldType.SettingsListFieldType;
  item_placeholder : option string;
  item_options : list SettingsOption;
  item_nullable : bool;
  item_default : option Value
}.

Record SettingsListSchema := {
  groups : option (list N);
  add_label : option string;
  renderer : ListRenderer.SettingsListRenderer;
  item_schema : list SettingsListField
}.

Definition SettingsListSchema_default : SettingsListSchema :=
  {| groups := None; add_label := None; renderer := ListRenderer.Record; item_schema := [] |}.

Record SettingsField := {
  field_key : string;
  field_label : string;
  field_type : FieldType.FieldType;
  field_description : option string;
  field_placeholder : option string;
  field_options : list SettingsOption;
  default_value : option Value;
  list_schema : option SettingsListSchema;
  field_protected : bool;
  field_keywords : list string
}.

Record SettingsSection := {
  section_id : string;
  module_id : string;
  section_title : string;
  section_order : Z;
  section_keywords : list string;
  section_fields : list SettingsField
}.

(** [home], [userprofile]: the variables of those names. *)
Definition ui_default_working_dir (home userprofile : option string) : string :=
  match home with
  | Some v => v
  | None => match userprofile with Some v => v | None => "/tmp" end
  end.

Definition UiSettingsSection (home userprofile : option string) : list SettingsSection :=
  [{| section_id := "ui";
      module_id := "ui";
      section_title := "User Interface";
      section_order := 5;
      section_keywords := ["ui"; "working directory"; "stream"];
      section_fields :=
          [{| field_key := "ui.working_dir";
              field_label := "Working directory";
              field_type := FieldType.Path;
              field_description := Some "Working directory for shell session file operations";
              field_placeholder := None;
              field_options := [];
              default_value := Some (Str (ui_default_working_dir home userprofile));
              list_schema := None;
              field_protected := false;
              field_keywords := ["working_dir"; "directory"] |};
           {| field_key := "ui.stream";
              field_label := "Stream model output";
              field_type := FieldType.Boolean;
              field_description := Some "Enable streaming output from the model while the response is generating.";
              field_placeholder := None;
              field_options := [];
              default_value := Some (Bool true);
              list_schema := None;
              field_protected := false;
              field_keywords := ["stream"; "performance"] |}] |}].

Definition ChatModelSection : list SettingsSection :=
  [{| section_id := "chat-model";
      module_id := "chat";
      section_title := "Model";
      section_order := 10;
      section_keywords :=
           ["provider"; "model"; "api key"; "base url"; "reasoning"; "thinking";
            "context window"; "fallback"; "max tokens"];
      section_fields :=
          [{| field_key := "chat.provider";
              field_label := "Provider";
              field_type := FieldType.Select;
              field_description := Some "LLM provider backend";
              field_placeholder := None;
              field_options :=
                  [{| option_value := "openai";
                      option_label := "OpenAI" |};
                   {| option_value := "openrouter";
                      option_label := "OpenRouter" |};
                   {| option_value := "anthropic";
                      option_label := "Anthropic" |}];
              default_value := Some (Str "openrouter");
              list_schema := None;
              field_protected := false;
              field_keywords := [] |};
           {| field_key := "chat.model";
              field_label := "Model";
              field_type := FieldType.String;
              field_description := Some "Primary model identifier";
              field_placeholder := Some "qwen/qwen3.7-plus";
              field_options := [];
              default_value := Some (Str "qwen/qwen3.7-plus");
              list_schema := None;
              field_protected := false;
              field_keywords := [] |};
           {| field_key := "chat.api_key";
              field_label := "API key";
              field_type := FieldType.Password;
              field_description := Some "API key for the selected provider";
              field_placeholder := Some "sk-...";
              field_options := [];
              default_value := Some (Str "");
              list_schema := None;
              field_protected := false;
              field_keywords := ["key"; "token"] |};
           {| field_key := "chat.base_url";
              field_label := "Base URL";
              field_type := FieldType.String;
              field_description := Some "Custom API endpoint";
              field_placeholder := Some "https://openrouter.ai/api/v1";
              field_options := [];
              default_value := Some (Str "https://openrouter.ai/api/v1");
              list_schema := None;
              field_protected := false;
              field_keywords := ["endpoint"; "url"] |};
           {| field_key := "chat.max_tokens";
              field_label := "Max tokens";
              field_type := FieldType.Number;
              field_description := Some "Maximum tokens per response";
              field_placeholder := Some "4096";
              field_options := [];
              default_value := Some (Num (PosInt 4096));
              list_schema := None;
              field_protected := false;
              field_keywords := ["tokens"; "length"] |};
           {| field_key := "chat.context_window";
              field_label := "Context window";
              field_type := FieldType.Number;
              field_description := Some "Model context window in tokens";
              field_placeholder := Some "128000";
              field_options := [];
              default_value := Some (Num (PosInt 128000));
              list_schema := None;
              field_protected := false;
              field_keywords := ["context"; "window"] |};
           {| field_key := "chat.reasoning_enabled";
              field_label := "Reasoning mode";
              field_type := FieldType.Boolean;
              field_description := Some "Enable thinking/reasoning for reasoning models";
              field_placeholder := None;
              field_options := [];
              default_value := Some (Bool false);
              list_schema := None;
              field_protected := false;
              field_keywords := ["thinking"; "reason"] |};
           {| field_key := "chat.reasoning_effort";
              field_label := "Reasoning effort";
              field_type := FieldType.Select;
              field_description := Some "Depth of reasoning when enabled";
              field_placeholder := None;
              field_options :=
                  [{| option_value := "low";
                      option_label := "Low" |};
                   {| option_value := "medium";
                      option_label := "Medium" |};
                   {| option_value := "high";
                      option_label := "High" |}];
              default_value := Some (Str "medium");
              list_schema := None;
              field_protected := false;
              field_keywords := [] |};
           {| field_key := "chat.fallback_models";
              field_label := "Fallback models";
              field_type := FieldType.List;
              field_description := Some "Models to try if the primary model fails. Each entry can override context window and reasoning effort.";
              field_placeholder := None;
              field_options := [];
              default_value := Some (Array []);
              list_schema := Some {| groups := Some [2; 2; 3]%N;
                     add_label := Some "Add fallback model";
                     renderer := ListRenderer.Record;
                     item_schema :=
                         [{| item_key := "provider";
                             item_type := ListFieldType.Text;
                             item_placeholder := Some "provider";
                             item_options := [];
                             item_nullable := false;
                             item_default := Some (Str "") |};
                          {| item_key := "model";
                             item_type := ListFieldType.Text;
                             item_placeholder := Some "model";
                             item_options := [];
                             item_nullable := false;
                             item_default := Some (Str "") |};
                          {| item_key := "api_key";
                             item_type := ListFieldType.Text;
                             item_placeholder := Some "api key (optional)";
                             item_options := [];
                             item_nullable := true;
                             item_default := None |};
                          {| item_key := "base_url";
                             item_type := ListFieldType.Text;
                             item_placeholder := Some "base url (optional)";
                             item_options := [];
                             item_nullable := true;
                             item_default := None |};
                          {| item_key := "context_window";
                             item_type := ListFieldType.Number;
                             item_placeholder := Some "context window";
                             item_options := [];
                             item_nullable := true;
                             item_default := None |};
                          {| item_key := "reasoning_enabled";
                             item_type := ListFieldType.NullableBoolean;
                             item_placeholder := Some "default reasoning";
                             item_options := [];
                             item_nullable := true;
                             item_default := None |};
                          {| item_key := "reasoning_effort";
                             item_type := ListFieldType.Select;
                             item_placeholder := Some "reasoning effort";
                             item_options :=
                                 [{| option_value := "low";
                                     option_label := "low" |};
                                  {| option_value := "medium";
                                     option_label := "medium" |};
                                  {| option_value := "high";
                                     option_label := "high" |}];
                             item_nullable := true;
                             item_default := Some (Str "medium") |}] |};
              field_protected := false;
              field_keywords := ["fallback"; "backup"] |}] |}].

Definition ModelIdentitySection : list SettingsSection :=
  [{| section_id := "chat-identity";
      module_id := "chat";
      section_title := "Model Identity";
      section_order := 20;
      section_keywords :=
           ["personality"; "identity"; "system prompt"; "helpful"; "teacher"; "creative";
            "concise"];
      section_fields :=
          [{| field_key := "chat.personality";
              field_label := "Personality";
              field_type := FieldType.Select;
              field_description := Some "Default conversational style";
              field_placeholder := None;
              field_options :=
                  [{| option_value := "helpful";
                      option_label := "Helpful" |};
                   {| option_value := "teacher";
                      option_label := "Teacher" |};
                   {| option_value := "creative";
                      option_label := "Creative" |};
                   {| option_value := "concise";
                      option_label := "Concise" |}];
              default_value := Some (Str "helpful");
              list_schema := None;
              field_protected := false;
              field_keywords := [] |};
           {| field_key := "chat.custom_identity";
              field_label := "Custom identity";
              field_type := FieldType.Text;
              field_description := Some "Additional identity instructions";
              field_placeholder := Some "You are a senior Rust engineer...";
              field_options := [];
              default_value := Some (Str "");
              list_schema := None;
              field_protected := false;
              field_keywords := ["persona"; "role"] |};
           {| field_key := "chat.system_prompt";
              field_label := "System prompt";
              field_type := FieldType.ProtectedMarkdown;
              field_description := Some "The system prompt sent at the start of every session. Editing this can change model behavior significantly.";
              field_placeholder := None;
              field_options := [];
              default_value := Some (Str "You are a helpful AI coding assistant with access to filesystem tools.");
              list_schema := None;
              field_protected := true;
              field_keywords := ["prompt"; "instructions"] |}] |}].

Definition ContextEngineSection : list SettingsSection :=
  [{| section_id := "context-compressor";
      module_id := "context";
      section_title := "Context Compressor";
      section_order := 30;
      section_keywords := ["context"; "compress"; "sliding window"; "token limit"];
      section_fields :=
          [{| field_key := "context.enabled";
              field_label := "Enable compressor";
              field_type := FieldType.Boolean;
              field_description := Some "Compress context when it grows too large";
              field_placeholder := None;
              field_options := [];
              default_value := Some (Bool true);
              list_schema := None;
              field_protected := false;
              field_keywords := [] |};
           {| field_key := "context.trigger_percentage";
              field_label := "Trigger percentage";
              field_type := FieldType.Number;
              field_description := Some "Activate compression when this percentage of the context window is used";
              field_placeholder := Some "75";
              field_options := [];
              default_value := Some (Num (PosInt 75));
              list_schema := None;
              field_protected := false;
              field_keywords := ["threshold"] |};
           {| field_key := "context.target_percentage";
              field_label := "Target percentage";
              field_type := FieldType.Number;
              field_description := Some "Target context size after compression";
              field_placeholder := Some "50";
              field_options := [];
              default_value := Some (Num (PosInt 50));
              list_schema := None;
              field_protected := false;
              field_keywords := [] |};
           {| field_key := "context.preserve_recent";
              field_label := "Preserve recent";
              field_type := FieldType.Number;
              field_description := Some "Number of recent messages to always keep";
              field_placeholder := Some "6";
              field_options := [];
              default_value := Some (Num (PosInt 6));
              list_schema := None;
              field_protected := false;
              field_keywords := [] |}] |}].

Definition MemorySettingsSection : list SettingsSection :=
  [{| section_id := "memory-providers";
      module_id := "memory";
      section_title := "Memory Providers";
      section_order := 40;
      section_keywords := ["memory"; "provider"];
      section_fields :=
          [{| field_key := "memory.active_providers";
              field_label := "Active providers";
              field_type := FieldType.MultiSelect;
              field_description := Some "Memory systems consulted during conversations. Brioche 0.1 supports Local memory and configured AMP endpoints only.";
              field_placeholder := None;
              field_options :=
                  [{| option_value := "memory-local";
                      option_label := "Local memory" |}];
              default_value := Some (Array 
                      [Str "memory-local"]);
              list_schema := None;
              field_protected := false;
              field_keywords := ["active"; "provider"] |};
           {| field_key := "memory.endpoints";
              field_label := "AMP endpoints";
              field_type := FieldType.List;
              field_description := Some "Generic AMP Core-compatible memory endpoints. Any backend that implements /v1/encode, /v1/recall and /v1/forget can be added here without code changes.";
              field_placeholder := None;
              field_options := [];
              default_value := Some (Array 
                      [Object 
                           [("id", Str "memory-amp-1");
                            ("name", Str "Remote memory");
                            ("url", Str "http://localhost:9471");
                            ("api_key", Null);
                            ("scope", Null)]]);
              list_schema := Some {| groups := Some [2; 2; 1]%N;
                     add_label := Some "Add memory endpoint";
                     renderer := ListRenderer.MemoryEndpoints;
                     item_schema :=
                         [{| item_key := "id";
                             item_type := ListFieldType.Text;
                             item_placeholder := Some "ID (e.g. memory-amp-1)";
                             item_options := [];
                             item_nullable := false;
                             item_default := Some (Str "memory-amp-") |};
                          {| item_key := "name";
                             item_type := ListFieldType.Text;
                             item_placeholder := Some "Name";
                             item_options := [];
                             item_nullable := false;
                             item_default := Some (Str "Remote memory") |};
                          {| item_key := "url";
                             item_type := ListFieldType.Text;
                             item_placeholder := Some "URL (e.g. http://localhost:9471)";
                             item_options := [];
                             item_nullable := false;
                             item_default := Some (Str "http://localhost:9471") |};
                          {| item_key := "api_key";
                             item_type := ListFieldType.Text;
                             item_placeholder := Some "API Key (optional)";
                             item_options := [];
                             item_nullable := true;
                             item_default := Some Null |};
                          {| item_key := "scope";
                             item_type := ListFieldType.Text;
                             item_placeholder := Some "Scope (optional)";
                             item_options := [];
                             item_nullable := true;
                             item_default := Some Null |}] |};
              field_protected := false;
              field_keywords := ["amp"; "endpoint"; "url"; "api key"] |}] |}].

Definition ToolSettingsSection : list SettingsSection :=
  [{| section_id := "tools-security";
      module_id := "tools";
      section_title := "Tools";
      section_order := 50;
      section_keywords := ["tools"; "user tools"; "shell"; "command"; "security"];
      section_fields :=
          [{| field_key := "tools.user_tools_enabled";
              field_label := "Enable user-defined tools";
              field_type := FieldType.Boolean;
              field_description := Some "Allow custom tools that execute shell commands or HTTP requests. Disabled by default for security.";
              field_placeholder := None;
              field_options := [];
              default_value := Some (Bool false);
              list_schema := None;
              field_protected := true;
              field_keywords := ["user tools"; "security"; "enable"] |};
           {| field_key := "tools.allowed_commands";
              field_label := "Allowed commands";
              field_type := FieldType.List;
              field_description := Some "Additional command names allowed for the built-in `execute_command` tool. Each entry should be a single command name (for example, `rg` or `pnpm`). These extend the default allow-list and do not affect user-defined tools.";
              field_placeholder := Some ("[" +:+ String "034" "" +:+ "rg" +:+ String "034" "" +:+ ", " +:+ String "034" "" +:+ "pnpm" +:+ String "034" "" +:+ "]");
              field_options := [];
              default_value := Some (Array []);
              list_schema := Some {| groups := None;
                     add_label := Some "Add allowed command";
                     renderer := ListRenderer.String;
                     item_schema := [] |};
              field_protected := false;
              field_keywords := ["execute_command"; "allowlist"; "sandbox"; "shell"] |}] |}].

Definition all_builtin_sections (home userprofile : option string) : list SettingsSection :=
  UiSettingsSection home userprofile ++ ChatModelSection ++ ModelIdentitySection ++
  ContextEngineSection ++ MemorySettingsSection ++ ToolSettingsSection.

(** ** secrets.rs *)

Definition SECRET_PREFIX : string := "brioche-secret:v1:".
Definition NONCE_LEN : nat := 12.

Fixpoint str_strip_prefix (p s : string) : option string :=
  match p, s with
  | EmptyString, _ => Some s
  | String a p', String b s' => if decide (a = b) then str_strip_prefix p' s' else None
  | String _ _, EmptyString => None
  end.

Definition is_protected_secret (value : string) : bool :=
  match str_strip_prefix SECRET_PREFIX value with Some _ => true | None => false end.

(** [trim_start_matches]: every leading copy of the prefix goes. *)
Fixpoint trim_prefixes (fuel : nat) (s : string) : string :=
  match fuel with
  | O => s
  | S fuel' =>
      match str_strip_prefix SECRET_PREFIX s with
      | Some s' => trim_prefixes fuel' s'
      | None => s
      end
  end.

(** The cipher under the derived key, base64 without padding, the random generator
    with its state [R], and what the key is derived from. *)
Record SecretEnv (R : Type) := {
  env_var : string → option string;
  derive : string → bytes;
  fill_nonce : R → option bytes * R;
  seal : bytes → bytes → bytes → option bytes;
  open_sealed : bytes → bytes → bytes → option bytes;
  base64_encode : bytes → string;
  base64_decode : string → option bytes
}.
Arguments env_var {R}.
Arguments derive {R}.
Arguments fill_nonce {R}.
Arguments seal {R}.
Arguments open_sealed {R}.
Arguments base64_encode {R}.
Arguments base64_decode {R}.

Section secrets.
Context {R : Type} (w : SecretEnv R).

Definition env_or_fallback (primary secondary fallback : string) : string :=
  match env_var w primary with
  | Some v => v
  | None => match env_var w secondary with Some v => v | None => fallback end
  end.

Definition secret_passphrase : string :=
  match env_var w "BRIOCHE_SECRETS_KEY" with
  | Some (String a v) => String a v
  | _ =>
      let user := env_or_fallback "USER" "USERNAME" "unknown-user" in
      let home := env_or_fallback "HOME" "USERPROFILE" "unknown-home" in
      let host := env_or_fallback "HOSTNAME" "COMPUTERNAME" "unknown-host" in
      "brioche-headless-fallback:" +:+ user +:+ ":" +:+ home +:+ ":" +:+ host
  end.

Definition encryption_key : result bytes string :=
  if decide (secret_passphrase = "") then Err "secret key material is empty"
  else Ok (derive w secret_passphrase).

Definition protect_secret (value : string) : State R (result string string) :=
  if bool_decide (value = "") || is_protected_secret value then ret (Ok value)
  else match encryption_key with
       | Err e => ret (Err e)
       | Ok key =>
           nonce <-! fill_nonce w ;;
           ret match nonce with
               | None => Err "failed to generate secret nonce"
               | Some nonce =>
                   match seal w key nonce (bytes_of_string value) with
                   | None => Err "failed to encrypt secret"
                   | Some sealed => Ok (SECRET_PREFIX +:+ base64_encode w (nonce ++ sealed))
                   end
               end
       end.

Definition reveal_secret (value : string) : result string string :=
  if is_protected_secret value then
    match base64_decode w (trim_prefixes (String.length value) value) with
    | None => Err "protected secret is not valid base64"
    | Some payload =>
        if decide (length payload ≤ NONCE_LEN) then Err "protected secret payload is too short"
        else result_bind encryption_key (λ key,
          match open_sealed w key (take NONCE_LEN payload) (drop NONCE_LEN payload) with
          | None => Err "failed to decrypt protected secret"
          | Some plaintext =>
              if valid_utf8 plaintext then Ok (string_of_bytes plaintext)
              else Err "protected secret is not valid UTF-8"
          end)
    end
  else Ok value.
End secrets.

(** ** settings.rs: dotted keys *)

(** [key.split('.')]: the first part and the others. *)
Fixpoint split_dots (s : string) : string * list string :=
  match s with
  | EmptyString => ("", [])
  | String a s' =>
      let '(part, parts) := split_dots s' in
      if decide (a = "."%char) then ("", part :: parts) else (String a part, parts)
  end.

(** [serde_json::Map::insert].  The order of the fields only shows in the file. *)
Fixpoint object_insert (k : string) (v : Value) (l : list (string * Value)) :
    list (string * Value) :=
  match l with
  | [] => [(k, v)]
  | (k', v') :: l' => if decide (k' = k) then (k, v) :: l' else (k', v') :: object_insert k v l'
  end.

Fixpoint get_path (parts : list string) (v : Value) : option Value :=
  match parts with
  | [] => Some v
  | part :: parts => match get part v with Some v' => get_path parts v' | None => None end
  end.

Definition Modules : Type := gmap string Value.

Definition get_from_modules (modules : gmap string Value) (key : string) : option Value :=
  let '(module, parts) := split_dots key in
  match modules !! module with Some v => get_path parts v | None => None end.

(** The loop of [set], from the object it stands in: the last part is inserted, the
    others are entered and created when they are missing. *)
Fixpoint set_in (obj : list (string * Value)) (part : string) (parts : list string) (v : Value) :
    result (list (string * Value)) string :=
  match parts with
  | [] => Ok (object_insert part v obj)
  | next :: parts =>
      match match object_get part obj with Some c => c | None => Object [] end with
      | Object child =>
          result_bind (set_in child next parts v) (λ child', Ok (object_insert part (Object child') obj))
      | _ => Err ("'" +:+ part +:+ "' is not an object")
      end
  end.

Definition set (key : string) (v : Value) (modules : gmap string Value) :
    result (gmap string Value) string :=
  let '(module, parts) := split_dots key in
  match parts with
  | [] => Err "Settings keys must be module.value"
  | part :: parts =>
      match match modules !! module with Some m => m | None => Object [] end with
      | Object obj =>
          result_bind (set_in obj part parts v) (λ obj', Ok (<[module := Object obj']> modules))
      | _ => Err ("Module '" +:+ module +:+ "' is not an object")
      end
  end.

Definition module (modules : gmap string Value) (name : string) : Value :=
  match modules !! name with Some v => v | None => Object [] end.

(** ** settings.rs: secrets at fixed places *)

Fixpoint object_alter (k : string) (f : Value → Value) (l : list (string * Value)) :
    list (string * Value) :=
  match l with
  | [] => []
  | (k', v) :: l' => if decide (k' = k) then (k', f v) :: l' else (k', v) :: object_alter k f l'
  end.

(** The value at a path, changed in place when it is there ([value_at_mut]). *)
Fixpoint alter_path (path : list string) (f : Value → Value) (v : Value) : Value :=
  match path with
  | [] => f v
  | k :: path => match v with Object l => Object (object_alter k (alter_path path f) l) | _ => v end
  end.

Definition value_at (modules : gmap string Value) (path : string * list string) : option Value :=
  match modules !! path.1 with Some v => get_path path.2 v | None => None end.
Definition alter_at (path : string * list string) (f : Value → Value) (modules : gmap string Value) :
    gmap string Value := alter (alter_path path.2 f) path.1 modules.

Definition API_KEY : string * list string := ("chat", ["api_key"]).
Definition FALLBACK_MODELS : string * list string := ("chat", ["fallback_models"]).
Definition ENDPOINTS : string * list string := ("memory", ["endpoints"]).

Record MemoryEndpoint := {
  endpoint_id : string;
  endpoint_name : string;
  endpoint_url : string;
  endpoint_api_key : option string;
  endpoint_scope : option string
}.

Record FallbackModel := {
  fallback_provider : string;
  fallback_model : string;
  fallback_api_key : option string;
  fallback_base_url : option string;
  fallback_context_window : option N;
  fallback_reasoning_enabled : option bool;
  fallback_reasoning_effort : option string
}.

Section settings.
Context {R : Type} (w : SecretEnv R).

Definition reveal_value (v : Value) : Value :=
  match v with
  | Str s => match reveal_secret w s with Ok s' => Str s' | Err _ => v end
  | _ => v
  end.

Definition reveal_field (field : string) (v : Value) : Value :=
  match v with
  | Object l => Object (object_alter field reveal_value l)
  | _ => v
  end.

Definition reveal_items (field : string) (v : Value) : Value :=
  match v with Array items => Array (reveal_field field <$> items) | _ => v end.

Definition reveal_secret_at (path : string * list string) : gmap string Value → gmap string Value :=
  alter_at path reveal_value.
Definition reveal_secret_array_field (path : string * list string) (field : string) :
    gmap string Value → gmap string Value := alter_at path (reveal_items field).

Definition reveal_api_keys (m : gmap string Value) : gmap string Value :=
  reveal_secret_array_field ENDPOINTS "api_key"
    (reveal_secret_array_field FALLBACK_MODELS "api_key" (reveal_secret_at API_KEY m)).

(** A settings value threaded with the random generator; an error leaves what was
    sealed before it. *)
Definition protect_secret_at (path : string * list string) (m : gmap string Value) :
    State R (result (gmap string Value) string) :=
  match value_at m path with
  | Some (Str secret) =>
      sealed <-? protect_secret w secret ;;
      ret (Ok (alter_at path (λ _, Str sealed) m))
  | _ => ret (Ok m)
  end.

Definition protect_field (field : string) (item : Value) : State R (result Value string) :=
  match item with
  | Object l =>
      match object_get field l with
      | Some (Str secret) =>
          sealed <-? protect_secret w secret ;;
          ret (Ok (Object (object_alter field (λ _, Str sealed) l)))
      | _ => ret (Ok item)
      end
  | _ => ret (Ok item)
  end.

Fixpoint protect_items (field : string) (items : list Value) : State R (result (list Value) string) :=
  match items with
  | [] => ret (Ok [])
  | item :: items =>
      item <-? protect_field field item ;;
      items <-? protect_items field items ;;
      ret (Ok (item :: items))
  end.

Definition protect_secret_array_field (path : string * list string) (field : string)
    (m : gmap string Value) : State R (result (gmap string Value) string) :=
  match value_at m path with
  | Some (Array items) =>
      items <-? protect_items field items ;;
      ret (Ok (alter_at path (λ _, Array items) m))
  | _ => ret (Ok m)
  end.

Definition protect_api_keys (m : gmap string Value) : State R (result (gmap string Value) string) :=
  m <-? protect_secret_at API_KEY m ;;
  m <-? protect_secret_array_field FALLBACK_MODELS "api_key" m ;;
  protect_secret_array_field ENDPOINTS "api_key" m.

(** ** settings.rs: defaults, load and save *)

Definition set_default (m : gmap string Value) (f : SettingsField) : gmap string Value :=
  match default_value f with
  | Some v => match set (field_key f) v m with Ok m' => m' | Err _ => m end
  | None => m
  end.

Definition schema_default_modules : gmap string Value :=
  foldl (λ m s, foldl set_default m (section_fields s)) ∅
    (all_builtin_sections (env_var w "HOME") (env_var w "USERPROFILE")).

(** [loaded]: what [load_json] gives. *)
Definition load (loaded : result (gmap string Value) string) : gmap string Value :=
  match loaded with
  | Ok m => reveal_api_keys (m ∪ schema_default_modules)
  | Err _ => schema_default_modules
  end.

(** [save_json]: writes the file. *)
Definition save {D} (save_json : gmap string Value → State D (result unit string))
    (m : gmap string Value) : State (R * D) (result unit string) :=
  λ '(r, d),
    match protect_api_keys m r with
    | (Err e, r) => (Err e, (r, d))
    | (Ok persisted, r) => let '(res, d) := save_json persisted d in (res, (r, d))
    end.

(** ** settings.rs: accessors *)

Definition get_with_schema_default (m : gmap string Value) (key : string) : option Value :=
  match get_from_modules m key with
  | Some v => Some v
  | None => get_from_modules schema_default_modules key
  end.

Definition string_or (m : gmap string Value) (key default : string) : string :=
  match get_with_schema_default m key with Some (Str s) => s | _ => default end.
Definition as_bool (v : Value) : option bool := match v with Bool b => Some b | _ => None end.
Definition bool_or (m : gmap string Value) (key : string) (default : bool) : bool :=
  match get_with_schema_default m key with Some (Bool b) => b | _ => default end.
Definition u64_at (m : gmap string Value) (key : string) : option N :=
  match get_with_schema_default m key with Some v => as_u64 v | None => None end.
(** A number that must fit [bits] bits. *)
Definition uint_or (bits : N) (m : gmap string Value) (key : string) (default : N) : N :=
  match u64_at m key with
  | Some n => if (n <? 2 ^ bits)%N then n else default
  | None => default
  end.

Definition working_dir m := string_or m "ui.working_dir" "workspace".
Definition chat_provider m := string_or m "chat.provider" "openrouter".
Definition chat_model m := string_or m "chat.model" "qwen/qwen3.7-plus".
Definition settings_api_key (m : gmap string Value) : string :=
  match get_with_schema_default m "chat.api_key" with
  | Some (Str secret) => match reveal_secret w secret with Ok s => s | Err _ => "" end
  | _ => ""
  end.
Definition settings_base_url m := string_or m "chat.base_url" "https://openrouter.ai/api/v1".
Definition settings_max_tokens m := uint_or 32 m "chat.max_tokens" 4096.
Definition context_window m := uint_or 64 m "chat.context_window" 128000.
Definition settings_stream m := bool_or m "ui.stream" true.
Definition context_enabled m := bool_or m "context.enabled" true.
Definition context_trigger_percentage m := uint_or 8 m "context.trigger_percentage" 75.
Definition context_target_percentage m := uint_or 8 m "context.target_percentage" 50.
Definition context_preserve_recent m := uint_or 64 m "context.preserve_recent" 6.
Definition reasoning_enabled m := bool_or m "chat.reasoning_enabled" false.
Definition settings_reasoning_effort m := string_or m "chat.reasoning_effort" "medium".
Definition system_prompt m := string_or m "chat.system_prompt"
  "You are a helpful AI coding assistant with access to filesystem tools.".
Definition personality m := string_or m "chat.personality" "helpful".
Definition user_tools_enabled m := bool_or m "tools.user_tools_enabled" false.

Definition strings_or (m : gmap string Value) (key : string) (default : list Value) : list string :=
  omap as_str match get_with_schema_default m key with Some (Array l) => l | _ => default end.
Definition active_memory_providers m := strings_or m "memory.active_providers" [Str "memory-local"].
Definition allowed_commands m := strings_or m "tools.allowed_commands" [].

(** [serde_json::from_value]. *)
Context (endpoint_of : Value → option MemoryEndpoint).
Context (fallbacks_of : Value → option (list FallbackModel)).

Definition reveal_option (k : option string) : option string :=
  match k with
  | Some k => match reveal_secret w k with Ok s => Some s | Err _ => None end
  | None => None
  end.

Definition memory_endpoints (m : gmap string Value) : list MemoryEndpoint :=
  (λ e, {| endpoint_id := endpoint_id e; endpoint_name := endpoint_name e;
           endpoint_url := endpoint_url e; endpoint_api_key := reveal_option (endpoint_api_key e);
           endpoint_scope := endpoint_scope e |})
    <$> omap endpoint_of
          match get_with_schema_default m "memory.endpoints" with Some (Array l) => l | _ => [] end.

Definition fallback_models (m : gmap string Value) : list FallbackModel :=
  (λ f, {| fallback_provider := fallback_provider f; fallback_model := fallback_model f;
           fallback_api_key := reveal_option (fallback_api_key f);
           fallback_base_url := fallback_base_url f;
           fallback_context_window := fallback_context_window f;
           fallback_reasoning_enabled := fallback_reasoning_enabled f;
           fallback_reasoning_effort := fallback_reasoning_effort f |})
    <$> match get_with_schema_default m "chat.fallback_models" with
        | Some v => match fallbacks_of v with Some l => l | None => [] end
        | None => []
        end.

(** ** settings.rs: [validate] *)

Context (url_ok : string → bool).

Definition trim_string (s : string) : string := string_of_bytes (trim (bytes_of_string s)).
Definition is_blank (s : string) : bool := bool_decide (trim_string s = "").
Definition error_if (b : bool) (e : string) : list string := if b then [e] else [].

Definition endpoint_errors (index : nat) (e : MemoryEndpoint) : list string :=
  let at_index := "memory.endpoints[" +:+ pretty (N.of_nat index) +:+ "]" in
  let url := trim_string (endpoint_url e) in
  error_if (is_blank (endpoint_id e)) (at_index +:+ " is missing an id") ++
  error_if (is_blank (endpoint_name e)) (at_index +:+ " is missing a name") ++
  (if decide (url = "") then [at_index +:+ " is missing a url"]
   else error_if (negb (url_ok url)) (at_index +:+ ".url is not a valid URL: " +:+ url)).

Definition above_hundred (n : option N) : bool :=
  match n with Some n => (100 <? n)%N | None => false end.

Definition validate_errors (m : gmap string Value) : list string :=
  let url := settings_base_url m in
  let trigger := u64_at m "context.trigger_percentage" in
  let target := u64_at m "context.target_percentage" in
  error_if (is_blank (chat_model m)) "chat.model must not be empty" ++
  (if is_blank url then ["chat.base_url must not be empty"]
   else error_if (negb (url_ok url)) ("chat.base_url is not a valid URL: " +:+ url)) ++
  error_if (settings_max_tokens m =? 0)%N "chat.max_tokens must be greater than 0" ++
  error_if (context_window m =? 0)%N "chat.context_window must be greater than 0" ++
  error_if (above_hundred trigger) "context.trigger_percentage must be between 0 and 100" ++
  error_if (above_hundred target) "context.target_percentage must be between 0 and 100" ++
  error_if match trigger, target with Some t, Some u => (t <? u)%N | _, _ => false end
    "context.target_percentage must not exceed context.trigger_percentage" ++
  mjoin (imap endpoint_errors (memory_endpoints m)) ++
  error_if (is_blank (working_dir m)) "ui.working_dir must not be empty".

Definition validate_settings (m : gmap string Value) : result unit string :=
  match validate_errors m with
  | [] => Ok tt
  | errors => Err (join_lines errors)
  end.
End settings.

(** ** profiles.rs *)

(** The temperature is the bits of an [f32]. *)
Record UserProfile := {
  profile_name : string;
  display_name : string;
  profile_description : option string;
  profile_provider : string;
  profile_model : string;
  profile_api_key : string;
  profile_system_prompt : option string;
  temperature : option N;
  profile_max_tokens : option N;
  created_at : N;
  is_default : bool
}.

Record ProfileConfig := { active : string; profiles : list UserProfile }.

(** 0.7 in binary32. *)
Definition DEFAULT_TEMPERATURE : N := 0x3f333333.

Definition ProfileConfig_default (now : N) : ProfileConfig :=
  {| active := "default";
     profiles := [{| profile_name := "default"; display_name := "Default";
                     profile_description := Some "Default profile";
                     profile_provider := "openrouter"; profile_model := "qwen/qwen3.7-plus";
                     profile_api_key := ""; profile_system_prompt := None;
                     temperature := Some DEFAULT_TEMPERATURE; profile_max_tokens := Some 4096%N;
                     created_at := now; is_default := true |}] |}.

Definition set_profiles (l : list UserProfile) (c : ProfileConfig) : ProfileConfig :=
  {| active := active c; profiles := l |}.
Definition set_profile_key (k : string) (p : UserProfile) : UserProfile :=
  {| profile_name := profile_name p; display_name := display_name p;
     profile_description := profile_description p; profile_provider := profile_provider p;
     profile_model := profile_model p; profile_api_key := k;
     profile_system_prompt := profile_system_prompt p; temperature := temperature p;
     profile_max_tokens := profile_max_tokens p; created_at := created_at p;
     is_default := is_default p |}.

Definition named (name : string) (p : UserProfile) : bool := bool_decide (profile_name p = name).

Definition active_profile (c : ProfileConfig) : option UserProfile :=
  List.find (named (active c)) (profiles c).
Definition get_profile (name : string) (c : ProfileConfig) : option UserProfile :=
  List.find (named name) (profiles c).

Section profiles.
Context {R D : Type} (w : SecretEnv R) (save_json : ProfileConfig → State D (result unit string)).
(** The configuration in memory, the random generator and the disk. *)
#[local] Abbreviation M := (State (ProfileConfig * (R * D))).

Definition reveal_profile (p : UserProfile) : UserProfile :=
  match reveal_secret w (profile_api_key p) with Ok k => set_profile_key k p | Err _ => p end.
Definition reveal_profile_keys (c : ProfileConfig) : ProfileConfig :=
  set_profiles (reveal_profile <$> profiles c) c.

Fixpoint protect_profiles (l : list UserProfile) : State R (result (list UserProfile) string) :=
  match l with
  | [] => ret (Ok [])
  | p :: l =>
      k <-? protect_secret w (profile_api_key p) ;;
      l <-? protect_profiles l ;;
      ret (Ok (set_profile_key k p :: l))
  end.

Definition save_profiles : M (result unit string) :=
  λ '(c, (r, d)),
    match protect_profiles (profiles c) r with
    | (Err e, r) => (Err e, (c, (r, d)))
    | (Ok l, r) => let '(res, d) := save_json (set_profiles l c) d in (res, (c, (r, d)))
    end.

Definition load_profiles (now : N) (loaded : result ProfileConfig string) :
    State (R * D) ProfileConfig :=
  match loaded with
  | Ok c => ret (reveal_profile_keys c)
  | Err _ => λ rd, let c := ProfileConfig_default now in (c, (save_profiles (c, rd)).2.2)
  end.

Definition put (c : ProfileConfig) : M unit := λ s, (tt, (c, s.2)).
Definition not_found_profile {A} (name : string) : M (result A string) :=
  ret (Err ("Profile '" +:+ name +:+ "' not found")).

Definition create (now : N) (name display provider model key : string) : M (result unit string) :=
  c <-! gets fst ;;
  if existsb (named name) (profiles c) then
    ret (Err ("Profile '" +:+ name +:+ "' already exists"))
  else
    put (set_profiles (profiles c ++
           [{| profile_name := name; display_name := display; profile_description := None;
               profile_provider := provider; profile_model := model; profile_api_key := key;
               profile_system_prompt := None; temperature := Some DEFAULT_TEMPERATURE;
               profile_max_tokens := Some 4096%N; created_at := now; is_default := false |}]) c) ;;!
    save_profiles.

Definition switch (name : string) : M (result unit string) :=
  c <-! gets fst ;;
  if negb (existsb (named name) (profiles c)) then not_found_profile name
  else put {| active := name; profiles := profiles c |} ;;! save_profiles.

Definition delete_profile (name : string) : M (result unit string) :=
  if decide (name = "default") then ret (Err "Cannot delete the default profile")
  else
    c <-! gets fst ;;
    let kept := List.filter (λ p, negb (named name p)) (profiles c) in
    if decide (length kept = length (profiles c)) then not_found_profile name
    else
      put {| active := if decide (active c = name) then "default" else active c;
             profiles := kept |} ;;!
      save_profiles.

(** The first profile of the same name is replaced. *)
Fixpoint replace_profile (p : UserProfile) (l : list UserProfile) : list UserProfile :=
  match l with
  | [] => []
  | q :: l => if named (profile_name p) q then p :: l else q :: replace_profile p l
  end.

Definition update (p : UserProfile) : M (result unit string) :=
  c <-! gets fst ;;
  if existsb (named (profile_name p)) (profiles c) then
    put (set_profiles (replace_profile p (profiles c)) c) ;;! save_profiles
  else not_found_profile (profile_name p).
End profiles.
