(* ===== verification/SettingsSpec.v ===== *)
(** * Correctness of the settings store: dotted keys, sealed secrets, profiles *)
From S2P Require Import Prelude Utf8 Types Effects Persistence GovTypes Sse Provider SystemTools.
From S2P Require Import Settings.

(** ** Objects *)

Lemma object_get_insert k v l : object_get k (object_insert k v l) = Some v.
Proof.
  induction l as [|[k' v'] l IH]; cbn; [by rewrite decide_True|].
  destruct (decide (k' = k)) as [->|Hne]; cbn; [by rewrite decide_True|]. by rewrite decide_False.
Qed.

Lemma object_get_insert_ne k k' v l :
  k' ≠ k → object_get k' (object_insert k v l) = object_get k' l.
Proof.
  intros Hne. induction l as [|[k1 v1] l IH]; cbn; [by rewrite decide_False|].
  destruct (decide (k1 = k)) as [->|]; cbn; [by rewrite !decide_False by done|].
  by rewrite IH.
Qed.

(** ** Dotted keys *)

Lemma set_in_spec obj part parts v obj' :
  set_in obj part parts v = Ok obj' →
  (∀ rest, get_path ((part :: parts) ++ rest) (Object obj') = get_path rest v) ∧
  ∀ other, ¬ (part :: parts) `prefix_of` other → ¬ other `prefix_of` (part :: parts) →
    get_path other (Object obj') = get_path other (Object obj).
Proof.
  revert obj part obj'. induction parts as [|next parts IH]; intros obj part obj'.
  - cbn [set_in]. intros [= <-]. split.
    + intros rest. cbn. by rewrite object_get_insert.
    + intros [|k other] Hp Hq; [by destruct Hq; apply prefix_nil|]. cbn.
      rewrite object_get_insert_ne; [done|]. intros ->. destruct Hp. by exists other.
  - cbn [set_in].
    destruct (match object_get part obj with Some c => c | None => Object [] end)
      as [| | | | |child] eqn:Ec; try done.
    destruct (set_in child next parts v) as [child'|] eqn:Es; [|done]. cbn. intros [= <-].
    destruct (IH _ _ _ Es) as [IHv IHo]. split.
    + intros rest. specialize (IHv rest). cbn in *. rewrite object_get_insert. exact IHv.
    + intros [|k other] Hp Hq; [by destruct Hq; apply prefix_nil|]. cbn [get_path get].
      destruct (decide (k = part)) as [->|Hne]; [|by rewrite object_get_insert_ne].
      rewrite object_get_insert, (IHo other).
      * destruct (object_get part obj) as [c|]; [by subst c|]. injection Ec as <-.
        destruct other as [|k other]; [|done]. destruct Hq. apply prefix_cons, prefix_nil.
      * intros H. by apply Hp, prefix_cons.
      * intros H. by apply Hq, prefix_cons.
Qed.

(** The path of a key. *)
Definition key_path (key : string) : list string :=
  let '(module, parts) := split_dots key in module :: parts.

(** Writing a setting.  After a successful write of a dotted key, reading it gives the
    value, reading a longer key reads inside the value, and every key whose path is
    neither below nor above the written one is unchanged, in any module. *)
Theorem settings_set_get key v m m' (Hset : set key v m = Ok m') :
  get_from_modules m' key = Some v ∧
  (∀ key' rest, key_path key' = key_path key ++ rest → get_from_modules m' key' = get_path rest v) ∧
  ∀ key', ¬ key_path key `prefix_of` key_path key' → ¬ key_path key' `prefix_of` key_path key →
    get_from_modules m' key' = get_from_modules m key'.
Proof.
  unfold set, get_from_modules, key_path in *. destruct (split_dots key) as [module parts].
  destruct parts as [|part parts]; [done|].
  destruct (match m !! module with Some v => v | None => Object [] end) as [| | | | |obj] eqn:Eo;
    try done.
  destruct (set_in obj part parts v) as [obj'|] eqn:Es; [|done]. injection Hset as <-.
  destruct (set_in_spec _ _ _ _ _ Es) as [Hv Ho]. split_and!.
  - rewrite lookup_insert_eq. specialize (Hv []). by rewrite app_nil_r in Hv.
  - intros key' rest. destruct (split_dots key') as [module' parts']. intros [= -> ->].
    rewrite lookup_insert_eq. apply Hv.
  - intros key'. destruct (split_dots key') as [module' parts']. intros Hp Hq.
    destruct (decide (module' = module)) as [->|Hne]; [|by rewrite lookup_insert_ne].
    rewrite lookup_insert_eq, Ho.
    + destruct (m !! module); [by subst|]. injection Eo as <-.
      destruct parts'; [|done]. destruct Hq. apply prefix_cons, prefix_nil.
    + intros H. by apply Hp, prefix_cons.
    + intros H. by apply Hq, prefix_cons.
Qed.

Lemma settings_set_get_witness :
  let m := {[ "chat" := Object [("model", Str "a"); ("stream", Bool true)] ]} in
  match set "chat.model" (Str "b") m with
  | Ok m' => get_from_modules m' "chat.model" = Some (Str "b") ∧
             get_from_modules m' "chat.stream" = Some (Bool true)
  | Err _ => False
  end.
Proof.
  cbv zeta.
  destruct (set "chat.model" (Str "b") {[ "chat" := Object [("model", Str "a"); ("stream", Bool true)] ]})
    as [m'|e] eqn:E; [|vm_compute in E; discriminate].
  destruct (settings_set_get "chat.model" (Str "b") _ m' E) as (H1 & _ & H3).
  split; [exact H1|]. rewrite (H3 "chat.stream").
  - vm_compute. reflexivity.
  - apply (bool_decide_eq_false _). vm_compute. reflexivity.
  - apply (bool_decide_eq_false _). vm_compute. reflexivity.
Defined.

(** ** Sealing one secret *)

(** What AES-256-GCM, base64 and the random generator are documented to do. *)
Record SecretLaws {R} (w : SecretEnv R) : Prop := {
  open_seal key nonce p c : seal w key nonce p = Some c → open_sealed w key nonce c = Some p;
  seal_tag key nonce p c : seal w key nonce p = Some c → 0 < length c;
  nonce_length r n r' : fill_nonce w r = (Some n, r') → length n = NONCE_LEN;
  decode_encode b : base64_decode w (base64_encode w b) = Some b;
  encode_alphabet b : str_strip_prefix SECRET_PREFIX (base64_encode w b) = None
}.

Lemma strip_prefix_app p s : str_strip_prefix p (p +:+ s) = Some s.
Proof.
  induction p as [|a p IH]; [done|].
  change (str_strip_prefix (String a p) (String a p +:+ s))
    with (if decide (a = a) then str_strip_prefix p (p +:+ s) else None).
  by rewrite decide_True.
Qed.

(** A secret as it is typed: not a marker, and text. *)
Definition plain (s : string) : Prop :=
  is_protected_secret s = false ∧ valid_utf8 (bytes_of_string s) = true.
Definition sealed (s : string) : Prop := s = "" ∨ is_protected_secret s = true.

Section secrets.
Context {R : Type} (w : SecretEnv R).

Lemma protect_sealed v r s r' : protect_secret w v r = (Ok s, r') → sealed s.
Proof using Type.
  unfold protect_secret, sealed. intros H. destruct (bool_decide (v = "") || is_protected_secret v) eqn:E.
  - injection H as <- _. apply orb_true_iff in E as [E|E]; [|by right].
    left. by apply bool_decide_eq_true in E.
  - destruct (encryption_key w) as [key|e]; [|done]. unfold bind, ret in H. cbn in H.
    destruct (fill_nonce w r) as [[n|] r1]; [|done]. cbn in H.
    destruct (seal w key n (bytes_of_string v)) as [c|]; [|done]. injection H as <- _. right.
    unfold is_protected_secret. by rewrite strip_prefix_app.
Qed.

Context (laws : SecretLaws w).

Lemma reveal_protect v r s r' :
  protect_secret w v r = (Ok s, r') → plain v → reveal_secret w s = Ok v.
Proof using laws.
  unfold protect_secret. intros H [Hp Hv]. rewrite Hp, orb_false_r in H.
  case_bool_decide as E; [injection H as <- _; by subst|].
  destruct (encryption_key w) as [key|e] eqn:Ek; [|done]. unfold bind, ret in H. cbn [fst snd] in H.
  destruct (fill_nonce w r) as [[n|] r1] eqn:En; [|done]. cbn [fst snd] in H.
  destruct (seal w key n (bytes_of_string v)) as [c|] eqn:Es; [|done]. injection H as <- _.
  assert (is_protected_secret (SECRET_PREFIX +:+ base64_encode w (n ++ c)) = true) as Hm
    by (unfold is_protected_secret; by rewrite strip_prefix_app).
  unfold reveal_secret. rewrite Hm.
  assert (trim_prefixes (String.length (SECRET_PREFIX +:+ base64_encode w (n ++ c)))
            (SECRET_PREFIX +:+ base64_encode w (n ++ c)) = base64_encode w (n ++ c)) as ->.
  { change (String.length (SECRET_PREFIX +:+ base64_encode w (n ++ c)))
      with (18 + String.length (base64_encode w (n ++ c))).
    cbn [trim_prefixes Nat.add]. rewrite strip_prefix_app.
    by rewrite (encode_alphabet w laws). }
  rewrite (decode_encode w laws).
  pose proof (seal_tag w laws _ _ _ _ Es) as Htag. pose proof (nonce_length w laws _ _ _ En) as Hlen.
  rewrite decide_False by (rewrite length_app; lia). rewrite Ek. cbn [result_bind].
  rewrite <- Hlen, take_app_length, drop_app_length, (open_seal w laws _ _ _ _ Es), Hv.
  by rewrite string_of_bytes_of_string.
Qed.

(** ** Changing a value in place *)

Lemma object_alter_id k f l : (∀ v, object_get k l = Some v → f v = v) → object_alter k f l = l.
Proof using Type.
  induction l as [|[k' v] l IH]; intros H; [done|]. cbn in *.
  destruct (decide (k' = k)); [by rewrite H|]. by rewrite IH.
Qed.

Lemma object_alter_twice k f g l : object_alter k f (object_alter k g l) = object_alter k (f ∘ g) l.
Proof using Type.
  induction l as [|[k' v] l IH]; [done|]. cbn.
  destruct (decide (k' = k)) as [E|E]; cbn; [by rewrite decide_True|]. by rewrite decide_False, IH.
Qed.

Lemma object_alter_comm k k' f g l : k ≠ k' →
  object_alter k f (object_alter k' g l) = object_alter k' g (object_alter k f l).
Proof using Type.
  intros Hne. induction l as [|[k1 v] l IH]; [done|]. cbn.
  repeat (case_decide; cbn); congruence.
Qed.

Lemma object_get_alter k k' f l :
  object_get k (object_alter k' f l) =
    (if decide (k = k') then f <$> object_get k l else object_get k l).
Proof using Type.
  induction l as [|[k1 v] l IH]; cbn; [by destruct (decide _)|].
  destruct (decide (k1 = k')) as [->|]; cbn.
  - destruct (decide (k' = k)) as [->|]; [by rewrite decide_True|]. by rewrite decide_False.
  - destruct (decide (k1 = k)) as [->|]; [by rewrite decide_False|]. exact IH.
Qed.

(** The places of the secrets are a module and one field. *)
Definition place : Type := string * string.
Definition path_of (p : place) : string * list string := (p.1, [p.2]).

Lemma alter_at_id p f m :
  (∀ v, value_at m (path_of p) = Some v → f v = v) → alter_at (path_of p) f m = m.
Proof using Type.
  intros H. apply map_eq. intros i. unfold alter_at, value_at in *. cbn in *.
  destruct (decide (i = p.1)) as [->|Hne]; [|by rewrite lookup_alter_ne].
  rewrite lookup_alter_eq. destruct (m !! p.1) as [v|]; [|done]. cbn in *. f_equal.
  destruct v as [| | | | |l]; try done. f_equal. apply object_alter_id. intros v Hv. apply H.
  cbn [get]. by rewrite Hv.
Qed.

Lemma alter_at_twice p f g m :
  alter_at (path_of p) f (alter_at (path_of p) g m) = alter_at (path_of p) (f ∘ g) m.
Proof using Type.
  unfold alter_at. cbn. rewrite alter_alter_eq. apply alter_ext. intros v _. cbn.
  destruct v as [| | | | |l]; try done. cbn. by rewrite object_alter_twice.
Qed.

Lemma alter_at_comm p q f g m : p ≠ q →
  alter_at (path_of p) f (alter_at (path_of q) g m) = alter_at (path_of q) g (alter_at (path_of p) f m).
Proof using Type.
  intros Hne. unfold alter_at. cbn. destruct (decide (p.1 = q.1)) as [E|E].
  - rewrite E, !alter_alter_eq. apply alter_ext. intros v _. cbn.
    destruct v as [| | | | |l]; try done. cbn. f_equal. apply object_alter_comm.
    intros E'. apply Hne. destruct p, q. cbn in *. congruence.
  - by apply alter_alter_ne.
Qed.

Lemma value_at_alter p q f m :
  value_at (alter_at (path_of q) f m) (path_of p) =
    (if decide (p = q) then f <$> value_at m (path_of p) else value_at m (path_of p)).
Proof using Type.
  unfold value_at, alter_at. cbn [fst snd path_of]. destruct (decide (p.1 = q.1)) as [E|E].
  - rewrite E, lookup_alter_eq. destruct (m !! q.1) as [v|]; cbn; [|by destruct (decide _)].
    destruct v as [| | | | |l]; cbn; try by destruct (decide _).
    rewrite object_get_alter. destruct (decide (p.2 = q.2)) as [E'|E'].
    + rewrite decide_True by (destruct p, q; cbn in *; congruence). rewrite E'.
      by destruct (object_get q.2 l).
    + rewrite decide_False by congruence. done.
  - rewrite lookup_alter_ne by done. rewrite decide_False by congruence. done.
Qed.

(** ** Sealing every secret *)

(** The API keys of a settings value: one string, or a field of each item of a list. *)
Definition secret_of (v : Value) : list string := match v with Str s => [s] | _ => [] end.
Definition secret_of_item (field : string) (v : Value) : list string :=
  match v with Object l => default [] (secret_of <$> object_get field l) | _ => [] end.
Definition secrets_of_items (field : string) (v : Value) : list string :=
  match v with Array items => items ≫= secret_of_item field | _ => [] end.

Definition secrets (m : gmap string Value) : list string :=
  default [] (secret_of <$> value_at m API_KEY) ++
  default [] (secrets_of_items "api_key" <$> value_at m FALLBACK_MODELS) ++
  default [] (secrets_of_items "api_key" <$> value_at m ENDPOINTS).

(** One stage: a value with secrets [find] becomes a sealed one that [reveal] undoes. *)
Record sealing (find : Value → list string) (reveal : Value → Value) (v v' : Value) : Prop := {
  sealing_sealed : Forall sealed (find v');
  sealing_reveal : Forall plain (find v) → reveal v' = v
}.

Lemma sealing_id find reveal v :
  find v = [] → reveal v = v → sealing find reveal v v.
Proof using Type. intros H1 H2. split; [by rewrite H1|done]. Qed.

(** A stage leaves every other place alone. *)
Definition stage (p : place) find reveal (m m' : gmap string Value) : Prop :=
  ∃ g, m' = alter_at (path_of p) g m ∧
    ∀ v, value_at m (path_of p) = Some v → sealing find reveal v (g v).

Lemma stage_id p find reveal m :
  (∀ v, value_at m (path_of p) = Some v → find v = [] ∧ reveal v = v) → stage p find reveal m m.
Proof using Type.
  intros H. exists id. split; [by rewrite alter_at_id|]. intros v Hv.
  destruct (H v Hv). by apply sealing_id.
Qed.

Lemma protect_str s s' r r' :
  protect_secret w s r = (Ok s', r') → sealing secret_of (reveal_value w) (Str s) (Str s').
Proof using laws.
  intros H. split; cbn.
  - apply Forall_singleton. by eapply protect_sealed.
  - rewrite Forall_singleton. intros Hp. by rewrite (reveal_protect _ _ _ _ H Hp).
Qed.

Lemma protect_secret_at_stage p m r m' r' :
  protect_secret_at w (path_of p) m r = (Ok m', r') →
  stage p secret_of (reveal_value w) m m'.
Proof using laws.
  unfold protect_secret_at. intros H.
  destruct (value_at m (path_of p)) as [[| | |s| |]|] eqn:Ev;
    try (injection H as <- <-; apply stage_id; intros v Hv; rewrite Ev in Hv;
         first [discriminate|injection Hv as <-; by split]).
  unfold bind_ok, bind in H.
  destruct (protect_secret w s r) as [[s'|e] r1] eqn:Es; [|done]. injection H as <- <-.
  exists (λ _, Str s'). split; [done|]. rewrite Ev. intros v [= <-]. by eapply protect_str.
Qed.

Lemma protect_field_sealing field v r v' r' :
  protect_field w field v r = (Ok v', r') →
  sealing (secret_of_item field) (reveal_field w field) v v'.
Proof using laws.
  unfold protect_field. intros H.
  destruct v as [| | | | |l]; try (injection H as <- <-; by apply sealing_id).
  destruct (object_get field l) as [[| | |s| |]|] eqn:El;
    try (injection H as <- <-; apply sealing_id; cbn; [by rewrite El|];
         f_equal; apply object_alter_id; intros v Hv; rewrite El in Hv;
         first [discriminate|by injection Hv as <-]).
  unfold bind_ok, bind in H.
  destruct (protect_secret w s r) as [[s'|e] r1] eqn:Es; [|done]. injection H as <- <-.
  destruct (protect_str _ _ _ _ Es) as [H1 H2]. split; cbn.
  - by rewrite object_get_alter, decide_True, El by done.
  - rewrite El. intros Hp. f_equal. rewrite object_alter_twice. apply object_alter_id.
    rewrite El. intros v [= <-]. exact (H2 Hp).
Qed.

Lemma protect_items_sealing field items r items' r' :
  protect_items w field items r = (Ok items', r') →
  sealing (secrets_of_items field) (reveal_items w field) (Array items) (Array items').
Proof using laws.
  revert r items' r'. induction items as [|v items IH]; intros r items' r'; cbn [protect_items].
  - intros [= <- <-]. by apply sealing_id.
  - unfold bind_ok, bind. destruct (protect_field w field v r) as [[v1|e] r1] eqn:Ev; [|done].
    cbn [fst snd]. destruct (protect_items w field items r1) as [[l|e] r2] eqn:El; [|done].
    cbn [fst snd]. intros [= <- <-].
    destruct (protect_field_sealing _ _ _ _ _ Ev) as [Hs1 Hr1]. destruct (IH _ _ _ El) as [Hs2 Hr2].
    split; cbn in *.
    + by apply Forall_app.
    + intros [Hp1 Hp2]%Forall_app. specialize (Hr2 Hp2). injection Hr2 as Hr2.
      by rewrite (Hr1 Hp1), Hr2.
Qed.

Lemma protect_array_stage p field m r m' r' :
  protect_secret_array_field w (path_of p) field m r = (Ok m', r') →
  stage p (secrets_of_items field) (reveal_items w field) m m'.
Proof using laws.
  unfold protect_secret_array_field. intros H.
  destruct (value_at m (path_of p)) as [[| | | |items|]|] eqn:Ev;
    try (injection H as <- <-; apply stage_id; intros v Hv; rewrite Ev in Hv;
         first [discriminate|injection Hv as <-; by split]).
  unfold bind_ok, bind in H.
  destruct (protect_items w field items r) as [[l|e] r1] eqn:Es; [|done]. injection H as <- <-.
  exists (λ _, Array l). split; [done|]. rewrite Ev. intros v [= <-].
  by eapply protect_items_sealing.
Qed.

Lemma stage_other p q find reveal m m' :
  stage q find reveal m m' → p ≠ q → value_at m' (path_of p) = value_at m (path_of p).
Proof using Type.
  intros (g & -> & _) Hne. by rewrite value_at_alter, decide_False.
Qed.

Lemma stage_here p find reveal m m' :
  stage p find reveal m m' → Forall sealed (default [] (find <$> value_at m' (path_of p))).
Proof using Type.
  intros (g & -> & Hg). rewrite value_at_alter, decide_True by done.
  destruct (value_at m (path_of p)) as [v|] eqn:E; cbn; [|done]. by destruct (Hg v eq_refl).
Qed.

Lemma stage_reveal p find reveal m m' :
  stage p find reveal m m' → Forall plain (default [] (find <$> value_at m (path_of p))) →
  alter_at (path_of p) reveal m' = m.
Proof using Type.
  intros (g & -> & Hg) Hp. rewrite alter_at_twice. apply alter_at_id. intros v Hv.
  destruct (Hg v Hv) as [_ Hr]. apply Hr. by rewrite Hv in Hp.
Qed.

(** The changes at other places commute with a stage. *)
Lemma stage_alter p q find reveal f m m' :
  stage q find reveal m m' → p ≠ q →
  stage q find reveal (alter_at (path_of p) f m) (alter_at (path_of p) f m').
Proof using Type.
  intros (g & -> & Hg) Hne. exists g. split; [by apply alter_at_comm|]. intros v.
  rewrite value_at_alter, decide_False by done. apply Hg.
Qed.

Lemma stage_dom p find reveal m m' k :
  stage p find reveal m m' → m' !! k = None → m !! k = None.
Proof using Type.
  intros (g & -> & _). unfold alter_at. rewrite lookup_alter_None. done.
Qed.

Lemma protect_api_keys_sealed m r m' r' :
  protect_api_keys w m r = (Ok m', r') →
  Forall sealed (secrets m') ∧ (Forall plain (secrets m) → reveal_api_keys w m' = m) ∧
  ∀ k, m' !! k = None → m !! k = None.
Proof using laws.
  unfold protect_api_keys, bind_ok, bind. intros H.
  destruct (protect_secret_at w API_KEY m r) as [[m1|] r1] eqn:E1; [|done].
  cbn [fst snd] in H.
  destruct (protect_secret_array_field w FALLBACK_MODELS "api_key" m1 r1) as [[m2|] r2] eqn:E2;
    [|done].
  cbn [fst snd] in H.
  apply (protect_secret_at_stage ("chat", "api_key")) in E1.
  apply (protect_array_stage ("chat", "fallback_models")) in E2.
  apply (protect_array_stage ("memory", "endpoints")) in H.
  unfold secrets. change API_KEY with (path_of ("chat", "api_key")).
  change FALLBACK_MODELS with (path_of ("chat", "fallback_models")).
  change ENDPOINTS with (path_of ("memory", "endpoints")). split_and!.
  - rewrite !Forall_app. split_and!.
    + rewrite (stage_other ("chat", "api_key") _ _ _ _ _ H), (stage_other ("chat", "api_key") _ _ _ _ _ E2)
        by done. exact (stage_here _ _ _ _ _ E1).
    + rewrite (stage_other ("chat", "fallback_models") _ _ _ _ _ H) by done.
      exact (stage_here _ _ _ _ _ E2).
    + exact (stage_here _ _ _ _ _ H).
  - rewrite !Forall_app. intros (Hp1 & Hp2 & Hp3). unfold reveal_api_keys.
    apply (stage_alter ("chat", "api_key") _ _ _ (reveal_value w)) in E2; [|done].
    apply (stage_alter ("chat", "api_key") _ _ _ (reveal_value w)) in H; [|done].
    rewrite (stage_reveal _ _ _ _ _ E1 Hp1) in E2.
    apply (stage_alter ("chat", "fallback_models") _ _ _ (reveal_items w "api_key")) in H; [|done].
    rewrite (stage_reveal _ _ _ _ _ E2 Hp2) in H.
    exact (stage_reveal _ _ _ _ _ H Hp3).
  - intros k Hk. eapply stage_dom, stage_dom, stage_dom; eassumption.
Qed.
End secrets.

(** Every missing module comes from the defaults, so none does when nothing is missing. *)
Lemma union_defaults (m d : gmap string Value) :
  (∀ k, m !! k = None → d !! k = None) → m ∪ d = m.
Proof.
  intros H. apply map_eq. intros k. rewrite lookup_union.
  destruct (m !! k) eqn:E; [by destruct (d !! k)|]. by rewrite (H k E).
Qed.

Section profile_secrets.
Context {R : Type} (w : SecretEnv R) (laws : SecretLaws w).

Lemma set_profile_key_id p : set_profile_key (profile_api_key p) p = p.
Proof using Type. by destruct p. Qed.

Lemma protect_profiles_sealed l r l' r' :
  protect_profiles w l r = (Ok l', r') →
  Forall sealed (profile_api_key <$> l') ∧
  (Forall plain (profile_api_key <$> l) → reveal_profile w <$> l' = l) ∧
  profile_name <$> l' = profile_name <$> l.
Proof using laws.
  revert r l' r'. induction l as [|p l IH]; intros r l' r'; cbn [protect_profiles].
  - by intros [= <- <-].
  - unfold bind_ok, bind.
    destruct (protect_secret w (profile_api_key p) r) as [[k|e] r1] eqn:Ek; [|done]. cbn [fst snd].
    destruct (protect_profiles w l r1) as [[l1|e] r2] eqn:El; [|done]. intros [= <- <-].
    destruct (IH _ _ _ El) as (H1 & H2 & H3). cbn. split_and!.
    + constructor; [|done]. by eapply protect_sealed.
    + intros [Hk Hl]%Forall_cons. f_equal; [|by apply H2].
      unfold reveal_profile. cbn. rewrite (reveal_protect w laws _ _ _ _ Ek Hk).
      by destruct p.
    + by f_equal.
Qed.
End profile_secrets.


(** A cipher to instantiate the environment with: a tag byte behind the text. *)
Definition toy_env : SecretEnv unit := {|
  env_var := λ _, None;
  derive := bytes_of_string;
  fill_nonce := λ u, (Some (replicate NONCE_LEN x00), u);
  seal := λ _ _ p, Some (x01 :: p);
  open_sealed := λ _ _ c, match c with x01 :: p => Some p | _ => None end;
  base64_encode := λ b, "=" +:+ string_of_bytes b;
  base64_decode := λ s, match s with String "=" s => Some (bytes_of_string s) | _ => None end
|}.

Lemma toy_laws : SecretLaws toy_env.
Proof.
  split; cbn.
  - by intros key nonce p c [= <-].
  - intros key nonce p c [= <-]. cbn. lia.
  - by intros r n r' [= <- _].
  - intros b. change (Some (bytes_of_string (string_of_bytes b)) = Some b).
    by rewrite bytes_of_string_of_bytes.
  - done.
Qed.


(** ** Profiles *)

(** Names are unique, and the default and the active profile exist. *)
Definition names (c : ProfileConfig) : list string := profile_name <$> profiles c.
Definition profiles_ok (c : ProfileConfig) : Prop :=
  NoDup (names c) ∧ "default" ∈ names c ∧ active c ∈ names c.
#[global] Instance profiles_ok_dec c : Decision (profiles_ok c) := _.

Lemma named_spec name l : existsb (named name) l = bool_decide (name ∈ profile_name <$> l).
Proof.
  induction l as [|p l IH]; [done|]. cbn. rewrite IH. unfold named. rewrite <- bool_decide_or.
  apply bool_decide_ext. rewrite elem_of_cons. by split; intros [?|?]; auto.
Qed.

Lemma find_named name l p :
  List.find (named name) l = Some p → profile_name p = name ∧ p ∈ l.
Proof.
  intros [Hin Hn]%List.find_some. apply bool_decide_eq_true in Hn.
  split; [done|]. by apply list_elem_of_In.
Qed.

Lemma find_named_some name l :
  name ∈ profile_name <$> l → ∃ p, List.find (named name) l = Some p.
Proof.
  induction l as [|q l IH]; cbn; [by intros ?%elem_of_nil|]. unfold named at 1.
  case_bool_decide as E; [eauto|]. intros [->|H]%elem_of_cons; [done|]. by apply IH.
Qed.

Lemma names_replace p l : profile_name <$> replace_profile p l = profile_name <$> l.
Proof.
  induction l as [|q l IH]; [done|]. cbn. unfold named. case_bool_decide as E; cbn; congruence.
Qed.

Lemma names_kept name l :
  profile_name <$> List.filter (λ p, negb (named name p)) l =
    List.filter (λ n, negb (bool_decide (n = name))) (profile_name <$> l).
Proof.
  induction l as [|p l IH]; [done|]. cbn. unfold named at 1.
  repeat (case_bool_decide; cbn); congruence.
Qed.

Lemma elem_of_kept (name x : string) l :
  x ∈ List.filter (λ n, negb (bool_decide (n = name))) l ↔ x ∈ l ∧ x ≠ name.
Proof.
  rewrite !list_elem_of_In, List.filter_In, negb_true_iff, bool_decide_eq_false. done.
Qed.

(** The operations a client has. *)
Inductive ProfileOp :=
  | OpCreate (now : N) (name display provider model key : string)
  | OpSwitch (name : string)
  | OpDelete (name : string)
  | OpUpdate (p : UserProfile).

(** An operation puts a configuration in memory and saves it, or refuses. *)
Definition profile_target (op : ProfileOp) (c : ProfileConfig) : option ProfileConfig :=
  match op with
  | OpCreate now name display provider model key =>
      if decide (name ∈ names c) then None
      else Some (set_profiles (profiles c ++
             [{| profile_name := name; display_name := display; profile_description := None;
                 profile_provider := provider; profile_model := model; profile_api_key := key;
                 profile_system_prompt := None; temperature := Some DEFAULT_TEMPERATURE;
                 profile_max_tokens := Some 4096%N; created_at := now; is_default := false |}]) c)
  | OpSwitch name =>
      if decide (name ∈ names c) then Some {| active := name; profiles := profiles c |} else None
  | OpDelete name =>
      if decide (name = "default" ∨ name ∉ names c) then None
      else Some {| active := if decide (active c = name) then "default" else active c;
                   profiles := List.filter (λ p, negb (named name p)) (profiles c) |}
  | OpUpdate p =>
      if decide (profile_name p ∈ names c) then Some (set_profiles (replace_profile p (profiles c)) c)
      else None
  end.

Lemma kept_length name l :
  length (List.filter (λ p, negb (named name p)) l) = length l ↔ name ∉ profile_name <$> l.
Proof.
  induction l as [|p l IH]; [cbn; set_solver|]. cbn. unfold named at 1. case_bool_decide as E; cbn.
  - split; [|set_unfold; intros Hn; destruct Hn; by left].
    pose proof (List.filter_length_le (λ p, negb (named name p)) l). lia.
  - rewrite not_elem_of_cons, <- IH. split; [|lia]. intros H. split; [congruence|lia].
Qed.

Lemma profile_target_ok op c c' :
  profile_target op c = Some c' → profiles_ok c → profiles_ok c'.
Proof.
  intros Ht (Hnd & Hdef & Hact). unfold profiles_ok, names in *.
  destruct op as [now name di pr mo key|name|name|p]; cbn in Ht; case_decide as E; try done;
    injection Ht as <-; cbn.
  - rewrite fmap_app. cbn. split_and!; [|set_solver|set_solver].
    apply NoDup_app. split_and!; [done|set_solver|apply NoDup_singleton].
  - done.
  - rewrite names_kept, !elem_of_kept. apply Decidable.not_or in E as [E1 E2].
    split_and!; [by apply NoDup_ListNoDup, List.NoDup_filter, NoDup_ListNoDup|done|done|
                 case_decide; set_solver|case_decide; set_solver].
  - by rewrite names_replace.
Qed.

Section profile_ops.
Context {R D : Type} (w : SecretEnv R) (save_json : ProfileConfig → State D (result unit string)).
#[local] Abbreviation S := (ProfileConfig * (R * D))%type.

Definition profile_op (op : ProfileOp) : State (ProfileConfig * (R * D)) (result unit string) :=
  match op with
  | OpCreate now name display provider model key =>
      create w save_json now name display provider model key
  | OpSwitch name => switch w save_json name
  | OpDelete name => delete_profile w save_json name
  | OpUpdate p => update w save_json p
  end.

(** Saving does not change what is in memory. *)
Lemma save_profiles_memory (s : S) : (save_profiles w save_json s).2.1 = s.1.
Proof using Type.
  destruct s as [c [r d]]. cbn. destruct (protect_profiles w (profiles c) r) as [[l|e] r']; [|done].
  by destruct (save_json (set_profiles l c) d).
Qed.

Lemma profile_op_target op (s : S) :
  match profile_target op s.1 with
  | Some c' => profile_op op s = save_profiles w save_json (c', s.2)
  | None => ∃ e, profile_op op s = (Err e, s)
  end.
Proof using Type.
  destruct s as [c [r d]], op as [now name di pr mo key|name|name|p];
    cbn [profile_op profile_target fst snd];
    unfold create, switch, delete_profile, update, bind, gets, put, not_found_profile, ret;
    cbn [fst snd]; rewrite ?named_spec; fold (names c).
  - case_bool_decide; [rewrite decide_True by done; eauto|]. by rewrite decide_False.
  - case_bool_decide; cbn [negb]; [by rewrite decide_True|]. rewrite decide_False by done. eauto.
  - destruct (decide (name = "default")) as [->|Hd]; [rewrite decide_True by auto; eauto|].
    pose proof (kept_length name (profiles c)) as Hk. case_decide as Et.
    + rewrite decide_True by (destruct Et; [done|by apply Hk]). eauto.
    + rewrite decide_False by (intros H%Hk; apply Et; by right). done.
  - case_bool_decide; [by rewrite decide_True|]. rewrite decide_False by done. eauto.
Qed.

Lemma profile_op_ok op (s : S) : profiles_ok s.1 → profiles_ok (profile_op op s).2.1.
Proof using Type.
  intros H. pose proof (profile_op_target op s) as Ht.
  destruct (profile_target op s.1) as [c'|] eqn:E.
  - rewrite Ht, save_profiles_memory. by eapply profile_target_ok.
  - destruct Ht as [e ->]. done.
Qed.

Definition profile_ops (ops : list ProfileOp) (s : ProfileConfig * (R * D)) : ProfileConfig * (R * D) :=
  foldl (λ s op, (profile_op op s).2) s ops.
End profile_ops.

Lemma ProfileConfig_default_ok now : profiles_ok (ProfileConfig_default now).
Proof. split_and!; [apply NoDup_singleton|by apply list_elem_of_singleton..]. Qed.

Lemma names_reveal {R} (w : SecretEnv R) c : names (reveal_profile_keys w c) = names c.
Proof.
  unfold names, reveal_profile_keys. cbn. rewrite <- list_fmap_compose. apply list_fmap_ext.
  intros _ p _. cbn. unfold reveal_profile. by destruct (reveal_secret w (profile_api_key p)).
Qed.

(** The profiles stay consistent.  Starting from whatever [load] gives (the defaults, or
    a consistent file), after any sequence of create, switch, delete and update requests, and
    whether or not saving succeeds, profile names are unique, the default profile exists, and
    the active profile is found. *)
Theorem profiles_consistent {R D} (w : SecretEnv R)
    (save_json : ProfileConfig → State D (result unit string)) now loaded rd ops
    (Hfile : ∀ c, loaded = Ok c → profiles_ok c) :
  let s := profile_ops w save_json ops (load_profiles w save_json now loaded rd) in
  profiles_ok s.1 ∧
  ∃ p, active_profile s.1 = Some p ∧ profile_name p = active s.1 ∧ p ∈ profiles s.1.
Proof.
  intros s. assert (profiles_ok s.1) as Hok.
  { subst s. assert (profiles_ok (load_profiles w save_json now loaded rd).1) as H.
    { destruct loaded as [c|e]; [|apply ProfileConfig_default_ok].
      change (profiles_ok (reveal_profile_keys w c)). unfold profiles_ok.
      rewrite names_reveal. exact (Hfile c eq_refl). }
    revert H. generalize (load_profiles w save_json now loaded rd) as s.
    induction ops as [|op ops IH]; intros s H; [done|]. cbn. apply IH. by apply profile_op_ok. }
  split; [done|]. destruct Hok as (_ & _ & Ha).
  destruct (find_named_some _ _ Ha) as [p Hp]. exists p. split; [done|]. by apply find_named.
Qed.

Lemma profiles_consistent_witness :
  let s := profile_ops toy_env (λ _ d, (Err "disk full", d))
             [OpCreate 1 "work" "Work" "openrouter" "m" "k"; OpSwitch "work"; OpDelete "work"]
             (load_profiles toy_env (λ _ d, (Err "disk full", d)) 0 (Err "no file") (tt, tt)) in
  profiles_ok s.1 ∧ active s.1 = "default".
Proof.
  cbv zeta. split; [|vm_compute; reflexivity].
  apply (profiles_consistent toy_env (λ _ d, (Err "disk full", d)) 0 (Err "no file") (tt, tt)
    [OpCreate 1 "work" "Work" "openrouter" "m" "k"; OpSwitch "work"; OpDelete "work"]).
  intros c. discriminate.
Defined.

(** A save that fails leaves the new profile in memory: the client sees an error, and the
    next successful save writes the profile. *)
Example failed_create_kept :
  let s0 := (ProfileConfig_default 0, (tt, tt)) in
  let '(res, s) := create toy_env (λ _ d, (Err "disk full", d)) 1 "work" "Work" "p" "m" "k" s0 in
  res = Err "disk full" ∧ names s.1 = ["default"; "work"].
Proof. vm_compute. done. Qed.
