(* ===== verification/Extensions.v ===== *)
(** * Platform extensions: the registry, the context engine and the footer
      (brioche-shell-persistence/src/extensions/: mod.rs, context.rs, footer.rs)

    An extension is a trait object; the registry is a parameter-free list of them, so it
    is modelled over the types the traits are implemented at, with the function that
    gives the metadata of each. *)
From S2P Require Import Prelude Utf8 Types Effects Persistence GovTypes Sse Provider SystemTools.

(** ** Searching a text *)

(** [str::contains]. *)
Fixpoint str_starts (p s : string) : bool :=
  match p, s with
  | EmptyString, _ => true
  | String a p', String b s' => bool_decide (a = b) && str_starts p' s'
  | String _ _, EmptyString => false
  end.
Fixpoint str_contains (q s : string) : bool :=
  str_starts q s || match s with EmptyString => false | String _ s' => str_contains q s' end.

(** ** mod.rs *)

(** The error of the providers; the storage has an error type of the same name. *)
Module ProviderError.
Inductive ProviderError : Type :=
  | Io (err : string)
  | Json (err : string)
  | Http (err : string)
  | Amp (code message : string)
  | NotFound (what : string)
  | AlreadyExists (what : string)
  | InvalidInput (what : string)
  | LockPoisoned
  | NoRuntime
  | Unsupported
  | Other (msg : string).
End ProviderError.
Abbreviation ProviderError := ProviderError.ProviderError.

Definition ProviderError_to_string (e : ProviderError) : string :=
  match e with
  | ProviderError.Io err => "io error: " +:+ err
  | ProviderError.Json err => "json error: " +:+ err
  | ProviderError.Http err => "http error: " +:+ err
  | ProviderError.Amp code message => "AMP error (" +:+ code +:+ "): " +:+ message
  | ProviderError.NotFound s => "not found: " +:+ s
  | ProviderError.AlreadyExists s => "already exists: " +:+ s
  | ProviderError.InvalidInput s => "invalid input: " +:+ s
  | ProviderError.LockPoisoned => "lock poisoned"
  | ProviderError.NoRuntime => "no tokio runtime available"
  | ProviderError.Unsupported => "unsupported operation"
  | ProviderError.Other s => s
  end.

Module PanelSlot.
Inductive PanelSlot : Type := Left | Right | Center | Bottom.
End PanelSlot.
Abbreviation PanelSlot := PanelSlot.PanelSlot.

Definition PanelSlot_default : PanelSlot := PanelSlot.Left.

Record ExtensionMetadata := {
  extension_id : string;
  extension_name : string;
  extension_version : string;
  default_panel : option PanelSlot;
  extension_enabled : bool
}.

(** The six extension points: one type of implementations for each. *)
Record ExtensionRegistry (C M T K X F : Type) := {
  context_engines : list C;
  memory_providers : list M;
  tool_providers : list T;
  skill_providers : list K;
  settings_sections : list X;
  footer_metrics : list F;
  metadata : list ExtensionMetadata
}.
Arguments context_engines {C M T K X F}.
Arguments memory_providers {C M T K X F}.
Arguments tool_providers {C M T K X F}.
Arguments skill_providers {C M T K X F}.
Arguments settings_sections {C M T K X F}.
Arguments footer_metrics {C M T K X F}.
Arguments metadata {C M T K X F}.
Arguments Build_ExtensionRegistry {C M T K X F}.

Section registry.
Context {C M T K X F : Type}.
(** [metadata] of each trait. *)
Context (of_context : C → ExtensionMetadata) (of_memory : M → ExtensionMetadata).
Context (of_tools : T → ExtensionMetadata) (of_skills : K → ExtensionMetadata).
Context (of_section : X → ExtensionMetadata) (of_metric : F → ExtensionMetadata).
#[local] Abbreviation Registry := (ExtensionRegistry C M T K X F).

Definition ExtensionRegistry_new : ExtensionRegistry C M T K X F :=
  Build_ExtensionRegistry [] [] [] [] [] [] [].

Definition register_context_engine (engine : C) (r : Registry) : Registry :=
  Build_ExtensionRegistry (context_engines r ++ [engine]) (memory_providers r) (tool_providers r)
    (skill_providers r) (settings_sections r) (footer_metrics r) (metadata r ++ [of_context engine]).
Definition register_memory_provider (provider : M) (r : Registry) : Registry :=
  Build_ExtensionRegistry (context_engines r) (memory_providers r ++ [provider]) (tool_providers r)
    (skill_providers r) (settings_sections r) (footer_metrics r) (metadata r ++ [of_memory provider]).
Definition register_tool_provider (provider : T) (r : Registry) : Registry :=
  Build_ExtensionRegistry (context_engines r) (memory_providers r) (tool_providers r ++ [provider])
    (skill_providers r) (settings_sections r) (footer_metrics r) (metadata r ++ [of_tools provider]).
Definition register_skill_provider (provider : K) (r : Registry) : Registry :=
  Build_ExtensionRegistry (context_engines r) (memory_providers r) (tool_providers r)
    (skill_providers r ++ [provider]) (settings_sections r) (footer_metrics r)
    (metadata r ++ [of_skills provider]).
Definition register_settings_section (section : X) (r : Registry) : Registry :=
  Build_ExtensionRegistry (context_engines r) (memory_providers r) (tool_providers r)
    (skill_providers r) (settings_sections r ++ [section]) (footer_metrics r)
    (metadata r ++ [of_section section]).
Definition register_footer_metric (metric : F) (r : Registry) : Registry :=
  Build_ExtensionRegistry (context_engines r) (memory_providers r) (tool_providers r)
    (skill_providers r) (settings_sections r) (footer_metrics r ++ [metric])
    (metadata r ++ [of_metric metric]).
End registry.

(** ** context.rs *)

Definition usize_wrap (n : N) : N := (n mod 2 ^ 64)%N.

Record ContextEngineInput := {
  input_history : list ChatMessage;
  input_context_window : N;
  estimated_tokens : N
}.

Record ContextEngineOutput := {
  output_messages : list ChatMessage;
  output_note : option string
}.

Record ContextEngine := {
  engine_metadata : ExtensionMetadata;
  process : ContextEngineInput → ContextEngineOutput
}.

Record CompressorContextEngine := {
  trigger_percentage : N;
  target_percentage : N;
  preserve_recent : N
}.

Definition CompressorContextEngine_default : CompressorContextEngine :=
  {| trigger_percentage := 0; target_percentage := 0; preserve_recent := 0 |}.
Definition CompressorContextEngine_new (trigger target preserve : N) : CompressorContextEngine :=
  {| trigger_percentage := trigger; target_percentage := target; preserve_recent := preserve |}.

Definition message_tokens (m : ChatMessage) : N :=
  let quarter s := (N.of_nat (String.length s) / 4)%N in
  match m with
  | ChatMessage.System content | ChatMessage.User content
  | ChatMessage.Assistant content _ _ => quarter content
  | ChatMessage.ToolRequest _ _ arguments => quarter arguments
  | ChatMessage.ToolResult _ content => quarter content
  end.

Definition estimate_tokens (messages : list ChatMessage) : N :=
  foldr N.add 0%N (message_tokens <$> messages).

Definition is_system (m : ChatMessage) : bool :=
  match m with ChatMessage.System _ => true | _ => false end.

(** The loop over the older messages, the newest first: what it pushes. *)
Fixpoint keep_older (target current : N) (older : list ChatMessage) : list ChatMessage :=
  match older with
  | [] => []
  | msg :: older =>
      let msg_tokens := estimate_tokens [msg] in
      if (target <? current + msg_tokens)%N then []
      else msg :: keep_older target (current + msg_tokens) older
  end.

(** A percentage of the window, in 64-bit arithmetic. *)
Definition percentage (window percent : N) : N := (usize_wrap (window * percent) / 100)%N.

Definition compressor_process (e : CompressorContextEngine) (input : ContextEngineInput) :
    ContextEngineOutput :=
  let history := input_history input in
  let estimated := estimate_tokens history in
  let trigger_tokens := percentage (input_context_window input) (trigger_percentage e) in
  let count := N.of_nat (length history) in
  if ((estimated <=? trigger_tokens) || (count <=? usize_wrap (preserve_recent e + 1)))%N then
    {| output_messages := history; output_note := None |}
  else
    let target_tokens := percentage (input_context_window input) (target_percentage e) in
    let system_msgs := List.filter is_system history in
    let non_system := List.filter (λ m, negb (is_system m)) history in
    let preserve := N.to_nat (N.max (preserve_recent e) 1) in
    let older := take (length non_system - preserve) non_system in
    let recent := drop (length non_system - preserve) non_system in
    let current_tokens := (estimate_tokens system_msgs + estimate_tokens recent)%N in
    {| output_messages :=
         system_msgs ++ keep_older target_tokens current_tokens (reverse older) ++ recent;
       output_note := Some ("Context compressed: kept " +:+ pretty count +:+ "/" +:+ pretty count
                            +:+ " messages") |}.

Definition CompressorContextEngine_engine (e : CompressorContextEngine) : ContextEngine :=
  {| engine_metadata := {| extension_id := "context-compressor";
                           extension_name := "Sliding-window context compressor";
                           extension_version := "0.1.0";
                           default_panel := Some PanelSlot.Bottom; extension_enabled := true |};
     process := compressor_process e |}.

(** [CompressorSettings::default]. *)
Definition CompressorSettings_default : CompressorContextEngine :=
  {| trigger_percentage := 75; target_percentage := 50; preserve_recent := 6 |}.

(** ** footer.rs *)

Record FooterMetric := {
  metric_id : string;
  metric_label : string;
  metric_value : string;
  metric_tooltip : option string;
  metric_priority : Z
}.

Record FooterContext := {
  footer_version : string;
  footer_session_started_at : N;
  footer_current_model : string;
  footer_context_remaining : Z;
  footer_context_note : option string
}.

Record FooterMetricProvider := {
  footer_metadata : ExtensionMetadata;
  compute : FooterContext → FooterMetric
}.

Definition footer_extension (id name : string) : ExtensionMetadata :=
  {| extension_id := id; extension_name := name; extension_version := "0.1.0";
     default_panel := None; extension_enabled := true |}.
Definition metric (id label value tooltip : string) (priority : Z) : FooterMetric :=
  {| metric_id := id; metric_label := label; metric_value := value;
     metric_tooltip := Some tooltip; metric_priority := priority |}.

Definition VersionMetric : FooterMetricProvider :=
  {| footer_metadata := footer_extension "footer-version" "Brioche version";
     compute ctx := metric "version" "Brioche" (footer_version ctx) "Brioche Desktop version" (-100) |}.

(** [{:02}] *)
Definition pad2 (n : N) : string := (if (n <? 10)%N then "0" else "") +:+ pretty n.

Definition show_duration (elapsed : N) : string :=
  let hours := (elapsed / 3600)%N in
  let minutes := (elapsed mod 3600 / 60)%N in
  let seconds := (elapsed mod 60)%N in
  if (0 <? hours)%N then pad2 hours +:+ ":" +:+ pad2 minutes +:+ ":" +:+ pad2 seconds
  else pad2 minutes +:+ ":" +:+ pad2 seconds.

(** The clock: seconds since the epoch, nothing when it is before it. *)
Definition SessionDurationMetric (clock : option N) : FooterMetricProvider :=
  {| footer_metadata := footer_extension "footer-session-duration" "Session duration";
     compute ctx :=
       let now := match clock with Some s => s | None => footer_session_started_at ctx end in
       metric "session-duration" "Session" (show_duration (now - footer_session_started_at ctx))
         "Time since the current session started" (-90) |}.

Definition CurrentModelMetric : FooterMetricProvider :=
  {| footer_metadata := footer_extension "footer-current-model" "Current model";
     compute ctx := metric "current-model" "Model" (footer_current_model ctx) "Active LLM model" (-80) |}.

(** [i64::abs], which wraps at the least value. *)
Definition abs_i64 (z : Z) : Z := if decide (z = - 2 ^ 63)%Z then z else Z.abs z.

Definition ContextRemainingMetric : FooterMetricProvider :=
  {| footer_metadata := footer_extension "footer-context-remaining" "Remaining context";
     compute ctx :=
       let r := footer_context_remaining ctx in
       metric "context-remaining" "Context"
         (if (0 <=? r)%Z then pretty r +:+ " tokens" else "over by " +:+ pretty (abs_i64 r) +:+ " tokens")
         "Estimated remaining context for the active model" (-70) |}.

Definition ContextEngineNoteMetric : FooterMetricProvider :=
  {| footer_metadata := footer_extension "footer-context-note" "Context engine note";
     compute ctx :=
       metric "context-note" "Note"
         match footer_context_note ctx with Some note => note | None => "" end
         "Last message from the context engine" (-60) |}.

(** ** The files of the providers

    The three providers keep a JSON file in the configuration directory; each loads and
    saves it the same way. *)
Section config_files.
Context {D : Type} (config_dir : option Path) (temp_dir : Path).
Context (create_dir_all : Path → State D (result unit IoError)).
Context (write_file : Path → string → State D (result unit IoError)).
Context (read_to_string : Path → State D (result string IoError)).

Definition config_path (file : string) : Path :=
  join (join match config_dir with Some d => d | None => temp_dir end [Normal "brioche-desktop"])
    [Normal file].

Definition provider_io {A} (m : State D (result A IoError)) : State D (result A ProviderError) :=
  r <-! m ;; ret match r with Ok a => Ok a | Err e => Err (ProviderError.Io e) end.
Definition provider_lift {A} (r : result A ProviderError) : State D (result A ProviderError) := ret r.
Definition provider_json {A} (r : result A string) : result A ProviderError :=
  match r with Ok a => Ok a | Err e => Err (ProviderError.Json e) end.

Definition save_file {A} (to_json : A → result string string) (file : string) (a : A) :
    State D (result unit ProviderError) :=
  let path := config_path file in
  _ <-? match parent path with
        | Some dir => provider_io (create_dir_all dir)
        | None => provider_lift (Ok tt)
        end ;;
  data <-? provider_lift (provider_json (to_json a)) ;;
  provider_io (write_file path data).

Definition load_file {A} (of_json : string → result A string) (file : string) :
    State D (result A ProviderError) :=
  data <-? provider_io (read_to_string (config_path file)) ;;
  provider_lift (provider_json (of_json data)).
End config_files.
