(* ===== verification/Memory.v ===== *)
(** * Memory providers (brioche-shell-persistence/src/extensions/: memory_provider.rs,
      amp_memory_client.rs)

    The world [W] holds the clock, the random generator, the file system and the network.
    Unicode lower case, JSON and the HTTP client are parameters. *)
From S2P Require Import Prelude Utf8 Types Effects Persistence GovTypes Sse Provider SystemTools.
From S2P Require Import Extensions.

(** ** memory_provider.rs *)

Record MemoryEntry := {
  entry_key : string;
  entry_value : string;
  category : string;
  entry_created_at : N;
  updated_at : N;
  access_count : N;
  entry_provider_id : string
}.

Record MemoryQuery := { query_category : option string; query_text : option string }.

Record MemorySessionContext := {
  context_session_id : string;
  workspace : string;
  user_id : option string;
  agent_id : option string
}.

(** The trait, over a state [W] with the provider's own; its three notification hooks have
    empty bodies that no implementation replaces. *)
Record MemoryProvider (W : Type) := {
  memory_metadata : ExtensionMetadata;
  initialize : MemorySessionContext → State W (result unit ProviderError);
  memory_list : MemoryQuery → State W (result (list MemoryEntry) ProviderError);
  memory_set : string → string → string → State W (result unit ProviderError);
  memory_delete : string → State W (result bool ProviderError);
  recall : string → nat → State W (result (list MemoryEntry) ProviderError);
  tool_schemas : list Value;
  handle_tool_call : string → Value → State W (result string ProviderError)
}.
Arguments memory_metadata {W}.
Arguments initialize {W}.
Arguments memory_list {W}.
Arguments memory_set {W}.
Arguments memory_delete {W}.
Arguments recall {W}.
Arguments tool_schemas {W}.
Arguments handle_tool_call {W}.

Definition eq_ignore_ascii_case (a b : string) : bool :=
  bool_decide (to_ascii_lowercase a = to_ascii_lowercase b).

Section local.
Context (to_lowercase : string → string).

Definition entry_matches (query : MemoryQuery) (e : MemoryEntry) : bool :=
  let q := match query_text query with Some s => to_lowercase s | None => "" end in
  (match query_category query with
   | None => true
   | Some c => eq_ignore_ascii_case (category e) c
   end)
  && (bool_decide (q = "") || str_contains q (to_lowercase (entry_key e))
      || str_contains q (to_lowercase (entry_value e))).

Definition local_list (query : MemoryQuery) (entries : list MemoryEntry) : list MemoryEntry :=
  List.filter (entry_matches query) entries.

Definition entry_score (q : string) (e : MemoryEntry) : nat :=
  if str_contains q (to_lowercase (entry_value e)) then 2
  else if str_contains q (to_lowercase (entry_key e)) then 1
  else 0.

(** Better scores first, then more accesses. *)
Definition compare_scored (a b : nat * MemoryEntry) : comparison :=
  match Nat.compare b.1 a.1 with
  | Eq => N.compare (access_count b.2) (access_count a.2)
  | c => c
  end.

Definition local_recall (summary : string) (limit : nat) (entries : list MemoryEntry) :
    list MemoryEntry :=
  let q := to_lowercase summary in
  let scored := List.filter (λ se, 0 <? se.1) ((λ e, (entry_score q e, e)) <$> entries) in
  snd <$> take limit (sort_by compare_scored scored).

Definition entry_named (key : string) (e : MemoryEntry) : bool := bool_decide (entry_key e = key).

(** The first entry of the key is changed, or a new one is pushed. *)
Fixpoint set_entry (now : N) (key value category : string) (entries : list MemoryEntry) :
    list MemoryEntry :=
  match entries with
  | [] => [{| entry_key := key; entry_value := value; category := category;
              entry_created_at := now; updated_at := now; access_count := 0;
              entry_provider_id := "memory-local" |}]
  | e :: entries =>
      if entry_named key e then
        {| entry_key := entry_key e; entry_value := value; category := category;
           entry_created_at := entry_created_at e; updated_at := now;
           access_count := access_count e; entry_provider_id := entry_provider_id e |} :: entries
      else e :: set_entry now key value category entries
  end.

Context {D : Type} (config_dir : option Path) (temp_dir : Path) (now : D → N).
Context (create_dir_all : Path → State D (result unit IoError)).
Context (write_file : Path → string → State D (result unit IoError)).
Context (read_to_string : Path → State D (result string IoError)).
Context (to_json : list MemoryEntry → result string string).
Context (of_json : string → result (list MemoryEntry) string).

(** The entries in memory, and the world. *)
#[local] Abbreviation M := (State (list MemoryEntry * D)).

Definition local_load : State D (result (list MemoryEntry) ProviderError) :=
  load_file config_dir temp_dir read_to_string of_json "memory.json".

Definition local_save : State (list MemoryEntry * D) (result unit ProviderError) :=
  λ '(entries, d),
    let '(r, d) := save_file config_dir temp_dir create_dir_all write_file to_json "memory.json" entries d in
    (r, (entries, d)).

Definition put_entries (entries : list MemoryEntry) : M unit := λ s, (tt, (entries, s.2)).

Definition local_set (key value category : string) : M (result unit ProviderError) :=
  s <-! gets id ;;
  put_entries (set_entry (now s.2) key value category s.1) ;;!
  local_save.

Definition local_delete (key : string) : M (result bool ProviderError) :=
  entries <-! gets fst ;;
  let kept := List.filter (λ e, negb (entry_named key e)) entries in
  put_entries kept ;;!
  if length kept <? length entries then _ <-? local_save ;; ret (Ok true)
  else ret (Ok false).

Definition LocalMemoryProvider : MemoryProvider (list MemoryEntry * D) :=
  {| memory_metadata := {| extension_id := "memory-local"; extension_name := "Local memory";
                           extension_version := "0.1.0"; default_panel := Some PanelSlot.Right;
                           extension_enabled := true |};
     initialize _ := ret (Ok tt);
     memory_list query := entries <-! gets fst ;; ret (Ok (local_list query entries));
     memory_set := local_set;
     memory_delete := local_delete;
     recall summary limit := entries <-! gets fst ;; ret (Ok (local_recall summary limit entries));
     tool_schemas := [];
     handle_tool_call _ _ := ret (Err ProviderError.Unsupported) |}.
End local.

(** ** amp_memory_client.rs *)

Record AmpMemoryEndpoint := {
  amp_id : string;
  amp_name : string;
  amp_url : string;
  amp_api_key : option string;
  amp_scope : option string
}.

(** What the clones of a provider share. *)
Record AmpState (Client : Type) := {
  client : option Client;
  session_context : option MemorySessionContext
}.
Arguments client {Client}.
Arguments session_context {Client}.

(** A decoded response: its status and its envelope, data or error. *)
Record AmpResponse (A : Type) := {
  amp_status : string;
  amp_data : option A;
  amp_error : option (string * string)
}.
Arguments amp_status {A}.
Arguments amp_data {A}.
Arguments amp_error {A}.

Record AmpThought := {
  thought_id : option string;
  thought_content : string;
  thought_type : option string;
  thought_created_at : option N
}.

Section amp.
Context {Client D : Type} (endpoint : AmpMemoryEndpoint).
(** Whether a text is a header value; the client with its [Authorization] header. *)
Context (header_ok : string → bool) (build_client : option string → result Client string).
(** Posting a body and decoding the envelope, the data as thoughts or as any value. *)
Context (post_thoughts : Client → string → Value → State D (result (AmpResponse (list AmpThought)) string)).
Context (post_value : Client → string → Value → State D (result (AmpResponse Value) string)).
Context (has_runtime : bool) (now : D → N) (random_u32 : State D N).
Context (strings_to_json : list string → option string).
#[local] Abbreviation M := (State (AmpState Client * D)).

Definition ensure_client : State (AmpState Client * D) (result Client ProviderError) :=
  λ s,
    match client s.1 with
    | Some c => (Ok c, s)
    | None =>
        if match amp_api_key endpoint with Some k => negb (header_ok k) | None => false end
        then (Err (ProviderError.InvalidInput "Invalid API key header value"), s)
        else match build_client (amp_api_key endpoint) with
             | Err e => (Err (ProviderError.Http e), s)
             | Ok c => (Ok c, ({| client := Some c; session_context := session_context s.1 |}, s.2))
             end
    end.

Definition base_url : string :=
  let url := trim_end_slashes (amp_url endpoint) in
  if decide (url = "") then "http://localhost" else url.

Definition option_entry (k : string) (v : option string) : gmap string string :=
  match v with Some v => {[ k := v ]} | None => ∅ end.
Definition non_empty (s : string) : option string := if decide (s = "") then None else Some s.

(** Later entries replace earlier ones; the keys are all different. *)
Definition scope (st : AmpState Client) : gmap string string :=
  option_entry "scope" (amp_scope endpoint ≫= non_empty) ∪
  match session_context st with
  | Some ctx =>
      option_entry "agent_id" (agent_id ctx) ∪ (option_entry "user_id" (user_id ctx) ∪
        (option_entry "workspace_id" (non_empty (workspace ctx)) ∪
         {[ "session_id" := context_session_id ctx ]}))
  | None => ∅
  end.

Definition scope_fields (m : gmap string string) : list (string * Value) :=
  (λ kv, (kv.1, Str kv.2)) <$> btree_to_list m.

Definition world {A} (m : State D A) : State (AmpState Client * D) A :=
  λ s, let '(a, d) := m s.2 in (a, (s.1, d)).

Definition envelope_result {A} (r : result (AmpResponse A) string) : result A ProviderError :=
  match r with
  | Err e => Err (ProviderError.Http e)
  | Ok response =>
      match amp_error response with
      | Some (code, message) => Err (ProviderError.Amp code message)
      | None => match amp_data response with
                | Some data => Ok data
                | None => Err (ProviderError.Amp (amp_status response) "empty data")
                end
      end
  end.

Definition post {A} (send : Client → string → Value → State D (result (AmpResponse A) string))
    (path : string) (body : Value) : State (AmpState Client * D) (result A ProviderError) :=
  c <-? ensure_client ;;
  r <-! world (send c (base_url +:+ path) body) ;;
  ret (envelope_result r).

(** [block_on]: without a runtime nothing is run. *)
Definition block_on {A} (m : State (AmpState Client * D) (result A ProviderError)) :
    State (AmpState Client * D) (result A ProviderError) :=
  if has_runtime then m else ret (Err ProviderError.NoRuntime).

Definition random_key (prefix : string) : State D string :=
  t <-! gets now ;;
  a <-! random_u32 ;;
  b <-! random_u32 ;;
  c <-! random_u32 ;;
  ret (prefix +:+ "-" +:+ pretty t +:+ "-" +:+ hex_digits 8 a +:+ "-" +:+ hex_digits 8 b +:+ "-"
       +:+ hex_digits 8 c).

Definition thought_to_entry (category_override : string) (t : AmpThought) : State D MemoryEntry :=
  time <-! gets now ;;
  key <-! match thought_id t with Some id => ret id | None => random_key "amp" end ;;
  let created := match thought_created_at t with Some c => c | None => time end in
  ret {| entry_key := key; entry_value := thought_content t;
         category := if decide (category_override = "")
                     then match thought_type t with Some c => c | None => "memory" end
                     else category_override;
         entry_created_at := created; updated_at := created; access_count := 0;
         entry_provider_id := amp_id endpoint |}.

Fixpoint thoughts_to_entries (category_override : string) (l : list AmpThought) :
    State D (list MemoryEntry) :=
  match l with
  | [] => ret []
  | t :: l =>
      e <-! thought_to_entry category_override t ;;
      es <-! thoughts_to_entries category_override l ;;
      ret (e :: es)
  end.

Definition recall_request (query : string) (limit : nat) (st : AmpState Client) : Value :=
  Object ([("query", Str query); ("limit", Num (PosInt (N.of_nat limit)))] ++ scope_fields (scope st)).

Definition amp_search (query : string) (limit : nat) (category_override : string) :
    M (result (list MemoryEntry) ProviderError) :=
  block_on (
    st <-! gets fst ;;
    thoughts <-? post post_thoughts "/v1/recall" (recall_request query limit st) ;;
    entries <-! world (thoughts_to_entries category_override thoughts) ;;
    ret (Ok entries)).

Definition text_or_empty (s : option string) : string := match s with Some s => s | None => "" end.

Definition amp_list (query : MemoryQuery) : M (result (list MemoryEntry) ProviderError) :=
  amp_search (text_or_empty (query_text query)) 50 (text_or_empty (query_category query)).
Definition amp_recall (summary : string) (limit : nat) : M (result (list MemoryEntry) ProviderError) :=
  amp_search summary limit "".

Definition amp_initialize (ctx : MemorySessionContext) : M (result unit ProviderError) :=
  λ s, (Ok tt, ({| client := client s.1; session_context := Some ctx |}, s.2)).

Definition amp_set (key value category : string) : M (result unit ProviderError) :=
  st <-! gets fst ;;
  let request := Object ([("content", Str value); ("thought_type", Str category);
                          ("tags", Array [])] ++ scope_fields (<["key" := key]> (scope st))) in
  block_on (_ <-? post post_value "/v1/encode" request ;; ret (Ok tt)).

Definition amp_delete (key : string) : M (result bool ProviderError) :=
  block_on (_ <-? post post_value "/v1/forget" (Object [("key", Str key)]) ;; ret (Ok true)).

Definition amp_property (name description : string) : ToolSchemaProperty :=
  {| property_name := name; property_type := TString; property_description := description;
     property_required := true |}.
Definition amp_tool_schema (name description : string) (params : list ToolSchemaProperty) : Value :=
  openai_function_tool_schema name description (tool_parameters_schema params).

Definition recall_name : string := amp_id endpoint +:+ "_recall".
Definition store_name : string := amp_id endpoint +:+ "_store".

Definition amp_tool_schemas : list Value :=
  [amp_tool_schema recall_name "Recall relevant memories from the long-term memory backend."
     [amp_property "query" "What to search for"];
   amp_tool_schema store_name "Store a fact, lesson, or decision in the long-term memory backend."
     [amp_property "content" "Content to store"]].

Definition STORED : string :=
  "{" +:+ String "034" "status" +:+ String "034" ":" +:+ String "034" "stored" +:+ String "034" "}".

Definition amp_handle_tool_call (tool_name : string) (args : Value) : M (result string ProviderError) :=
  if decide (tool_name = recall_name) then
    entries <-? amp_recall (text_or_empty (str_field "query" args)) 8 ;;
    ret (Ok match strings_to_json (entry_value <$> entries) with Some json => json | None => "[]" end)
  else if decide (tool_name = store_name) then
    key <-! world (random_key "tool") ;;
    _ <-? amp_set key (text_or_empty (str_field "content" args)) "tool_store" ;;
    ret (Ok STORED)
  else ret (Err (ProviderError.NotFound ("Unknown tool: " +:+ tool_name))).

Definition AmpMemoryProvider : MemoryProvider (AmpState Client * D) :=
  {| memory_metadata := {| extension_id := amp_id endpoint; extension_name := amp_name endpoint;
                           extension_version := "0.1.0"; default_panel := Some PanelSlot.Right;
                           extension_enabled := false |};
     initialize := amp_initialize;
     memory_list := amp_list;
     memory_set := amp_set;
     memory_delete := amp_delete;
     recall := amp_recall;
     tool_schemas := amp_tool_schemas;
     handle_tool_call := amp_handle_tool_call |}.
End amp.
