(* ===== verification/UserTools.v ===== *)
(** * User-defined tools (brioche-shell-persistence/src/extensions/tool_provider.rs)

    The registry is the list of user tools and the list of disabled identifiers; its two
    locks cannot be poisoned, since no holder panics.  Running a user tool goes through
    the command tool, the HTTP client and the file reader of the system tools. *)
From S2P Require Import Prelude Utf8 Types Effects Persistence GovTypes Sse Provider SystemTools.
From S2P Require Import Extensions.

Module ToolSource.
Inductive ToolSource : Type := BuiltIn | UserJson | Wasm | Process.
End ToolSource.
Abbreviation ToolSource := ToolSource.ToolSource.

#[global] Instance ToolSource_eq_dec : EqDecision ToolSource.
Proof. solve_decision. Defined.

Definition ToolSource_as_str (s : ToolSource) : string :=
  match s with
  | ToolSource.BuiltIn => "built-in"
  | ToolSource.UserJson => "user-json"
  | ToolSource.Wasm => "wasm"
  | ToolSource.Process => "process"
  end.

Record ToolDescriptor := {
  descriptor_id : string;
  descriptor_name : string;
  descriptor_description : string;
  descriptor_parameters : Value;
  descriptor_category : string;
  descriptor_tags : list string;
  enabled : bool;
  descriptor_source : ToolSource
}.

Module ToolExecutor.
Inductive ToolExecutor : Type :=
  | Command (command : string) (working_dir : option string) (timeout_ms : option N)
  | HttpPost (url : string) (headers : gmap string string)
  | ReadFile (path : string).
End ToolExecutor.
Abbreviation ToolExecutor := ToolExecutor.ToolExecutor.

Record UserToolDefinition := {
  user_tool_id : string;
  user_tool_name : string;
  user_tool_description : string;
  user_tool_parameters : Value;
  user_tool_category : string;
  user_tool_tags : list string;
  executor : ToolExecutor
}.

Definition built_in (id name description category : string) (tags : list string)
    (properties : list ToolSchemaProperty) : ToolDescriptor :=
  {| descriptor_id := id; descriptor_name := name; descriptor_description := description;
     descriptor_parameters := tool_parameters_schema properties; descriptor_category := category;
     descriptor_tags := tags; enabled := true; descriptor_source := ToolSource.BuiltIn |}.

Definition from_user_definition (user : UserToolDefinition) (is_enabled : bool) : ToolDescriptor :=
  {| descriptor_id := user_tool_id user; descriptor_name := user_tool_name user;
     descriptor_description := user_tool_description user;
     descriptor_parameters := user_tool_parameters user;
     descriptor_category := user_tool_category user; descriptor_tags := user_tool_tags user;
     enabled := is_enabled; descriptor_source := ToolSource.UserJson |}.

Definition schema_property (name : string) (t : ToolSchemaPropertyType) (description : string)
    (required : bool) : ToolSchemaProperty :=
  {| property_name := name; property_type := t; property_description := description;
     property_required := required |}.

Definition built_in_tools : list ToolDescriptor :=
  [built_in "read_file" "Read file" "Read the contents of a file" "filesystem" ["fs"]
     [schema_property "path" TString "File path" true];
   built_in "write_file" "Write file" "Write content to a file" "filesystem" ["fs"]
     [schema_property "path" TString "File path" true;
      schema_property "content" TString "File content" true;
      schema_property "append" TBoolean "Append to existing file" false];
   built_in "list_dir" "List directory" "List files in a directory" "filesystem" ["fs"]
     [schema_property "path" TString "Directory path" true];
   built_in "execute_command" "Execute command" "Run a shell command" "system" ["shell"]
     [schema_property "command" TString "Shell command" true;
      schema_property "timeout_ms" TInteger "Timeout in milliseconds" false];
   built_in "fetch_url" "Fetch URL" "Fetch content from a URL" "web" ["http"]
     [schema_property "url" TString "URL to fetch" true]].

(** ** The registry *)

Record ToolRegistry := { user_tools : list UserToolDefinition; disabled : list string }.

Definition ToolRegistry_default : ToolRegistry := {| user_tools := []; disabled := [] |}.

Definition is_disabled (id : string) (r : ToolRegistry) : bool := bool_decide (id ∈ disabled r).

Definition disable_listed (r : ToolRegistry) (t : ToolDescriptor) : ToolDescriptor :=
  if is_disabled (descriptor_id t) r then
    {| descriptor_id := descriptor_id t; descriptor_name := descriptor_name t;
       descriptor_description := descriptor_description t;
       descriptor_parameters := descriptor_parameters t;
       descriptor_category := descriptor_category t; descriptor_tags := descriptor_tags t;
       enabled := false; descriptor_source := descriptor_source t |}
  else t.

Definition tools (r : ToolRegistry) : list ToolDescriptor :=
  disable_listed r <$>
    (built_in_tools ++
     ((λ u, from_user_definition u (negb (is_disabled (user_tool_id u) r))) <$> user_tools r)).

Definition enabled_user_tools (r : ToolRegistry) : list UserToolDefinition :=
  List.filter (λ u, negb (is_disabled (user_tool_id u) r)) (user_tools r).

Definition retain_ne (id : string) (l : list string) : list string :=
  List.filter (λ d, negb (bool_decide (d = id))) l.
Definition tool_named (id : string) (u : UserToolDefinition) : bool :=
  bool_decide (user_tool_id u = id).

Section registry.
Context {D : Type} (config_dir : option Path) (temp_dir : Path).
Context (create_dir_all : Path → State D (result unit IoError)).
Context (write_file : Path → string → State D (result unit IoError)).
Context (read_to_string : Path → State D (result string IoError)).
Context (to_json : ToolRegistry → result string string).
Context (of_json : string → result ToolRegistry string).
#[local] Abbreviation M := (State (ToolRegistry * D)).

Definition registry_load : State D (result ToolRegistry ProviderError) :=
  load_file config_dir temp_dir read_to_string of_json "tools.json".

Definition registry_save : State (ToolRegistry * D) (result unit ProviderError) :=
  λ '(r, d),
    let '(res, d) := save_file config_dir temp_dir create_dir_all write_file to_json "tools.json" r d in
    (res, (r, d)).

Definition set_registry (r : ToolRegistry) : M unit := λ s, (tt, (r, s.2)).

Definition set_enabled (id : string) (enable : bool) : M (result unit ProviderError) :=
  r <-! gets fst ;;
  set_registry {| user_tools := user_tools r;
                  disabled := if enable then retain_ne id (disabled r)
                              else if is_disabled id r then disabled r
                              else disabled r ++ [id] |} ;;!
  registry_save.

Definition add_user_tool (tool : UserToolDefinition) : M (result unit ProviderError) :=
  r <-! gets fst ;;
  if existsb (tool_named (user_tool_id tool)) (user_tools r) then
    ret (Err (ProviderError.AlreadyExists (user_tool_id tool)))
  else
    set_registry {| user_tools := user_tools r ++ [tool]; disabled := disabled r |} ;;!
    registry_save.

Definition remove_user_tool (id : string) : M (result unit ProviderError) :=
  r <-! gets fst ;;
  let kept := List.filter (λ u, negb (tool_named id u)) (user_tools r) in
  if decide (length kept = length (user_tools r)) then
    ret (Err (ProviderError.NotFound ("Tool '" +:+ id +:+ "'")))
  else
    set_registry {| user_tools := kept; disabled := retain_ne id (disabled r) |} ;;!
    registry_save.
End registry.

(** ** Command templates *)

(** [str::replace] of a non-empty pattern: [skip] counts the characters of a match still
    to be passed over. *)
Fixpoint replace_go (skip : nat) (pat rep s : string) : string :=
  match s with
  | EmptyString => EmptyString
  | String a s' =>
      match skip with
      | S skip => replace_go skip pat rep s'
      | O =>
          if str_starts pat s then rep +:+ replace_go (String.length pat - 1) pat rep s'
          else String a (replace_go 0 pat rep s')
      end
  end.
Definition str_replace (pat rep s : string) : string := replace_go 0 pat rep s.

Definition byte_between (lo hi : ascii) (a : ascii) : bool :=
  (N_of_ascii lo <=? N_of_ascii a)%N && (N_of_ascii a <=? N_of_ascii hi)%N.
Definition is_key_char (c : bytes) : bool :=
  match c with
  | [b] => let a := ascii_of_byte b in
           byte_between "a" "z" a || byte_between "A" "Z" a || byte_between "0" "9" a
           || bool_decide (a = "_"%char)
  | _ => false
  end.

Definition validate_placeholder_key (key : string) : result unit ToolError :=
  if decide (key = "") then Err (InvalidArgs "empty placeholder key")
  else if negb (forallb is_key_char (chars (bytes_of_string key))) then
    Err (InvalidArgs ("invalid placeholder key: " +:+ key))
  else Ok tt.

(** The two loops: [opened] is the position and the key so far of the placeholder that is
    open, if one is. *)
Fixpoint template_loop (i : N) (cs : list bytes) (opened : option (N * string)) :
    result unit ToolError :=
  match cs, opened with
  | [], None => Ok tt
  | [], Some (start, _) =>
      Err (InvalidArgs ("unclosed placeholder starting at position " +:+ pretty start))
  | c :: cs, None =>
      if char_is "{" c then template_loop (i + 1) cs (Some (i, ""))
      else if char_is "}" c then
        Err (InvalidArgs ("unbalanced closing brace at position " +:+ pretty i))
      else template_loop (i + 1) cs None
  | c :: cs, Some (start, key) =>
      if char_is "}" c then
        result_bind (validate_placeholder_key key) (λ _, template_loop (i + 1) cs None)
      else if char_is "{" c then
        Err (InvalidArgs ("nested opening brace at position " +:+ pretty i
               +:+ " in placeholder starting at position " +:+ pretty start))
      else template_loop (i + 1) cs (Some (start, key +:+ char_text c))
  end.

Definition validate_template_placeholders (template : string) : result unit ToolError :=
  template_loop 0 (chars (bytes_of_string template)) None.

Section templates.
(** [to_string] of a JSON value that is not a string. *)
Context (json_text : Value → string).

Definition rendered (v : Value) : string := match v with Str s => s | other => json_text other end.

Definition placeholder (key : string) : string := "{" +:+ key +:+ "}".

Fixpoint interpolate_entries (map : list (string * Value)) (text : string) : result string ToolError :=
  match map with
  | [] => Ok text
  | (key, v) :: map =>
      result_bind (validate_placeholder_key key) (λ _,
        interpolate_entries map (str_replace (placeholder key) (rendered v) text))
  end.

Definition interpolate (template : string) (args : Value) : result string ToolError :=
  result_bind (validate_template_placeholders template) (λ _,
    match args with
    | Object map => interpolate_entries map template
    | _ => Ok template
    end).

Definition validate_value_no_shell_metacharacters (key value : string) : result unit ToolError :=
  match List.find is_metacharacter (chars (bytes_of_string value)) with
  | Some c =>
      Err (SandboxDenied ("argument '" +:+ key +:+ "' contains shell metacharacter: " +:+ char_text c))
  | None => Ok tt
  end.

Fixpoint validate_entries (map : list (string * Value)) : result unit ToolError :=
  match map with
  | [] => Ok tt
  | (key, v) :: map =>
      result_bind (validate_value_no_shell_metacharacters key (rendered v)) (λ _, validate_entries map)
  end.

Definition validate_interpolated_values (args : Value) : result unit ToolError :=
  match args with Object map => validate_entries map | _ => Ok tt end.

(** The second check, of the command; its error is of another kind than that of the
    command tool. *)
Definition validate_command (command : string) : result unit ToolError :=
  match List.find is_metacharacter (chars (bytes_of_string command)) with
  | Some c => Err (SandboxDenied ("command contains shell metacharacter: " +:+ char_text c))
  | None => Ok tt
  end.

(** ** Running a user tool *)

Context {F : Type}.
Context (execute : string → list string → option string → State F ProcessEnd).
(** [tokio::time::timeout]: nothing when the time is over first. *)
Context (timeout : N → State F (result string ToolError) → State F (option (result string ToolError))).
Context (post_json : string → list (string * string) → Value → State F (result string ToolError)).
Context (read_to_string : Path → State F (result string IoError)).

Definition user_command_tool (program : string) (working_dir : option string) : ExecuteCommandTool :=
  let tool := with_allow_list (with_command program AllowList_new) in
  match working_dir with Some dir => with_default_cwd dir tool | None => tool end.

Definition execute_command (template : string) (working_dir : option string)
    (timeout_ms : option N) (args : Value) : State F (result string ToolError) :=
  program <-? lift (let p := first_word template in
                    if decide (p = "") then Err (InvalidArgs "command template is empty") else Ok p) ;;
  _ <-? lift (validate_interpolated_values args) ;;
  command <-? lift (interpolate template args) ;;
  _ <-? lift (validate_command command) ;;
  r <-! timeout match timeout_ms with Some ms => ms | None => 30000%N end
          (ExecuteCommandTool_run execute (user_command_tool program working_dir)
             (Object [("command", Str command)])) ;;
  lift match r with
       | Some inner => inner
       | None => Err (Io "command exceeded timeout")
       end.

Definition UserDefinedTool_run (definition : UserToolDefinition) (args : Value) :
    State F (result string ToolError) :=
  match executor definition with
  | ToolExecutor.Command command working_dir timeout_ms =>
      execute_command command working_dir timeout_ms args
  | ToolExecutor.HttpPost url headers => post_json url (btree_to_list headers) args
  | ToolExecutor.ReadFile path => io (read_to_string (components path))
  end.

Definition UserDefinedTool (definition : UserToolDefinition) : SystemTool F :=
  {| system_tool_name := user_tool_id definition;
     system_tool_description := user_tool_description definition;
     parameters_schema := user_tool_parameters definition;
     run := UserDefinedTool_run definition |}.
End templates.
