(* ===== verification/Skills.v ===== *)
(** * Skills (brioche-shell-persistence/src/extensions/skill_provider.rs, src/skills.rs)

    The directory of skills is seen as a finite tree; reading a directory or a text may
    fail.  The lock of the list of enabled names cannot be poisoned. *)
From S2P Require Import Prelude Utf8 Types Effects Persistence GovTypes Sse Provider SystemTools.
From S2P Require Import Settings Extensions.

Record SkillDescriptor := {
  skill_name : string;
  skill_description : string;
  skill_version : string;
  skill_author : string;
  skill_license : string;
  skill_platforms : list string;
  skill_category : string;
  skill_path : string;
  skill_tags : list string;
  skill_related : list string;
  skill_content : string;
  skill_enabled : bool
}.

(** ** Texts *)

Fixpoint split_char (c : ascii) (s : string) : string * list string :=
  match s with
  | EmptyString => ("", [])
  | String a s' =>
      let '(piece, rest) := split_char c s' in
      if decide (a = c) then ("", piece :: rest) else (String a piece, rest)
  end.
Definition split_on (c : ascii) (s : string) : list string :=
  let '(piece, rest) := split_char c s in piece :: rest.

Fixpoint trim_start_char (c : ascii) (s : string) : string :=
  match s with
  | String a s' => if decide (a = c) then trim_start_char c s' else s
  | EmptyString => EmptyString
  end.
Fixpoint trim_end_char (c : ascii) (s : string) : string :=
  match s with
  | EmptyString => EmptyString
  | String a s' =>
      match trim_end_char c s' with
      | EmptyString => if decide (a = c) then EmptyString else String a EmptyString
      | t => String a t
      end
  end.
Definition trim_matches (c : ascii) (s : string) : string := trim_end_char c (trim_start_char c s).

Definition trim_start_string (s : string) : string :=
  string_of_bytes (mjoin (trim_start (chars (bytes_of_string s)))).

(** [str::lines]: a line ends with a newline, or with a carriage return and a newline. *)
Fixpoint strip_cr (s : string) : string :=
  match s with
  | EmptyString => EmptyString
  | String "013" EmptyString => EmptyString
  | String a s' => String a (strip_cr s')
  end.
Definition lines (s : string) : list string :=
  let pieces := split_on "010" s in
  (strip_cr <$> removelast pieces) ++
  match last pieces with None | Some "" => [] | Some piece => [piece] end.

(** [split_once] and [find]: what is before and behind the first match. *)
Fixpoint find_split (pat s : string) : option (string * string) :=
  if str_starts pat s then Some ("", string_of_list_ascii (drop (String.length pat) (list_ascii_of_string s)))
  else match s with
       | EmptyString => None
       | String a s' => match find_split pat s' with
                        | Some (before, behind) => Some (String a before, behind)
                        | None => None
                        end
       end.

Definition unquote (s : string) : string := trim_matches "'" (trim_matches "034" s).

(** ** Frontmatter *)

Definition split_frontmatter (content : string) : option (string * string) :=
  let trimmed := trim_start_string content in
  match str_strip_prefix "---" trimmed with
  | None => Some ("", content)
  | Some after_first =>
      match find_split "---" after_first with
      | None => None
      | Some (before, behind) => Some (trim_string before, trim_start_string behind)
      end
  end.

Definition parse_line (line : string) : option (string * string) :=
  let line := trim_string line in
  match line with
  | EmptyString | String "#" _ => None
  | _ => match find_split ":" line with
         | Some (k, v) => Some (trim_string k, unquote (trim_string v))
         | None => None
         end
  end.

Definition frontmatter_fields (frontmatter : string) : gmap string string :=
  foldl (λ m kv, <[kv.1 := kv.2]> m) ∅ (omap parse_line (lines frontmatter)).

Definition field (fields : gmap string string) (key : string) : string :=
  match fields !! key with Some v => v | None => "" end.

Definition list_field (fields : gmap string string) (key : string) : list string :=
  let raw := match fields !! key with Some v => v | None => "[]" end in
  List.filter (λ s, negb (bool_decide (s = "")))
    ((λ s, unquote (trim_string s)) <$> split_on "," (trim_matches "]" (trim_matches "[" raw))).

(** [dir]: the names from the root of the skills to the directory of the file. *)
Definition parse_skill (root : Path) (dir : list string) (content : option string) :
    option SkillDescriptor :=
  match content with
  | None => None
  | Some content =>
      match split_frontmatter content with
      | None => None
      | Some (frontmatter, body) =>
          let fields := frontmatter_fields frontmatter in
          Some {| skill_name :=
                    if decide (field fields "name" = "")
                    then match last dir with Some n => n | None => "" end
                    else field fields "name";
                  skill_description := field fields "description";
                  skill_version := field fields "version";
                  skill_author := field fields "author";
                  skill_license := field fields "license";
                  skill_platforms := list_field fields "platforms";
                  skill_category :=
                    match removelast dir with c :: _ => c | [] => "uncategorized" end;
                  skill_path := display (root ++ (Normal <$> dir));
                  skill_tags := list_field fields "tags";
                  skill_related := list_field fields "related_skills";
                  skill_content := body;
                  skill_enabled := true |}
      end
  end.

(** ** The scan *)

(** A file with its text, when it can be read; a directory with its entries. *)
Inductive Tree : Type :=
  | File (content : option string)
  | Dir (entries : list (string * Tree)).

Fixpoint tree_lookup (name : string) (entries : list (string * Tree)) : option Tree :=
  match entries with
  | [] => None
  | (n, t) :: entries => if decide (n = name) then Some t else tree_lookup name entries
  end.

(** A directory with a SKILL.md is a skill and is not searched further. *)
Fixpoint scan_tree (root : Path) (dir : list string) (t : Tree) : list SkillDescriptor :=
  match t with
  | File _ => []
  | Dir entries =>
      mjoin ((λ '(name, child),
        match child with
        | File _ => []
        | Dir inner =>
            match tree_lookup "SKILL.md" inner with
            | Some (File content) => option_list (parse_skill root (dir ++ [name]) content)
            | Some (Dir _) => []
            | None => scan_tree root (dir ++ [name]) child
            end
        end) <$> entries)
  end.

Definition compare_names (a b : SkillDescriptor) : comparison :=
  String.compare (skill_name a) (skill_name b).

Definition set_skill_enabled (b : bool) (s : SkillDescriptor) : SkillDescriptor :=
  {| skill_name := skill_name s; skill_description := skill_description s;
     skill_version := skill_version s; skill_author := skill_author s;
     skill_license := skill_license s; skill_platforms := skill_platforms s;
     skill_category := skill_category s; skill_path := skill_path s; skill_tags := skill_tags s;
     skill_related := skill_related s; skill_content := skill_content s; skill_enabled := b |}.

(** With no name on the list every skill is enabled. *)
Definition name_enabled (enabled : list string) (name : string) : bool :=
  bool_decide (enabled = []) || bool_decide (name ∈ enabled).

(** ** The registry *)

Section registry.
Context {D : Type} (home_dir config_dir : option Path) (temp_dir : Path).
(** The tree below a directory, when it exists. *)
Context (tree_at : Path → D → option Tree).
Context (create_dir_all : Path → State D (result unit IoError)).
Context (write_file : Path → string → State D (result unit IoError)).
Context (remove_dir_all : Path → State D (result unit IoError)).
Context (read_to_string : Path → State D (result string IoError)).
Context (to_json : list string → result string string).
Context (of_json : string → result (list string) string).
(** The enabled names, and the world. *)
#[local] Abbreviation M := (State (list string * D)).

Definition skills_dir : Path :=
  join (join match home_dir with Some d => d | None => temp_dir end [Normal ".hermes"])
    [Normal "skills"].

Definition load_enabled : State D (result (list string) ProviderError) :=
  load_file config_dir temp_dir read_to_string of_json "skills-enabled.json".
Definition SkillRegistry_default : State D (list string) :=
  r <-! load_enabled ;; ret match r with Ok enabled => enabled | Err _ => [] end.

Definition save_enabled : State (list string * D) (result unit ProviderError) :=
  λ '(enabled, d),
    let '(r, d) := save_file config_dir temp_dir create_dir_all write_file to_json
                     "skills-enabled.json" enabled d in
    (r, (enabled, d)).

Definition list_skills (s : list string * D) : list SkillDescriptor :=
  match tree_at skills_dir s.2 with
  | None => []
  | Some t =>
      (λ sk, set_skill_enabled (name_enabled s.1 (skill_name sk)) sk)
        <$> sort_by compare_names (scan_tree skills_dir [] t)
  end.

Definition find_skill (name : string) : M (result SkillDescriptor ProviderError) :=
  l <-! gets list_skills ;;
  ret match List.find (λ s, bool_decide (skill_name s = name)) l with
      | Some s => Ok s
      | None => Err (ProviderError.NotFound ("Skill '" +:+ name +:+ "'"))
      end.

Definition on_disk {A} (m : State D (result A IoError)) : M (result A ProviderError) :=
  λ s, let '(r, d) := provider_io m s.2 in (r, (s.1, d)).

Definition read_content (name : string) : M (result string ProviderError) :=
  skill <-? find_skill name ;;
  on_disk (read_to_string (join (components (skill_path skill)) [Normal "SKILL.md"])).

Definition read_skill_file (name file_path : string) : M (result string ProviderError) :=
  skill <-? find_skill name ;;
  on_disk (read_to_string (join (components (skill_path skill)) (components file_path))).

Definition put_enabled (enabled : list string) : M unit := λ s, (tt, (enabled, s.2)).

Definition add_name (name : string) (enabled : list string) : list string :=
  if bool_decide (name ∈ enabled) then enabled else enabled ++ [name].
Definition remove_name (name : string) (enabled : list string) : list string :=
  List.filter (λ n, negb (bool_decide (n = name))) enabled.

Definition skill_set_enabled (name : string) (enable : bool) : M (result unit ProviderError) :=
  enabled <-! gets fst ;;
  put_enabled (if enable then add_name name enabled else remove_name name enabled) ;;!
  save_enabled.

Definition newline : string := String "010" "".
Definition skill_text (name description content : string) : string :=
  "---" +:+ newline +:+ "name: " +:+ name +:+ newline +:+ "description: " +:+ description +:+ newline
  +:+ "version: 0.1.0" +:+ newline +:+ "author: user" +:+ newline +:+ "license: MIT" +:+ newline
  +:+ "tags: []" +:+ newline +:+ "---" +:+ newline +:+ newline +:+ content.

Definition create_skill (name category description content : string) : M (result unit ProviderError) :=
  if decide (name = "") then ret (Err (ProviderError.InvalidInput "Skill name cannot be empty"))
  else
    let dir := join (join skills_dir (components category)) (components name) in
    exists_ <-! gets (λ s, is_ok (match tree_at dir s.2 with Some t => Ok t | None => Err tt end)) ;;
    if (exists_ : bool) then ret (Err (ProviderError.AlreadyExists name))
    else
      _ <-? on_disk (create_dir_all dir) ;;
      _ <-? on_disk (write_file (join dir [Normal "SKILL.md"]) (skill_text name description content)) ;;
      enabled <-! gets fst ;;
      put_enabled (add_name name enabled) ;;!
      save_enabled.

Definition delete_skill (name : string) : M (result unit ProviderError) :=
  skill <-? find_skill name ;;
  _ <-? on_disk (remove_dir_all (components (skill_path skill))) ;;
  enabled <-! gets fst ;;
  put_enabled (remove_name name enabled) ;;!
  save_enabled.

Definition scan_skills : State D (list SkillDescriptor) :=
  λ d, let '(enabled, d) := SkillRegistry_default d in (list_skills (enabled, d), d).
End registry.
