(* ===== verification/UserToolsSpec.v ===== *)
(** * Correctness of the user-defined tools: templates, confinement, the registry *)
From S2P Require Import Prelude Utf8 Types Effects Persistence GovTypes Sse Provider SystemTools.
From S2P Require Import SystemToolsSpec Extensions UserTools.

(** ** The characters of any text: an ASCII byte stands alone *)

Definition is_ascii_byte (b : byte) : Prop := (Byte.to_N b < 128)%N.

Lemma byte_in_spec lo hi b : byte_in lo hi b = true ↔ (lo ≤ Byte.to_N b ≤ hi)%N.
Proof. unfold byte_in. rewrite andb_true_iff, !N.leb_le. done. Qed.

Lemma is_cont_high b : is_cont (Some b) = true → ¬ is_ascii_byte b.
Proof. unfold is_ascii_byte. cbn. intros H%byte_in_spec. lia. Qed.

Lemma second_ok_high b0 b : second_ok b0 (Some b) = true → ¬ is_ascii_byte b.
Proof.
  unfold second_ok, is_ascii_byte. repeat case_match; intros Hb; try done;
    apply byte_in_spec in Hb; lia.
Qed.

Lemma char_width_high b n : char_width b = S (S n) → ¬ is_ascii_byte b.
Proof.
  unfold char_width, is_ascii_byte. intros H Hb.
  assert (byte_in 0 127 b = true) as E by (apply byte_in_spec; lia). by rewrite E in H.
Qed.

Lemma next_seq_high b l :
  ¬ is_ascii_byte b → Forall (λ x, ¬ is_ascii_byte x) (take (next_seq b l).2 (b :: l)).
Proof.
  intros Hb.
  destruct (char_width b) as [|[|[|[|[|n]]]]] eqn:Ew; unfold next_seq; rewrite Ew;
    destruct l as [|b1 [|b2 [|b3 l]]]; cbn [lookup list_lookup];
    repeat match goal with
    | |- context [if is_cont ?o then _ else _] => let E := fresh "E" in destruct (is_cont o) eqn:E
    | |- context [if negb (is_cont ?o) then _ else _] =>
        let E := fresh "E" in destruct (is_cont o) eqn:E; cbn [negb]
    | |- context [if negb (second_ok ?b ?o) then _ else _] =>
        let E := fresh "E" in destruct (second_ok b o) eqn:E; cbn [negb]
    end; cbn in *; try discriminate; repeat constructor;
    solve [done | by eapply second_ok_high | by apply is_cont_high].
Qed.

Lemma char_ascii l c b : c ∈ chars l → b ∈ c → is_ascii_byte b → c = [b].
Proof.
  induction l as [|b0 l IH] using seq_ind; [by intros ?%elem_of_nil|].
  rewrite chars_cons. intros [->|Hc]%elem_of_cons Hb Ha; [|by apply IH].
  destruct (decide (is_ascii_byte b0)) as [H0|H0].
  - assert (next_seq b0 l = (true, 1)) as E.
    { unfold next_seq, char_width. replace (byte_in 0 127 b0) with true; [done|].
      symmetry. apply byte_in_spec. unfold is_ascii_byte in H0. lia. }
    rewrite E in *. cbn in *. by apply list_elem_of_singleton in Hb as ->.
  - pose proof (next_seq_high b0 l H0) as Hf. rewrite Forall_forall in Hf. by apply Hf in Hb.
Qed.

Lemma chars_join l : mjoin (chars l) = l.
Proof.
  induction l as [|b l IH] using seq_ind; [done|]. rewrite chars_cons.
  change (take (next_seq b l).2 (b :: l) ++ mjoin (chars (drop (next_seq b l).2 (b :: l))) = b :: l).
  rewrite IH. apply take_drop.
Qed.

(** ** Texts without a brace *)

Fixpoint lacks (a : ascii) (s : string) : Prop :=
  match s with EmptyString => True | String b s => b ≠ a ∧ lacks a s end.

Lemma lacks_app a s t : lacks a (s +:+ t) ↔ lacks a s ∧ lacks a t.
Proof.
  induction s as [|b s IH]; [cbn; tauto|].
  change (b ≠ a ∧ lacks a (s +:+ t) ↔ (b ≠ a ∧ lacks a s) ∧ lacks a t). rewrite IH. tauto.
Qed.

Lemma lacks_bytes a l : lacks a (string_of_bytes l) ↔ byte_of_ascii a ∉ l.
Proof.
  induction l as [|b l IH]; cbn; [by split; [intros _ ?%elem_of_nil|]|].
  rewrite not_elem_of_cons, IH. split; intros [H1 H2]; split; try done; intros E; apply H1.
  - by rewrite <- E, ascii_of_byte_of_ascii.
  - by rewrite <- E, byte_of_ascii_of_byte.
Qed.

Definition no_braces (s : string) : Prop := lacks "{" s ∧ lacks "}" s.

Lemma no_braces_app s t : no_braces (s +:+ t) ↔ no_braces s ∧ no_braces t.
Proof. unfold no_braces. rewrite !lacks_app. tauto. Qed.

(** A text that passes a check for metacharacters has none of them. *)
Lemma no_metacharacter l a :
  List.find is_metacharacter (chars l) = None → a ∈ METACHARACTERS → is_ascii_byte (byte_of_ascii a) →
  byte_of_ascii a ∉ l.
Proof.
  intros Hf Ha Hb Hin. rewrite <- chars_join in Hin.
  apply list_elem_of_join in Hin as (c & Hin & Hc).
  pose proof (char_ascii _ _ _ Hc Hin Hb) as ->.
  pose proof (List.find_none _ _ Hf _ (proj1 (list_elem_of_In _ _) Hc)) as H.
  unfold is_metacharacter in H. rewrite <- not_true_iff_false in H. apply H.
  apply List.existsb_exists. exists a. split; [by apply list_elem_of_In|].
  unfold char_is. by apply bool_decide_eq_true.
Qed.

Lemma checked_no_braces s :
  List.find is_metacharacter (chars (bytes_of_string s)) = None → no_braces s.
Proof.
  intros H. unfold no_braces. rewrite <- (string_of_bytes_of_string s), !lacks_bytes.
  split; apply no_metacharacter; try done; try (vm_compute; done); set_solver.
Qed.

(** ** Templates as pieces *)

Inductive piece : Type :=
  | Lit (s : string)
  | Hole (key : string).

Definition piece_text (p : piece) : string :=
  match p with Lit s => s | Hole k => placeholder k end.
Definition text_of (ps : list piece) : string := foldr (λ p s, piece_text p +:+ s) "" ps.
Definition piece_ok (p : piece) : Prop := match p with Lit s => no_braces s | Hole k => no_braces k end.

Definition fill (env : string → option string) (p : piece) : piece :=
  match p with
  | Lit s => Lit s
  | Hole k => match env k with Some v => Lit v | None => Hole k end
  end.

(** One pass over a text: what stands between braces is looked up, and what is put there
    is not looked at again. *)
Fixpoint substitute (env : string → option string) (opened : option string) (s : string) : string :=
  match s, opened with
  | EmptyString, None => EmptyString
  | EmptyString, Some k => "{" +:+ k
  | String a s, None =>
      if decide (a = "{"%char) then substitute env (Some "") s else String a (substitute env None s)
  | String a s, Some k =>
      if decide (a = "}"%char) then
        match env k with Some v => v | None => placeholder k end +:+ substitute env None s
      else substitute env (Some (k +:+ String a "")) s
  end.

Lemma substitute_lit env s t :
  lacks "{" s → substitute env None (s +:+ t) = s +:+ substitute env None t.
Proof.
  induction s as [|a s IH]; [done|]. intros [Ha Hs].
  change (substitute env None (String a (s +:+ t)) = String a (s +:+ substitute env None t)).
  cbn [substitute]. rewrite decide_False by done. by rewrite IH.
Qed.

Lemma substitute_key env k k' t :
  lacks "}" k' →
  substitute env (Some k) (k' +:+ String "}" t) =
    match env (k +:+ k') with Some v => v | None => placeholder (k +:+ k') end
    +:+ substitute env None t.
Proof.
  revert k. induction k' as [|a k' IH]; intros k.
  - intros _. by rewrite string_app_nil_r.
  - intros [Ha Hk].
    change (substitute env (Some k) (String a (k' +:+ String "}" t)) =
      match env (k +:+ String a k') with Some v => v | None => placeholder (k +:+ String a k') end
      +:+ substitute env None t).
    cbn [substitute]. rewrite decide_False, IH by done.
    by rewrite <- string_app_assoc.
Qed.

Lemma placeholder_app k t : placeholder k +:+ t = String "{" (k +:+ String "}" t).
Proof. unfold placeholder. change (String "{" ((k +:+ "}") +:+ t) = String "{" (k +:+ String "}" t)).
  by rewrite <- string_app_assoc. Qed.

Lemma substitute_text env ps :
  Forall piece_ok ps → substitute env None (text_of ps) = text_of (fill env <$> ps).
Proof.
  induction 1 as [|[s|k] ps [H1 H2] _ IH]; [done| |]; cbn [text_of foldr fmap list_fmap piece_text fill].
  - rewrite substitute_lit by done. f_equal. exact IH.
  - rewrite placeholder_app. cbn [substitute]. rewrite decide_True by done.
    rewrite substitute_key by done. change ("" +:+ k) with k.
    destruct (env k); f_equal; exact IH.
Qed.

(** ** Replacing a placeholder *)

Lemma replace_lit k v s t :
  lacks "{" s → replace_go 0 (placeholder k) v (s +:+ t) = s +:+ replace_go 0 (placeholder k) v t.
Proof.
  induction s as [|a s IH]; [done|]. intros [Ha Hs].
  change (replace_go 0 (placeholder k) v (String a (s +:+ t)) =
    String a (s +:+ replace_go 0 (placeholder k) v t)).
  rewrite <- IH by done. unfold placeholder. cbn [replace_go].
  change (str_starts ("{" +:+ k +:+ "}") (String a (s +:+ t)))
    with (bool_decide ("{"%char = a) && str_starts (k +:+ "}") (s +:+ t)).
  by rewrite bool_decide_false by congruence.
Qed.

Lemma replace_skip pat v s t : replace_go (String.length s) pat v (s +:+ t) = replace_go 0 pat v t.
Proof. induction s as [|a s IH]; [done|]. exact IH. Qed.

Lemma str_starts_key k k' t :
  lacks "}" k → lacks "}" k' →
  str_starts (k +:+ "}") (k' +:+ String "}" t) = bool_decide (k' = k).
Proof.
  revert k'. induction k as [|a k IH]; intros [|b k'] Hk Hk'.
  - done.
  - change (bool_decide ("}"%char = b) && str_starts "" (k' +:+ String "}" t) = bool_decide (String b k' = "")).
    destruct Hk' as [Hb _]. by rewrite !bool_decide_false by congruence.
  - change (bool_decide (a = "}"%char) && str_starts (k +:+ "}") t = bool_decide ("" = String a k)).
    destruct Hk as [Ha _]. by rewrite !bool_decide_false by congruence.
  - destruct Hk as [Ha Hk], Hk' as [Hb Hk'].
    change (bool_decide (a = b) && str_starts (k +:+ "}") (k' +:+ String "}" t)
      = bool_decide (String b k' = String a k)).
    rewrite IH by done. rewrite <- bool_decide_and. apply bool_decide_ext. split.
    + by intros [-> ->].
    + by intros [= -> ->].
Qed.

Lemma string_length_app s t : String.length (s +:+ t) = String.length s + String.length t.
Proof. induction s as [|a s IH]; [done|]. change (S (String.length (s +:+ t)) = S (String.length s + String.length t)). by rewrite IH. Qed.

Lemma replace_hole k v k' t :
  no_braces k → no_braces k' →
  str_replace (placeholder k) v (placeholder k' +:+ t) =
    (if decide (k' = k) then v else placeholder k') +:+ str_replace (placeholder k) v t.
Proof.
  intros [_ Hk] [Hk1 Hk2]. rewrite placeholder_app. unfold str_replace. cbn [replace_go].
  change (str_starts (placeholder k) (String "{" (k' +:+ String "}" t)))
    with (str_starts (k +:+ "}") (k' +:+ String "}" t)).
  rewrite str_starts_key by done. case_bool_decide as E.
  - subst k'. rewrite decide_True by done. f_equal.
    assert (String.length (placeholder k) - 1 = String.length (k +:+ "}")) as ->.
    { change (String.length (placeholder k)) with (S (String.length (k +:+ "}"))). lia. }
    assert (k +:+ String "}" t = (k +:+ "}") +:+ t) as -> by (by rewrite <- string_app_assoc).
    apply replace_skip.
  - rewrite decide_False by done. rewrite placeholder_app. f_equal.
    assert (k' +:+ String "}" t = (k' +:+ "}") +:+ t) as -> by (by rewrite <- string_app_assoc).
    rewrite replace_lit by (rewrite lacks_app; by repeat split).
    by rewrite <- string_app_assoc.
Qed.

Definition only (k v : string) : string → option string := λ k', if decide (k' = k) then Some v else None.

Lemma replace_text k v ps :
  no_braces k → Forall piece_ok ps →
  str_replace (placeholder k) v (text_of ps) = text_of (fill (only k v) <$> ps).
Proof.
  intros Hk. induction 1 as [|[s|k'] ps H _ IH]; [done| |]; cbn [text_of foldr fmap list_fmap piece_text fill].
  - unfold str_replace. rewrite replace_lit by apply H. f_equal. exact IH.
  - rewrite replace_hole by done. unfold only. destruct (decide (k' = k)); f_equal; exact IH.
Qed.

Lemma fill_ok env ps :
  (∀ k v, env k = Some v → no_braces v) → Forall piece_ok ps → Forall piece_ok (fill env <$> ps).
Proof.
  intros He. induction 1 as [|[s|k] ps H _ IH]; constructor; try done. cbn.
  destruct (env k) eqn:E; [by eapply He|done].
Qed.

(** ** Keys and templates that pass the checks *)

Lemma valid_key_no_braces k : validate_placeholder_key k = Ok tt → no_braces k.
Proof.
  unfold validate_placeholder_key. case_decide; [done|].
  destruct (forallb is_key_char (chars (bytes_of_string k))) eqn:E; [|done]. intros _.
  assert (∀ a, is_key_char [byte_of_ascii a] = false → is_ascii_byte (byte_of_ascii a) →
    byte_of_ascii a ∉ bytes_of_string k) as Hno.
  { intros a Ha Hb Hin. rewrite <- (chars_join (bytes_of_string k)) in Hin.
    apply list_elem_of_join in Hin as (c & Hin & Hc).
    pose proof (char_ascii _ _ _ Hc Hin Hb) as ->. rewrite List.forallb_forall in E.
    rewrite E in Ha; [done|]. by apply list_elem_of_In. }
  unfold no_braces. rewrite <- (string_of_bytes_of_string k), !lacks_bytes.
  split; apply Hno; by vm_compute.
Qed.

Definition chars_text (cs : list bytes) : string := string_of_bytes (mjoin cs).

Lemma chars_text_cons c cs : chars_text (c :: cs) = char_text c +:+ chars_text cs.
Proof. unfold chars_text. cbn. by rewrite string_of_bytes_app. Qed.

(** The characters of some text. *)
Definition ascii_alone (c : bytes) : Prop := ∀ b, b ∈ c → is_ascii_byte b → c = [b].

Lemma chars_ascii_alone l : Forall ascii_alone (chars l).
Proof. apply Forall_forall. intros c Hc b. by apply (char_ascii l). Qed.

Lemma alone_no_braces c :
  ascii_alone c → char_is "{" c = false → char_is "}" c = false → no_braces (char_text c).
Proof.
  unfold char_is. rewrite !bool_decide_eq_false. intros Hc H1 H2. unfold no_braces, char_text.
  rewrite !lacks_bytes. split; intros Hin.
  - apply H1, (Hc _ Hin). by vm_compute.
  - apply H2, (Hc _ Hin). by vm_compute.
Qed.

Lemma text_of_lit s ps : text_of (Lit s :: ps) = s +:+ text_of ps.
Proof. done. Qed.

Lemma template_pieces i cs opened :
  template_loop i cs opened = Ok tt → Forall ascii_alone cs →
  match opened with
  | None => ∃ ps, Forall piece_ok ps ∧ chars_text cs = text_of ps
  | Some (_, k) => ∃ k' ps, validate_placeholder_key (k +:+ k') = Ok tt ∧ Forall piece_ok ps ∧
      chars_text cs = k' +:+ String "}" (text_of ps)
  end.
Proof.
  revert i opened. induction cs as [|c cs IH]; intros i [[start k]|]; cbn [template_loop]; try done.
  - intros _ _. by exists [].
  - intros H [Hc Hcs]%Forall_cons. rewrite chars_text_cons.
    destruct (char_is "}" c) eqn:E1; [|destruct (char_is "{" c) eqn:E2; [done|]].
    + destruct (validate_placeholder_key k) as [[]|] eqn:Ek; [|done]. cbn [result_bind] in H.
      destruct (IH _ _ H Hcs) as (ps & Hps & ->). exists "", ps.
      rewrite string_app_nil_r. split_and!; [done|done|].
      unfold char_is in E1. apply bool_decide_eq_true in E1 as ->. reflexivity.
    + destruct (IH _ _ H Hcs) as (k' & ps & Hk & Hps & ->). exists (char_text c +:+ k'), ps.
      rewrite string_app_assoc. split_and!; [done|done|]. by rewrite string_app_assoc.
  - intros H [Hc Hcs]%Forall_cons. rewrite chars_text_cons.
    destruct (char_is "{" c) eqn:E1; [|destruct (char_is "}" c) eqn:E2; [done|]].
    + destruct (IH _ _ H Hcs) as (k & ps & Hk & Hps & ->). change ("" +:+ k) with k in Hk.
      exists (Hole k :: ps). split; [constructor; [by apply valid_key_no_braces|done]|].
      change (text_of (Hole k :: ps)) with (placeholder k +:+ text_of ps). rewrite placeholder_app.
      unfold char_is in E1. apply bool_decide_eq_true in E1 as ->. reflexivity.
    + destruct (IH _ _ H Hcs) as (ps & Hps & ->).
      exists (Lit (char_text c) :: ps). split; [|done].
      constructor; [by apply alone_no_braces|done].
Qed.

Lemma valid_template_pieces template :
  validate_template_placeholders template = Ok tt →
  ∃ ps, Forall piece_ok ps ∧ template = text_of ps.
Proof.
  intros H. destruct (template_pieces _ _ _ H (chars_ascii_alone _)) as (ps & Hps & Ht).
  exists ps. split; [done|]. rewrite <- Ht. unfold chars_text.
  by rewrite chars_join, string_of_bytes_of_string.
Qed.

(** ** Interpolation *)

Section interpolation.
Context (json_text : Value → string).

Definition value_of (map : list (string * Value)) (k : string) : option string :=
  rendered json_text <$> object_get k map.

Fixpoint validate_keys (map : list (string * Value)) : result unit ToolError :=
  match map with
  | [] => Ok tt
  | (k, _) :: map => result_bind (validate_placeholder_key k) (λ _, validate_keys map)
  end.

Lemma fill_cons k v map (ps : list piece) :
  fill (value_of map) <$> (fill (only k (rendered json_text v)) <$> ps) =
  fill (value_of ((k, v) :: map)) <$> ps.
Proof using Type.
  rewrite <- list_fmap_compose. apply list_fmap_ext. intros _ [s|k'] _; [done|].
  cbn. unfold only, value_of. cbn [object_get].
  destruct (decide (k' = k)) as [->|E]; [by rewrite decide_True|]. by rewrite decide_False.
Qed.

Lemma validate_entries_cons k v map :
  validate_entries json_text ((k, v) :: map) = Ok tt →
  no_braces (rendered json_text v) ∧ validate_entries json_text map = Ok tt.
Proof using Type.
  cbn. unfold validate_value_no_shell_metacharacters.
  destruct (List.find _ _) eqn:E; [done|]. cbn. intros H. split; [|done]. by apply checked_no_braces.
Qed.

Lemma interpolate_pieces map ps :
  Forall piece_ok ps → validate_entries json_text map = Ok tt →
  interpolate_entries json_text map (text_of ps) =
    result_bind (validate_keys map) (λ _, Ok (text_of (fill (value_of map) <$> ps))).
Proof using Type.
  revert ps. induction map as [|[k v] map IH]; intros ps Hps Hv.
  - cbn. f_equal. f_equal. symmetry. rewrite <- (list_fmap_id ps) at 2. apply list_fmap_ext.
    by intros _ [s|k] _.
  - apply validate_entries_cons in Hv as [Hb Hv]. cbn [interpolate_entries validate_keys].
    destruct (validate_placeholder_key k) as [[]|e] eqn:Ek; [|done]. cbn [result_bind].
    apply valid_key_no_braces in Ek. rewrite replace_text by done.
    rewrite IH, fill_cons; [done| |done]. apply fill_ok; [|done].
    intros k' v'. unfold only. case_decide; [|done]. by intros [= <-].
Qed.

(** Interpolation is a simultaneous substitution.  When the argument values have no shell
    metacharacter, replacing the placeholders one key after the other, as the code does,
    gives what a single pass over the template gives that looks every placeholder up once;
    so the result does not depend on the order of the keys, and nothing inside a value
    is taken for a placeholder.  A bad template or a bad key is an error. *)
Theorem interpolation_simultaneous template map
    (Hv : validate_interpolated_values json_text (Object map) = Ok tt) :
  interpolate json_text template (Object map) =
    result_bind (validate_template_placeholders template) (λ _,
      result_bind (validate_keys map) (λ _, Ok (substitute (value_of map) None template))).
Proof using Type.
  unfold interpolate. destruct (validate_template_placeholders template) as [[]|e] eqn:E; [|done].
  cbn [result_bind]. destruct (valid_template_pieces _ E) as (ps & Hps & ->).
  rewrite interpolate_pieces by done. by rewrite substitute_text.
Qed.
End interpolation.

Lemma interpolation_simultaneous_witness :
  interpolate (λ _, "") "cp {a} {b}" (Object [("a", Str "x"); ("b", Str "a")]) = Ok "cp x a".
Proof.
  rewrite (interpolation_simultaneous (λ _, "") "cp {a} {b}" [("a", Str "x"); ("b", Str "a")]).
  - vm_compute. reflexivity.
  - vm_compute. reflexivity.
Defined.

(** ** What a command tool may run *)

(** The words of a command are made of its characters. *)
Lemma split_loop_chars a cs argv current sq dq tok words :
  split_loop cs argv current sq dq tok = Ok words →
  Forall (λ c, lacks a (char_text c)) cs → Forall (lacks a) argv → lacks a current →
  Forall (lacks a) words.
Proof.
  revert cs argv current sq dq tok. enough (∀ n cs argv current sq dq tok, length cs ≤ n →
    split_loop cs argv current sq dq tok = Ok words → Forall (λ c, lacks a (char_text c)) cs →
    Forall (lacks a) argv → lacks a current → Forall (lacks a) words) as H.
  { intros cs argv current sq dq tok. by apply (H (length cs)). }
  induction n as [|n IH]; intros [|c cs] argv current sq dq tok Hn H Hcs Ha Hc; cbn in Hn; try lia;
    try (apply Forall_cons in Hcs as [Hc0 Hcs]); cbn [split_loop] in H.
  1, 2: destruct (sq || dq); [done|]; destruct tok; cbn in H;
    [destruct (argv ++ [current]) eqn:E; [done|]; injection H as <-; rewrite <- E;
       by apply Forall_app; split; [|apply Forall_singleton]
    |destruct argv; [done|]; by injection H as <-].
  assert (∀ w, lacks a w → lacks a (current +:+ w)) as Happ by (intros w Hw; by apply lacks_app).
  destruct (char_is "'" c && negb dq); [by eapply IH in H; [|lia|..]|].
  destruct (char_is "034" c && negb sq); [by eapply IH in H; [|lia|..]|].
  destruct (char_is "\" c && negb sq).
  { destruct cs as [|next cs]; [done|]. apply Forall_cons in Hcs as [Hn0 Hcs]. cbn in Hn.
    eapply IH in H; [done|lia|done|done|by apply Happ]. }
  destruct (is_whitespace c && negb sq && negb dq).
  - destruct tok; [|by eapply IH in H; [|lia|..]].
    eapply IH in H; [done|lia|done| |done]. apply Forall_app. split; [done|by apply Forall_singleton].
  - eapply IH in H; [done|lia|done|done|by apply Happ].
Qed.

(** A command without metacharacter has words without any. *)
Lemma command_words a command words :
  a ∈ METACHARACTERS → is_ascii_byte (byte_of_ascii a) →
  validate_no_shell_metacharacters command = Ok tt → split_command command = Ok words →
  Forall (lacks a) words.
Proof.
  unfold validate_no_shell_metacharacters. intros Hm Hb Hv Hs.
  destruct (List.find _ _) eqn:Ef; [done|]. eapply split_loop_chars; [exact Hs| |done|done].
  apply Forall_forall. intros c Hc. unfold char_text. apply lacks_bytes. intros Hin.
  apply (no_metacharacter _ _ Ef Hm Hb). rewrite <- (chars_join (bytes_of_string command)).
  apply list_elem_of_join. eauto.
Qed.

Section command.
Context {F : Type} (json_text : Value → string).
Context (execute : string → list string → option string → State F ProcessEnd).
Context (timeout : N → State F (result string ToolError) → State F (option (result string ToolError))).

(** What a template lets run: a program whose first word is that of the template, with the
    arguments, in the directory of the template, all free of metacharacters. *)
Definition runs_as (template : string) (working_dir : option string)
    (program : string) (arguments : list string) (cwd : option string) : Prop :=
  first_word program = first_word template ∧ cwd = working_dir ∧
  ∀ a, a ∈ METACHARACTERS → Forall (lacks a) (program :: arguments).

Lemma metacharacters_ascii a : a ∈ METACHARACTERS → is_ascii_byte (byte_of_ascii a).
Proof using Type.
  revert a. apply Forall_forall. repeat constructor.
Qed.

(** C31: a user tool runs the program of its template and no other.  Whatever arguments the
    model supplies, a command tool only starts a process whose program has the first word
    of the template itself, in the directory of its definition, and no word of the
    command has a shell metacharacter; so no argument changes the program or chains a
    second command.  Every relation that such processes respect, and that a time limit
    cannot break, holds across the call. *)
Theorem user_command_fixed (R : relation F) template working_dir timeout_ms args
    (Hrefl : Reflexive R) (Htrans : Transitive R)
    (Htimeout : ∀ ms m, respects R m → respects R (timeout ms m))
    (Hexecute : ∀ program arguments cwd, runs_as template working_dir program arguments cwd →
      respects R (execute program arguments cwd)) :
  respects R (execute_command json_text execute timeout template working_dir timeout_ms args).
Proof using Type.
  assert (∀ A (r : result A ToolError), respects R (lift r)) as Hlift by (intros A r st; apply Hrefl).
  unfold execute_command. intros f. unfold bind_ok at 1, bind at 1, lift at 1, ret at 1. cbn [fst snd].
  destruct (decide (first_word template = "")); [apply Hrefl|].
  revert f. apply (respects_bind_ok R); [exact (Hlift _ _)|]. intros _.
  apply (respects_bind_ok R); [exact (Hlift _ _)|]. intros command.
  apply (respects_bind_ok R); [exact (Hlift _ _)|]. intros _.
  apply (respects_bind R); [|intros r; exact (Hlift _ _)].
  apply Htimeout. unfold ExecuteCommandTool_run. intros f.
  unfold bind_ok, bind, lift, ret. cbn [fst snd].
  change (string_arg "command" (Object [("command", Str command)])) with (Ok (E := ToolError) command).
  change (str_field "cwd" (Object [("command", Str command)])) with (@None string).
  cbn [fst snd]. destruct (validate_no_shell_metacharacters command) as [[]|e] eqn:Em; [|apply Hrefl].
  destruct (split_command command) as [[|program rest]|e] eqn:Es; [apply Hrefl| |apply Hrefl].
  destruct (check_policy _ command program) as [[]|e] eqn:Ep; [|apply Hrefl].
  apply Hexecute. split_and!.
  - apply check_policy_ok in Ep. unfold permitted, user_command_tool in Ep.
    unfold with_command, AllowList_new in Ep.
    destruct working_dir; cbn in Ep; destruct Ep as [Ep|(h & ? & _)]; try done;
      by apply elem_of_union in Ep as [Ep%elem_of_singleton|Ep%elem_of_empty].
  - unfold user_command_tool. by destruct working_dir.
  - intros a Ha. eapply command_words; eauto using metacharacters_ascii.
Qed.
End command.

(** The programs that were started. *)
Definition started_only (word : string) (l l' : list string) : Prop :=
  ∀ p, p ∈ l' → p ∈ l ∨ first_word p = word.

Lemma user_command_fixed_witness :
  started_only "echo" [] (execute_command (λ _, "")
    (λ program _ _ l, (Exited [] [] (Some 0%Z), program :: l))
    (λ _ m l, let '(r, l) := m l in (Some r, l)) "echo {message}" None None
    (Object [("message", Str "hello")]) []).2.
Proof.
  apply (user_command_fixed (λ _, "") (λ program _ _ l, (Exited [] [] (Some 0%Z), program :: l))
    (λ _ m l, let '(r, l) := m l in (Some r, l)) (started_only "echo")
    "echo {message}" None None (Object [("message", Str "hello")])).
  - intros l p. by left.
  - intros l1 l2 l3 H1 H2 p Hp. destruct (H2 p Hp) as [H|H]; [by apply H1|by right].
  - intros ms m Hm l. specialize (Hm l). by destruct (m l).
  - intros program rest cwd (Hp & _) l p. cbn. intros [->|H]%elem_of_cons; [|by left].
    right. rewrite Hp. vm_compute. reflexivity.
Defined.

(** The metacharacters are refused, but not the quotes: one argument of a template can become
    several arguments of its program. *)
Example argument_splits :
  interpolate (λ _, "") "grep {pattern} notes.txt" (Object [("pattern", Str "-r x /etc")]) =
    Ok "grep -r x /etc notes.txt" ∧
  split_command "grep -r x /etc notes.txt" = Ok ["grep"; "-r"; "x"; "/etc"; "notes.txt"].
Proof. vm_compute. done. Qed.

(** ** The registry *)

Definition user_ids (r : ToolRegistry) : list string := user_tool_id <$> user_tools r.
Definition descriptor_with (b : bool) (t : ToolDescriptor) : ToolDescriptor :=
  {| descriptor_id := descriptor_id t; descriptor_name := descriptor_name t;
     descriptor_description := descriptor_description t;
     descriptor_parameters := descriptor_parameters t; descriptor_category := descriptor_category t;
     descriptor_tags := descriptor_tags t; enabled := b; descriptor_source := descriptor_source t |}.

(** What is listed, before the flags. *)
Definition listed (r : ToolRegistry) : list ToolDescriptor :=
  built_in_tools ++ ((λ u, from_user_definition u true) <$> user_tools r).

Lemma tools_listed r :
  tools r = (λ t, descriptor_with (negb (is_disabled (descriptor_id t) r)) t) <$> listed r.
Proof.
  unfold tools, listed. rewrite !fmap_app. f_equal.
  - apply list_fmap_ext. intros i t Ht%list_elem_of_lookup_2. unfold disable_listed.
    assert (enabled t = true) as He.
    { revert Ht. revert t. apply Forall_forall. repeat constructor. }
    destruct (is_disabled (descriptor_id t) r); [done|]. destruct t. cbn in *. by subst.
  - rewrite <- !list_fmap_compose. apply list_fmap_ext. intros _ u _. cbn. unfold disable_listed. cbn.
    by destruct (is_disabled (user_tool_id u) r).
Qed.

Lemma elem_of_retain id x l : x ∈ retain_ne id l ↔ x ∈ l ∧ x ≠ id.
Proof.
  unfold retain_ne. rewrite !list_elem_of_In, List.filter_In, negb_true_iff, bool_decide_eq_false. done.
Qed.

Lemma user_ids_named id r : existsb (tool_named id) (user_tools r) = bool_decide (id ∈ user_ids r).
Proof.
  unfold user_ids. induction (user_tools r) as [|u l IH]; [done|]. cbn. rewrite IH. unfold tool_named.
  rewrite <- bool_decide_or. apply bool_decide_ext. rewrite elem_of_cons. by split; intros [?|?]; auto.
Qed.

Lemma kept_tools_ids id l :
  user_tool_id <$> List.filter (λ u, negb (tool_named id u)) l = retain_ne id (user_tool_id <$> l).
Proof.
  unfold retain_ne. induction l as [|u l IH]; [done|]. cbn. unfold tool_named at 1.
  repeat (case_bool_decide; cbn); congruence.
Qed.

Lemma kept_tools_absent id l :
  id ∉ user_tool_id <$> l → List.filter (λ u, negb (tool_named id u)) l = l.
Proof.
  induction l as [|u l IH]; [done|]. cbn. rewrite not_elem_of_cons. intros [H1 H2].
  unfold tool_named at 1. rewrite bool_decide_false by congruence. cbn. by rewrite IH.
Qed.

Lemma kept_tools_present id l :
  id ∈ user_tool_id <$> l → length (List.filter (λ u, negb (tool_named id u)) l) < length l.
Proof.
  induction l as [|u l IH]; [by intros ?%elem_of_nil|]. cbn. unfold tool_named at 1.
  pose proof (List.filter_length_le (λ u, negb (tool_named id u)) l).
  case_bool_decide as E; cbn; [lia|]. intros [->|Hin]%elem_of_cons; [done|]. specialize (IH Hin). lia.
Qed.

Lemma NoDup_retain id l : NoDup l → NoDup (retain_ne id l).
Proof. intros H. by apply NoDup_ListNoDup, List.NoDup_filter, NoDup_ListNoDup. Qed.

Lemma is_disabled_toggle id enable r x :
  bool_decide (x ∈ (if enable : bool then retain_ne id (disabled r)
                    else if is_disabled id r then disabled r else disabled r ++ [id])) =
  if decide (x = id) then negb enable else is_disabled x r.
Proof.
  unfold is_disabled. destruct enable; cbn [negb].
  - case_decide as E; [apply bool_decide_eq_false|apply bool_decide_ext];
      rewrite elem_of_retain; tauto.
  - destruct (decide (id ∈ disabled r)) as [Hin|Hin];
      [rewrite (bool_decide_true (id ∈ disabled r)) by done
      |rewrite (bool_decide_false (id ∈ disabled r)) by done];
      case_decide as E; try subst x;
      [by apply bool_decide_eq_true|done|apply bool_decide_eq_true|apply bool_decide_ext];
      rewrite elem_of_app, list_elem_of_singleton; tauto.
Qed.

Lemma listed_user_tools r l :
  List.filter (λ t, enabled t && bool_decide (descriptor_source t = ToolSource.UserJson))
    (disable_listed r <$>
       ((λ u, from_user_definition u (negb (is_disabled (user_tool_id u) r))) <$> l)) =
  (λ u, from_user_definition u true) <$>
    List.filter (λ u, negb (is_disabled (user_tool_id u) r)) l.
Proof.
  induction l as [|u l IH]; [done|]. rewrite !fmap_cons. cbn [List.filter]. rewrite IH.
  unfold disable_listed. cbn. by destruct (is_disabled (user_tool_id u) r).
Qed.

Section registry.
Context {D : Type} (config_dir : option Path) (temp_dir : Path).
Context (create_dir_all : Path → State D (result unit IoError)).
Context (write_file : Path → string → State D (result unit IoError)).
Context (to_json : ToolRegistry → result string string).
#[local] Abbreviation save :=
  (registry_save config_dir temp_dir create_dir_all write_file to_json).
#[local] Abbreviation set_enabled' :=
  (set_enabled config_dir temp_dir create_dir_all write_file to_json).
#[local] Abbreviation add' := (add_user_tool config_dir temp_dir create_dir_all write_file to_json).
#[local] Abbreviation remove' :=
  (remove_user_tool config_dir temp_dir create_dir_all write_file to_json).

(** What the registry operations do to the list of tools.  Every operation refuses and
    changes nothing, or changes the registry and saves it.  Enabling or disabling sets the
    flag of the tools of that identifier and no other; adding needs a new identifier and
    appends the tool; removing needs a user tool and deletes it; identifiers of user tools
    stay unique.  The tools the shell is given are the listed user tools that are enabled. *)
Theorem tool_registry_operations (r : ToolRegistry) (d : D) (Hids : NoDup (user_ids r)) :
  (∀ id enable, ∃ r', set_enabled' id enable (r, d) = save (r', d) ∧ NoDup (user_ids r') ∧
     tools r' = ((λ t, if decide (descriptor_id t = id) then descriptor_with enable t else t)
                   <$> tools r)) ∧
  (∀ u, if decide (user_tool_id u ∈ user_ids r)
        then add' u (r, d) = (Err (ProviderError.AlreadyExists (user_tool_id u)), (r, d))
        else ∃ r', add' u (r, d) = save (r', d) ∧ NoDup (user_ids r') ∧
          tools r' = tools r ++ [from_user_definition u (negb (is_disabled (user_tool_id u) r))]) ∧
  (∀ id, if decide (id ∈ user_ids r)
         then ∃ r', remove' id (r, d) = save (r', d) ∧ NoDup (user_ids r') ∧
           (id ∉ user_ids r') ∧ is_disabled id r' = false ∧
           user_tools r' = List.filter (λ u, negb (tool_named id u)) (user_tools r) ∧
           ∀ x, x ≠ id → is_disabled x r' = is_disabled x r
         else remove' id (r, d) = (Err (ProviderError.NotFound ("Tool '" +:+ id +:+ "'")), (r, d))) ∧
  ((λ u, from_user_definition u true) <$> enabled_user_tools r =
   List.filter (λ t, enabled t && bool_decide (descriptor_source t = ToolSource.UserJson)) (tools r)).
Proof using Type.
  split_and!.
  - intros id enable. eexists. split; [reflexivity|]. split; [done|].
    rewrite !tools_listed, <- list_fmap_compose. apply list_fmap_ext. intros _ t _. cbn.
    unfold is_disabled at 1. cbn. rewrite is_disabled_toggle.
    case_decide; cbn; [by rewrite negb_involutive|done].
  - intros u. unfold add_user_tool, bind, gets, set_registry. cbn [fst snd].
    rewrite user_ids_named. case_decide as E; [by rewrite bool_decide_true|].
    rewrite bool_decide_false by done. eexists. split; [reflexivity|]. split.
    + unfold user_ids in *. cbn. rewrite fmap_app. cbn.
      apply NoDup_app. split_and!; [done| |apply NoDup_singleton].
      by intros x Hx ->%list_elem_of_singleton.
    + rewrite !tools_listed. unfold listed. cbn [user_tools]. by rewrite !fmap_app, <- app_assoc.
  - intros id. unfold remove_user_tool, bind, gets, set_registry. cbn [fst snd].
    case_decide as E.
    + pose proof (kept_tools_present _ _ E) as Hlt. rewrite decide_False by lia.
      eexists. split; [reflexivity|]. unfold user_ids, is_disabled in *. cbn.
      rewrite kept_tools_ids. split_and!.
      * by apply NoDup_retain.
      * rewrite elem_of_retain. tauto.
      * apply bool_decide_eq_false. rewrite elem_of_retain. tauto.
      * done.
      * intros x Hx. apply bool_decide_ext. rewrite elem_of_retain. tauto.
    + rewrite kept_tools_absent by done. by rewrite decide_True.
  - unfold tools. rewrite fmap_app, List.filter_app.
    rewrite (List.filter_ext_in _ (λ _, false) (disable_listed r <$> built_in_tools)),
      List.filter_false; cbn [app].
    + symmetry. apply listed_user_tools.
    + intros t Ht. apply list_elem_of_In, list_elem_of_fmap in Ht as (t' & -> & Ht').
      apply andb_false_intro2. apply bool_decide_eq_false. unfold disable_listed.
      assert (descriptor_source t' = ToolSource.BuiltIn) as Hs.
      { revert Ht'. revert t'. apply Forall_forall. repeat constructor. }
      case_match; cbn; by rewrite Hs.
Qed.
End registry.

Definition mine (id : string) : UserToolDefinition :=
  {| user_tool_id := id; user_tool_name := id; user_tool_description := "";
     user_tool_parameters := Null; user_tool_category := ""; user_tool_tags := [];
     executor := ToolExecutor.ReadFile "notes.txt" |}.

Lemma tool_registry_operations_witness :
  let r := {| user_tools := [mine "notes"]; disabled := [] |} in
  add_user_tool None [RootDir] (λ _ d, (Ok tt, d)) (λ _ _ d, (Ok tt, d)) (λ _, Ok "{}")
    (mine "notes") (r, tt) = (Err (ProviderError.AlreadyExists "notes"), (r, tt)).
Proof.
  intros r.
  destruct (tool_registry_operations None [RootDir] (λ _ d, (Ok tt, d)) (λ _ _ d, (Ok tt, d))
    (λ _, Ok "{}") r tt) as (_ & H & _).
  - apply NoDup_singleton.
  - specialize (H (mine "notes")). rewrite decide_True in H by (by left). exact H.
Defined.

(** A user tool may take the identifier of a built-in tool: both are then listed, and
    removing it also forgets that the built-in one was disabled. *)
Example shadowed_built_in :
  let r := {| user_tools := [mine "read_file"]; disabled := ["read_file"] |} in
  let ops := remove_user_tool (D := unit) None [RootDir] (λ _ d, (Ok tt, d)) (λ _ _ d, (Ok tt, d))
               (λ _, Ok "{}") "read_file" (r, tt) in
  length (List.filter (λ t, bool_decide (descriptor_id t = "read_file")) (tools r)) = 2 ∧
  disabled ops.2.1 = [].
Proof. vm_compute. done. Qed.
