(* ===== verification/Derive.v ===== *)
(** * The procedural macros (kernel/brioche-macro/src/: extension_type.rs, plugin.rs,
      offload_task.rs)

    The derive of [BriocheExtensionType] is the gate for the state plugins persist: it reads
    the syntax of a definition and refuses what would make the kernel depend on the order of a
    hash table.  Types are the syntax the macro reads: the forms it matches, and one for all
    the others, which it passes over.  Tokens that are only copied to the output, and the
    spans of the errors, are left out. *)
From S2P Require Import Prelude Utf8 Types Effects Extension Persistence GovTypes Sse Provider.
From S2P Require Import SystemTools Settings Extensions Skills.

(** ** Syntax *)

#[warnings="-register-all"]
Inductive GenericArgument (T : Type) : Type :=
  | TypeArgument (t : T)
  | OtherArgument (inner : list T).   (* associated types, constraints, constants, lifetimes *)
Arguments TypeArgument {T}.
Arguments OtherArgument {T}.

#[warnings="-register-all"]
Inductive PathArguments (T : Type) : Type :=
  | NoArguments
  | AngleBracketed (args : list (GenericArgument T))
  | Parenthesized (inputs : list T) (output : option T).
Arguments NoArguments {T}.
Arguments AngleBracketed {T}.
Arguments Parenthesized {T}.

#[warnings="-register-all"]
Inductive Ty : Type :=
  | TyPath (segments : list (string * PathArguments Ty))
  | TyArray (elem : Ty)
  | TyTuple (elems : list Ty)
  | TyReference (elem : Ty)
  | TyParen (elem : Ty)
  | TySlice (elem : Ty)
  | TyBareFn (inputs : list Ty) (output : option Ty)
  | TyImplTrait (bounds : list (option (list (string * PathArguments Ty))))   (* a trait, or else *)
  | TyOther (inner : list Ty).   (* trait objects, raw pointers, macros, ... *)

(** A meta item between the parentheses of an attribute: its identifier, when its path is
    one, and what follows it. *)
Inductive MetaRest : Type := NoRest | LitString (s : string) | OtherTokens.
Record Meta := { meta_ident : option string; meta_rest : MetaRest }.
Record Attribute := { attr_ident : option string; attr_metas : list Meta }.

Record Field := { field_ident : option string; field_attrs : list Attribute; field_ty : Ty }.
Inductive Fields : Type :=
  | NamedFields (named : list Field)
  | UnnamedFields (unnamed : list Field)
  | UnitFields.
Inductive Data : Type :=
  | DataStruct (fields : Fields)
  | DataEnum (variants : list Fields)
  | DataUnion (fields : list Field).
Record DeriveInput := { input_ident : string; input_attrs : list Attribute; input_data : Data }.

(** ** Errors and attributes *)

Module DeriveError.
Inductive DeriveError : Type :=
  | HashMap (field_name : string)
  | HashSet (field_name : string)
  | NonOrderedMap (field_name type_name : string)
  | NonOrderedSet (field_name type_name : string)
  | UiType (field_name : string)
  | UndeterminedVec (field_name : string)
  | UndeterminedIndexMap (field_name : string).
End DeriveError.
Abbreviation DeriveError := DeriveError.DeriveError.

Definition ALLOWED_MAPS : list string := ["BTreeMap"; "IndexMap"].
Definition ALLOWED_SETS : list string := ["BTreeSet"; "IndexSet"].

Record BriocheAttrs := {
  critical_state : bool;
  no_snapshot : bool;
  incremental_snapshot : bool;
  ext_id : option string
}.
Definition BriocheAttrs_default : BriocheAttrs :=
  {| critical_state := false; no_snapshot := false; incremental_snapshot := false; ext_id := None |}.

Definition attrs_strategy (a : BriocheAttrs) : SnapshotStrategy :=
  if critical_state a then SnapshotStrategy.CriticalFullClone
  else if no_snapshot a then SnapshotStrategy.NoSnapshot
  else if incremental_snapshot a then SnapshotStrategy.Incremental
  else SnapshotStrategy.FullClone.

Definition is_brioche (a : Attribute) : bool := bool_decide (attr_ident a = Some "brioche").

Inductive AttrError : Type := UnknownAttribute (path : string) | Malformed.

(** One meta item.  A flag that is followed by anything but a comma is malformed. *)
Definition parse_meta (m : Meta) (a : BriocheAttrs) : result BriocheAttrs AttrError :=
  let is_ident (s : string) := bool_decide (meta_ident m = Some s) in
  let flag (a : BriocheAttrs) := match meta_rest m with NoRest => Ok a | _ => Err Malformed end in
  if is_ident "critical_state" then
    flag {| critical_state := true; no_snapshot := no_snapshot a;
            incremental_snapshot := incremental_snapshot a; ext_id := ext_id a |}
  else if is_ident "no_snapshot" then
    flag {| critical_state := critical_state a; no_snapshot := true;
            incremental_snapshot := incremental_snapshot a; ext_id := ext_id a |}
  else if is_ident "incremental_snapshot" then
    flag {| critical_state := critical_state a; no_snapshot := no_snapshot a;
            incremental_snapshot := true; ext_id := ext_id a |}
  else if is_ident "ext_id" then
    match meta_rest m with
    | LitString s => Ok {| critical_state := critical_state a; no_snapshot := no_snapshot a;
                           incremental_snapshot := incremental_snapshot a; ext_id := Some s |}
    | _ => Err Malformed
    end
  else Err (UnknownAttribute (match meta_ident m with Some path => path | None => "unknown" end)).

Fixpoint parse_metas (metas : list Meta) (a : BriocheAttrs) : result BriocheAttrs AttrError :=
  match metas with
  | [] => Ok a
  | m :: metas => result_bind (parse_meta m a) (parse_metas metas)
  end.

Definition parse_brioche_attrs (attrs : list Attribute) : result BriocheAttrs AttrError :=
  parse_metas (attrs ≫= λ a, if is_brioche a then attr_metas a else []) BriocheAttrs_default.

(** Whether a field carries a flag: the items are read up to the first one that is malformed. *)
Fixpoint metas_have_flag (flag : string) (metas : list Meta) : bool :=
  match metas with
  | [] => false
  | m :: metas =>
      bool_decide (meta_ident m = Some flag) ||
      match meta_rest m with NoRest => metas_have_flag flag metas | _ => false end
  end.
Definition field_has_brioche_flag (attrs : list Attribute) (flag : string) : bool :=
  existsb (λ a, is_brioche a && metas_have_flag flag (attr_metas a)) attrs.

(** ** Walking a type *)

(** [f] on the last element. *)
Definition on_last {A B} (default : B) (f : A → B) : list A → B :=
  fix go (l : list A) : B :=
    match l with
    | [] => default
    | [x] => f x
    | _ :: l => go l
    end.

Definition on_type {T B} (default : B) (f : T → B) (g : GenericArgument T) : B :=
  match g with TypeArgument t => f t | OtherArgument _ => default end.
Definition on_option {T B} (default : B) (f : T → B) (o : option T) : B :=
  match o with Some t => f t | None => default end.

(** The types among the arguments in angle brackets. *)
Definition angle_types {T B} (f : T → list B) (a : PathArguments T) : list B :=
  match a with AngleBracketed args => flat_map (on_type [] f) args | _ => [] end.

Definition ends_with (suffix s : string) : bool :=
  (String.length suffix <=? String.length s) &&
  bool_decide (substring (String.length s - String.length suffix) (String.length suffix) s = suffix).

Definition UI_KEYWORDS : list string := ["tauri"; "vue"; "dom"; "web_sys"; "js_sys"].

Section scan.
Context (to_lowercase : string → string).

(** What is wrong with the names of a path. *)
Definition path_errors (field_name : string) (segments : list string) : list DeriveError :=
  let has_hashmap := bool_decide ("HashMap" ∈ segments) in
  let has_hashset := bool_decide ("HashSet" ∈ segments) in
  (if has_hashmap then [DeriveError.HashMap field_name] else []) ++
  (if has_hashset then [DeriveError.HashSet field_name] else []) ++
  match last segments with
  | None => []
  | Some name =>
      (if negb has_hashmap && ends_with "Map" name && negb (bool_decide (name ∈ ALLOWED_MAPS))
       then [DeriveError.NonOrderedMap field_name name] else []) ++
      (if negb has_hashset && ends_with "Set" name && negb (bool_decide (name ∈ ALLOWED_SETS))
       then [DeriveError.NonOrderedSet field_name name] else []) ++
      (if existsb (λ k, str_contains k (to_lowercase name)) UI_KEYWORDS
       then [DeriveError.UiType field_name] else [])
  end.

(** The errors, in the order they are pushed. *)
Fixpoint scan_type (field_name : string) (ty : Ty) : list DeriveError :=
  let scan := scan_type field_name in
  match ty with
  | TyPath segments =>
      path_errors field_name segments.*1 ++
      on_last [] (λ '(_, args),
        match args with
        | AngleBracketed args => flat_map (on_type [] scan) args
        | Parenthesized inputs output => flat_map scan inputs ++ on_option [] scan output
        | NoArguments => []
        end) segments
  | TyArray elem | TyReference elem | TyParen elem | TySlice elem => scan elem
  | TyTuple elems => flat_map scan elems
  | TyBareFn inputs output => flat_map scan inputs ++ on_option [] scan output
  | TyImplTrait bounds =>
      flat_map (on_option [] (flat_map (λ '(_, args), angle_types scan args))) bounds
  | TyOther _ => []
  end.
End scan.

(** [type_contains_vec] and [type_contains_indexmap]. *)
Fixpoint type_contains (name : string) (ty : Ty) : bool :=
  let rec := type_contains name in
  match ty with
  | TyPath segments =>
      bool_decide (name ∈ segments.*1) ||
      on_last false (λ '(_, args),
        match args with AngleBracketed args => existsb (on_type false rec) args | _ => false end)
        segments
  | TyArray elem | TyReference elem | TyParen elem | TySlice elem => rec elem
  | TyTuple elems => existsb rec elems
  | TyBareFn inputs output => existsb rec inputs || on_option false rec output
  | TyImplTrait bounds =>
      existsb (on_option false (existsb (λ '(_, args),
        match args with AngleBracketed args => existsb (on_type false rec) args | _ => false end)))
        bounds
  | TyOther _ => false
  end.
Definition type_contains_vec : Ty → bool := type_contains "Vec".
Definition type_contains_indexmap : Ty → bool := type_contains "IndexMap".

Definition ELEMENT_WRAPPERS : list string := ["Vec"; "Option"; "Box"; "BTreeSet"; "IndexSet"; "HashSet"].
Definition MAP_WRAPPERS : list string := ["BTreeMap"; "IndexMap"; "HashMap"].

(** The carriers of each type argument are computed, of which a wrapper takes one. *)
Fixpoint extract_immediate_carriers (ty : Ty) : list Ty :=
  match ty with
  | TyPath segments =>
      on_last [ty] (λ '(name, args),
        match args with
        | AngleBracketed args =>
            let carriers := flat_map (on_type [] (λ t, [extract_immediate_carriers t])) args in
            match carriers with
            | first :: rest =>
                if decide (name ∈ ELEMENT_WRAPPERS) then first
                else match rest with
                     | second :: _ =>
                         if decide (name ∈ MAP_WRAPPERS) then second
                         else if decide (name = "Result") then first else [ty]
                     | [] => [ty]
                     end
            | [] => [ty]
            end
        | _ => [ty]
        end) segments
  | TyArray elem | TyReference elem | TyParen elem | TySlice elem => extract_immediate_carriers elem
  | TyTuple elems => flat_map extract_immediate_carriers elems
  | TyBareFn inputs output =>
      flat_map extract_immediate_carriers inputs ++ on_option [] extract_immediate_carriers output
  | TyImplTrait bounds =>
      flat_map (on_option [] (flat_map (λ '(_, args),
        angle_types extract_immediate_carriers args))) bounds
  | TyOther _ => []
  end.

Definition PRIMITIVES : list string :=
  ["u8"; "u16"; "u32"; "u64"; "u128"; "usize"; "i8"; "i16"; "i32"; "i64"; "i128"; "isize";
   "f32"; "f64"; "bool"; "char"; "str"].

Definition is_primitive_or_string (ty : Ty) : bool :=
  match ty with
  | TyPath segments =>
      match last segments.*1 with
      | Some name =>
          bool_decide (name = "String") ||
          bool_decide (name ∈ PRIMITIVES) && (length segments =? 1)
      | None => false
      end
  | _ => false
  end.

(** ** Fields and definitions *)

Definition DETERMINISTIC : string := "deterministic_order".

(** The identifier of a named field, or the index of an unnamed one. *)
Definition named_fields (l : list Field) : list (string * Field) :=
  (λ f, (match field_ident f with Some i => i | None => "_" end, f)) <$> l.
Definition unnamed_fields (l : list Field) : list (string * Field) :=
  imap (λ i f, ("_" +:+ pretty (N.of_nat i), f)) l.
Definition labelled_fields (fs : Fields) : list (string * Field) :=
  match fs with
  | NamedFields l => named_fields l
  | UnnamedFields l => unnamed_fields l
  | UnitFields => []
  end.

Section expand.
Context (to_lowercase : string → string).

Definition scan_field (nf : string * Field) : list DeriveError :=
  let '(name, f) := nf in
  let certified := field_has_brioche_flag (field_attrs f) DETERMINISTIC in
  scan_type to_lowercase name (field_ty f) ++
  (if type_contains_vec (field_ty f) && negb certified
   then [DeriveError.UndeterminedVec name] else []) ++
  (if type_contains_indexmap (field_ty f) && negb certified
   then [DeriveError.UndeterminedIndexMap name] else []).

Definition scan_fields (fs : Fields) : list DeriveError := flat_map scan_field (labelled_fields fs).

Definition collect_nested_carriers (fs : Fields) : list Ty :=
  flat_map (λ nf, List.filter (λ t, negb (is_primitive_or_string t))
                    (extract_immediate_carriers (field_ty nf.2))) (labelled_fields fs).

Definition all_fields (d : Data) : list Fields :=
  match d with
  | DataStruct fields => [fields]
  | DataEnum variants => variants
  | DataUnion fields => [NamedFields fields]
  end.

(** What is emitted: errors only, or the implementation with an assertion for each carrier
    that it implements the trait. *)
Inductive Expansion : Type :=
  | AttributeError (e : AttrError)
  | CompileErrors (errors : list DeriveError)
  | Implementation (id : option string) (strategy : SnapshotStrategy) (asserted : list Ty).

Definition expand_brioche_extension_type (input : DeriveInput) : Expansion :=
  match parse_brioche_attrs (input_attrs input) with
  | Err e => AttributeError e
  | Ok attrs =>
      let errors := flat_map scan_fields (all_fields (input_data input)) in
      match errors with
      | [] => Implementation (ext_id attrs) (attrs_strategy attrs)
                (flat_map collect_nested_carriers (all_fields (input_data input)))
      | _ => CompileErrors errors
      end
  end.
End expand.

(** ** plugin.rs *)

Inductive PluginArg : Type :=
  | ArgName (s : string)
  | ArgCapabilities (s : string)
  | ArgPriority (value : option Z)   (* the literal, when it is an [i16] *)
  | ArgOther (ident : string).

Record PluginArgs := { plugin_name : string; capabilities : list string; plugin_priority : option Z }.

Inductive PluginError : Type :=
  | SyntaxError
  | UnknownArgument (ident : string)
  | UnknownCapability (capability : string)
  | NameRequired.

Definition KNOWN_CAPABILITIES : list string :=
  ["ON_INPUT"; "BEFORE_PREDICTION"; "ON_STREAM_EVENT"; "AFTER_PREDICTION"; "ON_TOOL_CALLS";
   "ON_TOOL_RESULT"; "ON_ERROR"].

Definition split_capabilities (s : string) : list string :=
  List.filter (λ c, negb (bool_decide (c = ""))) (trim_string <$> split_on "|" s).

(** Name, capabilities and priority as they are read; a later argument replaces an earlier. *)
Fixpoint read_plugin_args (args : list PluginArg)
    (acc : option string * list string * option Z) :
    result (option string * list string * option Z) PluginError :=
  let '(name, caps, priority) := acc in
  match args with
  | [] => Ok acc
  | ArgName s :: args => read_plugin_args args (Some s, caps, priority)
  | ArgCapabilities s :: args => read_plugin_args args (name, split_capabilities s, priority)
  | ArgPriority (Some p) :: args => read_plugin_args args (name, caps, Some p)
  | ArgPriority None :: _ => Err SyntaxError
  | ArgOther ident :: _ => Err (UnknownArgument ident)
  end.

Definition parse_plugin_args (args : list PluginArg) : result PluginArgs PluginError :=
  result_bind (read_plugin_args args (None, [], None)) (λ '(name, caps, priority),
    match List.find (λ c, negb (bool_decide (c ∈ KNOWN_CAPABILITIES))) caps with
    | Some unknown => Err (UnknownCapability unknown)
    | None =>
        match name with
        | None => Err NameRequired
        | Some name =>
            Ok {| plugin_name := name; capabilities := caps; plugin_priority := priority |}
        end
    end).

(** An item of the implementation block: a function with its attributes and its body, or
    something else. *)
Inductive ImplItem (B : Type) : Type :=
  | ItemFn (name : string) (attrs : list string) (body : B)
  | ItemOther (body : B).
Arguments ItemFn {B}.
Arguments ItemOther {B}.

Definition is_fn {B} (name : string) (i : ImplItem B) : bool :=
  match i with ItemFn n _ _ => bool_decide (n = name) | ItemOther _ => false end.
Definition strip_hooks {B} (i : ImplItem B) : ImplItem B :=
  match i with
  | ItemFn n attrs body => ItemFn n (List.filter (λ a, negb (bool_decide (a = "hook"))) attrs) body
  | other => other
  end.

(** The bodies that return the name and the priority are given as [B]. *)
Definition expand_brioche_plugin {B} (name_body : string → B) (priority_body : Z → B)
    (args : PluginArgs) (items : list (ImplItem B)) : list (ImplItem B) :=
  let items := strip_hooks <$> items in
  let priority := match plugin_priority args with Some p => p | None => 0%Z end in
  (if existsb (is_fn "name") items then [] else [ItemFn "name" [] (name_body (plugin_name args))]) ++
  (if existsb (is_fn "priority") items then [] else [ItemFn "priority" [] (priority_body priority)]) ++
  items.

(** ** offload_task.rs: what the generated functions do *)

(** Whether the function can be offloaded: one argument, with a type. *)
Definition offload_accepted (args : list bool) : result unit string :=
  match args with
  | [true] => Ok tt
  | [false] => Err "expected typed argument"
  | _ => Err "#[brioche_offload_task] function must take exactly one argument"
  end.

Section offload.
Context {I O : Type} (to_stdvec : I → option bytes) (from_bytes : bytes → option O) (default : O).

Definition serialize_input (input : I) : bytes :=
  match to_stdvec input with Some v => v | None => [] end.
Definition deserialize_output (b : bytes) : O :=
  match from_bytes b with Some v => v | None => default end.
Definition offload_effect (task_id : TaskId) (input : I) : Effect :=
  Effect.ExecuteCpuTask task_id (serialize_input input).
End offload.
