(* ===== verification/DeriveSpec.v ===== *)
(** * Correctness of the derive gate, of the plugin attribute and of offloaded tasks

    What the two scans of a type look at; what a program whose definitions all pass the derive
    can persist; what the gate does not see; the snapshot strategy; the methods a plugin ends
    with. *)
From S2P Require Import Prelude Utf8 Types Effects Extension Persistence GovTypes Sse Provider.
From S2P Require Import SystemTools Settings Extensions Skills Derive.

(** ** Where the scan goes

    [child parens t t']: the macro descends from [t] to [t'].  The scan for forbidden names
    also follows the arguments of [Fn(A) -> B], the scan for [Vec] does not. *)

Inductive child (parens : bool) : Ty → Ty → Prop :=
  | child_angle segments name args t :
      last segments = Some (name, AngleBracketed args) → TypeArgument t ∈ args →
      child parens (TyPath segments) t
  | child_input segments name inputs output t :
      last segments = Some (name, Parenthesized inputs output) → parens = true → t ∈ inputs →
      child parens (TyPath segments) t
  | child_output segments name inputs t :
      last segments = Some (name, Parenthesized inputs (Some t)) → parens = true →
      child parens (TyPath segments) t
  | child_array t : child parens (TyArray t) t
  | child_reference t : child parens (TyReference t) t
  | child_paren t : child parens (TyParen t) t
  | child_slice t : child parens (TySlice t) t
  | child_tuple ts t : t ∈ ts → child parens (TyTuple ts) t
  | child_fn_input ts o t : t ∈ ts → child parens (TyBareFn ts o) t
  | child_fn_output ts t : child parens (TyBareFn ts (Some t)) t
  | child_impl bounds segments name args t :
      Some segments ∈ bounds → (name, AngleBracketed args) ∈ segments → TypeArgument t ∈ args →
      child parens (TyImplTrait bounds) t.

(** The names of the paths the scan looks at. *)
Definition visited (parens : bool) (ty : Ty) (names : list string) : Prop :=
  ∃ segments, rtc (child parens) ty (TyPath segments) ∧ names = segments.*1.

(** ** Induction on the types below *)

Definition sum_with {A} (f : A → nat) (l : list A) : nat := foldr (λ x n, f x + n) 0 l.

Fixpoint ty_size (ty : Ty) : nat :=
  let arg_size (g : GenericArgument Ty) := match g with TypeArgument t => ty_size t | OtherArgument _ => 0 end in
  let seg_size (s : string * PathArguments Ty) :=
    let '(_, a) := s in
    match a with
    | NoArguments => 0
    | AngleBracketed args => sum_with arg_size args
    | Parenthesized inputs output =>
        sum_with ty_size inputs + match output with Some t => ty_size t | None => 0 end
    end in
  S match ty with
    | TyPath segments => sum_with seg_size segments
    | TyArray t | TyReference t | TyParen t | TySlice t => ty_size t
    | TyTuple ts => sum_with ty_size ts
    | TyBareFn ts o => sum_with ty_size ts + match o with Some t => ty_size t | None => 0 end
    | TyImplTrait bounds =>
        sum_with (λ b, match b with Some segments => sum_with seg_size segments | None => 0 end) bounds
    | TyOther _ => 0
    end.

Lemma sum_with_elem {A} (f : A → nat) x l : x ∈ l → f x ≤ sum_with f l.
Proof. unfold sum_with. induction 1; cbn; lia. Qed.

Lemma last_elem {A} (l : list A) x : last l = Some x → x ∈ l.
Proof. intros [l' ->]%last_Some. set_solver. Qed.

Lemma child_size parens t t' : child parens t t' → ty_size t' < ty_size t.
Proof.
  destruct 1 as [segments name args t Hl Ht|segments name inputs output t Hl _ Ht
    |segments name inputs t Hl _| | | | |ts t Ht|ts o t Ht|ts t|bounds segments name args t Hb Hs Ht];
    cbn [ty_size]; try lia.
  1-3: match goal with |- _ < S (sum_with ?f _) => pose proof (sum_with_elem f _ _ (last_elem _ _ Hl)) as H end.
  - pose proof (sum_with_elem (λ g, match g with TypeArgument t => ty_size t | OtherArgument _ => 0 end) _ _ Ht).
    cbn in *. lia.
  - pose proof (sum_with_elem ty_size _ _ Ht). cbn in *. lia.
  - cbn in *. lia.
  - pose proof (sum_with_elem ty_size _ _ Ht). lia.
  - pose proof (sum_with_elem ty_size _ _ Ht). lia.
  - match goal with |- _ < S (sum_with ?f _) => pose proof (sum_with_elem f _ _ Hb) as H end. cbn in H.
    match type of H with sum_with ?f _ ≤ _ => pose proof (sum_with_elem f _ _ Hs) as H2 end. cbn in H2.
    pose proof (sum_with_elem (λ g, match g with TypeArgument t => ty_size t | OtherArgument _ => 0 end) _ _ Ht).
    cbn in *. lia.
Qed.

Lemma Ty_child_ind parens (P : Ty → Prop) :
  (∀ t, (∀ t', child parens t t' → P t') → P t) → ∀ t, P t.
Proof.
  intros IH t. induction t as [t IHt] using (induction_ltof1 _ ty_size). apply IH.
  intros t' Hc. apply IHt. unfold ltof. by eapply child_size.
Qed.

Lemma on_last_spec {A B} (d : B) (f : A → B) l :
  on_last d f l = match last l with Some x => f x | None => d end.
Proof. induction l as [|x [|y l] IH]; [done|done|]. exact IH. Qed.

Lemma elem_of_flat_map {A B} (f : A → list B) l y : y ∈ flat_map f l ↔ ∃ x, x ∈ l ∧ y ∈ f x.
Proof.
  rewrite list_elem_of_In, in_flat_map. setoid_rewrite list_elem_of_In. done.
Qed.

Lemma elem_of_types {B} (f : Ty → list B) args y :
  y ∈ flat_map (on_type [] f) args ↔ ∃ t, TypeArgument t ∈ args ∧ y ∈ f t.
Proof.
  rewrite elem_of_flat_map. split.
  - intros ([t|inner] & Hg & Hy); [by exists t|]. cbn in Hy. by apply elem_of_nil in Hy.
  - intros (t & Ht & Hy). by exists (TypeArgument t).
Qed.

Lemma elem_of_on_option {T B} (f : T → list B) o y : y ∈ on_option [] f o ↔ ∃ t, o = Some t ∧ y ∈ f t.
Proof.
  destruct o as [t|]; cbn; [|set_solver]. split; [by exists t|]. by intros (? & [= <-] & ?).
Qed.

Lemma elem_of_bounds {B} (f : Ty → list B) bounds y :
  y ∈ flat_map (on_option [] (flat_map (λ '(_, args), angle_types f args))) bounds ↔
    ∃ segments (name : string) args t, Some segments ∈ bounds ∧ (name, AngleBracketed args) ∈ segments ∧
      TypeArgument t ∈ args ∧ y ∈ f t.
Proof.
  rewrite elem_of_flat_map. setoid_rewrite elem_of_on_option. setoid_rewrite elem_of_flat_map. split.
  - intros (b & Hb & segments & -> & [name [|args|i o]] & Hs & Hy); cbn [angle_types] in Hy;
      try by apply elem_of_nil in Hy.
    apply elem_of_types in Hy as (t & Ht & Hy). naive_solver.
  - intros (segments & name & args & t & Hb & Hs & Ht & Hy). exists (Some segments). split; [done|].
    exists segments. split; [done|]. exists (name, AngleBracketed args). split; [done|].
    cbn [angle_types]. apply elem_of_types. naive_solver.
Qed.

(** ** The two scans, as what they visit *)

Section visits.
Context (to_lowercase : string → string).
#[local] Abbreviation scan := (scan_type to_lowercase).

Lemma scan_step field ty e :
  e ∈ scan field ty ↔
    (∃ segments, ty = TyPath segments ∧ e ∈ path_errors to_lowercase field segments.*1) ∨
    ∃ t, child true ty t ∧ e ∈ scan field t.
Proof using Type.
  destruct ty as [segments|t0|ts|t0|t0|t0|ts o|bounds|inner]; cbn [scan_type].
  - rewrite elem_of_app, on_last_spec. split.
    + intros [He|He]; [left; eauto|]. right.
      destruct (last segments) as [[name [|args|i o]]|] eqn:El; cbn beta iota in He;
        try by apply elem_of_nil in He.
      * apply elem_of_types in He as (t & Ht & He). exists t. split; [by eapply child_angle|done].
      * rewrite elem_of_app, elem_of_flat_map, elem_of_on_option in He.
        destruct He as [(t & Ht & He)|(t & -> & He)]; exists t; split; try done;
          [by eapply child_input|by eapply child_output].
    + intros [(s & [= <-] & He)|(t & Hc & He)]; [by left|right].
      inversion Hc as [s1 n1 a1 t1 Hl Ht|s1 n1 i1 o1 t1 Hl _ Ht|s1 n1 i1 t1 Hl _| | | | | | | |]; subst;
        rewrite Hl; cbn beta iota.
      * apply elem_of_types. eauto.
      * apply elem_of_app. left. apply elem_of_flat_map. eauto.
      * apply elem_of_app. right. done.
  - split; [intros He; right; exists t0; split; [constructor|done]|].
    intros [(? & [=] & _)|(t & Hc & He)]. by inversion Hc; subst.
  - rewrite elem_of_flat_map. split.
    + intros (t & Ht & He). right. exists t. by split; [constructor|].
    + intros [(? & [=] & _)|(t & Hc & He)]. inversion Hc; subst. eauto.
  - split; [intros He; right; exists t0; split; [constructor|done]|].
    intros [(? & [=] & _)|(t & Hc & He)]. by inversion Hc; subst.
  - split; [intros He; right; exists t0; split; [constructor|done]|].
    intros [(? & [=] & _)|(t & Hc & He)]. by inversion Hc; subst.
  - split; [intros He; right; exists t0; split; [constructor|done]|].
    intros [(? & [=] & _)|(t & Hc & He)]. by inversion Hc; subst.
  - rewrite elem_of_app, elem_of_flat_map, elem_of_on_option. split.
    + intros [(t & Ht & He)|(t & -> & He)]; right; exists t; by split; [constructor|].
    + intros [(? & [=] & _)|(t & Hc & He)]. inversion Hc; subst; [left|right]; eauto.
  - rewrite elem_of_bounds. split.
    + intros (s & name & args & t & Hb & Hs & Ht & He). right. exists t. split; [by eapply child_impl|done].
    + intros [(? & [=] & _)|(t & Hc & He)]. inversion Hc; subst. naive_solver.
  - split; [by intros ?%elem_of_nil|]. intros [(? & [=] & _)|(t & Hc & _)]. inversion Hc.
Qed.

(** The errors of a type are those of the paths the scan visits. *)
Lemma scan_visits field ty e :
  e ∈ scan field ty ↔ ∃ names, visited true ty names ∧ e ∈ path_errors to_lowercase field names.
Proof using Type.
  split.
  - induction ty as [ty IH] using (Ty_child_ind true). intros [(s & -> & He)|(t & Hc & He)]%scan_step.
    + exists s.*1. split; [by exists s|done].
    + destruct (IH t Hc He) as (names & (s & Hr & ->) & Hn). exists s.*1. split; [|done].
      exists s. split; [by eapply rtc_l|done].
  - intros (names & (s & Hr & ->) & He). remember (TyPath s) as target eqn:Et.
    induction Hr as [t|t t1 t2 Hc _ IH]; subst; apply scan_step; [left; eauto|right].
    exists t1. split; [done|]. by apply IH.
Qed.
End visits.

Lemma existsb_types name args :
  existsb (on_type false (type_contains name)) args = true ↔
    ∃ t, TypeArgument t ∈ args ∧ type_contains name t = true.
Proof.
  rewrite existsb_exists. setoid_rewrite <- list_elem_of_In. split.
  - intros ([t|inner] & Hg & H); [by exists t|done].
  - intros (t & Ht & H). by exists (TypeArgument t).
Qed.

Lemma contains_step name ty :
  type_contains name ty = true ↔
    (∃ segments, ty = TyPath segments ∧ name ∈ segments.*1) ∨
    ∃ t, child false ty t ∧ type_contains name t = true.
Proof.
  destruct ty as [segments|t0|ts|t0|t0|t0|ts o|bounds|inner]; cbn [type_contains].
  - rewrite orb_true_iff, bool_decide_eq_true, on_last_spec. split.
    + intros [He|He]; [left; eauto|]. right.
      destruct (last segments) as [[n [|args|i o]]|] eqn:El; cbn beta iota in He; try discriminate.
      apply existsb_types in He as (t & Ht & He). exists t. split; [by eapply child_angle|done].
    + intros [(s & [= <-] & He)|(t & Hc & He)]; [by left|right].
      inversion Hc as [s1 n1 a1 t1 Hl Ht|s1 n1 i1 o1 t1 Hl Hp|s1 n1 i1 t1 Hl Hp| | | | | | | |]; subst;
        try discriminate. rewrite Hl. apply existsb_types. eauto.
  - split; [intros He; right; exists t0; split; [constructor|done]|].
    intros [(? & [=] & _)|(t & Hc & He)]. by inversion Hc; subst.
  - rewrite existsb_exists. setoid_rewrite <- list_elem_of_In. split.
    + intros (t & Ht & He). right. exists t. by split; [constructor|].
    + intros [(? & [=] & _)|(t & Hc & He)]. inversion Hc; subst. eauto.
  - split; [intros He; right; exists t0; split; [constructor|done]|].
    intros [(? & [=] & _)|(t & Hc & He)]. by inversion Hc; subst.
  - split; [intros He; right; exists t0; split; [constructor|done]|].
    intros [(? & [=] & _)|(t & Hc & He)]. by inversion Hc; subst.
  - split; [intros He; right; exists t0; split; [constructor|done]|].
    intros [(? & [=] & _)|(t & Hc & He)]. by inversion Hc; subst.
  - rewrite orb_true_iff, existsb_exists. setoid_rewrite <- list_elem_of_In. split.
    + intros [(t & Ht & He)|He]; [right; exists t; by split; [constructor|]|].
      destruct o as [t|]; [|done]. right. exists t. by split; [constructor|].
    + intros [(? & [=] & _)|(t & Hc & He)]. inversion Hc; subst; [left; eauto|by right].
  - rewrite existsb_exists. setoid_rewrite <- list_elem_of_In. split.
    + intros ([segments|] & Hb & H); [|done]. cbn in H. apply existsb_exists in H as ([n a] & Hs & H).
      apply list_elem_of_In in Hs. destruct a as [|args|]; try done.
      apply existsb_types in H as (t & Ht & H). right. exists t. split; [by eapply child_impl|done].
    + intros [(? & [=] & _)|(t & Hc & He)]. inversion Hc as [| | | | | | | | | |b s n args t1 Hb Hs Ht]; subst.
      exists (Some s). split; [done|]. cbn. apply existsb_exists. exists (n, AngleBracketed args).
      split; [by apply list_elem_of_In|]. apply existsb_types. eauto.
  - split; [done|]. intros [(? & [=] & _)|(t & Hc & _)]. inversion Hc.
Qed.

Lemma contains_visits name ty :
  type_contains name ty = true ↔ ∃ names, visited false ty names ∧ name ∈ names.
Proof.
  split.
  - induction ty as [ty IH] using (Ty_child_ind false). intros [(s & -> & He)|(t & Hc & He)]%contains_step.
    + exists s.*1. split; [by exists s|done].
    + destruct (IH t Hc He) as (names & (s & Hr & ->) & Hn). exists s.*1. split; [|done].
      exists s. split; [by eapply rtc_l|done].
  - intros (names & (s & Hr & ->) & He). remember (TyPath s) as target eqn:Et.
    induction Hr as [t|t t1 t2 Hc _ IH]; subst; apply contains_step; [left; eauto|right].
    exists t1. split; [done|]. by apply IH.
Qed.

(** ** The gate over a whole program *)

Section gate.
Context (to_lowercase : string → string).

(** The names and the order a definition is allowed to have. *)
Record ordered_names (names : list string) : Prop := {
  no_hash_map : "HashMap" ∉ names;
  no_hash_set : "HashSet" ∉ names;
  map_allowed name : last names = Some name → ends_with "Map" name = true → name ∈ ALLOWED_MAPS;
  set_allowed name : last names = Some name → ends_with "Set" name = true → name ∈ ALLOWED_SETS
}.

Definition certified (f : Field) : bool := field_has_brioche_flag (field_attrs f) DETERMINISTIC.

Record ordered_field (f : Field) : Prop := {
  ordered_paths names : visited true (field_ty f) names → ordered_names names;
  sequence_certified names :
    visited false (field_ty f) names → "Vec" ∈ names ∨ "IndexMap" ∈ names → certified f = true
}.

(** The fields of a definition, of every variant. *)
Definition fields_of (input : DeriveInput) : list (string * Field) :=
  flat_map labelled_fields (all_fields (input_data input)).

(** The name of a type, by which its definition is found; the definitions of the program are
    taken to have different names. *)
Definition type_name (ty : Ty) : option string :=
  match ty with TyPath segments => last segments.*1 | _ => None end.

Definition Definitions := gmap string DeriveInput.

(** The trait is sealed: the types that implement it are those that derive it. *)
Definition implemented (env : Definitions) (ty : Ty) : Prop :=
  ∃ name, type_name ty = Some name ∧ is_Some (env !! name).

(** Every definition expands to an implementation and its assertions hold. *)
Definition compiles (env : Definitions) : Prop :=
  ∀ name input, env !! name = Some input →
    ∃ id strategy asserted,
      expand_brioche_extension_type to_lowercase input = Implementation id strategy asserted ∧
      Forall (implemented env) asserted.

(** A value of the second definition is held in a field of the first. *)
Definition holds (env : Definitions) (name name' : string) : Prop :=
  ∃ input nf ty, env !! name = Some input ∧ nf ∈ fields_of input ∧
    ty ∈ extract_immediate_carriers (field_ty nf.2) ∧ is_primitive_or_string ty = false ∧
    type_name ty = Some name'.

Lemma path_errors_ordered field names :
  path_errors to_lowercase field names = [] → ordered_names names.
Proof using Type.
  unfold path_errors. intros [Hm [Hs Hl]%app_eq_nil]%app_eq_nil.
  case_bool_decide as Em; [done|]. case_bool_decide as Es; [done|].
  split; [done|done|intros name El Hn..]; rewrite El in Hl; cbn [negb andb] in Hl;
    apply app_eq_nil in Hl as [H1 [H2 _]%app_eq_nil]; rewrite Hn in *;
    [clear H2|clear H1]; case_bool_decide; done.
Qed.

Lemma scan_field_ordered nf : scan_field to_lowercase nf = [] → ordered_field nf.2.
Proof using Type.
  destruct nf as [name f]. unfold scan_field. fold (certified f).
  intros [Hs [Hv Hi]%app_eq_nil]%app_eq_nil. split; cbn [snd].
  - intros names Hn. apply (path_errors_ordered name). apply elem_of_nil_inv. intros e He.
    apply (elem_of_nil e). rewrite <- Hs. apply scan_visits. by exists names.
  - intros names Hn Ho. destruct (certified f); [done|exfalso]. rewrite andb_true_r in Hv, Hi.
    destruct Ho as [Ho|Ho].
    + unfold type_contains_vec in Hv. by rewrite (proj2 (contains_visits "Vec" _)) in Hv by eauto.
    + unfold type_contains_indexmap in Hi. by rewrite (proj2 (contains_visits "IndexMap" _)) in Hi by eauto.
Qed.

Lemma flat_map_nil {A B} (f : A → list B) l x : flat_map f l = [] → x ∈ l → f x = [].
Proof using Type.
  intros H Hx. destruct (f x) as [|y ys] eqn:E; [done|exfalso].
  assert (Hy : y ∈ flat_map f l) by (apply elem_of_flat_map; exists x; rewrite E; set_solver).
  rewrite H in Hy. by apply elem_of_nil in Hy.
Qed.

(** What an expansion without errors says of the fields, and what it asserts. *)
Lemma expansion_ordered input id strategy asserted :
  expand_brioche_extension_type to_lowercase input = Implementation id strategy asserted →
  Forall (λ nf, ordered_field nf.2) (fields_of input) ∧
  ∀ nf ty, nf ∈ fields_of input → ty ∈ extract_immediate_carriers (field_ty nf.2) →
    is_primitive_or_string ty = false → ty ∈ asserted.
Proof using Type.
  unfold expand_brioche_extension_type. destruct (parse_brioche_attrs _) as [attrs|]; [|done].
  destruct (flat_map _ _) as [|e es] eqn:E; [|done]. intros [= _ _ <-]. unfold fields_of. split.
  - apply Forall_forall. intros nf (fs & Hfs & Hnf)%elem_of_flat_map. apply scan_field_ordered.
    exact (flat_map_nil _ _ _ (flat_map_nil _ _ _ E Hfs) Hnf).
  - intros nf ty (fs & Hfs & Hnf)%elem_of_flat_map Hty Hp. apply elem_of_flat_map. exists fs.
    split; [done|]. apply elem_of_flat_map. exists nf. split; [done|].
    apply list_elem_of_In, filter_In. rewrite <- list_elem_of_In, Hp. done.
Qed.

End gate.

(** ** A program the gate accepts, and what it does not see *)

Definition path (name : string) (args : list Ty) : Ty :=
  TyPath [(name, match args with [] => NoArguments | _ => AngleBracketed (TypeArgument <$> args) end)].
Definition ordered_attr : Attribute :=
  {| attr_ident := Some "brioche";
     attr_metas := [{| meta_ident := Some DETERMINISTIC; meta_rest := NoRest |}] |}.
Definition named_field (name : string) (attrs : list Attribute) (ty : Ty) : Field :=
  {| field_ident := Some name; field_attrs := attrs; field_ty := ty |}.
Definition derived (name : string) (fields : list Field) : DeriveInput :=
  {| input_ident := name; input_attrs := []; input_data := DataStruct (NamedFields fields) |}.

(** A history that certifies its sequence of entries, each of which counts by name. *)
Definition history : DeriveInput :=
  derived "History" [named_field "items" [ordered_attr] (path "Vec" [path "Entry" []])].
Definition entry : DeriveInput :=
  derived "Entry" [named_field "counts" [] (path "BTreeMap" [path "String" []; path "u64" []])].
Definition program : Definitions := {["History" := history; "Entry" := entry]}.

Definition lower (s : string) : string := s.


(** What is expanded for a definition with one field. *)
Definition one_field (ty : Ty) : Expansion :=
  expand_brioche_extension_type lower (derived "State" [named_field "f" [] ty]).
Definition accepted (asserted : list Ty) : Expansion :=
  Implementation None SnapshotStrategy.FullClone asserted.

Definition hash_map : Ty := path "HashMap" [path "String" []; path "u64" []].

(** Directly, and inside wrappers, a hash table is refused. *)
Example hash_map_refused :
  one_field (path "Option" [TyTuple [path "u8" []; hash_map]]) = CompileErrors [DeriveError.HashMap "f"].
Proof. by vm_compute. Qed.

(** A type that comes from a macro's [ty] fragment reaches the derive in a group, which is
    one of the other forms: what is in it is neither scanned nor asserted. *)
Example group_escapes : one_field (TyOther [hash_map]) = accepted [].
Proof. by vm_compute. Qed.

(** The key of a map and the error of a result are not asserted, whatever they hold. *)
Example key_escapes :
  one_field (path "BTreeMap" [path "Key" []; path "u64" []]) = accepted [] ∧
  one_field (path "Result" [path "u64" []; path "Failure" []]) = accepted [].
Proof. by vm_compute. Qed.

(** A definition is taken for the standard string by its last name. *)
Example named_string_escapes :
  one_field (TyPath [("mine", NoArguments); ("String", NoArguments)]) = accepted [].
Proof. by vm_compute. Qed.

(** The scan for sequences does not look between parentheses, the one for hash tables does. *)
Example parentheses_differ :
  one_field (path "Box" [TyPath [("Fn", Parenthesized [path "Vec" [path "u8" []]] None)]])
    = accepted [TyPath [("Fn", Parenthesized [path "Vec" [path "u8" []]] None)]] ∧
  one_field (path "Box" [TyPath [("Fn", Parenthesized [hash_map] None)]])
    = CompileErrors [DeriveError.HashMap "f"].
Proof. by vm_compute. Qed.


(** ** Attributes *)

Definition has_flag (flag : string) (metas : list Meta) : bool :=
  existsb (λ m, bool_decide (meta_ident m = Some flag)) metas.

(** What one item turns on. *)
Lemma parse_meta_flags m a a' :
  parse_meta m a = Ok a' →
  critical_state a' = critical_state a || bool_decide (meta_ident m = Some "critical_state") ∧
  no_snapshot a' = no_snapshot a || bool_decide (meta_ident m = Some "no_snapshot") ∧
  incremental_snapshot a' =
    incremental_snapshot a || bool_decide (meta_ident m = Some "incremental_snapshot").
Proof.
  unfold parse_meta. destruct m as [ident rest]. cbn [meta_ident meta_rest].
  repeat case_bool_decide; try congruence; destruct rest; intros [= <-]; cbn;
    by rewrite ?orb_true_r, ?orb_false_r.
Qed.

Lemma parse_metas_flags metas a a' :
  parse_metas metas a = Ok a' →
  critical_state a' = critical_state a || has_flag "critical_state" metas ∧
  no_snapshot a' = no_snapshot a || has_flag "no_snapshot" metas ∧
  incremental_snapshot a' = incremental_snapshot a || has_flag "incremental_snapshot" metas.
Proof.
  revert a. induction metas as [|m metas IH]; intros a H; cbn [parse_metas has_flag existsb] in *.
  - injection H as ->. by rewrite !orb_false_r.
  - destruct (parse_meta m a) as [a1|e] eqn:E; [|done]. cbn in H.
    destruct (IH _ H) as (-> & -> & ->). destruct (parse_meta_flags _ _ _ E) as (-> & -> & ->).
    by rewrite !orb_assoc.
Qed.

(** The strategy is decided by which flags are present, whatever their order and number:
    the exemption from the budget wins over the refusal to be copied. *)
Lemma strategy_by_flags attrs a :
  parse_brioche_attrs attrs = Ok a →
  let metas := attrs ≫= λ a, if is_brioche a then attr_metas a else [] in
  attrs_strategy a =
    if has_flag "critical_state" metas then SnapshotStrategy.CriticalFullClone
    else if has_flag "no_snapshot" metas then SnapshotStrategy.NoSnapshot
    else if has_flag "incremental_snapshot" metas then SnapshotStrategy.Incremental
    else SnapshotStrategy.FullClone.
Proof.
  intros H metas. unfold attrs_strategy. by destruct (parse_metas_flags _ _ _ H) as (-> & -> & ->).
Qed.

(** The documented [nested_carrier] is a flag of fields, where anything is read past; on the
    definition it is refused. *)
Example nested_carrier_unknown :
  parse_brioche_attrs [{| attr_ident := Some "brioche";
                          attr_metas := [{| meta_ident := Some "nested_carrier"; meta_rest := NoRest |}] |}]
    = Err (UnknownAttribute "nested_carrier").
Proof. done. Qed.

(** Nothing else reads the attributes of fields, so a malformed certificate certifies. *)
Example malformed_certificate :
  field_has_brioche_flag
    [{| attr_ident := Some "brioche";
        attr_metas := [{| meta_ident := Some DETERMINISTIC; meta_rest := LitString "no" |}] |}]
    DETERMINISTIC = true.
Proof. by vm_compute. Qed.

(** ** Plugins *)

Section plugin.
Context {B : Type} (name_body : string → B) (priority_body : Z → B).

Lemma is_fn_strip name (i : ImplItem B) : is_fn name (strip_hooks i) = is_fn name i.
Proof using Type. by destruct i. Qed.

Lemma existsb_strip name (items : list (ImplItem B)) :
  existsb (is_fn name) (strip_hooks <$> items) = existsb (is_fn name) items.
Proof using Type. induction items as [|i items IH]; [done|]. cbn. by rewrite is_fn_strip, IH. Qed.

(** The methods called [name] of an implementation block. *)
Definition methods (name : string) (items : list (ImplItem B)) : list (ImplItem B) :=
  List.filter (is_fn name) items.

Lemma methods_app name (l k : list (ImplItem B)) : methods name (l ++ k) = methods name l ++ methods name k.
Proof using Type. apply List.filter_app. Qed.

Lemma methods_none name (items : list (ImplItem B)) :
  existsb (is_fn name) items = false → methods name items = [].
Proof using Type.
  intros H. unfold methods. induction items as [|i items IH]; [done|]. cbn in *.
  apply orb_false_iff in H as [-> H]. by apply IH.
Qed.

(** Every plugin gets a name and a priority: its own where it writes them, which win over
    the arguments, and otherwise the argument's, zero without one.  The rest of the block is
    kept, in its order, and without the markers of hooks. *)
Theorem plugin_expansion args items :
  let out := expand_brioche_plugin name_body priority_body args items in
  let priority := from_option id 0%Z (plugin_priority args) in
  methods "name" out =
    (if existsb (is_fn "name") items then methods "name" (strip_hooks <$> items)
     else [ItemFn "name" [] (name_body (plugin_name args))]) ∧
  methods "priority" out =
    (if existsb (is_fn "priority") items then methods "priority" (strip_hooks <$> items)
     else [ItemFn "priority" [] (priority_body priority)]) ∧
  suffix (strip_hooks <$> items) out ∧
  (∀ n attrs body, ItemFn n attrs body ∈ out → "hook" ∉ attrs).
Proof using Type.
  intros out priority. unfold out, expand_brioche_plugin. rewrite !existsb_strip.
  pose proof (existsb_strip "name" items) as Hn. pose proof (existsb_strip "priority" items) as Hp.
  split; [|split; [|split]].
  - rewrite !methods_app.
    destruct (existsb (is_fn "name") items); [|rewrite (methods_none "name" (strip_hooks <$> items)) by done];
      destruct (existsb (is_fn "priority") items); done.
  - rewrite !methods_app.
    destruct (existsb (is_fn "priority") items); [|rewrite (methods_none "priority" (strip_hooks <$> items)) by done];
      destruct (existsb (is_fn "name") items); done.
  - rewrite (assoc_L (++)). by eexists.
  - intros n attrs body. rewrite !elem_of_app. intros [H|[H|H]].
    + case_match; [by apply elem_of_nil in H|].
      apply list_elem_of_singleton in H as [= _ -> _]. by intros ?%elem_of_nil.
    + case_match; [by apply elem_of_nil in H|].
      apply list_elem_of_singleton in H as [= _ -> _]. by intros ?%elem_of_nil.
    + apply list_elem_of_fmap in H as ([n' attrs' body'|] & E & _); [|done]. injection E as -> -> ->.
      rewrite list_elem_of_In, filter_In. intros [_ H]. by case_bool_decide.
Qed.

(** The capabilities are checked against the known ones and then dropped. *)
Lemma capabilities_dropped name caps caps' priority items :
  expand_brioche_plugin name_body priority_body
    {| plugin_name := name; capabilities := caps; plugin_priority := priority |} items =
  expand_brioche_plugin name_body priority_body
    {| plugin_name := name; capabilities := caps'; plugin_priority := priority |} items.
Proof using Type. done. Qed.
End plugin.

Lemma capabilities_known args a :
  parse_plugin_args args = Ok a → Forall (λ c, c ∈ KNOWN_CAPABILITIES) (capabilities a).
Proof.
  unfold parse_plugin_args. destruct (read_plugin_args args _) as [[[n caps] p]|e]; [|done]. cbn.
  destruct (List.find _ caps) as [u|] eqn:E; [done|]. destruct n as [n|]; [|done]. intros [= <-]. cbn.
  apply Forall_forall. intros c Hc. apply list_elem_of_In in Hc.
  pose proof (List.find_none _ _ E _ Hc) as H. cbn in H. by case_bool_decide.
Qed.

Example split_capabilities_trims :
  split_capabilities "ON_INPUT | ON_ERROR |" = ["ON_INPUT"; "ON_ERROR"].
Proof. by vm_compute. Qed.

(** ** Offloaded tasks *)

Section offload_facts.
Context {I O : Type} (to_stdvec : I → option bytes) (from_bytes : bytes → option O) (d : O).

(** An input that does not serialise is sent as an empty payload, as one that serialises to
    nothing is; and what does not parse is read as the default. *)
Lemma offload_failure task_id input b :
  to_stdvec input = None → from_bytes b = None →
  offload_effect to_stdvec task_id input = Effect.ExecuteCpuTask task_id [] ∧
  deserialize_output from_bytes d b = d.
Proof using Type.
  intros Hi Ho. unfold offload_effect, serialize_input, deserialize_output. by rewrite Hi, Ho.
Qed.
End offload_facts.
