(* ===== verification/DesktopShell.v ===== *)
(** * The desktop shell (apps/brioche-desktop/src/commands/shell.rs): what is sent to the
      model, and the tools the shell is given

    The history transform composes the memory providers, the settings and the context
    engine; the tool table composes the system tools, the user tools and the tools of the
    memory providers. *)
From S2P Require Import Prelude Utf8 Types Effects Persistence GovTypes Sse Provider SystemTools.
From S2P Require Import Settings Extensions Memory UserTools.

(** ** The default registry (extensions/mod.rs) *)

Section default_set.
Context {C M T K X F : Type}.
Context (of_context : C → ExtensionMetadata) (of_memory : M → ExtensionMetadata).
Context (of_tools : T → ExtensionMetadata) (of_skills : K → ExtensionMetadata).
Context (of_section : X → ExtensionMetadata) (of_metric : F → ExtensionMetadata).
Context (compressor : C) (local_memory : M) (amp_memory : AmpMemoryEndpoint → M).
Context (default_tools : T) (skills : K) (sections : list X) (metrics : list F).

Definition amp_endpoint_of (e : MemoryEndpoint) : AmpMemoryEndpoint :=
  {| amp_id := endpoint_id e; amp_name := endpoint_name e; amp_url := endpoint_url e;
     amp_api_key := endpoint_api_key e; amp_scope := endpoint_scope e |}.

(** [loaded_tools]: the tool registry of the disk, if it can be loaded.  The sections are the
    six built-in ones, the metrics four of the five. *)
Definition default_set_from_settings (endpoints : list MemoryEndpoint)
    (loaded_tools : result T ProviderError) : ExtensionRegistry C M T K X F :=
  let r := register_context_engine of_context compressor ExtensionRegistry_new in
  let r := register_memory_provider of_memory local_memory r in
  let r := foldl (λ r e, if is_blank (endpoint_url e) then r
                         else register_memory_provider of_memory (amp_memory (amp_endpoint_of e)) r)
             r endpoints in
  let r := register_tool_provider of_tools
             match loaded_tools with Ok t => t | Err _ => default_tools end r in
  let r := register_skill_provider of_skills skills r in
  let r := foldl (λ r s, register_settings_section of_section s r) r sections in
  foldl (λ r m, register_footer_metric of_metric m r) r metrics.
End default_set.

(** ** What is sent *)

Section transform.
Context {R W : Type} (w : SecretEnv R) (settings : gmap string Value).
Context (memory_providers : list (MemoryProvider W)).

Definition user_text (m : ChatMessage) : option string :=
  match m with ChatMessage.User content => Some content | _ => None end.

(** The last message of the user, or nothing. *)
Definition conversation_summary (working : list ChatMessage) : string :=
  match head (omap user_text (reverse working)) with Some s => s | None => "" end.

Definition note_of (e : MemoryEntry) : string := entry_key e +:+ ": " +:+ entry_value e.

Definition provider_active (p : MemoryProvider W) : bool :=
  bool_decide (extension_id (memory_metadata p) ∈ active_memory_providers w settings).

(** The providers that are active are asked, in the order they are registered; a failing
    one is only logged. *)
Fixpoint recall_notes (providers : list (MemoryProvider W)) (summary : string) : State W (list string) :=
  match providers with
  | [] => ret []
  | p :: providers =>
      if provider_active p then
        r <-! recall p summary 3 ;;
        notes <-! recall_notes providers summary ;;
        ret (match r with Ok entries => note_of <$> entries | Err _ => [] end ++ notes)
      else recall_notes providers summary
  end.

(** The index of the first message that is not of the system, 0 when there is none. *)
Fixpoint first_non_system (l : list ChatMessage) : option nat :=
  match l with
  | [] => None
  | m :: l => if is_system m then S <$> first_non_system l else Some 0
  end.

Definition insert_at {A} (i : nat) (x : A) (l : list A) : list A := take i l ++ x :: drop i l.

Definition memory_message (notes : list string) : ChatMessage :=
  ChatMessage.System ("Relevant memory context:" +:+ String "010" "" +:+ join_lines notes).

Definition add_memory (notes : list string) (working : list ChatMessage) : list ChatMessage :=
  match notes with
  | [] => working
  | _ => insert_at (match first_non_system working with Some i => i | None => 0 end)
           (memory_message notes) working
  end.

Definition history_transform (history : list ChatMessage) :
    State (W * option string) (list ChatMessage) :=
  λ '(world, last_context_note),
    let '(notes, world) := recall_notes memory_providers (conversation_summary history) world in
    let working := add_memory notes history in
    if context_enabled w settings then
      let engine := CompressorContextEngine_new (context_trigger_percentage w settings)
                      (context_target_percentage w settings) (context_preserve_recent w settings) in
      let output := process (CompressorContextEngine_engine engine)
                      {| input_history := working;
                         input_context_window := context_window w settings;
                         estimated_tokens := estimate_tokens working |} in
      (output_messages output,
       (world, match output_note output with Some note => Some note | None => last_context_note end))
    else (working, (world, last_context_note)).
End transform.

(** ** Tools *)

Definition get_or_null (k : string) (v : Value) : Value :=
  match get k v with Some v => v | None => Null end.

Section tools.
Context {R W : Type} (w : SecretEnv R) (settings : gmap string Value).
(** The tools of the program, which act on the same world. *)
Context (read_tool write_tool list_tool : option Path → SystemTool W).
Context (execute : string → list string → option string → State W ProcessEnd).
Context (fetch_tool : SystemTool W).
(** What the user tools run with. *)
Context (user_tool : UserToolDefinition → SystemTool W).

Definition MemoryProviderTool (p : MemoryProvider W) (schema : Value) : SystemTool W :=
  let function := get_or_null "function" schema in
  let text k := match get k function with Some (Str s) => s | _ => "" end in
  {| system_tool_name := text "name";
     system_tool_description := text "description";
     parameters_schema := get_or_null "parameters" function;
     run args :=
       r <-! handle_tool_call p (text "name") args ;;
       ret match r with
           | Ok s => Ok s
           | Err e => Err (SystemTools.Io (ProviderError_to_string e))
           end |}.

Definition DEFAULT_COMMANDS : list string :=
  ["git"; "cargo"; "pnpm"; "npm"; "node"; "python3"; "rustc"; "ls"; "cat"; "echo"; "mkdir"; "rm";
   "cp"; "mv"; "pwd"; "find"; "grep"; "rg"; "code"].

Definition command_allow_list : gset string :=
  foldl (λ l c, with_command c l) AllowList_new (DEFAULT_COMMANDS ++ allowed_commands w settings).

Definition workspace_path : option Path :=
  if decide (working_dir w settings = "") then None else Some (components (working_dir w settings)).

Definition exec_tool : SystemTool W :=
  ExecuteCommandTool_tool execute
    (with_default_cwd (working_dir w settings)
      (with_policy (SandboxPolicy.AllowList command_allow_list) ExecuteCommandTool_new)).

Definition system_tools : list (SystemTool W) :=
  [read_tool workspace_path; write_tool workspace_path; list_tool workspace_path; exec_tool; fetch_tool].

(** [registries]: what [user_tools] gives for each tool provider. *)
Definition shell_user_tools (registries : list (result (list UserToolDefinition) ProviderError)) :
    list (SystemTool W) :=
  if user_tools_enabled w settings then
    user_tool <$> (registries ≫= λ r, match r with Ok l => l | Err _ => [] end)
  else [].

Definition memory_tools (providers : list (MemoryProvider W)) : list (SystemTool W) :=
  providers ≫= λ p,
    if provider_active w settings p then MemoryProviderTool p <$> tool_schemas p else [].

Definition tool_executor (registries : list (result (list UserToolDefinition) ProviderError))
    (providers : list (MemoryProvider W)) : gmap string (SystemTool W) :=
  foldl (λ x t, with_tool t x) SystemToolExecutor_new
    (system_tools ++ shell_user_tools registries ++ memory_tools providers).
End tools.
