(* ===== verification/ExtensionsSpec.v ===== *)
(** * Correctness of the context engine, the memory providers, the skills, and of what the
      desktop shell sends and offers *)
From S2P Require Import Prelude Utf8 Types Effects Persistence GovTypes Sse Provider.
From S2P Require Import SystemTools Settings Extensions Memory Skills UserTools DesktopShell.

(** ** Token estimates *)

Lemma estimate_app l1 l2 : estimate_tokens (l1 ++ l2) = (estimate_tokens l1 + estimate_tokens l2)%N.
Proof.
  unfold estimate_tokens. rewrite fmap_app. induction l1 as [|m l1 IH]; [done|]. cbn. rewrite IH. lia.
Qed.

Lemma estimate_permutation l1 l2 : l1 ≡ₚ l2 → estimate_tokens l1 = estimate_tokens l2.
Proof.
  unfold estimate_tokens. induction 1; cbn; try lia; congruence.
Qed.

Lemma estimate_filter f l :
  (estimate_tokens (List.filter f l) + estimate_tokens (List.filter (λ m, negb (f m)) l))%N
    = estimate_tokens l.
Proof.
  induction l as [|m l IH]; [done|]. cbn. destruct (f m); cbn; unfold estimate_tokens in *; cbn; lia.
Qed.

(** ** The compressor *)

(** The loop keeps as many of the newest messages as fit, and stops at the first that does
    not. *)
Lemma keep_older_spec target current l :
  ∃ rest, l = keep_older target current l ++ rest ∧
    (keep_older target current l = [] ∨
     (current + estimate_tokens (keep_older target current l) ≤ target)%N) ∧
    match rest with
    | [] => True
    | m :: _ => (target < current + estimate_tokens (keep_older target current l) + message_tokens m)%N
    end.
Proof.
  revert current. induction l as [|m l IH]; intros current; [by exists []; repeat split; left|].
  cbn [keep_older].
  assert (estimate_tokens [m] = message_tokens m) as -> by (unfold estimate_tokens; cbn; lia).
  destruct (target <? current + message_tokens m)%N eqn:E.
  - apply N.ltb_lt in E. exists (m :: l). split_and!; [done|by left|]. unfold estimate_tokens. cbn. lia.
  - apply N.ltb_ge in E. destruct (IH (current + message_tokens m)%N) as (rest & Hl & Hfit & Hrest).
    set (p := keep_older target (current + message_tokens m) l) in *.
    assert (estimate_tokens (m :: p) = message_tokens m + estimate_tokens p)%N as Hm by done.
    exists rest. split_and!; [by rewrite <- app_comm_cons; f_equal|right|]; rewrite Hm.
    + destruct Hfit as [->|]; [unfold estimate_tokens; cbn; lia|lia].
    + destruct rest; [done|lia].
Qed.

Definition non_system (l : list ChatMessage) : list ChatMessage :=
  List.filter (λ m, negb (is_system m)) l.

(** C32: what the context engine sends.  Below the trigger, or with few messages, the history
    itself.  Above it: the system messages, in their order; then the older messages that
    still fit under the target, taken from the newest back and stopping at the first that
    does not fit; then the most recent ones, in their order.  Nothing is invented or
    duplicated, the estimate never grows, and the target is exceeded only by what is
    always kept.  The older messages come out with the newest first. *)
Theorem context_compression (e : CompressorContextEngine) (input : ContextEngineInput) :
  let history := input_history input in
  let out := compressor_process e input in
  let window := input_context_window input in
  if ((estimate_tokens history <=? percentage window (trigger_percentage e)) ||
      (N.of_nat (length history) <=? usize_wrap (preserve_recent e + 1)))%N
  then out = {| output_messages := history; output_note := None |}
  else
    let target := percentage window (target_percentage e) in
    ∃ dropped older recent,
      non_system history = dropped ++ older ++ recent ∧
      length recent = Nat.min (Nat.max (N.to_nat (preserve_recent e)) 1) (length (non_system history)) ∧
      output_messages out = List.filter is_system history ++ reverse older ++ recent ∧
      (older = [] ∨ (estimate_tokens (output_messages out) ≤ target)%N) ∧
      (dropped = [] ∨ ∃ m, last dropped = Some m ∧
         (target < estimate_tokens (output_messages out) + message_tokens m)%N) ∧
      (estimate_tokens (output_messages out) ≤ estimate_tokens history)%N.
Proof.
  cbv zeta. unfold compressor_process. destruct (_ || _)%N; [done|].
  set (history := input_history input). set (n := N.to_nat (N.max (preserve_recent e) 1)).
  fold (non_system history). set (ns := non_system history).
  set (target := percentage (input_context_window input) (target_percentage e)).
  set (older := take (length ns - n) ns). set (recent := drop (length ns - n) ns).
  set (sys := List.filter is_system history). cbn [output_messages].
  destruct (keep_older_spec target (estimate_tokens sys + estimate_tokens recent) (reverse older))
    as (rest & Hl & Hfit & Hrest).
  set (p := keep_older target (estimate_tokens sys + estimate_tokens recent) (reverse older)) in *.
  assert (older = reverse rest ++ reverse p) as Ho
    by (rewrite <- (reverse_involutive older), Hl; apply reverse_app).
  assert (estimate_tokens (sys ++ p ++ recent) =
    estimate_tokens sys + estimate_tokens recent + estimate_tokens p)%N as Hest
    by (rewrite !estimate_app; lia).
  exists (reverse rest), (reverse p), recent. rewrite reverse_involutive, Hest. split_and!.
  - rewrite app_assoc, <- Ho. symmetry. apply take_drop.
  - subst recent. rewrite length_drop. subst n. lia.
  - done.
  - destruct Hfit as [->|]; [by left|right; lia].
  - destruct rest as [|m rest]; [by left|right]. exists m. split; [|lia].
    rewrite reverse_cons. apply last_snoc.
  - pose proof (estimate_filter is_system history) as Hf. fold sys in Hf.
    change (List.filter (λ m, negb (is_system m)) history) with ns in Hf.
    assert (estimate_tokens ns = estimate_tokens older + estimate_tokens recent)%N as Hns
      by (rewrite <- estimate_app; f_equal; symmetry; apply take_drop).
    rewrite Ho, estimate_app, (estimate_permutation (reverse p) p (reverse_Permutation p)) in Hns.
    lia.
Qed.

(** The order of the older messages is lost: a question and its answer change places. *)
Example older_reversed :
  let long := "0123456789012345678901234567890123456789" in
  let h := [ChatMessage.User long; ChatMessage.User "question"; ChatMessage.Assistant "answer" None [];
            ChatMessage.User "now"] in
  output_messages (compressor_process (CompressorContextEngine_new 10 50 1)
    {| input_history := h; input_context_window := 20; estimated_tokens := 0 |}) =
  [ChatMessage.Assistant "answer" None []; ChatMessage.User "question"; ChatMessage.User "now"].
Proof. vm_compute. done. Qed.

(** ** The local memory *)

(** What a memory is, seen from outside: a value and a category for every key. *)
Definition memory_view (entries : list MemoryEntry) : gmap string (string * string) :=
  list_to_map ((λ e, (entry_key e, (entry_value e, category e))) <$> entries).
Definition memory_keys (entries : list MemoryEntry) : list string := entry_key <$> entries.

Lemma set_entry_view now k v c entries :
  memory_view (set_entry now k v c entries) = <[k := (v, c)]> (memory_view entries).
Proof.
  unfold memory_view. induction entries as [|e l IH]; [done|]. cbn. unfold entry_named.
  case_bool_decide as E; cbn.
  - by rewrite E, insert_insert_eq.
  - by rewrite IH, insert_insert_ne.
Qed.

Lemma set_entry_keys now k v c entries :
  memory_keys (set_entry now k v c entries) =
    if decide (k ∈ memory_keys entries) then memory_keys entries else memory_keys entries ++ [k].
Proof.
  unfold memory_keys. induction entries as [|e l IH]; [by rewrite decide_False by set_solver|].
  cbn. unfold entry_named. case_bool_decide as E; cbn.
  - rewrite decide_True by (subst k; by left). done.
  - rewrite IH. destruct (decide (k ∈ entry_key <$> l)) as [Hin|Hin].
    + rewrite decide_True by (by right). done.
    + rewrite decide_False; [done|]. intros [?|?]%elem_of_cons; [congruence|done].
Qed.

Lemma kept_entries_view k entries :
  memory_view (List.filter (λ e, negb (entry_named k e)) entries) = delete k (memory_view entries).
Proof.
  unfold memory_view. induction entries as [|e l IH]; [cbn; by rewrite delete_empty|]. cbn.
  unfold entry_named at 1. case_bool_decide as E; cbn; rewrite IH.
  - by rewrite E, delete_insert_eq.
  - by rewrite delete_insert_ne.
Qed.

Lemma kept_entries_keys k entries :
  NoDup (memory_keys entries) →
  NoDup (memory_keys (List.filter (λ e, negb (entry_named k e)) entries)).
Proof.
  unfold memory_keys. induction entries as [|e l IH]; [done|]. cbn. intros [Hn Hl]%NoDup_cons.
  destruct (negb (entry_named k e)); cbn; [|by apply IH]. apply NoDup_cons. split; [|by apply IH].
  intros (e' & He & Hin)%list_elem_of_fmap. apply Hn. apply list_elem_of_fmap. exists e'.
  split; [exact He|]. apply list_elem_of_In in Hin. apply list_elem_of_In. by apply List.filter_In in Hin as [? _].
Qed.

Lemma kept_entries_length k entries :
  length (List.filter (λ e, negb (entry_named k e)) entries) < length entries ↔
  is_Some (memory_view entries !! k).
Proof.
  unfold memory_view. induction entries as [|e l IH]; [split; [cbn; lia|by intros [? ?]]|]. cbn.
  pose proof (List.filter_length_le (λ e, negb (entry_named k e)) l) as Hle.
  unfold entry_named at 1. case_bool_decide as E; cbn.
  - rewrite E, lookup_insert_eq. split; [eauto|lia].
  - rewrite lookup_insert_ne by done. rewrite <- IH. lia.
Qed.

(** The order of a recall. *)
Definition better (to_lowercase : string → string) (q : string) (e e' : MemoryEntry) : Prop :=
  entry_score to_lowercase q e' < entry_score to_lowercase q e ∨
  entry_score to_lowercase q e' = entry_score to_lowercase q e ∧ (access_count e' ≤ access_count e)%N.

Lemma compare_scored_le a b :
  cmp_le compare_scored a b ↔ b.1 < a.1 ∨ b.1 = a.1 ∧ (access_count b.2 ≤ access_count a.2)%N.
Proof.
  unfold cmp_le, compare_scored. destruct (Nat.compare_spec b.1 a.1) as [E|E|E].
  - fold (N.le (access_count b.2) (access_count a.2)). split; [intros; right|intros [?|[_ ?]]]; try done; lia.
  - split; [by left|done].
  - split; [done|]. intros [?|[? _]]; lia.
Qed.

Lemma sort_scored_sorted l : StronglySorted (cmp_le compare_scored) (sort_by compare_scored l).
Proof.
  apply sort_by_sorted.
  - intros a b. unfold compare_scored. rewrite (Nat.compare_antisym b.1 a.1).
    destruct (Nat.compare b.1 a.1); cbn; [|done|done]. apply N.compare_antisym.
  - intros a b c. rewrite !compare_scored_le. lia.
Qed.

Lemma scored_better lower q l :
  StronglySorted (cmp_le compare_scored) l → Forall (λ se, se.1 = entry_score lower q se.2) l →
  StronglySorted (better lower q) (snd <$> l).
Proof.
  induction 1 as [|[s e] l Hl IH Hall]; intros Hs; [constructor|]. apply Forall_cons in Hs as [Hs Hsl].
  cbn in *. constructor; [by apply IH|]. apply Forall_fmap. rewrite Forall_forall in *.
  intros [s' e'] Hin. specialize (Hall _ Hin). apply compare_scored_le in Hall. cbn in *.
  specialize (Hsl _ Hin). cbn in Hsl. unfold better. subst. exact Hall.
Qed.

Lemma scored_filter lower q entries :
  snd <$> List.filter (λ se : nat * MemoryEntry, 0 <? se.1) ((λ e, (entry_score lower q e, e)) <$> entries) =
  List.filter (λ e, 0 <? entry_score lower q e) entries.
Proof.
  induction entries as [|e l IH]; [done|]. rewrite fmap_cons. cbn [List.filter fst].
  destruct (0 <? entry_score lower q e); [|done]. rewrite fmap_cons, IH. done.
Qed.

Section local.
Context (to_lowercase : string → string).
Context {D : Type} (config_dir : option Path) (temp_dir : Path) (now : D → N).
Context (create_dir_all : Path → State D (result unit IoError)).
Context (write_file : Path → string → State D (result unit IoError)).
Context (to_json : list MemoryEntry → result string string).
#[local] Abbreviation local :=
  (LocalMemoryProvider to_lowercase config_dir temp_dir now create_dir_all write_file to_json).

Lemma local_save_memory s :
  (local_save config_dir temp_dir create_dir_all write_file to_json s).2.1 = s.1.
Proof using Type.
  destruct s as [entries d]. unfold local_save.
  by destruct (save_file config_dir temp_dir create_dir_all write_file to_json "memory.json" entries d).
Qed.

(** The local memory is a map.  Whatever the disk does, setting a key inserts its value
    and category, deleting a key removes it and reports whether it was there, keys stay
    unique, and listing and recalling change nothing.  A list has exactly the entries
    that match; a recall has the best entries with a positive score, best first, up to
    the limit. *)
Theorem local_memory_map (s : list MemoryEntry * D) :
  (∀ k v c, let s' := (memory_set local k v c s).2 in
     memory_view s'.1 = <[k := (v, c)]> (memory_view s.1) ∧
     (NoDup (memory_keys s.1) → NoDup (memory_keys s'.1))) ∧
  (∀ k, let '(r, s') := memory_delete local k s in
     memory_view s'.1 = delete k (memory_view s.1) ∧
     (NoDup (memory_keys s.1) → NoDup (memory_keys s'.1)) ∧
     ∀ removed, r = Ok removed → (removed = true ↔ is_Some (memory_view s.1 !! k))) ∧
  (∀ query, memory_list local query s = (Ok (local_list to_lowercase query s.1), s) ∧
     ∀ e, e ∈ local_list to_lowercase query s.1 ↔ e ∈ s.1 ∧ entry_matches to_lowercase query e = true) ∧
  ∀ summary limit, ∃ ranked, recall local summary limit s = (Ok (take limit ranked), s) ∧
    ranked ≡ₚ List.filter (λ e, 0 <? entry_score to_lowercase (to_lowercase summary) e) s.1 ∧
    StronglySorted (better to_lowercase (to_lowercase summary)) ranked.
Proof using Type.
  split_and!.
  - intros k v c. cbv zeta.
    change (memory_set local k v c s)
      with (local_save config_dir temp_dir create_dir_all write_file to_json
              (set_entry (now s.2) k v c s.1, s.2)).
    rewrite local_save_memory. cbn [fst]. split; [apply set_entry_view|]. intros H.
    rewrite set_entry_keys. case_decide as E; [done|]. apply NoDup_app.
    split_and!; [done| |apply NoDup_singleton]. by intros x Hx ->%list_elem_of_singleton.
  - intros k. cbn [memory_delete local]. unfold local_delete, bind, gets, put_entries, bind_ok, ret.
    cbn [fst snd]. pose proof (kept_entries_length k s.1) as Hlen.
    pose proof (kept_entries_view k s.1) as Hview. pose proof (kept_entries_keys k s.1) as Hkeys.
    set (kept := List.filter (λ e, negb (entry_named k e)) s.1) in *.
    destruct (length kept <? length s.1) eqn:E.
    + apply Nat.ltb_lt in E. unfold bind.
      destruct (local_save config_dir temp_dir create_dir_all write_file to_json (kept, s.2))
        as [r s'] eqn:Es.
      assert (s'.1 = kept) as Hs by (change s' with (r, s').2; rewrite <- Es; apply local_save_memory).
      destruct r as [[]|e]; cbn [fst snd]; rewrite Hs; split_and!; try done.
      intros removed [= <-]. by rewrite <- Hlen.
    + apply Nat.ltb_ge in E. split_and!; [done|done|]. intros removed [= <-].
      rewrite <- Hlen. split; [done|lia].
  - intros query. split; [done|]. intros e. unfold local_list.
    by rewrite list_elem_of_In, List.filter_In, <- list_elem_of_In.
  - intros summary limit. set (q := to_lowercase summary).
    set (scored := List.filter (λ se : nat * MemoryEntry, 0 <? se.1)
                     ((λ e, (entry_score to_lowercase q e, e)) <$> s.1)).
    exists (snd <$> sort_by compare_scored scored). split_and!.
    + cbn. unfold bind, gets, ret, local_recall. cbn [fst snd]. fold q. fold scored.
      by rewrite fmap_take.
    + rewrite <- (scored_filter to_lowercase q s.1). fold scored. by rewrite sort_by_permutation.
    + apply scored_better; [apply sort_scored_sorted|]. rewrite sort_by_permutation.
      apply Forall_forall. intros [n e] Hin. apply list_elem_of_In, List.filter_In in Hin as [Hin _].
      apply list_elem_of_In, list_elem_of_fmap in Hin as (e' & [= -> ->] & _). done.
Qed.
End local.

(** ** Skills: which ones are enabled, what a scan finds *)

Lemma name_enabled_add name enabled x :
  name_enabled (add_name name enabled) x = bool_decide (x = name ∨ x ∈ enabled).
Proof.
  unfold name_enabled, add_name. rewrite <- bool_decide_or.
  destruct (decide (name ∈ enabled)) as [Hin|Hin];
    [rewrite (bool_decide_true (name ∈ enabled)) by done
    |rewrite (bool_decide_false (name ∈ enabled)) by done];
    apply bool_decide_ext; split.
  - intros [->|H]; [by apply elem_of_nil in Hin|by right].
  - intros [->|H]; by right.
  - intros [H|H]; [by apply app_nil in H as [_ ?]|].
    apply elem_of_app in H as [H| ->%list_elem_of_singleton]; [by right|by left].
  - intros [->|H]; right; apply elem_of_app; [right; by left|by left].
Qed.

Lemma elem_of_remove name x enabled : x ∈ remove_name name enabled ↔ x ∈ enabled ∧ x ≠ name.
Proof.
  unfold remove_name.
  by rewrite !list_elem_of_In, List.filter_In, negb_true_iff, bool_decide_eq_false.
Qed.

Lemma remove_name_nil name enabled :
  remove_name name enabled = [] ↔ Forall (λ n, n = name) enabled.
Proof.
  split.
  - intros H. apply Forall_forall. intros x Hx. destruct (decide (x = name)); [done|].
    assert (x ∈ remove_name name enabled) as Hr by by apply elem_of_remove.
    rewrite H in Hr. by apply elem_of_nil in Hr.
  - intros H. destruct (remove_name name enabled) as [|x l] eqn:E; [done|].
    assert (x ∈ remove_name name enabled) as Hx by (rewrite E; by left).
    apply elem_of_remove in Hx as [Hx Hne]. rewrite Forall_forall in H. by apply H in Hx.
Qed.

Section registry.
Context {D : Type} (config_dir : option Path) (temp_dir : Path).
Context (create_dir_all : Path → State D (result unit IoError)).
Context (write_file : Path → string → State D (result unit IoError)).
Context (to_json : list string → result string string).

Lemma save_enabled_memory s :
  (save_enabled config_dir temp_dir create_dir_all write_file to_json s).2.1 = s.1.
Proof using Type.
  destruct s as [enabled d]. unfold save_enabled.
  by destruct (save_file config_dir temp_dir create_dir_all write_file to_json
                 "skills-enabled.json" enabled d).
Qed.

(** Which skills are enabled after a switch.  Enabling a skill enables it, keeps the named
    ones, and so disables every other skill when none was named before.  Disabling a skill
    disables it and no other, unless no other is named: then every skill, this one
    included, is enabled. *)
Theorem skill_switches name enable (s : list string * D) x :
  let s' := (skill_set_enabled config_dir temp_dir create_dir_all write_file to_json name enable s).2 in
  name_enabled s'.1 x =
    if enable then bool_decide (x = name ∨ x ∈ s.1)
    else bool_decide (Forall (λ n, n = name) s.1 ∨ (x ∈ s.1 ∧ x ≠ name)).
Proof using Type.
  cbv zeta. unfold skill_set_enabled, bind, gets, put_enabled. cbn [fst snd].
  rewrite save_enabled_memory. cbn [fst]. destruct enable; [apply name_enabled_add|].
  unfold name_enabled. rewrite <- bool_decide_or. apply bool_decide_ext.
  by rewrite remove_name_nil, elem_of_remove.
Qed.
End registry.

(** The first skill that is disabled, while all are enabled, stays enabled. *)
Example disable_first_skill :
  let s' := (skill_set_enabled (D := unit) None [RootDir] (λ _ d, (Ok tt, d)) (λ _ _ d, (Ok tt, d))
               (λ _, Ok "[]") "a" false ([], tt)).2 in
  name_enabled s'.1 "a" = true.
Proof. vm_compute. done. Qed.

(** A skill made by [create_skill] is found with its name; a description with three dashes
    ends the frontmatter early. *)
Example created_skill_parsed :
  skill_name <$> parse_skill [RootDir] ["cat"; "s"] (Some (skill_text "s" "d" "body")) = Some "s" ∧
  skill_content <$> parse_skill [RootDir] ["cat"; "s"] (Some (skill_text "s" "d" "body")) = Some "body" ∧
  skill_license <$> parse_skill [RootDir] ["cat"; "s"] (Some (skill_text "s" "a --- b" "body")) = Some "".
Proof. vm_compute. done. Qed.

(** A file of a skill is read wherever the path leads. *)
Example skill_file_escapes :
  join (components "/home/u/.hermes/skills/a") (components "/etc/passwd") = components "/etc/passwd".
Proof. vm_compute. done. Qed.

(** ** What the compressor always keeps *)

Lemma filter_system_split l :
  List.filter is_system (List.filter is_system l) = List.filter is_system l ∧
  List.filter is_system (non_system l) = [] ∧ non_system (List.filter is_system l) = [] ∧
  non_system (non_system l) = non_system l.
Proof.
  unfold non_system. induction l as [|m l (H1 & H2 & H3 & H4)]; [done|]. cbn.
  destruct (is_system m) eqn:E; cbn; rewrite ?E; cbn; rewrite ?H1, ?H2, ?H3, ?H4; done.
Qed.

Definition all_non_system (l : list ChatMessage) : Prop := Forall (λ m, is_system m = false) l.

Lemma all_non_system_filter l :
  all_non_system l → List.filter is_system l = [] ∧ non_system l = l.
Proof.
  unfold non_system. induction 1 as [|m l Hm _ [H1 H2]]; [done|]. cbn. rewrite Hm. cbn.
  by rewrite H1, H2.
Qed.

Lemma non_system_all l : all_non_system (non_system l).
Proof.
  apply Forall_forall. intros m Hm. apply list_elem_of_In, List.filter_In in Hm as [_ Hm].
  by apply negb_true_iff.
Qed.

Lemma non_system_app l1 l2 : non_system (l1 ++ l2) = non_system l1 ++ non_system l2.
Proof. apply List.filter_app. Qed.

(** The system messages, the newest message, and no message that was not there. *)
Record keeps (history sent : list ChatMessage) : Prop := {
  keeps_system : List.filter is_system sent = List.filter is_system history;
  keeps_newest : last (non_system sent) = last (non_system history);
  keeps_subset : non_system sent ⊆+ non_system history
}.

Lemma last_drop {A} (l : list A) n : n < length l → last (drop n l) = last l.
Proof.
  intros H. rewrite <- (take_drop n l) at 2. rewrite last_app.
  destruct (last (drop n l)) eqn:E; [done|]. apply last_None in E.
  pose proof (length_drop l n). rewrite E in *. cbn in *. lia.
Qed.

Lemma compressor_keeps e input :
  keeps (input_history input) (output_messages (compressor_process e input)).
Proof.
  unfold compressor_process. destruct (_ || _)%N; [by split|]. cbn [output_messages].
  set (history := input_history input). fold (non_system history).
  set (n := N.to_nat (N.max (preserve_recent e) 1)). assert (1 ≤ n) as Hn by (subst n; lia).
  set (k := length (non_system history) - n).
  set (t := percentage (input_context_window input) (target_percentage e)).
  destruct (keep_older_spec t (estimate_tokens (List.filter is_system history)
    + estimate_tokens (drop k (non_system history))) (reverse (take k (non_system history))))
    as (rest & Hl & _).
  set (p := keep_older _ _ _) in *.
  pose proof (non_system_all history) as Hall.
  assert (take k (non_system history) = reverse rest ++ reverse p) as Ht
    by (rewrite <- (reverse_involutive (take k _)), Hl; apply reverse_app).
  assert (all_non_system (p ++ drop k (non_system history))) as Hpd.
  { rewrite <- (take_drop k (non_system history)), Ht in Hall. unfold all_non_system in *.
    rewrite !Forall_app in Hall. destruct Hall as [[_ Hp] Hd]. apply Forall_app. split; [|done].
    by rewrite reverse_Permutation in Hp. }
  destruct (all_non_system_filter _ Hpd) as [F1 F2].
  destruct (filter_system_split history) as (S1 & _ & S3 & _).
  split.
  - by rewrite List.filter_app, F1, S1, app_nil_r.
  - rewrite non_system_app, S3, F2. cbn [app]. rewrite last_app.
    destruct (decide (non_system history = [])) as [E|E].
    + rewrite E, drop_nil in *. cbn. rewrite take_nil in Hl. symmetry in Hl.
      by apply app_nil in Hl as [-> _].
    + assert (0 < length (non_system history)) by (destruct (non_system history); cbn; [done|lia]).
      rewrite last_drop by (subst k; lia).
      destruct (last (non_system history)) eqn:El; [done|]. by apply last_None in El.
  - rewrite non_system_app, S3, F2. cbn [app].
    rewrite <- (take_drop k (non_system history)) at 2. rewrite Ht.
    rewrite (reverse_Permutation p). apply submseteq_app; [|done].
    by apply submseteq_inserts_l.
Qed.

(** ** The memory message *)

Lemma first_non_system_spec l :
  match first_non_system l with
  | Some i => ∃ lead m rest, l = lead ++ m :: rest ∧ length lead = i ∧
                Forall (λ x, is_system x = true) lead ∧ is_system m = false
  | None => Forall (λ x, is_system x = true) l
  end.
Proof.
  induction l as [|m l IH]; [constructor|]. cbn. destruct (is_system m) eqn:E; cbn.
  - destruct (first_non_system l) as [i|]; cbn.
    + destruct IH as (lead & x & rest & -> & <- & Hl & Hx). exists (m :: lead), x, rest.
      split_and!; try done. by constructor.
    + by constructor.
  - exists [], m, l. split_and!; try done.
Qed.

(** Where the memory message goes: behind the leading system messages, or in front when there
    is no other message. *)
Lemma add_memory_spec notes l :
  notes ≠ [] →
  ∃ lead rest, l = lead ++ rest ∧ add_memory notes l = lead ++ memory_message notes :: rest ∧
    Forall (λ x, is_system x = true) lead ∧
    (lead = [] ∨ ∃ m rest', rest = m :: rest' ∧ is_system m = false).
Proof.
  intros Hn. destruct notes as [|n notes]; [done|]. cbn [add_memory].
  pose proof (first_non_system_spec l) as H. destruct (first_non_system l) as [i|].
  - destruct H as (lead & m & rest & -> & <- & Hl & Hm). exists lead, (m :: rest).
    unfold insert_at. rewrite take_app_length, drop_app_length. split_and!; eauto 10.
  - exists [], l. split_and!; [done|done|constructor|by left].
Qed.

Lemma add_memory_keeps notes l :
  non_system (add_memory notes l) = non_system l ∧
  List.filter is_system (add_memory notes l) ≡ₚ
    match notes with [] => [] | _ => [memory_message notes] end ++ List.filter is_system l.
Proof.
  destruct notes as [|n notes]; [done|].
  destruct (add_memory_spec (n :: notes) l) as (lead & rest & -> & -> & _); [done|].
  rewrite !non_system_app, !List.filter_app. split; [done|]. cbn.
  by rewrite <- Permutation_middle.
Qed.

Section transform.
Context {R W : Type} (w : SecretEnv R) (settings : gmap string Value).
Context (memory_providers : list (MemoryProvider W)).
#[local] Abbreviation transform := (history_transform w settings memory_providers).

Lemma recall_notes_inactive providers summary (world : W) :
  Forall (λ p, provider_active w settings p = false) providers →
  recall_notes w settings providers summary world = ([], world).
Proof using Type. induction 1 as [|p l Hp _ IH]; [done|]. cbn. by rewrite Hp. Qed.

End transform.
