(* ===== verification/DesktopSessions.v ===== *)
(** * The sessions of the desktop application (apps/brioche-desktop/src/state.rs,
      commands/session/: chat.rs, lifecycle.rs, listing.rs, loading.rs, attachments.rs, slash.rs;
      brioche-shell-runtime/src/util.rs)

    The state of the application is one record: the session manager, the factory of shells,
    the storage, and the world [W] (clock, files, memory providers, running shells).  A
    command is a state computation; a command that panics is an error value.  What a
    broadcast receiver yields while a command reads it is an argument. *)
From S2P Require Import Prelude Utf8 Types Effects Extension Session Plugins Persistence GovTypes.
From S2P Require Import Sse Provider SystemTools Executor Settings Extensions Memory DesktopShell.

(** ** util.rs *)

Section util.
Context {W : Type}.
Context (create_dir_all : Path → State W (result unit IoError)).
Context (write_file : Path → string → State W (result unit IoError)).
Context (read_to_string : Path → State W (result string IoError)).

Definition load_json {A} (from_str : string → result A string) (path : Path) (context : string) :
    State W (result A string) :=
  data <-? (r <-! read_to_string path ;;
            ret (map_err (λ e, "Failed to read " +:+ context +:+ ": " +:+ e) r)) ;;
  ret (map_err (λ e, "Failed to parse " +:+ context +:+ ": " +:+ e) (from_str data)).

Definition load_json_or_default {A} (default : A) (from_str : string → result A string)
    (path : Path) : State W A :=
  r <-! load_json from_str path "config" ;;
  ret match r with Ok value => value | Err _ => default end.

Definition save_json {A} (to_string_pretty : A → result string string) (path : Path) (value : A)
    (context : string) : State W (result unit string) :=
  _ <-? match parent path with
        | Some dir =>
            r <-! create_dir_all dir ;;
            ret (map_err (λ e, "Failed to create " +:+ context +:+ " dir: " +:+ e) r)
        | None => ret (Ok tt)
        end ;;
  data <-? ret (map_err (λ e, "Failed to serialize " +:+ context +:+ ": " +:+ e)
                  (to_string_pretty value)) ;;
  r <-! write_file path data ;;
  ret (map_err (λ e, "Failed to write " +:+ context +:+ ": " +:+ e) r).
End util.

(** ** chat.rs: what the front end is sent *)

Module ChatRole.
Inductive ChatRole : Type := System | User | Assistant | ToolRequest | ToolResult.
End ChatRole.
Abbreviation ChatRole := ChatRole.ChatRole.
Definition ChatRole_default : ChatRole := ChatRole.System.

Record ChatMessagePayload := {
  role : ChatRole;
  payload_content : string;
  payload_tool_id : option string;
  payload_tool_name : option string;
  payload_tool_arguments : option string;
  payload_tool_output : option string
}.

(** A payload that has no tool fields. *)
Definition plain_payload (r : ChatRole) (content : string) : ChatMessagePayload :=
  {| role := r; payload_content := content; payload_tool_id := None; payload_tool_name := None;
     payload_tool_arguments := None; payload_tool_output := None |}.

Definition payload_of_message (msg : ChatMessage) : ChatMessagePayload :=
  match msg with
  | ChatMessage.System content => plain_payload ChatRole.System content
  | ChatMessage.User content => plain_payload ChatRole.User content
  | ChatMessage.Assistant content _ _ => plain_payload ChatRole.Assistant content
  | ChatMessage.ToolRequest id name arguments =>
      {| role := ChatRole.ToolRequest;
         payload_content := "Tool " +:+ name +:+ " (" +:+ id +:+ "): " +:+ arguments;
         payload_tool_id := Some id; payload_tool_name := Some name;
         payload_tool_arguments := Some arguments; payload_tool_output := None |}
  | ChatMessage.ToolResult id content =>
      {| role := ChatRole.ToolResult;
         payload_content := "Tool result " +:+ id +:+ ": " +:+ content;
         payload_tool_id := Some id; payload_tool_name := None;
         payload_tool_arguments := None; payload_tool_output := Some content |}
  end.

(** The end of a turn and status lines are not sent. *)
Definition payload_of_chunk (chunk : LlmChunk) : option ChatMessagePayload :=
  match chunk with
  | LlmChunk.Text text | LlmChunk.Reasoning text => Some (plain_payload ChatRole.Assistant text)
  | LlmChunk.ToolCallStart id name =>
      Some {| role := ChatRole.ToolRequest; payload_content := "Tool call: " +:+ name;
              payload_tool_id := Some id; payload_tool_name := Some name;
              payload_tool_arguments := None; payload_tool_output := None |}
  | LlmChunk.ToolArgument _ fragment => Some (plain_payload ChatRole.ToolResult fragment)
  | LlmChunk.ToolCallDone _ => Some (plain_payload ChatRole.ToolResult "")
  | LlmChunk.ToolResult name output =>
      Some {| role := ChatRole.ToolResult; payload_content := name +:+ ": " +:+ output;
              payload_tool_id := None; payload_tool_name := Some name;
              payload_tool_arguments := None; payload_tool_output := Some output |}
  | LlmChunk.Done => None
  | LlmChunk.Error err => Some (plain_payload ChatRole.System err)
  | LlmChunk.Warning w => Some (plain_payload ChatRole.System w)
  | LlmChunk.Status _ => None
  end.

(** What a broadcast receiver answers, besides a value. *)
Inductive RecvError : Type := RecvClosed | RecvLagged (skipped : N).

(** The loop ends at the first error; [false] when it is still waiting. *)
Fixpoint forward_llm_chunks (items : list (result LlmChunk RecvError)) :
    list ChatMessagePayload * bool :=
  match items with
  | [] => ([], false)
  | Err _ :: _ => ([], true)
  | Ok chunk :: items =>
      let '(payloads, ended) := forward_llm_chunks items in
      (option_list (payload_of_chunk chunk) ++ payloads, ended)
  end.

(** What is emitted to the front end. *)
Inductive Emitted : Type :=
  | ChatMessageEvent (payload : ChatMessagePayload)
  | SessionChanged (id : string)
  | SessionsUpdated
  | AppExit.

(** ** state.rs: sessions and their metadata *)

Record SessionMetadata := { meta_id : string; meta_created_at : N; meta_workspace : string }.

(** The shell is the session its engine thread owns; the client is the mirror history it
    shares; [llm_rx] says whether the receiver of chunks is still there. *)
Record SessionEntry {U : AnyUniverse} {P : Type} := {
  entry_session : Session U P;
  entry_mirror : list ChatMessage;
  llm_rx : bool
}.
Arguments SessionEntry U P : clear implicits.

Record SessionManager {U : AnyUniverse} {P : Type} := {
  current : string;
  sessions : gmap string (SessionEntry U P);
  metadata : gmap string SessionMetadata
}.
Arguments SessionManager U P : clear implicits.

(** The file of the metadata; the manager below uses it through these two. *)
Section metadata_file.
Context {W : Type} (config_dir : option Path) (temp_dir : Path).
Context (create_dir_all : Path → State W (result unit IoError)).
Context (write_file : Path → string → State W (result unit IoError)).
Context (read_to_string : Path → State W (result string IoError)).
Context (to_string_pretty : gmap string SessionMetadata → result string string).
Context (from_str : string → result (gmap string SessionMetadata) string).

Definition metadata_path : Path :=
  join (join match config_dir with Some d => d | None => temp_dir end [Normal "brioche-desktop"])
    [Normal "sessions.json"].
Definition load_metadata : State W (result (gmap string SessionMetadata) string) :=
  load_json read_to_string from_str metadata_path "session metadata".
Definition save_metadata (meta : gmap string SessionMetadata) : State W (result unit string) :=
  save_json create_dir_all write_file to_string_pretty metadata_path meta "session metadata".
End metadata_file.

Section manager.
Context {U : AnyUniverse} {P : Type} {W : Type}.
Context (clock : W → N).
(** [load_metadata] and [save_metadata]. *)
Context (load_metadata_file : State W (result (gmap string SessionMetadata) string)).
Context (save_metadata_file : gmap string SessionMetadata → State W (result unit string)).
#[local] Abbreviation Manager := (SessionManager U P).
#[local] Abbreviation Entry := (SessionEntry U P).

Definition set_sessions (f : gmap string Entry → gmap string Entry) (m : Manager) : Manager :=
  {| current := current m; sessions := f (sessions m); metadata := metadata m |}.
Definition set_metadata (f : gmap string SessionMetadata → gmap string SessionMetadata)
    (m : Manager) : Manager :=
  {| current := current m; sessions := sessions m; metadata := f (metadata m) |}.

Definition SessionMetadata_new (id workspace : string) : State W SessionMetadata :=
  now <-! gets clock ;;
  ret {| meta_id := id; meta_created_at := now; meta_workspace := workspace |}.

(** Changes the map in memory, then writes the file. *)
Definition insert_metadata (meta : SessionMetadata) : State (Manager * W) (result unit string) :=
  λ '(m, w),
    let m := set_metadata (insert (meta_id meta) meta) m in
    let '(r, w) := save_metadata_file (metadata m) w in (r, (m, w)).

Definition remove_metadata (id : string) : State (Manager * W) (result unit string) :=
  λ '(m, w),
    let m := set_metadata (delete id) m in
    let '(r, w) := save_metadata_file (metadata m) w in (r, (m, w)).

(** Metadata that cannot be loaded is empty. *)
Definition SessionManager_new (id : string) (entry : Entry) (workspace : string) :
    State W (result Manager string) :=
  loaded <-! load_metadata_file ;;
  let m := {| current := id; sessions := {[ id := entry ]};
              metadata := match loaded with Ok meta => meta | Err _ => ∅ end |} in
  meta <-! SessionMetadata_new id workspace ;;
  λ w, let '(r, (m, w)) := insert_metadata meta (m, w) in
       (result_bind r (λ _, Ok m), w).

Definition current_entry (m : Manager) : option Entry := sessions m !! current m.

(** Unknown sessions are ignored. *)
Definition switch_to (id : string) (m : Manager) : Manager :=
  match sessions m !! id with
  | Some _ => {| current := id; sessions := sessions m; metadata := metadata m |}
  | None => m
  end.

Definition insert_entry (id : string) (entry : Entry) (m : Manager) : Manager :=
  set_sessions (insert id entry) m.

Definition list_ids (m : Manager) : list string := btree_keys (sessions m).

(** The removal is undone when the file cannot be written. *)
Definition delete_non_current (id : string) : State (Manager * W) (result unit string) :=
  λ '(m, w),
    if decide (current m = id) then (Err "Cannot delete the active session", (m, w))
    else match sessions m !! id with
         | None => (Err ("Session '" +:+ id +:+ "' not found"), (m, w))
         | Some removed =>
             let m' := set_metadata (delete id) (set_sessions (delete id) m) in
             match save_metadata_file (metadata m') w with
             | (Ok _, w) => (Ok tt, (m', w))
             | (Err e, w) =>
                 let m' := set_sessions (insert id removed) m' in
                 (Err e, (match metadata m !! id with
                          | Some meta => set_metadata (insert id meta) m'
                          | None => m'
                          end, w))
             end
         end.

Definition take_llm_rx (m : Manager) : bool * Manager :=
  match current_entry m with
  | Some e =>
      (llm_rx e, set_sessions (insert (current m)
                   {| entry_session := entry_session e; entry_mirror := entry_mirror e;
                      llm_rx := false |}) m)
  | None => (false, m)
  end.

(** [llm.push_message] on the client of a session. *)
Definition push_to_mirror (id : string) (msgs : list ChatMessage) (m : Manager) : Manager :=
  set_sessions (alter (λ e, {| entry_session := entry_session e;
                               entry_mirror := entry_mirror e ++ msgs; llm_rx := llm_rx e |}) id) m.
End manager.

(** ** builder.rs of brioche-shell-builder: the prompt every client starts with *)

Definition DEFAULT_SYSTEM_PROMPT : string :=
  "You are a helpful AI coding assistant with access to filesystem tools. CRITICAL RULES: 1. When the user asks you to create, write, or modify ANY file, you MUST use the write_file tool. 2. NEVER output file contents directly in your response text — ALWAYS use the write_file tool with the full content. 3. For large files, you may use multiple write_file calls with append=true after the first call. 4. Use read_file before modifying existing files. 5. Use execute_command for shell commands. 6. Use list_dir to explore directories. 7. If you need to fetch content from the web, use fetch_url. 8. After using write_file, the tool result will confirm success. Do not read the file back unless the user asks.".

(** ** state.rs: the state of the application *)

(** What a factory of shells carries of the settings: the configuration of the client is
    accepted or not, the working directory, the memory providers of the registry. *)
Record ShellFactory {W : Type} := {
  client_config : result unit ShellError;
  factory_settings : gmap string Value;
  factory_memory : list (MemoryProvider W)
}.
Arguments ShellFactory W : clear implicits.

Record DesktopState {U : AnyUniverse} {P W : Type} := {
  manager : option (SessionManager U P);
  factory : ShellFactory W;
  storage : RedbStorage;
  world : W;
  emitted : list Emitted
}.
Arguments DesktopState U P W : clear implicits.

(** How a command fails: an error message, or a panic of its task. *)
Inductive CommandError : Type :=
  | Message (e : string)
  | Panic.

Section desktop.
Context `{!PersistCodec} {U : AnyUniverse} {P : Type} `{!CycleRollbackPolicy U P}.
Context {R W : Type} (env : SecretEnv R) (clock : W → N).
Context (load_metadata_file : State W (result (gmap string SessionMetadata) string)).
Context (save_metadata_file : gmap string SessionMetadata → State W (result unit string)).
(** What the database answers to the next transaction. *)
Context (next_fault : State W db_fault).
(** [send_input] of the running shell of a session. *)
Context (send_input : string → string → State W (result unit ShellError)).
#[local] Abbreviation Desktop := (DesktopState U P W).
#[local] Abbreviation M A := (State Desktop (result A CommandError)).

Definition set_manager (m : option (SessionManager U P)) (d : Desktop) : Desktop :=
  {| manager := m; factory := factory d; storage := storage d; world := world d;
     emitted := emitted d |}.
Definition set_storage (st : RedbStorage) (d : Desktop) : Desktop :=
  {| manager := manager d; factory := factory d; storage := st; world := world d;
     emitted := emitted d |}.
Definition set_world (w : W) (d : Desktop) : Desktop :=
  {| manager := manager d; factory := factory d; storage := storage d; world := w;
     emitted := emitted d |}.
Definition emit (e : Emitted) : State Desktop unit :=
  modify (λ d, {| manager := manager d; factory := factory d; storage := storage d;
                  world := world d; emitted := emitted d ++ [e] |}).

Definition ok {A} (a : A) : M A := ret (Ok a).
Definition fail {A} (e : string) : M A := ret (Err (Message e)).
Definition message {A} (r : result A string) : result A CommandError := map_err Message r.

(** A computation of the world, and one of the world that can fail. *)
Definition on_world {A} (m : State W A) : State Desktop A :=
  λ d, let '(a, w) := m (world d) in (a, set_world w d).
Definition try_world {A} (m : State W (result A string)) : M A :=
  r <-! on_world m ;; ret (message r).

(** [mgr.as_mut().ok_or("No active session")?] *)
Definition on_manager {A} (m : State (SessionManager U P * W) (result A string)) : M A :=
  λ d, match manager d with
       | None => (Err (Message "No active session"), d)
       | Some mgr =>
           let '(r, (mgr, w)) := m (mgr, world d) in
           (message r, set_world w (set_manager (Some mgr) d))
       end.
Definition update_manager (f : SessionManager U P → SessionManager U P) : M unit :=
  on_manager (λ '(m, w), (Ok tt, (f m, w))).
Definition read_manager {A} (f : SessionManager U P → result A string) : M A :=
  on_manager (λ '(m, w), (f m, (m, w))).

Definition emit_system (content : string) : State Desktop unit :=
  emit (ChatMessageEvent (payload_of_message (ChatMessage.System content))).

(** The provider errors are turned into texts. *)
Fixpoint initialize_providers (providers : list (MemoryProvider W)) (ctx : MemorySessionContext) :
    State W (result unit string) :=
  match providers with
  | [] => ret (Ok tt)
  | p :: providers =>
      _ <-? (r <-! initialize p ctx ;; ret (map_err ProviderError_to_string r)) ;;
      initialize_providers providers ctx
  end.

Definition initialize_memory_providers (f : ShellFactory W) (session_id dir : string) : M unit :=
  try_world (initialize_providers (factory_memory f)
    {| context_session_id := session_id; workspace := dir; user_id := None; agent_id := None |}).

Definition factory_working_dir (f : ShellFactory W) : string := working_dir env (factory_settings f).

(** A fresh session for the engine thread, and the prompt in the mirror. *)
Definition build_shell (session_id : string) (f : ShellFactory W) : M (SessionEntry U P) :=
  ret match client_config f with
      | Err e => Err (Message (ShellError_to_string e))
      | Ok _ => Ok {| entry_session := Session_new session_id;
                      entry_mirror := [ChatMessage.System DEFAULT_SYSTEM_PROMPT];
                      llm_rx := true |}
      end.

Definition ensure_manager : M unit :=
  mgr <-! gets manager ;;
  match mgr with
  | Some _ => ok tt
  | None =>
      f <-! gets factory ;;
      handle <-? build_shell "desktop-session" f ;;
      let dir := factory_working_dir f in
      _ <-? initialize_memory_providers f "desktop-session" dir ;;
      m <-? try_world (SessionManager_new clock load_metadata_file save_metadata_file
                         "desktop-session" handle dir) ;;
      modify (set_manager (Some m)) ;;!
      ok tt
  end.

Definition replace_settings_contract (f : ShellFactory W) : State Desktop unit :=
  modify (λ d, {| manager := manager d; factory := f; storage := storage d; world := world d;
                  emitted := emitted d |}).

Definition current_session_id_if_ready : State Desktop (option string) :=
  gets (λ d, current <$> manager d).

(** *** [persist_session], in the three steps between which other commands run *)

Definition persist_begin : M (string * SessionMetadata) :=
  f <-! gets factory ;;
  id <-? read_manager (λ m, Ok (current m)) ;;
  meta <-? read_manager (λ m, Ok (metadata m !! id)) ;;
  match meta with
  | Some meta => ok (id, meta)
  | None => meta <-! on_world (SessionMetadata_new clock id (factory_working_dir f)) ;; ok (id, meta)
  end.

Definition persist_save (id : string) : M unit :=
  fault <-! on_world next_fault ;;
  λ d, let '(r, st) := save_session fault id (storage d) in
       (match r with
        | Ok _ => Ok tt
        | Err (Persistence.Failed e) =>
            Err (Message ("Failed to persist session " +:+ id +:+ ": " +:+ ShellError_to_string e))
        | Err Persistence.Panicked => Err Panic
        end, set_storage st d).

Definition persist_finish (meta : SessionMetadata) : M unit :=
  mgr <-! gets manager ;;
  match mgr with
  | Some _ => on_manager (insert_metadata save_metadata_file meta)
  | None => ok tt
  end.

Definition persist_session : M unit :=
  begun <-? persist_begin ;;
  _ <-? persist_save begun.1 ;;
  persist_finish begun.2.

(** *** The engine thread of a session: its callback after each transition *)

Definition after_transition (can_read can_write : bool) (id : string)
    (transition : Session U P → Session U P) : State Desktop unit :=
  modify (λ d,
    match manager d with
    | None => d
    | Some m =>
        match sessions m !! id with
        | None => d
        | Some e =>
            let '(session, st) := session_callback can_read can_write (transition (entry_session e))
                                    (storage d) in
            set_storage st (set_manager (Some (insert_entry id
              {| entry_session := session; entry_mirror := entry_mirror e; llm_rx := llm_rx e |} m)) d)
        end
    end).

(** *** chat.rs *)

Definition get_messages : M (list ChatMessagePayload) :=
  _ <-? ensure_manager ;;
  read_manager (λ m, match current_entry m with
                     | Some e => Ok (payload_of_message <$> entry_mirror e)
                     | None => Err "No active session"
                     end).

(** The shell and the client of the current session are replaced. *)
Definition rebuild_current_session : M string :=
  _ <-? ensure_manager ;;
  current_id <-? read_manager (λ m, Ok (current m)) ;;
  f <-! gets factory ;;
  handle <-? build_shell current_id f ;;
  _ <-? update_manager (insert_entry current_id handle) ;;
  meta <-? read_manager (λ m, Ok (metadata m !! current_id)) ;;
  _ <-? match meta with
        | Some meta => on_manager (insert_metadata save_metadata_file meta)
        | None => ok tt
        end ;;
  ok current_id.

Definition clear_messages : M unit := _ <-? rebuild_current_session ;; ok tt.

(** *** lifecycle.rs *)

Definition switch_session (id : string) : M unit :=
  _ <-? ensure_manager ;;
  f <-! gets factory ;;
  _ <-? read_manager (λ m, if bool_decide (id ∈ list_ids m) then Ok tt
                           else Err ("Session '" +:+ id +:+ "' not found")) ;;
  _ <-? update_manager (switch_to id) ;;
  _ <-? initialize_memory_providers f id (factory_working_dir f) ;;
  _ <-? persist_session ;;
  emit_system ("Switched to session: " +:+ id) ;;!
  emit (SessionChanged id) ;;!
  ok tt.

Definition delete_session (id : string) : M unit :=
  _ <-? ensure_manager ;;
  _ <-? on_manager (delete_non_current save_metadata_file id) ;;
  emit SessionsUpdated ;;!
  ok tt.

(** The identifier is made of the clock, in seconds. *)
Definition new_session_impl : M string :=
  _ <-? ensure_manager ;;
  now <-! on_world (gets clock) ;;
  let new_id := "session-" +:+ pretty now in
  f <-! gets factory ;;
  let dir := factory_working_dir f in
  handle <-? build_shell new_id f ;;
  _ <-? initialize_memory_providers f new_id dir ;;
  _ <-? update_manager (insert_entry new_id handle) ;;
  meta <-! on_world (SessionMetadata_new clock new_id dir) ;;
  _ <-? on_manager (insert_metadata save_metadata_file meta) ;;
  _ <-? update_manager (switch_to new_id) ;;
  _ <-? persist_session ;;
  ok new_id.

Definition new_session : M string :=
  id <-? new_session_impl ;;
  emit (SessionChanged id) ;;!
  emit SessionsUpdated ;;!
  ok id.

(** *** loading.rs *)

Definition load_session_impl (id : string) : M (list ChatMessage) :=
  _ <-? ensure_manager ;;
  f <-! gets factory ;;
  st <-! gets storage ;;
  _ <-? match load_session id st with
        | Ok None => fail ("Session '" +:+ id +:+ "' not found.")
        | Err err => fail ("Load error: " +:+ PersistenceError_to_string err)
        | Ok (Some _) => ok tt
        end ;;
  messages <-? match load_messages_for_session id st with
               | Ok msgs => ok msgs.*2
               | Err err => fail ("Load messages error: " +:+ PersistenceError_to_string err)
               end ;;
  let dir := factory_working_dir f in
  handle <-? build_shell id f ;;
  _ <-? initialize_memory_providers f id dir ;;
  let handle := {| entry_session := entry_session handle;
                   entry_mirror := entry_mirror handle ++ messages; llm_rx := llm_rx handle |} in
  _ <-? update_manager (insert_entry id handle) ;;
  meta <-? read_manager (λ m, Ok (metadata m !! id)) ;;
  _ <-? match meta with
        | Some meta =>
            if decide (meta_created_at meta = 0%N) then
              meta <-! on_world (SessionMetadata_new clock id dir) ;;
              on_manager (insert_metadata save_metadata_file meta)
            else ok tt
        | None =>
            meta <-! on_world (SessionMetadata_new clock id dir) ;;
            on_manager (insert_metadata save_metadata_file meta)
        end ;;
  _ <-? update_manager (switch_to id) ;;
  _ <-? persist_session ;;
  ok messages.

(** The error is emitted and returned. *)
Definition load_session_command (id : string) : M unit :=
  λ d, match load_session_impl id d with
       | (Ok messages, d) =>
           (emit_system ("Session '" +:+ id +:+ "' loaded ("
              +:+ pretty (N.of_nat (length messages)) +:+ " messages).") ;;! ok tt) d
       | (Err (Message e), d) => (emit_system e ;;! fail e) d
       | (Err Panic, d) => (Err Panic, d)
       end.

(** *** listing.rs *)

Definition session_lines (m : SessionManager U P) : list string :=
  ("Current session: " +:+ current m) :: "Sessions:" ::
  ((λ id, (if decide (id = current m) then " → " else "   ") +:+ id) <$> list_ids m).
End desktop.

Record SessionInfo := {
  info_id : string;
  info_active : bool;
  info_created_at : N;
  info_workspace : string
}.

Inductive SessionSort : Type := SortDate | SortWorkspace | SortName.
Definition SessionSort_default : SessionSort := SortDate.

Definition session_cmp (sort : SessionSort) (a b : SessionInfo) : comparison :=
  match sort with
  | SortDate => N.compare (info_created_at b) (info_created_at a)
  | SortName => String.compare (info_id a) (info_id b)
  | SortWorkspace =>
      match String.compare (info_workspace a) (info_workspace b) with
      | Eq => N.compare (info_created_at b) (info_created_at a)
      | c => c
      end
  end.

Definition session_info {U P} (m : SessionManager U P) (id : string) : SessionInfo :=
  let meta := match metadata m !! id with
              | Some meta => meta
              | None => {| meta_id := id; meta_created_at := 0; meta_workspace := "" |}
              end in
  {| info_id := id; info_active := bool_decide (id = current m);
     info_created_at := meta_created_at meta; info_workspace := meta_workspace meta |}.

Definition listed_sessions {U P} (sort : option SessionSort) (m : SessionManager U P) :
    list SessionInfo :=
  sort_by (session_cmp match sort with Some s => s | None => SortDate end)
    (session_info m <$> list_ids m).

(** ** slash.rs *)

(** [split_whitespace] *)
Fixpoint split_words (word : list bytes) (l : list bytes) : list (list bytes) :=
  let rest := match word with [] => [] | _ => [rev word] end in
  match l with
  | [] => rest
  | c :: l => if is_whitespace c then rest ++ split_words [] l else split_words (c :: word) l
  end.
Definition split_whitespace (s : string) : list string :=
  (λ w, string_of_bytes (mjoin w)) <$> split_words [] (chars (bytes_of_string s)).

Definition print_help : string :=
  join_lines
    ["Commands:";
     "  <text>               Send a message to the LLM";
     "  /help                Show this help";
     "  /quit                Exit the app";
     "  /clear               Clear conversation history";
     "  /session             Show current session";
     "  /session new         Create a new session";
     "  /session list        List sessions";
     "  /session load <id>   Load a persisted session";
     "";
     "Environment variables:";
     "  BRIOCHE_API_KEY      API key";
     "  BRIOCHE_MODEL        LLM model (default: gpt-4o-mini)";
     "  BRIOCHE_BASE_URL     API endpoint"].

(** ** attachments.rs: the media type of an image *)

(** [Path::extension] of the last component: what follows its last dot, unless the name
    begins with its only dot. *)
Fixpoint after_last_dot (s : string) : option string :=
  match s with
  | EmptyString => None
  | String c s' =>
      match after_last_dot s' with
      | Some e => Some e
      | None => if decide (c = "."%char) then Some s' else None
      end
  end.
Definition file_extension (path : string) : option string :=
  match last (components path) with
  | Some (Normal (String _ name)) => after_last_dot name
  | _ => None
  end.

Definition image_mime (path : string) : string :=
  match file_extension path with
  | Some "png" => "image/png"
  | Some "jpg" | Some "jpeg" => "image/jpeg"
  | Some "gif" => "image/gif"
  | Some "webp" => "image/webp"
  | _ => "image/png"
  end.

Section commands.
Context `{!PersistCodec} {U : AnyUniverse} {P : Type} `{!CycleRollbackPolicy U P}.
Context {R W : Type} (env : SecretEnv R) (clock : W → N).
Context (load_metadata_file : State W (result (gmap string SessionMetadata) string)).
Context (save_metadata_file : gmap string SessionMetadata → State W (result unit string)).
Context (next_fault : State W db_fault).
Context (send_input : string → string → State W (result unit ShellError)).
(** The file system: whether a path is a directory, and its bytes. *)
Context (is_directory : string → State W (result bool IoError)).
Context (read_bytes : string → State W (result bytes IoError)).
(** Standard base 64, padded. *)
Context (encode_base64 : bytes → string).
#[local] Abbreviation Desktop := (DesktopState U P W).
#[local] Abbreviation M A := (State Desktop (result A CommandError)).
#[local] Abbreviation ensure := (ensure_manager env clock load_metadata_file save_metadata_file).

Definition list_sessions (sort : option SessionSort) : M (list SessionInfo) :=
  _ <-? ensure ;; read_manager (λ m, Ok (listed_sessions sort m)).

Definition handle_session_subcommand (args : list string) : M unit :=
  match args with
  | [] => emit_system "/session requires a sub-command" ;;! ok tt
  | "new" :: _ =>
      id <-? new_session_impl env clock load_metadata_file save_metadata_file next_fault ;;
      emit_system ("New session: " +:+ id) ;;! ok tt
  | "list" :: _ | "" :: _ =>
      _ <-? ensure ;;
      lines <-? read_manager (λ m, Ok (session_lines m)) ;;
      emit_system (join_lines lines) ;;! ok tt
  | "load" :: args =>
      match args with
      | [] => emit_system "/session load requires a session id" ;;! ok tt
      | id :: _ => load_session_command env clock load_metadata_file save_metadata_file next_fault id
      end
  | other :: _ => emit_system ("Unknown /session " +:+ other +:+ " command") ;;! ok tt
  end.

Definition handle_slash_command (cmd full_line : string) : M unit :=
  match split_whitespace cmd with
  | "help" :: _ | "h" :: _ => emit_system print_help ;;! ok tt
  | "quit" :: _ | "q" :: _ => emit AppExit ;;! ok tt
  | "clear" :: _ | "c" :: _ =>
      _ <-? rebuild_current_session env clock load_metadata_file save_metadata_file ;;
      emit_system "History cleared." ;;! ok tt
  | "session" :: args => handle_session_subcommand args
  | _ => emit_system ("Unknown command: " +:+ full_line) ;;! ok tt
  end.

(** A command that has returned, or one that still reads the receiver. *)
Inductive Outcome : Type :=
  | Returned (r : result unit CommandError)
  | Forwarding.

(** The current session, and its receiver, which is taken. *)
Definition take_current : M (string * bool) :=
  on_manager (λ '(m, w),
    match current_entry m with
    | Some _ => let '(rx, m') := take_llm_rx m in (Ok (current m, rx), (m', w))
    | None => (Err "No active session", (m, w))
    end).

(** [items]: what the receiver yields from now on. *)
Definition send_message (items : list (result LlmChunk RecvError)) (content : string) :
    State Desktop Outcome :=
  let returned (m : M unit) : State Desktop Outcome := r <-! m ;; ret (Returned r) in
  let orelse {A} (r : result A CommandError) (k : A → State Desktop Outcome) :=
    match r with Ok a => k a | Err e => ret (Returned (Err e)) end in
  r <-! ensure ;;
  orelse r (λ _,
    let trimmed := trim_string content in
    if decide (trimmed = "") then returned (ok tt)
    else match str_strip_prefix "/" trimmed with
         | Some cmd => returned (handle_slash_command cmd trimmed)
         | None =>
             r <-! take_current ;;
             orelse r (λ '(id, rx),
               r <-! update_manager (push_to_mirror id [ChatMessage.User trimmed]) ;;
               orelse r (λ _,
                 r <-! on_world (send_input id trimmed) ;;
                 match r with
                 | Err e => returned (fail ("Send error: " +:+ ShellError_to_string e))
                 | Ok _ =>
                     let finish : M unit :=
                       emit_system ("Sent to " +:+ id +:+ ": " +:+ trimmed) ;;! ok tt in
                     if rx : bool then
                       let '(payloads, ended) := forward_llm_chunks items in
                       modify (λ d, {| manager := manager d; factory := factory d;
                                       storage := storage d; world := world d;
                                       emitted := emitted d ++ (ChatMessageEvent <$> payloads) |}) ;;!
                       if ended : bool then
                         returned (_ <-? persist_session env clock save_metadata_file next_fault ;; finish)
                       else ret Forwarding
                     else returned finish
                 end))
         end).

(** *** attachments.rs *)

(** The message goes to the mirror of the current session. *)
Definition push_to_current (content : string) : M unit :=
  on_manager (λ '(m, w),
    match current_entry m with
    | Some _ => (Ok tt, (push_to_mirror (current m) [ChatMessage.User content] m, w))
    | None => (Err "No active session", (m, w))
    end).

Definition attach_reference (path : string) : M unit :=
  _ <-? ensure ;;
  dir <-? try_world (r <-! is_directory path ;;
                     ret (map_err (λ e, "Failed to read reference: " +:+ e) r)) ;;
  let content := "User attached " +:+ (if dir : bool then "folder" else "file") +:+ ": " +:+ path in
  _ <-? push_to_current content ;;
  emit_system content ;;!
  ok tt.

Definition send_image (path : string) : M string :=
  _ <-? ensure ;;
  data <-? try_world (r <-! read_bytes path ;;
                      ret (map_err (λ e, "Failed to read image: " +:+ e) r)) ;;
  let data_url := "data:" +:+ image_mime path +:+ ";base64," +:+ encode_base64 data in
  let content := "User sent an image: " +:+ path +:+ String "010" (String "010" "")
                 +:+ "![image](" +:+ data_url +:+ ")" in
  _ <-? push_to_current content ;;
  emit_system content ;;!
  ok data_url.
End commands.
