(* ===== verification/DesktopCommands.v ===== *)
(** * The other commands of the desktop application (apps/brioche-desktop/src/commands/fs.rs,
      extensions.rs, config.rs, src/memory.rs)

    A command is a state computation that ends with a text when it fails.  The file system
    acts on a disk [D]; the commands that seal secrets also thread the random generator [R].
    Those that use the registry of extensions or replace the shell run on the whole
    application. *)
From S2P Require Import Prelude Utf8 Types Effects Extension Session Plugins Persistence GovTypes.
From S2P Require Import Sse Provider SystemTools Executor Settings Extensions Memory Skills UserTools.
From S2P Require Import DesktopShell DesktopSessions.

Definition failed_to (what : string) (e : string) : string := "Failed to " +:+ what +:+ ": " +:+ e.

(** ** fs.rs *)

(** What the operating system gives for an entry. *)
Record RawEntry := {
  raw_name : bytes;
  raw_type : result bool IoError;
  raw_path : bytes
}.

Record DirEntry := { entry_name : string; entry_is_dir : bool; entry_path : string }.

Definition dir_entry (e : RawEntry) : DirEntry :=
  {| entry_name := from_utf8_lossy (raw_name e);
     entry_is_dir := match raw_type e with Ok d => d | Err _ => false end;
     entry_path := from_utf8_lossy (raw_path e) |}.

(** Directories first, then by name. *)
Definition entry_cmp (a b : DirEntry) : comparison :=
  match entry_is_dir a, entry_is_dir b with
  | true, false => Lt
  | false, true => Gt
  | _, _ => String.compare (entry_name a) (entry_name b)
  end.

(** [next_entry] until it has none; the first error ends the command. *)
Fixpoint next_entries (l : list (result RawEntry IoError)) : result (list DirEntry) string :=
  match l with
  | [] => Ok []
  | Err e :: _ => Err (failed_to "read entry" e)
  | Ok e :: l => result_bind (next_entries l) (λ es, Ok (dir_entry e :: es))
  end.

Section fs.
Context {D : Type}.
Context (path_exists is_dir : Path → State D bool).
Context (read_dir : Path → State D (result (list (result RawEntry IoError)) IoError)).
Context (read_to_string : Path → State D (result string IoError)).
Context (write_file : Path → string → State D (result unit IoError)).
(** Whether the path is a directory. *)
Context (file_metadata : Path → State D (result bool IoError)).
Context (remove_dir remove_file create create_dir_all : Path → State D (result unit IoError)).

Definition io_text {A} (what : string) (m : State D (result A IoError)) : State D (result A string) :=
  r <-! m ;; ret (map_err (failed_to what) r).

Definition read_directory (path : string) : State D (result (list DirEntry) string) :=
  let path := components path in
  there <-! path_exists path ;;
  if negb there then ret (Err "Path does not exist")
  else
    dir <-! is_dir path ;;
    if negb dir then ret (Err "Path is not a directory")
    else
      raw <-? io_text "read directory" (read_dir path) ;;
      entries <-? ret (next_entries raw) ;;
      ret (Ok (sort_by entry_cmp entries)).

Definition read_file (path : string) : State D (result string string) :=
  io_text "read file" (read_to_string (components path)).
Definition write_file_command (path content : string) : State D (result unit string) :=
  io_text "write file" (write_file (components path) content).

Definition delete_file (path : string) : State D (result unit string) :=
  dir <-? io_text "read metadata" (file_metadata (components path)) ;;
  if (dir : bool) then io_text "remove directory" (remove_dir (components path))
  else io_text "remove file" (remove_file (components path)).

Definition create_file (path : string) : State D (result unit string) :=
  io_text "create file" (create (components path)).
Definition create_directory (path : string) : State D (result unit string) :=
  io_text "create directory" (create_dir_all (components path)).
End fs.

(** ** extensions.rs: memory

    Each command loads the file, works on what it loaded and forgets it. *)

Record MemoryEntryPayload := {
  payload_key : string;
  payload_value : string;
  payload_category : string;
  payload_created_at : N;
  payload_updated_at : N;
  payload_access_count : N
}.

Definition payload_of_entry (e : MemoryEntry) : MemoryEntryPayload :=
  {| payload_key := entry_key e; payload_value := entry_value e; payload_category := category e;
     payload_created_at := entry_created_at e; payload_updated_at := updated_at e;
     payload_access_count := access_count e |}.

Section memory_commands.
Context (to_lowercase : string → string).
Context {D : Type} (config_dir : option Path) (temp_dir : Path) (now : D → N).
Context (create_dir_all : Path → State D (result unit IoError)).
Context (write_file : Path → string → State D (result unit IoError)).
Context (read_to_string : Path → State D (result string IoError)).
Context (to_json : list MemoryEntry → result string string).
Context (of_json : string → result (list MemoryEntry) string).
#[local] Abbreviation provider :=
  (LocalMemoryProvider to_lowercase config_dir temp_dir now create_dir_all write_file to_json).

Definition load_memory : State D (result (list MemoryEntry) ProviderError) :=
  local_load config_dir temp_dir read_to_string of_json.

(** A method of the provider on a store that is dropped afterwards. *)
Definition on_store {A} (store : list MemoryEntry)
    (m : State (list MemoryEntry * D) (result A ProviderError)) (text : ProviderError → string) :
    State D (result A string) :=
  λ d, let '(r, (_, d)) := m (store, d) in (map_err text r, d).

Definition with_store {A} (m : State (list MemoryEntry * D) (result A ProviderError))
    (text : ProviderError → string) : State D (result A string) :=
  store <-? (r <-! load_memory ;;
             ret (map_err (λ e, failed_to "load memory store" (ProviderError_to_string e)) r)) ;;
  on_store store m text.

Definition list_memories (category : option string) : State D (result (list MemoryEntryPayload) string) :=
  entries <-? with_store
    (memory_list provider {| query_category := category; query_text := None |})
    ProviderError_to_string ;;
  ret (Ok (payload_of_entry <$> entries)).

Definition set_memory (key value category : string) : State D (result unit string) :=
  with_store (memory_set provider key value category)
    (λ e, failed_to "set memory" (ProviderError_to_string e)).

Definition delete_memory (key : string) : State D (result unit string) :=
  removed <-? with_store (memory_delete provider key) ProviderError_to_string ;;
  ret (if (removed : bool) then Ok tt else Err ("Memory '" +:+ key +:+ "' not found")).

Definition search_memories (query : string) : State D (result (list MemoryEntryPayload) string) :=
  entries <-? with_store
    (memory_list provider {| query_category := None; query_text := Some query |})
    ProviderError_to_string ;;
  ret (Ok (payload_of_entry <$> entries)).

(** The local provider as the registry has it: empty when it is registered, and shared, so
    that only the methods that change nothing can be called. *)
Definition on_default {R A} (m : State (list MemoryEntry * D) A) : State (R * D) A :=
  λ '(r, d), let '(a, (_, d)) := m ([], d) in (a, (r, d)).
Definition shared_local_memory {R} : MemoryProvider (R * D) :=
  {| memory_metadata := memory_metadata provider;
     initialize ctx := on_default (initialize provider ctx);
     memory_list query := on_default (memory_list provider query);
     memory_set key value category := on_default (memory_set provider key value category);
     memory_delete key := on_default (memory_delete provider key);
     recall summary limit := on_default (recall provider summary limit);
     tool_schemas := tool_schemas provider;
     handle_tool_call name args := on_default (handle_tool_call provider name args) |}.

(** memory.rs *)
Definition load_store : State D (list MemoryEntry) :=
  r <-! load_memory ;; ret match r with Ok store => store | Err _ => [] end.
End memory_commands.

(** ** extensions.rs: skills that are read through a registry of the command's own *)

Record SkillPayload := {
  skill_payload_name : string;
  skill_payload_description : string;
  skill_payload_version : string;
  skill_payload_author : string;
  skill_payload_license : string;
  skill_payload_platforms : list string;
  skill_payload_category : string;
  skill_payload_path : string;
  skill_payload_tags : list string;
  skill_payload_related : list string;
  skill_payload_content : string
}.

Definition payload_of_skill (s : SkillDescriptor) : SkillPayload :=
  {| skill_payload_name := skill_name s; skill_payload_description := skill_description s;
     skill_payload_version := skill_version s; skill_payload_author := skill_author s;
     skill_payload_license := skill_license s; skill_payload_platforms := skill_platforms s;
     skill_payload_category := skill_category s; skill_payload_path := skill_path s;
     skill_payload_tags := skill_tags s; skill_payload_related := skill_related s;
     skill_payload_content := skill_content s |}.

Section skill_commands.
Context {D : Type} (home_dir config_dir : option Path) (temp_dir : Path).
Context (tree_at : Path → D → option Tree).
Context (read_to_string : Path → State D (result string IoError)).
Context (of_json : string → result (list string) string).
#[local] Abbreviation loaded := (SkillRegistry_default config_dir temp_dir read_to_string of_json).

Definition list_skills_command : State D (result (list SkillPayload) string) :=
  skills <-! scan_skills home_dir config_dir temp_dir tree_at read_to_string of_json ;;
  ret (Ok (payload_of_skill <$> skills)).

(** [read_skill_content] and [read_skill_file] of skills.rs. *)
Definition of_registry {A} (m : State (list string * D) (result A ProviderError)) (text : string) :
    State D (result A string) :=
  λ d, let '(enabled, d) := loaded d in
       let '(r, (_, d)) := m (enabled, d) in
       (match r with Ok a => Ok a | Err _ => Err text end, d).

Definition get_skill_content (name : string) : State D (result string string) :=
  of_registry (read_content home_dir temp_dir tree_at read_to_string name)
    ("Skill '" +:+ name +:+ "' not found").
Definition get_skill_file (name file_path : string) : State D (result string string) :=
  of_registry (read_skill_file home_dir temp_dir tree_at read_to_string name file_path)
    ("File '" +:+ file_path +:+ "' not found in skill '" +:+ name +:+ "'").
End skill_commands.

(** ** The traits of the providers of skills and tools, and what implements them

    A provider keeps its own state behind a lock, which the world of the application holds. *)

Record SkillProvider (W : Type) := {
  skills_metadata : ExtensionMetadata;
  provider_skills : State W (result (list SkillDescriptor) ProviderError);
  provider_read_content : string → State W (result string ProviderError);
  provider_read_file : string → string → State W (result string ProviderError);
  provider_skill_enabled : string → bool → State W (result unit ProviderError);
  provider_create_skill : string → string → string → string → State W (result unit ProviderError);
  provider_delete_skill : string → State W (result unit ProviderError)
}.
Arguments skills_metadata {W}.
Arguments provider_skills {W}.
Arguments provider_read_content {W}.
Arguments provider_read_file {W}.
Arguments provider_skill_enabled {W}.
Arguments provider_create_skill {W}.
Arguments provider_delete_skill {W}.

Record ToolProvider (W : Type) := {
  tools_metadata : ExtensionMetadata;
  provider_tools : State W (result (list ToolDescriptor) ProviderError);
  provider_user_tools : State W (result (list UserToolDefinition) ProviderError);
  provider_tool_enabled : string → bool → State W (result unit ProviderError);
  provider_add_tool : UserToolDefinition → State W (result unit ProviderError);
  provider_remove_tool : string → State W (result unit ProviderError)
}.
Arguments tools_metadata {W}.
Arguments provider_tools {W}.
Arguments provider_user_tools {W}.
Arguments provider_tool_enabled {W}.
Arguments provider_add_tool {W}.
Arguments provider_remove_tool {W}.

Section implementations.
Context {D : Type} (home_dir config_dir : option Path) (temp_dir : Path).
Context (tree_at : Path → D → option Tree).
Context (create_dir_all : Path → State D (result unit IoError)).
Context (write_file : Path → string → State D (result unit IoError)).
Context (remove_dir_all : Path → State D (result unit IoError)).
Context (read_to_string : Path → State D (result string IoError)).

Definition SkillRegistry_provider (to_json : list string → result string string) :
    SkillProvider (list string * D) :=
  {| skills_metadata := {| extension_id := "skills-local"; extension_name := "Local skill scanner";
                           extension_version := "0.1.0"; default_panel := Some PanelSlot.Left;
                           extension_enabled := true |};
     provider_skills := s <-! gets id ;; ret (Ok (Skills.list_skills home_dir temp_dir tree_at s));
     provider_read_content := read_content home_dir temp_dir tree_at read_to_string;
     provider_read_file := read_skill_file home_dir temp_dir tree_at read_to_string;
     provider_skill_enabled := skill_set_enabled config_dir temp_dir create_dir_all write_file to_json;
     provider_create_skill := Skills.create_skill home_dir config_dir temp_dir tree_at
                                create_dir_all write_file to_json;
     provider_delete_skill := Skills.delete_skill home_dir config_dir temp_dir tree_at
                                create_dir_all write_file remove_dir_all to_json |}.

Definition ToolRegistry_provider (to_json : ToolRegistry → result string string) :
    ToolProvider (ToolRegistry * D) :=
  {| tools_metadata := {| extension_id := "tools-default"; extension_name := "Default tool registry";
                          extension_version := "0.1.0"; default_panel := Some PanelSlot.Left;
                          extension_enabled := true |};
     provider_tools := r <-! gets fst ;; ret (Ok (tools r));
     provider_user_tools := r <-! gets fst ;; ret (Ok (enabled_user_tools r));
     provider_tool_enabled := set_enabled config_dir temp_dir create_dir_all write_file to_json;
     provider_add_tool := UserTools.add_user_tool config_dir temp_dir create_dir_all write_file to_json;
     provider_remove_tool := UserTools.remove_user_tool config_dir temp_dir create_dir_all write_file to_json |}.
End implementations.

(** ** config.rs: profiles *)

Record ProfilePayload := {
  profile_payload_name : string;
  profile_payload_display : string;
  profile_payload_description : option string;
  profile_payload_provider : string;
  profile_payload_model : string;
  profile_payload_api_key : string;
  profile_payload_prompt : option string;
  profile_payload_temperature : option N;
  profile_payload_max_tokens : option N;
  profile_payload_created_at : N;
  profile_payload_default : bool
}.

Definition payload_of_profile (p : UserProfile) : ProfilePayload :=
  {| profile_payload_name := profile_name p; profile_payload_display := display_name p;
     profile_payload_description := profile_description p;
     profile_payload_provider := profile_provider p; profile_payload_model := profile_model p;
     profile_payload_api_key := profile_api_key p; profile_payload_prompt := profile_system_prompt p;
     profile_payload_temperature := temperature p; profile_payload_max_tokens := profile_max_tokens p;
     profile_payload_created_at := created_at p; profile_payload_default := is_default p |}.

(** A computation of the disk, where the generator is there too. *)
Definition on_files {R D A} (m : State D A) : State (R * D) A :=
  λ '(r, d), let '(a, d) := m d in (a, (r, d)).

(** The configuration directory of the application. *)
Definition app_file (config_dir : option Path) (temp_dir : Path) (file : string) : Path :=
  config_path config_dir temp_dir file.

Section profile_commands.
Context {R D : Type} (env : SecretEnv R) (config_dir : option Path) (temp_dir : Path) (now : D → N).
Context (create_dir_all : Path → State D (result unit IoError)).
Context (write_file : Path → string → State D (result unit IoError)).
Context (read_to_string : Path → State D (result string IoError)).
Context (to_json : ProfileConfig → result string string).
Context (of_json : string → result ProfileConfig string).
#[local] Abbreviation M A := (State (R * D) A).

Definition profile_config_path : Path := app_file config_dir temp_dir "profiles.json".
Definition write_profiles (c : ProfileConfig) : State D (result unit string) :=
  save_json create_dir_all write_file to_json profile_config_path c "profiles".

Definition ProfileConfig_load : M ProfileConfig :=
  loaded <-! on_files (load_json read_to_string of_json profile_config_path "profiles") ;;
  λ rd, load_profiles env write_profiles (now rd.2) loaded rd.

(** Loads the profiles, runs a method on them, and forgets them. *)
Definition with_profiles {A} (m : N → State (ProfileConfig * (R * D)) A) : M A :=
  config <-! ProfileConfig_load ;;
  λ rd, let '(a, (_, rd)) := m (now rd.2) (config, rd) in (a, rd).

Definition list_profiles : M (result (list ProfilePayload) string) :=
  config <-! ProfileConfig_load ;; ret (Ok (payload_of_profile <$> profiles config)).

Definition get_profile_command (name : option string) : M (result (option ProfilePayload) string) :=
  config <-! ProfileConfig_load ;;
  ret (Ok (payload_of_profile <$>
             match name with
             | Some n => Settings.get_profile n config
             | None => active_profile config
             end)).

Definition create_profile (name display provider model key : string) : M (result unit string) :=
  with_profiles (λ now, Settings.create env write_profiles now name display provider model key).
Definition switch_profile (name : string) : M (result unit string) :=
  with_profiles (λ _, Settings.switch env write_profiles name).
Definition delete_profile_command (name : string) : M (result unit string) :=
  with_profiles (λ _, Settings.delete_profile env write_profiles name).
Definition update_profile (p : UserProfile) : M (result unit string) :=
  with_profiles (λ _, Settings.update env write_profiles p).
End profile_commands.

(** ** config.rs: models *)

Record OpenRouterModel := { router_id : string; router_name : option string }.
Record ModelInfo := { model_id : string; model_name : string; model_provider : string }.

(** The answer of the server: its status and, when the body is read, what it holds. *)
Definition fetch_models (answer : result (N * string * result (list OpenRouterModel) string) string) :
    result (list ModelInfo) string :=
  match answer with
  | Err e => Err (failed_to "fetch models" e)
  | Ok (status, status_text, body) =>
      if negb ((200 <=? status) && (status <? 300))%N then
        Err ("OpenRouter returned status: " +:+ status_text)
      else
        match body with
        | Err e => Err (failed_to "parse models response" e)
        | Ok data =>
            Ok ((λ item, {| model_id := router_id item;
                            model_name := match router_name item with
                                          | Some n => n | None => router_id item end;
                            model_provider := "openrouter" |}) <$> data)
        end
  end.

(** ** The commands on the application *)

Record SettingsSectionProvider := {
  section_metadata : ExtensionMetadata;
  provided_sections : list SettingsSection
}.
Definition section_provider (id name : string) (sections : list SettingsSection) :
    SettingsSectionProvider :=
  {| section_metadata := {| extension_id := id; extension_name := name; extension_version := "0.1.0";
                            default_panel := None; extension_enabled := true |};
     provided_sections := sections |}.

(** The six of the default registry; [home], [userprofile]: the variables of those names. *)
Definition builtin_sections (home userprofile : option string) : list SettingsSectionProvider :=
  [section_provider "settings-ui" "UI settings" (UiSettingsSection home userprofile);
   section_provider "settings-chat" "Chat settings" ChatModelSection;
   section_provider "settings-identity" "Model identity" ModelIdentitySection;
   section_provider "settings-context" "Context engine" ContextEngineSection;
   section_provider "settings-memory" "Memory" MemorySettingsSection;
   section_provider "settings-tools" "Tools" ToolSettingsSection].

(** A footer metric is computed with the clock it finds. *)
Definition Registry (W : Type) : Type :=
  ExtensionRegistry ContextEngine (MemoryProvider W) (ToolProvider W) (SkillProvider W)
    SettingsSectionProvider (option N → FooterMetricProvider).

Record App {U : AnyUniverse} {P W : Type} := {
  desktop : DesktopState U P W;
  extensions : Registry W;
  app_context_note : option string;
  session_start : option N
}.
Arguments App U P W : clear implicits.

(** [a.rank.cmp(&b.rank).then_with(|| a.id.cmp(&b.id))] *)
Definition rank_cmp {A} (rank : A → Z) (key : A → string) (a b : A) : comparison :=
  match Z.compare (rank a) (rank b) with
  | Eq => String.compare (key a) (key b)
  | c => c
  end.
Definition section_cmp : SettingsSection → SettingsSection → comparison :=
  rank_cmp section_order section_id.
Definition metric_cmp : FooterMetric → FooterMetric → comparison :=
  rank_cmp metric_priority metric_id.
Definition descriptor_cmp (a b : ToolDescriptor) : comparison :=
  String.compare (descriptor_id a) (descriptor_id b).

(** [usize as i64] *)
Definition as_i64 (n : N) : Z :=
  let z := Z.of_N (n mod 2 ^ 64) in if (z <? 2 ^ 63)%Z then z else (z - 2 ^ 64)%Z.

(** *** The shell of the active session is built anew *)

Section rebuild.
Context {U : AnyUniverse} {P : Type} `{!CycleRollbackPolicy U P}.
Context {R W : Type} (env : SecretEnv R) (clock : W → N).
Context (save_metadata_file : gmap string SessionMetadata → State W (result unit string)).

(** The messages of the old client go to the new one, behind its prompt. *)
Definition carry_over (id : string) (handle : SessionEntry U P) (m : SessionManager U P) :
    SessionManager U P :=
  let old_messages := match sessions m !! id with Some e => entry_mirror e | None => [] end in
  insert_entry id {| entry_session := entry_session handle;
                     entry_mirror := entry_mirror handle ++ old_messages;
                     llm_rx := llm_rx handle |} m.

Definition rebuild_active_shell (current_id : string) :
    State (DesktopState U P W) (result unit CommandError) :=
  f <-! gets factory ;;
  handle <-? build_shell current_id f ;;
  let dir := factory_working_dir env f in
  _ <-? initialize_memory_providers f current_id dir ;;
  mgr <-! gets manager ;;
  _ <-? match mgr with
        | Some _ =>
            _ <-? update_manager (carry_over current_id handle) ;;
            meta <-! on_world (SessionMetadata_new clock current_id dir) ;;
            on_manager (insert_metadata save_metadata_file meta)
        | None => ok tt
        end ;;
  emit (SessionChanged current_id) ;;!
  emit SessionsUpdated ;;!
  ok tt.
End rebuild.

Section app.
Context {U : AnyUniverse} {P : Type} `{!CycleRollbackPolicy U P}.
Context {R D : Type} (env : SecretEnv R) (config_dir : option Path) (temp_dir : Path).
#[local] Abbreviation W := (R * D)%type.
Context (clock : W → option N).
Context (create_dir_all : Path → State D (result unit IoError)).
Context (write_file : Path → string → State D (result unit IoError)).
Context (read_to_string : Path → State D (result string IoError)).
Context (settings_to_json : gmap string Value → result string string).
Context (settings_of_json : string → result (gmap string Value) string).
Context (save_metadata_file : gmap string SessionMetadata → State W (result unit string)).
(** What the parts of the settings and of a URL are parsed to. *)
Context (endpoint_of : Value → option MemoryEndpoint).
Context (url_ok : string → bool).
(** Whether an HTTP client can be built. *)
Context (http_client : result unit ShellError).
(** The providers of the registry, the tools and skills as they are loaded. *)
Context (local_memory : MemoryProvider W) (amp_memory : AmpMemoryEndpoint → MemoryProvider W).
Context (load_tools : State W (result (ToolProvider W) ProviderError)) (default_tools : ToolProvider W).
Context (load_skills : State W (SkillProvider W)).
Context (version : string).
#[local] Abbreviation Application := (App U P W).
#[local] Abbreviation M A := (State Application (result A CommandError)).

Definition set_desktop (d : DesktopState U P W) (a : Application) : Application :=
  {| desktop := d; extensions := extensions a; app_context_note := app_context_note a;
     session_start := session_start a |}.
Definition set_extensions (r : Registry W) (a : Application) : Application :=
  {| desktop := desktop a; extensions := r; app_context_note := app_context_note a;
     session_start := session_start a |}.
Definition set_session_start (t : N) (a : Application) : Application :=
  {| desktop := desktop a; extensions := extensions a; app_context_note := app_context_note a;
     session_start := Some t |}.

Definition done {A} (x : A) : M A := ret (Ok x).
Definition on_desktop {A} (m : State (DesktopState U P W) A) : State Application A :=
  λ a, let '(x, d) := m (desktop a) in (x, set_desktop d a).
(** Work on the world, which may fail with a text. *)
Definition on_app_world {A} (m : State W A) : State Application A := on_desktop (on_world m).
Definition try_app {A} (m : State W (result A string)) : M A :=
  r <-! on_app_world m ;; ret (message r).
Definition try_provider {A} (m : State W (result A ProviderError)) : M A :=
  r <-! on_app_world m ;; ret (map_err (λ e, Message (ProviderError_to_string e)) r).

Definition now_secs (w : W) : N := match clock w with Some t => t | None => 0 end.

(** *** Settings *)

Definition settings_path : Path := app_file config_dir temp_dir "settings.json".
Definition Settings_load : State W (gmap string Value) :=
  loaded <-! on_files (load_json read_to_string settings_of_json settings_path "settings") ;;
  ret (load env loaded).
Definition Settings_save (m : gmap string Value) : State W (result unit string) :=
  save env (λ persisted, save_json create_dir_all write_file settings_to_json settings_path
                           persisted "settings") m.

Definition get_settings : M (gmap string Value) :=
  s <-! on_app_world Settings_load ;; done s.

(** [default_set_from_settings], whose tools and skills are read from the disk. *)
Definition registry_from_settings (settings : gmap string Value) : State W (Registry W) :=
  loaded <-! load_tools ;;
  skills <-! load_skills ;;
  ret (default_set_from_settings engine_metadata memory_metadata tools_metadata skills_metadata
         section_metadata (λ f, footer_metadata (f None))
         (CompressorContextEngine_engine CompressorContextEngine_default) local_memory amp_memory
         default_tools skills
         (builtin_sections (env_var env "HOME") (env_var env "USERPROFILE"))
         [SessionDurationMetric; λ _, CurrentModelMetric; λ _, ContextRemainingMetric;
          λ _, ContextEngineNoteMetric]
         (memory_endpoints env endpoint_of settings) loaded).

(** [replace_settings_contract] of state.rs. *)
Definition replace_contract (settings : gmap string Value) (registry : Registry W) :
    State Application unit :=
  modify (set_extensions registry) ;;!
  on_desktop (replace_settings_contract
    {| client_config := http_client; factory_settings := settings;
       factory_memory := memory_providers registry |}).

Definition set_settings (settings : gmap string Value) : M unit :=
  _ <-? ret (message (validate_settings env endpoint_of url_ok settings)) ;;
  _ <-? try_app (Settings_save settings) ;;
  registry <-! on_app_world (registry_from_settings settings) ;;
  current_id_opt <-! on_desktop current_session_id_if_ready ;;
  replace_contract settings registry ;;!
  match current_id_opt with
  | Some current_id => on_desktop (rebuild_active_shell env now_secs save_metadata_file current_id)
  | None => done tt
  end.

(** *** extensions.rs: the registry *)

Definition list_extensions : M (list ExtensionMetadata) :=
  r <-! gets extensions ;; done (Extensions.metadata r).

Definition list_settings_sections : M (list SettingsSection) :=
  r <-! gets extensions ;; done (sort_by section_cmp (settings_sections r ≫= provided_sections)).

(** The first use of the static variable sets it. *)
Definition session_started_at : State Application N :=
  started <-! gets session_start ;;
  match started with
  | Some t => ret t
  | None => t <-! on_app_world (gets now_secs) ;; modify (set_session_start t) ;;! ret t
  end.

Definition estimated_history_tokens (mgr : option (SessionManager U P)) : N :=
  match mgr with
  | Some m => match sessions m !! current m with
              | Some entry => estimate_tokens (entry_mirror entry)
              | None => 0
              end
  | None => 0
  end.

Definition get_footer_metrics : M (list FooterMetric) :=
  settings <-! on_app_world Settings_load ;;
  r <-! gets extensions ;;
  mgr <-! gets (λ a, manager (desktop a)) ;;
  note <-! gets app_context_note ;;
  started <-! session_started_at ;;
  now <-! on_app_world (gets clock) ;;
  let ctx := {| footer_version := version; footer_session_started_at := started;
                footer_current_model := chat_model env settings;
                footer_context_remaining :=
                  as_i64 (context_window env settings - estimated_history_tokens mgr);
                footer_context_note := note |} in
  done (sort_by metric_cmp ((λ m, compute (m now) ctx) <$> footer_metrics r)).

(** *** extensions.rs: tools *)

Fixpoint all_tools (providers : list (ToolProvider W)) : M (list ToolDescriptor) :=
  match providers with
  | [] => done []
  | p :: providers =>
      tools <-? try_provider (provider_tools p) ;;
      rest <-? all_tools providers ;;
      done (tools ++ rest)
  end.

Definition list_tools : M (list ToolDescriptor) :=
  r <-! gets extensions ;;
  tools <-? all_tools (tool_providers r) ;;
  done (sort_by descriptor_cmp tools).

(** Work on the first provider there is. *)
Definition with_first {X A} (pick : Registry W → list X) (missing : string)
    (m : X → State W (result A ProviderError)) : M A :=
  r <-! gets extensions ;;
  match pick r with
  | p :: _ => try_provider (m p)
  | [] => ret (Err (Message missing))
  end.

Definition set_tool_enabled (id : string) (enabled : bool) : M unit :=
  with_first tool_providers ("Tool provider not available for '" +:+ id +:+ "'")
    (λ p, provider_tool_enabled p id enabled).

Definition add_user_tool_command (tool : UserToolDefinition) : M unit :=
  f <-! gets (λ a, factory (desktop a)) ;;
  if negb (user_tools_enabled env (factory_settings f)) then
    ret (Err (Message
      "User-defined tools are disabled. Enable them in Settings > Tools first."))
  else with_first tool_providers "No tool provider available" (λ p, provider_add_tool p tool).

Definition remove_user_tool_command (id : string) : M unit :=
  with_first tool_providers "No tool provider available" (λ p, provider_remove_tool p id).

(** *** extensions.rs: skills *)

Definition set_skill_enabled_command (name : string) (enabled : bool) : M unit :=
  with_first skill_providers "No skill provider available"
    (λ p, provider_skill_enabled p name enabled).
Definition create_skill_command (name category description content : string) : M unit :=
  with_first skill_providers "No skill provider available"
    (λ p, provider_create_skill p name category description content).
Definition delete_skill_command (name : string) : M unit :=
  with_first skill_providers "No skill provider available" (λ p, provider_delete_skill p name).
End app.
