(* ===== verification/DesktopSessionsSpec.v ===== *)
(** * Correctness of the desktop sessions: the active session always exists, deletion is
      all or nothing, what is forwarded, and what a loaded or cleared session does to the disk *)
From S2P Require Import Prelude Utf8 Types Effects Extension Session Plugins Persistence GovTypes.
From S2P Require Import DesktopCommands.
From S2P Require Import Sse Provider SystemTools Executor Settings Extensions Memory DesktopShell.
From S2P Require Import PersistenceSpec SettingsSpec DesktopSessions Instances.

(** ** The invariant of the state *)

Section invariant.
Context `{!PersistCodec} {U : AnyUniverse} {P : Type} `{!CycleRollbackPolicy U P}.
Context {R W : Type} (env : SecretEnv R) (clock : W → N).
Context (load_metadata_file : State W (result (gmap string SessionMetadata) string)).
Context (save_metadata_file : gmap string SessionMetadata → State W (result unit string)).
Context (next_fault : State W db_fault).
Context (send_input : string → string → State W (result unit ShellError)).
Context (is_directory : string → State W (result bool IoError)).
Context (read_bytes : string → State W (result bytes IoError)).
Context (encode_base64 : bytes → string).
#[local] Abbreviation Desktop := (DesktopState U P W).
#[local] Abbreviation Manager := (SessionManager U P).

(** An entry belongs to its identifier, and its mirror begins with the prompt. *)
Definition entry_wf (id : string) (e : SessionEntry U P) : Prop :=
  session_id (entry_session e) = id ∧
  head (entry_mirror e) = Some (ChatMessage.System DEFAULT_SYSTEM_PROMPT).

Record manager_ok (m : Manager) : Prop := {
  mo_current : is_Some (current_entry m);
  mo_entries : map_Forall entry_wf (sessions m)
}.

Definition desktop_ok (d : Desktop) : Prop :=
  match manager d with Some m => manager_ok m | None => True end.

#[local] Abbreviation ok_relation := (keeps desktop_ok).

Lemma on_manager_ok {A} (m : State (Manager * W) (result A string)) :
  (∀ mgr w, manager_ok mgr → manager_ok (m (mgr, w)).2.1) → respects ok_relation (on_manager m).
Proof using Type.
  intros Hm d. unfold on_manager, keeps, desktop_ok. destruct (manager d) as [mgr|] eqn:E; [|cbn; by rewrite E].
  specialize (Hm mgr (world d)). destruct (m (mgr, world d)) as [r [mgr' w]]. exact Hm.
Qed.

Lemma update_manager_ok (f : Manager → Manager) :
  (∀ m, manager_ok m → manager_ok (f m)) → respects ok_relation (update_manager (W := W) f).
Proof using Type. intros Hf. apply on_manager_ok. intros m w. apply Hf. Qed.

Lemma read_manager_ok {A} (f : Manager → result A string) :
  respects ok_relation (read_manager (W := W) f).
Proof using Type. by apply on_manager_ok. Qed.

Lemma on_world_ok {A} (m : State W A) : respects ok_relation (on_world (U := U) (P := P) m).
Proof using Type. intros d. unfold on_world. destruct (m (world d)) as [a w]. intros Hd. exact Hd. Qed.

Lemma ok_ok {A} (a : A) : respects ok_relation (ok (U := U) (P := P) (W := W) a).
Proof using Type. intros d Hd. exact Hd. Qed.

Lemma fail_ok {A} e : respects ok_relation (fail (A := A) (U := U) (P := P) (W := W) e).
Proof using Type. intros d Hd. exact Hd. Qed.

Lemma try_world_ok {A} (m : State W (result A string)) :
  respects ok_relation (try_world (U := U) (P := P) m).
Proof using Type. unfold try_world. respects_step; [apply on_world_ok|]. respects_auto. Qed.

Lemma emit_ok e : respects ok_relation (emit (U := U) (P := P) (W := W) e).
Proof using Type. apply respects_modify. intros d Hd. exact Hd. Qed.

Lemma set_metadata_ok f (m : Manager) : manager_ok m → manager_ok (set_metadata f m).
Proof using Type. intros [H1 H2]. by split. Qed.

Lemma insert_metadata_ok meta :
  respects ok_relation (on_manager (insert_metadata (U := U) (P := P) save_metadata_file meta)).
Proof using Type.
  apply on_manager_ok. intros m w Hm. unfold insert_metadata.
  destruct (save_metadata_file _ w). by apply set_metadata_ok.
Qed.

Lemma insert_entry_ok id e (m : Manager) : entry_wf id e → manager_ok m → manager_ok (insert_entry id e m).
Proof using Type.
  intros He [H1 H2]. split; cbn.
  - unfold current_entry in *. cbn. destruct (decide (current m = id)) as [<-|Hn].
    + by rewrite lookup_insert_eq.
    + by rewrite lookup_insert_ne by done.
  - by apply map_Forall_insert_2.
Qed.

Lemma switch_to_ok id (m : Manager) : manager_ok m → manager_ok (switch_to id m).
Proof using Type.
  intros [H1 H2]. unfold switch_to. destruct (sessions m !! id) as [e|] eqn:E; [|done].
  split; [|done]. unfold current_entry. cbn. by rewrite E.
Qed.

Lemma push_to_mirror_ok id msgs (m : Manager) : manager_ok m → manager_ok (push_to_mirror id msgs m).
Proof using Type.
  intros [H1 H2]. split; cbn.
  - unfold current_entry in *. cbn. rewrite lookup_alter. case_decide as Hc; [|done]. rewrite Hc. by apply fmap_is_Some.
  - intros i e Hi. apply lookup_alter_Some in Hi as [(-> & e' & He' & ->)|[_ Hi]]; [|by apply H2].
    destruct (H2 _ _ He') as [Hid Hh]. split; [done|]. cbn. by destruct (entry_mirror e').
Qed.

Lemma take_llm_rx_ok (m : Manager) : manager_ok m → manager_ok (take_llm_rx m).2.
Proof using Type.
  intros Hm. pose proof Hm as [H1 H2]. unfold take_llm_rx. destruct (current_entry m) as [e|] eqn:E; [|done].
  apply (insert_entry_ok (current m)); [|done]. exact (H2 _ _ E).
Qed.

Lemma delete_non_current_ok id (m : Manager) w :
  manager_ok m → manager_ok (delete_non_current save_metadata_file id (m, w)).2.1.
Proof using Type.
  intros Hm. pose proof Hm as [H1 H2]. unfold delete_non_current. destruct (decide _) as [|Hn]; [done|].
  destruct (sessions m !! id) as [removed|] eqn:E; [|done].
  assert (manager_ok (set_metadata (delete id) (set_sessions (delete id) m))) as Hd.
  { split; cbn; [|by apply map_Forall_delete]. unfold current_entry in *. cbn.
    by rewrite lookup_delete_ne by done. }
  destruct (save_metadata_file _ w) as [[[]|e] w']; [done|]. cbn.
  assert (∀ x : Manager, manager_ok x → manager_ok (set_sessions (insert id removed) x)) as Hi
    by (intros x; apply insert_entry_ok; exact (H2 _ _ E)).
  destruct (metadata m !! id); [|by apply Hi]. by apply set_metadata_ok, Hi.
Qed.
#[local] Hint Resolve ok_ok fail_ok read_manager_ok on_world_ok try_world_ok emit_ok insert_metadata_ok
  insert_entry_ok switch_to_ok push_to_mirror_ok delete_non_current_ok : kernel.

(** Every command of the front end on sessions, what a change of the settings does to them,
    and the transitions of the engine threads. *)
Inductive Command : Type :=
  | GetMessages
  | ClearMessages
  | SwitchSession (id : string)
  | DeleteSession (id : string)
  | NewSession
  | ListSessions (sort : option SessionSort)
  | SendMessage (items : list (result LlmChunk RecvError)) (content : string)
  | AttachReference (path : string)
  | SendImage (path : string)
  | SetSettings (f : ShellFactory W)
  | Transition (can_read can_write : bool) (id : string) (f : Session U P → Session U P).

#[local] Abbreviation ensure := (ensure_manager env clock load_metadata_file save_metadata_file).
#[local] Abbreviation applied f := (f env clock load_metadata_file save_metadata_file).

Definition ignore {A} (m : State Desktop A) : State Desktop unit := _ <-! m ;; ret tt.

Definition run_command (c : Command) : State Desktop unit :=
  match c with
  | GetMessages => ignore (applied get_messages)
  | ClearMessages => ignore (applied clear_messages)
  | SwitchSession id => ignore (applied switch_session next_fault id)
  | DeleteSession id => ignore (applied delete_session id)
  | NewSession => ignore (applied new_session next_fault)
  | ListSessions sort => ignore (applied list_sessions sort)
  | SendMessage items content => ignore (applied send_message next_fault send_input items content)
  | AttachReference path => ignore (applied attach_reference is_directory path)
  | SendImage path => ignore (applied send_image read_bytes encode_base64 path)
  | SetSettings f =>
      replace_settings_contract f ;;!
      current_id <-! current_session_id_if_ready ;;
      match current_id with
      | Some id => ignore (rebuild_active_shell env clock save_metadata_file id)
      | None => ret tt
      end
  | Transition can_read can_write id f => after_transition can_read can_write id f
  end.

(** A transition of the kernel keeps the identifier of its session. *)
Definition legal (c : Command) : Prop :=
  match c with Transition _ _ _ f => ∀ s, session_id (f s) = session_id s | _ => True end.

Lemma build_shell_wf id f (d d' : Desktop) e :
  build_shell id f d = (Ok e, d') → entry_wf id e ∧ d' = d.
Proof using Type. unfold build_shell. destruct (client_config f); [|done]. by intros [= <- <-]. Qed.

(** A shell is built and then something is done with its entry. *)
Lemma build_shell_ok {B} id f (k : SessionEntry U P → State Desktop (result B CommandError)) :
  (∀ e, entry_wf id e → respects ok_relation (k e)) → respects ok_relation (bind_ok (build_shell id f) k).
Proof using Type.
  intros Hk d. destruct (build_shell id f d) as [[e|err] d'] eqn:E.
  - rewrite (bind_ok_Ok _ _ _ _ _ E). destruct (build_shell_wf _ _ _ _ _ E) as [He ->]. by apply Hk.
  - rewrite (bind_ok_Err _ _ _ _ _ E). unfold build_shell in E. destruct (client_config f); [done|].
    injection E as _ <-. reflexivity.
Qed.

Lemma initialize_memory_ok f id dir :
  respects ok_relation (initialize_memory_providers (U := U) (P := P) f id dir).
Proof using Type. apply try_world_ok. Qed.

Lemma insert_entry_step id e :
  entry_wf id e → respects ok_relation (update_manager (W := W) (insert_entry id e)).
Proof using Type. intros He. apply update_manager_ok. intros m. by apply insert_entry_ok. Qed.

Lemma switch_step id : respects ok_relation (update_manager (U := U) (P := P) (W := W) (switch_to id)).
Proof using Type. apply update_manager_ok, switch_to_ok. Qed.
#[local] Hint Resolve initialize_memory_ok insert_entry_step switch_step : kernel.

Lemma ensure_ok : respects ok_relation ensure.
Proof using Type.
  unfold ensure_manager. respects_step; [respects_auto|]. destruct a; [respects_auto|].
  respects_step; [respects_auto|]. apply build_shell_ok. intros e He. cbv zeta.
  respects_step; [respects_auto|]. intros d.
  unfold bind_ok at 1, bind at 1, try_world, bind, on_world.
  unfold SessionManager_new, bind, gets, SessionMetadata_new, insert_metadata, set_metadata.
  destruct (load_metadata_file (world d)) as [loaded w]. cbn.
  destruct (save_metadata_file _ w) as [[[]|err] w']; cbn; [|by intros Hd].
  intros _. split; cbn.
  - unfold current_entry. cbn. by rewrite lookup_singleton_eq.
  - by apply map_Forall_singleton.
Qed.

Lemma persist_ok :
  respects ok_relation (persist_session (P := P) env clock save_metadata_file next_fault).
Proof using Type.
  unfold persist_session, persist_begin, persist_save, persist_finish. respects_auto.
  intros d. destruct (save_session _ _ _) as [r st]. intros Hd. exact Hd.
Qed.
#[local] Hint Resolve ensure_ok persist_ok : kernel.

Lemma rebuild_ok : respects ok_relation (applied rebuild_current_session).
Proof using Type.
  unfold rebuild_current_session. do 3 (respects_step; [respects_auto|]).
  apply build_shell_ok. intros e He. respects_auto.
Qed.

Lemma new_session_impl_ok : respects ok_relation (applied new_session_impl next_fault).
Proof using Type.
  unfold new_session_impl. do 2 (respects_step; [respects_auto|]). cbv zeta.
  respects_step; [respects_auto|]. apply build_shell_ok. intros e He. respects_auto.
Qed.

Lemma load_session_ok id : respects ok_relation (applied load_session_impl next_fault id).
Proof using Type.
  unfold load_session_impl. do 5 (respects_step; [respects_auto|]). cbv zeta.
  apply build_shell_ok. intros e He. respects_step; [respects_auto|].
  assert (∀ msgs, entry_wf id {| entry_session := entry_session e; entry_mirror := entry_mirror e ++ msgs;
                                 llm_rx := llm_rx e |}) as Hwf.
  { intros msgs. destruct He as [H1 H2]. split; [done|]. cbn. by destruct (entry_mirror e). }
  respects_auto.
Qed.
#[local] Hint Resolve rebuild_ok new_session_impl_ok load_session_ok : kernel.

Lemma load_command_ok id : respects ok_relation (applied load_session_command next_fault id).
Proof using Type.
  intros d. unfold load_session_command. pose proof (load_session_ok id d) as Hl.
  destruct (load_session_impl _ _ _ _ _ _ d) as [[ms|[e|]] d']; cbn [snd] in Hl; [| |exact Hl];
    intros Hd; exact (Hl Hd).
Qed.

Lemma slash_ok cmd line : respects ok_relation (applied handle_slash_command next_fault cmd line).
Proof using Type.
  unfold handle_slash_command, handle_session_subcommand. pose proof load_command_ok.
  respects_auto.
Qed.

Lemma send_message_ok items content :
  respects ok_relation (applied send_message next_fault send_input items content).
Proof using Type.
  unfold send_message, handle_slash_command. cbv zeta. pose proof slash_ok.
  respects_step; [respects_auto|].
  destruct a as [[]|err]; [|respects_auto].
  destruct (decide _); [respects_auto|]. destruct (str_strip_prefix _ _) as [cmd|].
  { respects_step; [by apply slash_ok|]. respects_auto. }
  respects_step.
  { apply on_manager_ok. intros m w Hm. destruct (current_entry m); [|done].
    pose proof (take_llm_rx_ok m Hm). by destruct (take_llm_rx m). }
  destruct a as [[i rx]|err]; [|respects_auto].
  respects_step; [apply update_manager_ok, push_to_mirror_ok|].
  destruct a; [|respects_auto]. respects_step; [respects_auto|].
  destruct a0; [|respects_auto]. destruct rx; [|respects_auto].
  destruct (forward_llm_chunks items) as [payloads ended].
  respects_step; [apply respects_modify; intros d Hd; exact Hd|].
  respects_auto.
Qed.

Lemma push_to_current_ok content :
  respects ok_relation (push_to_current (U := U) (P := P) (W := W) content).
Proof using Type.
  apply on_manager_ok. intros m w Hm. destruct (current_entry m); [|done]. by apply push_to_mirror_ok.
Qed.

Lemma after_transition_ok can_read can_write id (f : Session U P → Session U P) :
  (∀ s, session_id (f s) = session_id s) →
  respects ok_relation (after_transition (W := W) can_read can_write id f).
Proof using Type.
  intros Hf. apply respects_modify. intros d Hd. unfold desktop_ok in *.
  destruct (manager d) as [m|] eqn:Em; [|by rewrite Em].
  destruct (sessions m !! id) as [e|] eqn:Ee; [|by rewrite Em].
  destruct (session_callback _ _ _ _) as [s st] eqn:Ec. cbn. apply insert_entry_ok; [|done].
  destruct (mo_entries _ Hd _ _ Ee) as [Hid Hh]. split; [|done]. cbn.
  unfold session_callback in Ec. rewrite Hf in Ec.
  destruct (session_store _ !! _); [destruct can_read|]; injection Ec as <- _; cbn; by rewrite ?Hf.
Qed.

Lemma rebuild_active_ok id :
  respects ok_relation (rebuild_active_shell (U := U) (P := P) env clock save_metadata_file id).
Proof using Type.
  unfold rebuild_active_shell. respects_step; [respects_auto|]. apply build_shell_ok. intros e He.
  cbv zeta. respects_step; [respects_auto|]. respects_step; [respects_auto|].
  assert (∀ m : Manager, manager_ok m → manager_ok (carry_over id e m)) as Hc.
  { intros m Hm. apply insert_entry_ok; [|done]. destruct He as [H1 H2]. split; [done|]. cbn.
    by destruct (entry_mirror e). }
  pose proof (update_manager_ok _ Hc). respects_auto.
Qed.
#[local] Hint Resolve rebuild_active_ok : kernel.

Lemma run_command_ok c : legal c → respects ok_relation (run_command c).
Proof using Type.
  pose proof push_to_current_ok. pose proof send_message_ok.
  destruct c; intros Hc; cbn [run_command]; unfold ignore.
  11: by apply after_transition_ok.
  10: { respects_step; [apply respects_modify; intros d Hd; exact Hd|].
        unfold current_session_id_if_ready. respects_auto. }
  all: unfold get_messages, clear_messages, switch_session, delete_session, new_session, list_sessions,
    attach_reference, send_image; respects_auto.
  apply on_manager_ok. intros m w. apply delete_non_current_ok.
Qed.

(** C18: the active session, what the front end can rely on.  From the start of the
    application, whatever commands are given, in whatever order and with whatever failures of the disk,
    the database, the providers and the shells: once there is a session manager its active
    session exists, every session is kept under its own identifier, and the conversation of
    every session begins with the system prompt.  So a command that reaches the manager
    always finds a session, and reading the messages always succeeds. *)
Theorem desktop_sessions_consistent (f : ShellFactory W) (st : RedbStorage) (w : W)
    (commands : list Command) (Hlegal : Forall legal commands) :
  let d := foldl (λ d c, (run_command c d).2)
             {| manager := None; factory := f; storage := st; world := w;
                emitted := [] |} commands in
  desktop_ok d ∧
  ∀ m, manager d = Some m →
    (∃ payloads, applied get_messages d =
       (Ok (plain_payload ChatRole.System DEFAULT_SYSTEM_PROMPT :: payloads), d)) ∧
    (∃ e, current_entry m = Some e ∧ session_id (entry_session e) = current m) ∧
    ∀ id, switch_to id m = m ∨ current (switch_to id m) = id ∧ id ∈ list_ids m.
Proof using Type.
  cbv zeta. match goal with |- context [foldl _ ?x _] => set (d0 := x) end.
  assert (desktop_ok (foldl (λ d c, (run_command c d).2) d0 commands)) as Hok.
  { assert (desktop_ok d0) as H0 by done. revert H0. generalize d0. clear d0.
    induction Hlegal as [|c cs Hc _ IH]; intros d Hd; cbn; [done|].
    apply IH. by apply (run_command_ok c Hc d). }
  split; [done|]. intros m Hm. unfold desktop_ok in Hok. rewrite Hm in Hok.
  destruct Hok as [[e He] H2]. destruct (H2 _ _ He) as [Hid Hh].
  set (d := foldl _ _ _) in *. split_and!.
  - unfold get_messages, bind_ok, ensure_manager, bind, gets. rewrite Hm. cbn.
    unfold read_manager, on_manager. rewrite Hm. cbn. rewrite He.
    destruct (entry_mirror e) as [|x l]; [done|]. injection Hh as ->. cbn.
    eexists. f_equal. unfold set_world, set_manager. rewrite <- Hm. by destruct d.
  - by exists e.
  - intros id. unfold switch_to. destruct (sessions m !! id) as [x|] eqn:E; [right|by left].
    split; [done|]. unfold list_ids. apply list_elem_of_fmap. exists (id, x).
    split; [done|]. by apply elem_of_btree_to_list.
Qed.
End invariant.

(** ** Deletion *)

Section functional.
Context `{codec : !PersistCodec, laws : !PersistCodecLaws}.
Context {U : AnyUniverse} {P : Type} `{!CycleRollbackPolicy U P}.
Context {R W : Type} (env : SecretEnv R) (clock : W → N).
Context (load_metadata_file : State W (result (gmap string SessionMetadata) string)).
Context (save_metadata_file : gmap string SessionMetadata → State W (result unit string)).
Context (next_fault : State W db_fault).
Context (send_input : string → string → State W (result unit ShellError)).
#[local] Abbreviation Desktop := (DesktopState U P W).
#[local] Abbreviation Manager := (SessionManager U P).
#[local] Abbreviation applied f := (f env clock load_metadata_file save_metadata_file).

Lemma bind_run {S A B} (m : State S A) (f : A → State S B) s a s' :
  m s = (a, s') → bind m f s = f a s'.
Proof using Type. intros E. unfold bind. by rewrite E. Qed.

Lemma ok_run {A B} (a : A) (f : A → State Desktop (result B CommandError)) d : bind_ok (ok a) f d = f a d.
Proof using Type. done. Qed.

(** One step on a manager that is there. *)
Lemma on_manager_run {A} (m : State (Manager * W) (result A string)) (d : Desktop) mgr :
  manager d = Some mgr →
  on_manager m d = (message (m (mgr, world d)).1,
                    set_world (m (mgr, world d)).2.2 (set_manager (Some (m (mgr, world d)).2.1) d)).
Proof using Type. intros E. unfold on_manager. rewrite E. by destruct (m (mgr, world d)) as [r [m' w]]. Qed.

Lemma update_manager_run f (d : Desktop) mgr :
  manager d = Some mgr → update_manager f d = (Ok tt, set_manager (Some (f mgr)) d).
Proof using Type. intros E. unfold update_manager. by rewrite (on_manager_run _ _ _ E). Qed.

Lemma read_manager_run {A} (f : Manager → result A string) (d : Desktop) mgr :
  manager d = Some mgr → read_manager f d = (message (f mgr), d).
Proof using Type.
  intros E. unfold read_manager. rewrite (on_manager_run _ _ _ E). cbn. destruct d. cbn in *. by subst.
Qed.

Lemma ensure_run (d : Desktop) mgr : manager d = Some mgr → applied ensure_manager d = (Ok tt, d).
Proof using Type. intros E. unfold ensure_manager, bind, gets. by rewrite E. Qed.

(** Deleting a session is all or nothing.  The active session and unknown
    sessions are refused and nothing changes; if the metadata file can be written, the
    session and its metadata are gone, the others and the active one stay, and the front
    end is told; if it cannot, the error is returned and sessions and metadata are as
    before. *)
Theorem delete_all_or_nothing (d : Desktop) m (Hm : manager d = Some m) id :
  applied delete_session id d =
    if decide (current m = id) then (Err (Message "Cannot delete the active session"), d)
    else match sessions m !! id with
         | None => (Err (Message ("Session '" +:+ id +:+ "' not found")), d)
         | Some _ =>
             match save_metadata_file (delete id (metadata m)) (world d) with
             | (Ok _, w) =>
                 (Ok tt, (emit SessionsUpdated
                    (set_world w (set_manager (Some {| current := current m;
                       sessions := delete id (sessions m);
                       metadata := delete id (metadata m) |}) d))).2)
             | (Err e, w) => (Err (Message e), set_world w d)
             end
         end.
Proof using Type.
  unfold delete_session. rewrite (bind_ok_Ok _ _ _ _ _ (ensure_run d m Hm)).
  assert (set_world (world d) (set_manager (Some m) d) = d) as Hd
    by (destruct d; cbn in *; by subst).
  unfold bind_ok at 1, bind at 1. rewrite (on_manager_run _ _ _ Hm). unfold delete_non_current.
  destruct (decide (current m = id)); [cbn; by rewrite Hd|].
  destruct (sessions m !! id) as [e|] eqn:Ee; [|cbn; by rewrite Hd].
  cbn [metadata set_metadata set_sessions].
  destruct (save_metadata_file (delete id (metadata m)) (world d)) as [[[]|err] w]; [done|].
  cbn. assert (∀ x, x = m → (Err (Message err) : result () CommandError, set_world w (set_manager (Some x) d))
    = (Err (Message err), set_world w d)) as Hx.
  { intros x ->. rewrite <- Hd at 2. done. }
  apply Hx. destruct (metadata m !! id) as [meta|] eqn:Em; unfold set_metadata, set_sessions; cbn;
    rewrite insert_delete_id by done; [rewrite insert_delete_id by done|rewrite delete_id by done];
    by destruct m.
Qed.

(** ** What is forwarded *)

Fixpoint before_error {A E} (l : list (result A E)) : list A :=
  match l with Ok a :: l => a :: before_error l | _ => [] end.

Lemma forward_spec items :
  forward_llm_chunks items =
    (omap payload_of_chunk (before_error items), existsb (λ r, negb (is_ok r)) items).
Proof using Type.
  induction items as [|[c|e] items IH]; cbn; [done| |done]. rewrite IH. by destruct (payload_of_chunk c).
Qed.

(** Saving touches neither the sessions nor what was emitted. *)
Definition visible (d : Desktop) : option (string * gmap string (SessionEntry U P)) * list Emitted :=
  ((λ m, (current m, sessions m)) <$> manager d, emitted d).

Lemma on_manager_visible {A} (m : State (Manager * W) (result A string)) :
  (∀ mgr w, current (m (mgr, w)).2.1 = current mgr ∧ sessions (m (mgr, w)).2.1 = sessions mgr) →
  respects (same visible) (on_manager m).
Proof using Type.
  intros Hm d. unfold same, visible, on_manager. destruct (manager d) as [mgr|] eqn:E; [|cbn; by rewrite E].
  specialize (Hm mgr (world d)). destruct (m (mgr, world d)) as [r [mgr' w]]. cbn in *.
  by destruct Hm as [-> ->].
Qed.

Lemma persist_visible :
  respects (same visible) (persist_session (P := P) env clock save_metadata_file next_fault).
Proof using Type.
  assert (∀ A (m : State W A), respects (same visible) (on_world (U := U) (P := P) m)) as Hw.
  { intros A m d. unfold on_world. by destruct (m (world d)). }
  assert (∀ A (a : A), respects (same visible) (ok (U := U) (P := P) (W := W) a)) as Ho by done.
  assert (∀ A f, respects (same visible) (read_manager (U := U) (P := P) (W := W) (A := A) f)) as Hr.
  { intros A f. by apply on_manager_visible. }
  unfold persist_session, persist_begin, persist_save, persist_finish. respects_auto.
  - intros d. by destruct (save_session _ _ _).
  - apply on_manager_visible. intros mgr w. unfold insert_metadata. by destruct (save_metadata_file _ w).
Qed.

(** A message to the model is added to the conversation, given to
    the kernel, and what the model streams is forwarded in order up to the first error of
    the receiver; until then the command does not return and nothing is saved.  The receiver
    is used up by it: the answers to later messages are not forwarded, and they are not
    saved by the command either. *)
Theorem sent_message_forwarded (d : Desktop) m e content w items
    (Hm : manager d = Some m) (He : current_entry m = Some e)
    (Htext : trim_string content ≠ "") (Hslash : str_strip_prefix "/" (trim_string content) = None)
    (Hsend : send_input (current m) (trim_string content) (world d) = (Ok tt, w)) :
  let '(outcome, d') := applied send_message next_fault send_input items content d in
  let payloads := if llm_rx e then omap payload_of_chunk (before_error items) else [] in
  let ended := existsb (λ r, negb (is_ok r)) items in
  (∃ m' e', manager d' = Some m' ∧ current m' = current m ∧ current_entry m' = Some e' ∧
     entry_mirror e' = entry_mirror e ++ [ChatMessage.User (trim_string content)] ∧ llm_rx e' = false) ∧
  (∃ rest, emitted d' = emitted d ++ (ChatMessageEvent <$> payloads) ++ rest) ∧
  (llm_rx e = true → ended = false → outcome = Forwarding ∧ storage d' = storage d) ∧
  (llm_rx e = false → outcome = Returned (Ok tt) ∧ storage d' = storage d).
Proof using Type.
  unfold send_message. cbv zeta. rewrite (bind_run _ _ _ _ _ (ensure_run d m Hm)). cbv beta iota.
  rewrite decide_False by done. rewrite Hslash.
  set (m1 := set_sessions (insert (current m)
          {| entry_session := entry_session e; entry_mirror := entry_mirror e; llm_rx := false |}) m).
  assert (take_current d = (Ok (current m, llm_rx e), set_manager (Some m1) d)) as Ht.
  { unfold take_current. rewrite (on_manager_run _ d m Hm), He. unfold take_llm_rx. by rewrite He. }
  rewrite (bind_run _ _ _ _ _ Ht). cbv beta iota.
  set (m2 := push_to_mirror (current m) [ChatMessage.User (trim_string content)] m1).
  rewrite (bind_run _ _ _ _ _ (update_manager_run _ (set_manager (Some m1) d) m1 eq_refl)). cbv beta iota.
  set (d2 := set_manager (Some m2) (set_manager (Some m1) d)).
  assert (on_world (send_input (current m) (trim_string content)) d2 = (Ok tt, set_world w d2)) as Hs.
  { unfold on_world. change (world d2) with (world d). by rewrite Hsend. }
  rewrite (bind_run _ _ _ _ _ Hs). cbv beta iota.
  assert (∃ e', current_entry m2 = Some e' ∧
    entry_mirror e' = entry_mirror e ++ [ChatMessage.User (trim_string content)] ∧ llm_rx e' = false)
    as (e' & He' & Hmirror & Hrx).
  { eexists. unfold current_entry, m2, m1. cbn. rewrite lookup_alter_eq, lookup_insert_eq. by cbn. }
  assert (∀ d', (visible d').1 = Some (current m, sessions m2) →
    ∃ m' e', manager d' = Some m' ∧ current m' = current m ∧ current_entry m' = Some e' ∧
      entry_mirror e' = entry_mirror e ++ [ChatMessage.User (trim_string content)] ∧ llm_rx e' = false)
    as Hend.
  { intros d' Hv. unfold visible in Hv. destruct (manager d') as [m'|]; [|done]. injection Hv as Hc Hs'.
    exists m', e'. unfold current_entry. rewrite Hs', Hc. by split_and!. }
  destruct (llm_rx e).
  - rewrite forward_spec. unfold bind at 1, modify at 1. cbn [fst snd].
    match goal with |- context [(if _ then _ else _) ?x] => set (d3 := x) end.
    destruct (existsb _ items) eqn:Ended.
    + unfold bind at 1. pose proof (persist_visible d3) as Hp.
      destruct (persist_session _ _ _ _ d3) as [[[]|err] d4] eqn:Ep; unfold same in Hp; cbn [snd] in Hp;
        [rewrite (bind_ok_Ok _ _ _ _ _ Ep)|rewrite (bind_ok_Err _ _ _ _ _ Ep)];
        pose proof (f_equal snd Hp) as Hem; pose proof (f_equal fst Hp) as Hv; cbn in Hem |- *;
        (split; [by apply Hend; etransitivity; [|exact Hv]|]); split; [|done| |done]; rewrite Hem; cbn.
      * eexists. by rewrite <- (assoc_L (++)).
      * exists []. by rewrite app_nil_r.
    + split; [by apply Hend|]. split; [|by split]. exists []. cbn. by rewrite app_nil_r.
  - split; [by apply Hend|]. split; [by eexists|]. by split.
Qed.
(** ** What loading and clearing do to the disk *)

(** Nothing fails around the command: the client is accepted, the memory providers start, the
    metadata file is written, the database commits. *)
Record all_well (f : ShellFactory W) : Prop := {
  aw_client : client_config f = Ok tt;
  aw_memory : ∀ ctx w, (initialize_providers (factory_memory f) ctx w).1 = Ok tt;
  aw_metadata : ∀ meta w, (save_metadata_file meta w).1 = Ok tt;
  aw_database : ∀ w, (next_fault w).1 = None
}.

Lemma initialize_run (d : Desktop) f id dir :
  all_well f → ∃ w, initialize_memory_providers f id dir d = (Ok tt, set_world w d).
Proof using Type.
  intros Hf. unfold initialize_memory_providers, try_world, on_world, bind.
  match goal with |- context [initialize_providers ?l ?c ?x] =>
    pose proof (aw_memory f Hf c x) as Hi; destruct (initialize_providers l c x) as [r w] end.
  cbn in Hi. subst r. by exists w.
Qed.

Lemma insert_metadata_run (d : Desktop) f m meta :
  all_well f → manager d = Some m →
  ∃ w, on_manager (insert_metadata save_metadata_file meta) d =
    (Ok tt, set_world w (set_manager (Some (set_metadata (insert (meta_id meta) meta) m)) d)).
Proof using Type.
  intros Hf Hm. rewrite (on_manager_run _ d m Hm). unfold insert_metadata.
  match goal with |- context [save_metadata_file ?x ?w] =>
    pose proof (aw_metadata f Hf x w) as Hi; destruct (save_metadata_file x w) as [r w'] end.
  cbn in Hi. subst r. by exists w'.
Qed.

Definition not_in_store (id : string) : string :=
  "Failed to persist session " +:+ id +:+ ": effect execution failed: session " +:+ id
    +:+ " not found in store".

Lemma read_ok_run {A} (g : Manager → A) (d : Desktop) m :
  manager d = Some m → read_manager (λ m, Ok (g m)) d = (Ok (g m), d).
Proof using Type. intros Hm. by rewrite (read_manager_run _ d m Hm). Qed.

Lemma persist_begin_run (d : Desktop) m :
  manager d = Some m → ∃ meta w, persist_begin env clock d = (Ok (current m, meta), set_world w d).
Proof using Type.
  intros Hm. unfold persist_begin. unfold bind at 1, gets. cbv beta. cbn [fst snd].
  rewrite (bind_ok_Ok _ _ _ _ _ (read_ok_run current d m Hm)).
  rewrite (bind_ok_Ok _ _ _ _ _ (read_ok_run (λ m0, metadata m0 !! current m) d m Hm)).
  destruct (metadata m !! current m) as [meta|].
  - exists meta, (world d). unfold ok, ret. f_equal. by destruct d.
  - do 2 eexists. reflexivity.
Qed.

(** A session the engine thread has not run yet is not in the store, so it cannot be saved. *)
Lemma persist_unknown (d : Desktop) m :
  manager d = Some m → session_store (storage d) !! current m = None →
  ∃ w, persist_session env clock save_metadata_file next_fault d =
    (Err (Message (not_in_store (current m))), set_world w d).
Proof using Type.
  intros Hm Hs. destruct (persist_begin_run d m Hm) as (meta & w & Hb). unfold persist_session.
  rewrite (bind_ok_Ok _ _ _ _ _ Hb). unfold persist_save, bind_ok, bind, on_world. cbn.
  destruct (next_fault w) as [fault w']. cbn. unfold save_session, save_begin. rewrite Hs. cbn.
  eexists. reflexivity.
Qed.
(** What a transition of the engine thread and a save put on the disk, when the store does not
    know the session and the watermark is 0. *)
Lemma first_save (d : Desktop) m e id old (f : Session U P → Session U P) b :
  manager d = Some m → sessions m !! id = Some e → (∀ w, (next_fault w).1 = None) →
  session_store (storage d) !! id = None → stored id (storage d) old → encodable old →
  let s := f (entry_session e) in
  session_id s = id → persisted_msg_count s = 0%N → encodable (history s) →
  (N.of_nat (length (history s)) <= 4294967296)%N →
  encode_head (entry_head (callback_entry s (storage d))) = Ok b →
  let '(r, d') := persist_save next_fault id (after_transition true true id f d).2 in
  r = Ok tt ∧
  load_messages_for_session id (storage d') =
    Ok (indexed_from 0 (history s ++ drop (length (history s)) old)).
Proof using laws.
  intros Hm He Hfault Hnone Hst Henc s Hid Hc Hnew Hlen Hb.
  assert (callback_count s (storage d) = 0%N) as Hcount by (unfold callback_count; by rewrite Hid, Hnone).
  assert (savable s (storage d) old) as Hsav by (split; [by rewrite Hid|rewrite Hcount; cbn; lia|done|done]).
  destruct (callback_and_save_ok s (storage d) old b Hsav Hb ltac:(rewrite Hcount; cbn; lia)) as (Hr & _ & Hst').
  rewrite Hid, Hcount in Hst'. unfold callback_and_save in Hr, Hst'. rewrite Hid in Hr, Hst'.
  unfold after_transition, modify. cbn [snd]. rewrite Hm, He. fold s.
  destruct (session_callback true true s (storage d)) as [s' st] eqn:Ec. cbn [snd] in Hr, Hst'.
  unfold persist_save, bind, on_world. cbn.
  pose proof (Hfault (world d)) as Hn. destruct (next_fault (world d)) as [fault w]. cbn in Hn |- *. subst fault.
  destruct (save_session None id st) as [r st2]. cbn in Hr, Hst' |- *. subst r. split; [done|].
  apply (load_stored id st2 _ Hst'). change (encodable (history s ++ drop (length (history s)) old)).
  apply Forall_app. split; [done|by apply Forall_drop].
Qed.

(** Metadata that is missing, or has no date, is made anew. *)
Lemma touch_metadata_run (d : Desktop) m f id :
  all_well f → manager d = Some m →
  ∃ w m', (match metadata m !! id with
           | Some meta =>
               if decide (meta_created_at meta = 0%N) then
                 meta <-! on_world (SessionMetadata_new clock id (factory_working_dir env f)) ;;
                 on_manager (insert_metadata save_metadata_file meta)
               else ok tt
           | None =>
               meta <-! on_world (SessionMetadata_new clock id (factory_working_dir env f)) ;;
               on_manager (insert_metadata save_metadata_file meta)
           end) d = (Ok tt, set_world w (set_manager (Some m') d)) ∧ sessions m' = sessions m.
Proof using Type.
  intros Hf Hm.
  assert (∃ w m', (meta <-! on_world (SessionMetadata_new clock id (factory_working_dir env f)) ;;
    on_manager (insert_metadata save_metadata_file meta)) d =
      (Ok tt, set_world w (set_manager (Some m') d)) ∧ sessions m' = sessions m) as Hnew.
  { unfold bind, on_world. cbn [fst snd SessionMetadata_new bind gets ret]. unfold bind, gets, ret. cbn [fst snd].
    match goal with |- context [insert_metadata _ ?x] =>
      destruct (insert_metadata_run (set_world (world d) d) f m x Hf Hm) as [w' ->] end.
    by eexists _, _. }
  destruct (metadata m !! id) as [meta|]; [|done]. case_decide; [done|].
  exists (world d), m. split; [|done]. unfold ok, ret. f_equal. destruct d. cbn in *. by subst.
Qed.

(** C29: loading a session after a restart.  The conversation is shown as it was
    saved, but the kernel starts with an empty history and a watermark of 0, and the command
    reports an error, since a session that has not run is not in the store.  The first save
    after that writes the new messages over the first ones on the disk: what is left is
    the new conversation followed by the rest of the old one. *)
Theorem loaded_session_overwritten (d : Desktop) m id h old
    (Hm : manager d = Some m) (Hf : all_well (factory d))
    (Hnone : session_store (storage d) !! id = None)
    (Hhead : load_session id (storage d) = Ok (Some h))
    (Hold : stored id (storage d) old) (Henc : encodable old) :
  ∃ d1 m1 e1,
    applied load_session_impl next_fault id d = (Err (Message (not_in_store id)), d1) ∧
    manager d1 = Some m1 ∧ current m1 = id ∧ current_entry m1 = Some e1 ∧
    entry_mirror e1 = ChatMessage.System DEFAULT_SYSTEM_PROMPT :: old ∧
    entry_session e1 = Session_new id ∧ db (storage d1) = db (storage d) ∧
    ∀ (f : Session U P → Session U P) b,
      let s := f (Session_new id) in
      session_id s = id → persisted_msg_count s = 0%N → encodable (history s) →
      (N.of_nat (length (history s)) <= 4294967296)%N →
      encode_head (entry_head (callback_entry s (storage d))) = Ok b →
      let '(r, d2) := persist_save next_fault id (after_transition true true id f d1).2 in
      r = Ok tt ∧
      load_messages_for_session id (storage d2) =
        Ok (indexed_from 0 (history s ++ drop (length (history s)) old)).
Proof using laws.
  set (e1 := {| entry_session := Session_new (U := U) (P := P) id;
                entry_mirror := ChatMessage.System DEFAULT_SYSTEM_PROMPT :: old; llm_rx := true |}).
  assert (∃ d1 m1, applied load_session_impl next_fault id d = (Err (Message (not_in_store id)), d1) ∧
    manager d1 = Some m1 ∧ current m1 = id ∧ current_entry m1 = Some e1 ∧ storage d1 = storage d) as Hload.
  { unfold load_session_impl. rewrite (bind_ok_Ok _ _ _ _ _ (ensure_run d m Hm)).
    unfold bind at 1 2, gets. cbn [fst snd]. rewrite Hhead. rewrite (load_stored id (storage d) old Hold Henc).
    rewrite indexed_from_snd. rewrite !ok_run.
    assert (build_shell id (factory d) d =
      (Ok {| entry_session := Session_new id;
             entry_mirror := [ChatMessage.System DEFAULT_SYSTEM_PROMPT]; llm_rx := true |}, d)) as Hb.
    { unfold build_shell. by rewrite (aw_client _ Hf). }
    rewrite (bind_ok_Ok _ _ _ _ _ Hb). cbn [entry_session entry_mirror DesktopSessions.llm_rx].
    destruct (initialize_run d (factory d) id (factory_working_dir env (factory d)) Hf) as [w1 Hi].
    rewrite (bind_ok_Ok _ _ _ _ _ Hi).
    set (d1 := set_world w1 d). rewrite (bind_ok_Ok _ _ _ _ _ (update_manager_run _ d1 m Hm)).
    set (m2 := insert_entry id _ m). set (d2 := set_manager (Some m2) d1).
    rewrite (bind_ok_Ok _ _ _ _ _ (read_ok_run (λ m0, metadata m0 !! id) d2 m2 eq_refl)).
    destruct (touch_metadata_run d2 m2 (factory d) id Hf eq_refl) as (w3 & m3 & Ht & Hs3).
    rewrite (bind_ok_Ok _ _ _ _ _ Ht). set (d3 := set_world w3 (set_manager (Some m3) d2)).
    rewrite (bind_ok_Ok _ _ _ _ _ (update_manager_run _ d3 m3 eq_refl)).
    set (d4 := set_manager _ d3).
    assert (switch_to id m3 = {| current := id; sessions := sessions m3; metadata := metadata m3 |}) as Hsw.
    { unfold switch_to. rewrite Hs3. cbn. by rewrite lookup_insert_eq. }
    destruct (persist_unknown d4 (switch_to id m3) eq_refl) as [w5 Hp]; [by rewrite Hsw|].
    rewrite (bind_ok_Err _ _ _ _ _ Hp). rewrite Hsw. cbn [current].
    eexists _, _. split; [reflexivity|]. cbn. rewrite Hsw. split; [done|]. split; [done|].
    split; [|done]. unfold current_entry. cbn. rewrite Hs3. cbn. by rewrite lookup_insert_eq. }
  destruct Hload as (d1 & m1 & Hl & Hm1 & Hc1 & He1 & Hst1). exists d1, m1, e1.
  split_and!; try done; [by rewrite Hst1|].
  intros f b s Hid Hcount Hnew Hlen Hb.
  unfold current_entry in He1. rewrite Hc1 in He1.
  apply (first_save d1 m1 e1 id old f b); rewrite ?Hst1; try done. apply Hf.
Qed.

(** Clearing the active session while the application runs.  The
    conversation starts again with the prompt, and the kernel with an empty history; but the
    store still has the number of messages that were saved, the callback takes that number
    over, and every save panics, and puts nothing on the disk, until the new conversation is
    as long as what was saved of the old one. *)
Theorem cleared_session_not_saved (d : Desktop) m stale
    (Hm : manager d = Some m) (Hf : all_well (factory d))
    (Hstore : session_store (storage d) !! current m = Some stale) :
  ∃ d1 m1,
    applied clear_messages d = (Ok tt, d1) ∧ manager d1 = Some m1 ∧ current m1 = current m ∧
    current_entry m1 = Some {| entry_session := Session_new (current m);
                               entry_mirror := [ChatMessage.System DEFAULT_SYSTEM_PROMPT];
                               llm_rx := true |} ∧
    ∀ (f : Session U P → Session U P),
      let s := f (Session_new (current m)) in
      session_id s = current m → length (history s) < watermark stale →
      let '(r, d2) := persist_save next_fault (current m)
                        (after_transition true true (current m) f d1).2 in
      r = Err Panic ∧ db (storage d2) = db (storage d).
Proof using Type.
  assert (∃ d1 m1, applied rebuild_current_session d = (Ok (current m), d1) ∧ manager d1 = Some m1 ∧
    current m1 = current m ∧ storage d1 = storage d ∧
    current_entry m1 = Some {| entry_session := Session_new (current m);
                               entry_mirror := [ChatMessage.System DEFAULT_SYSTEM_PROMPT];
                               llm_rx := true |}) as (d1 & m1 & Hc & Hm1 & Hcur & Hst & He).
  { unfold rebuild_current_session.
    rewrite (bind_ok_Ok _ _ _ _ _ (ensure_run d m Hm)).
    rewrite (bind_ok_Ok _ _ _ _ _ (read_ok_run current d m Hm)). unfold bind at 1, gets. cbn [fst snd].
    assert (build_shell (current m) (factory d) d =
      (Ok {| entry_session := Session_new (current m);
             entry_mirror := [ChatMessage.System DEFAULT_SYSTEM_PROMPT]; llm_rx := true |}, d)) as Hb.
    { unfold build_shell. by rewrite (aw_client _ Hf). }
    rewrite (bind_ok_Ok _ _ _ _ _ Hb). rewrite (bind_ok_Ok _ _ _ _ _ (update_manager_run _ d m Hm)).
    set (m2 := insert_entry _ _ m). set (d2 := set_manager (Some m2) d).
    rewrite (bind_ok_Ok _ _ _ _ _ (read_ok_run (λ m0, metadata m0 !! current m) d2 m2 eq_refl)).
    destruct (metadata m2 !! current m) as [meta|].
    - destruct (insert_metadata_run d2 (factory d) m2 meta Hf eq_refl) as [w Hi].
      rewrite (bind_ok_Ok _ _ _ _ _ Hi). eexists _, _. split; [reflexivity|]. split; [reflexivity|].
      split; [done|]. split; [done|]. unfold current_entry. cbn. by rewrite lookup_insert_eq.
    - exists d2, m2. split_and!; try done. unfold current_entry. cbn. by rewrite lookup_insert_eq. }
  exists d1, m1. split_and!; try done; [unfold clear_messages; by rewrite (bind_ok_Ok _ _ _ _ _ Hc)|].
  intros f s Hid Hlt.
  unfold current_entry in He. rewrite Hcur in He.
  unfold after_transition, modify. cbn [snd]. rewrite Hm1, He. cbn [entry_session]. fold s.
  pose proof (callback_store s (storage d1)) as Hcs.
  destruct (session_callback true true s (storage d1)) as [s' st] eqn:Ec. cbn [snd] in Hcs. subst st.
  unfold persist_save, bind, on_world. cbn.
  destruct (next_fault (world d1)) as [fault w]. cbn. unfold save_session, save_begin. cbn.
  rewrite Hid, lookup_insert_eq, save_commit_panics; [by rewrite Hst|].
  unfold watermark, callback_entry, callback_count. cbn. rewrite Hid, Hst, Hstore.
  unfold watermark in Hlt. lia.
Qed.

(** A new session.  It becomes the active one and is remembered, but the
    command ends with an error before the front end is told, because a session that has not
    run is not in the store; and within one second it takes the place of the session made
    before. *)
Theorem new_session_reports_failure (d : Desktop) m
    (Hm : manager d = Some m) (Hf : all_well (factory d))
    (Hnone : session_store (storage d) !! ("session-" +:+ pretty (clock (world d))) = None) :
  let id := "session-" +:+ pretty (clock (world d)) in
  ∃ d1 m1,
    applied new_session next_fault d = (Err (Message (not_in_store id)), d1) ∧
    emitted d1 = emitted d ∧ manager d1 = Some m1 ∧ current m1 = id ∧
    sessions m1 = <[id := {| entry_session := Session_new id;
                             entry_mirror := [ChatMessage.System DEFAULT_SYSTEM_PROMPT];
                             llm_rx := true |}]> (sessions m).
Proof using Type.
  cbv zeta. set (id := "session-" +:+ pretty (clock (world d))) in *.
  assert (∃ d1 m1, applied new_session_impl next_fault d = (Err (Message (not_in_store id)), d1) ∧
    emitted d1 = emitted d ∧ manager d1 = Some m1 ∧ current m1 = id ∧
    sessions m1 = <[id := {| entry_session := Session_new id;
                             entry_mirror := [ChatMessage.System DEFAULT_SYSTEM_PROMPT];
                             llm_rx := true |}]> (sessions m)) as (d' & m' & Hn & Hrest);
    [|exists d', m'; split; [unfold new_session; by rewrite (bind_ok_Err _ _ _ _ _ Hn)|done]].
  unfold new_session_impl. rewrite (bind_ok_Ok _ _ _ _ _ (ensure_run d m Hm)).
  assert (on_world (gets clock) d = (clock (world d), d)) as Hclock.
  { unfold on_world, gets. f_equal. by destruct d. }
  rewrite (bind_run _ _ _ _ _ Hclock). cbv zeta beta. fold id. unfold bind at 1, gets. cbn [fst snd].
  assert (build_shell id (factory d) d =
    (Ok {| entry_session := Session_new id;
           entry_mirror := [ChatMessage.System DEFAULT_SYSTEM_PROMPT]; llm_rx := true |}, d)) as Hb.
  { unfold build_shell. by rewrite (aw_client _ Hf). }
  rewrite (bind_ok_Ok _ _ _ _ _ Hb).
  destruct (initialize_run d (factory d) id (factory_working_dir env (factory d)) Hf) as [w1 Hi].
  rewrite (bind_ok_Ok _ _ _ _ _ Hi). set (d1 := set_world w1 d).
  rewrite (bind_ok_Ok _ _ _ _ _ (update_manager_run _ d1 m Hm)).
  set (m2 := insert_entry id _ m). set (d2 := set_manager (Some m2) d1).
  assert (∃ meta, on_world (SessionMetadata_new clock id (factory_working_dir env (factory d))) d2 = (meta, d2))
    as [meta Hmeta] by (by eexists).
  rewrite (bind_run _ _ _ _ _ Hmeta).
  destruct (insert_metadata_run d2 (factory d) m2 meta Hf eq_refl) as [w3 Hins].
  rewrite (bind_ok_Ok _ _ _ _ _ Hins). set (d3 := set_world w3 _).
  rewrite (bind_ok_Ok _ _ _ _ _ (update_manager_run _ d3 _ eq_refl)). set (d4 := set_manager _ d3).
  assert (switch_to id (set_metadata (insert (meta_id meta) meta) m2) =
    {| current := id; sessions := sessions m2; metadata := <[meta_id meta := meta]> (metadata m2) |}) as Hsw.
  { unfold switch_to. cbn. by rewrite lookup_insert_eq. }
  destruct (persist_unknown d4 _ eq_refl) as [w5 Hp]; [by rewrite Hsw|].
  rewrite (bind_ok_Err _ _ _ _ _ Hp). rewrite Hsw. cbn [current].
  eexists _, _. split; [reflexivity|]. split; [done|]. cbn. by rewrite Hsw.
Qed.

(** ** Listing *)

Lemma session_cmp_antisym sort x y : session_cmp sort x y = CompOpp (session_cmp sort y x).
Proof using Type.
  destruct sort; cbn; [apply N.compare_antisym| |apply String.compare_antisym].
  apply (text_then_antisym info_workspace (λ a b, N.compare (info_created_at b) (info_created_at a))),
    N.compare_antisym.
Qed.

Lemma session_cmp_trans sort x y z :
  cmp_le (session_cmp sort) x y → cmp_le (session_cmp sort) y z → cmp_le (session_cmp sort) x z.
Proof using Type.
  assert (∀ a b c : SessionInfo,
    cmp_le (λ a b, N.compare (info_created_at b) (info_created_at a)) a b →
    cmp_le (λ a b, N.compare (info_created_at b) (info_created_at a)) b c →
    cmp_le (λ a b, N.compare (info_created_at b) (info_created_at a)) a c) as Hd.
  { intros a b c. unfold cmp_le. rewrite !N.compare_gt_iff. lia. }
  destruct sort; [apply Hd| |apply string_compare_le_trans].
  apply (text_then_trans info_workspace (λ a b, N.compare (info_created_at b) (info_created_at a))), Hd.
Qed.

(** The list of sessions.  Every session is listed exactly once, in the order that
    was asked for, and exactly the active one is marked. *)
Theorem sessions_listed (d : Desktop) m sort (Hm : manager d = Some m)
    (Hok : is_Some (current_entry m)) :
  ∃ l, applied list_sessions sort d = (Ok l, d) ∧
    info_id <$> l ≡ₚ list_ids m ∧ NoDup (info_id <$> l) ∧
    StronglySorted (cmp_le (session_cmp match sort with Some s => s | None => SortDate end)) l ∧
    info_id <$> filter (λ i, info_active i = true) l = [current m].
Proof using Type.
  exists (listed_sessions sort m). unfold listed_sessions.
  set (c := session_cmp _). set (l := session_info m <$> list_ids m).
  assert (info_id <$> l = list_ids m) as Hids.
  { unfold l. rewrite <- list_fmap_compose. apply list_fmap_id. }
  assert (sort_by c l ≡ₚ l) as Hp by apply sort_by_permutation.
  assert (NoDup (list_ids m)) as Hnd by apply btree_keys_NoDup.
  split_and!.
  - unfold list_sessions. rewrite (bind_ok_Ok _ _ _ _ _ (ensure_run d m Hm)).
    by rewrite (read_manager_run _ d m Hm).
  - by rewrite Hp, Hids.
  - by rewrite Hp, Hids.
  - apply sort_by_sorted; [apply session_cmp_antisym|apply session_cmp_trans].
  - assert (info_id <$> filter (λ i, info_active i = true) (sort_by c l) ≡ₚ [current m]) as Hf;
      [|by apply Permutation_singleton_r].
    rewrite Hp. unfold l. rewrite filter_fmap, <- list_fmap_compose.
    change (info_id ∘ session_info m) with (@id string). rewrite list_fmap_id. apply NoDup_Permutation; [by apply NoDup_filter|apply NoDup_singleton|].
    intros x. rewrite list_elem_of_filter, list_elem_of_singleton. cbn. rewrite bool_decide_eq_true.
    split; [by intros [? _]|]. intros ->. split; [done|]. destruct Hok as [e He].
    unfold list_ids. apply list_elem_of_fmap. exists (current m, e). split; [done|].
    by apply elem_of_btree_to_list.
Qed.
End functional.

(** ** Witnesses *)

Definition demo_factory : ShellFactory N :=
  {| client_config := Ok tt; factory_settings := ∅; factory_memory := [] |}.
Definition demo_load : State N (result (gmap string SessionMetadata) string) := ret (Err "no file").
Definition demo_write (meta : gmap string SessionMetadata) : State N (result unit string) := ret (Ok tt).
Definition demo_commits : State N db_fault := ret None.
Definition demo_sends (id text : string) : State N (result unit ShellError) := ret (Ok tt).

#[local] Abbreviation DemoState := (DesktopState concrete_universe unit N).
#[local] Abbreviation demo f := (f toy_env id demo_load demo_write).

Definition demo_entry_of (id : string) : SessionEntry concrete_universe unit :=
  {| entry_session := Session_new id; entry_mirror := [ChatMessage.System DEFAULT_SYSTEM_PROMPT];
     llm_rx := true |}.
Definition demo_manager : SessionManager concrete_universe unit :=
  {| current := "main"; sessions := {[ "main" := demo_entry_of "main" ]}; metadata := ∅ |}.
(** The application after a restart: session "a" is on the disk, the store is empty. *)
Definition demo_desktop : DemoState :=
  {| manager := Some demo_manager; factory := demo_factory;
     storage := {| db := db demo_saved; session_store := ∅ |}; world := 7%N; emitted := [] |}.

Lemma demo_all_well : all_well demo_write demo_commits (factory demo_desktop).
Proof. by split. Qed.

Definition demo_commands : list (Command (U := concrete_universe) (P := unit) (W := N)) :=
  [NewSession; DeleteSession "desktop-session"; SwitchSession "nobody";
   Transition true true "session-7" (set_history (λ _, [ChatMessage.User "hi"]));
   ClearMessages; SendMessage [Ok (LlmChunk.Text "hello"); Err RecvClosed] "hi"].

Definition demo_run (commands : list (Command (U := concrete_universe) (P := unit) (W := N))) : DemoState :=
  foldl (λ d c, (run_command toy_env id demo_load demo_write demo_commits demo_sends
                   (λ _, ret (Ok true)) (λ _, ret (Ok [])) (λ _, "") c d).2)
    {| manager := None; factory := demo_factory; storage := demo_storage0; world := 7%N;
       emitted := [] |} commands.

Lemma desktop_sessions_consistent_witness :
  desktop_ok (demo_run demo_commands) ∧
  current <$> manager (demo_run demo_commands) = Some "session-7" ∧
  list_ids <$> manager (demo_run demo_commands) = Some ["session-7"].
Proof.
  assert (Forall legal demo_commands) as Hlegal by (repeat (constructor; [done|]); constructor).
  pose proof (desktop_sessions_consistent toy_env id demo_load demo_write demo_commits demo_sends
                (λ _, ret (Ok true)) (λ _, ret (Ok [])) (λ _, "") demo_factory demo_storage0 7%N
                demo_commands Hlegal) as H.
  split; [exact (proj1 H)|]. clear H. split; vm_compute; reflexivity.
Defined.

Lemma loaded_session_overwritten_witness :
  ∃ d1, (demo load_session_impl demo_commits "a" demo_desktop).2 = d1 ∧
    let new := [ChatMessage.User "new"] in
    let d2 := (persist_save demo_commits "a"
                 (after_transition true true "a" (set_history (λ _, new)) d1).2).2 in
    load_messages_for_session "a" (storage d2) =
      Ok [(0%N, ChatMessage.User "new"); (1%N, ChatMessage.User "ho")].
Proof.
  assert (is_Some match load_session "a" (storage demo_desktop) with Ok (Some h) => Some h | _ => None end)
    as [h Hh] by (vm_compute; by eexists).
  destruct (load_session "a" (storage demo_desktop)) as [[h'|]|e] eqn:El; try discriminate Hh.
  set (f := set_history (U := concrete_universe) (P := unit) (λ _, [ChatMessage.User "new"])).
  destruct (encode_head (entry_head (callback_entry (f (Session_new "a")) (storage demo_desktop))))
    as [b|] eqn:Eb; [|vm_compute in Eb; discriminate].
  destruct (loaded_session_overwritten toy_env id demo_load demo_write demo_commits demo_desktop
    demo_manager "a" h' demo_two eq_refl demo_all_well eq_refl El (sv_stored _ _ _ demo_savable_compacted)
    (demo_encodable _)) as (d1 & m1 & e1 & Hl & _ & _ & _ & _ & _ & _ & Hsave).
  exists d1. split; [by rewrite Hl|]. cbv zeta. fold f.
  specialize (Hsave f b eq_refl eq_refl (demo_encodable _) ltac:(vm_compute; discriminate) Eb).
  destruct (persist_save demo_commits "a" (after_transition true true "a" f d1).2) as [r d2].
  exact (proj2 Hsave).
Defined.

(** The first message of a session: its answer is forwarded, and the command still waits; the
    answer to the second one is not. *)
Lemma sent_message_forwarded_witness :
  let send := demo send_message demo_commits demo_sends in
  let items := [Ok (LlmChunk.Text "hel"); Ok (LlmChunk.Text "lo"); Ok LlmChunk.Done] in
  let '(outcome, d1) := send items " hi " demo_desktop in
  let '(outcome2, d2) := send items "again" d1 in
  outcome = Forwarding ∧
  emitted d1 = [ChatMessageEvent (plain_payload ChatRole.Assistant "hel");
                ChatMessageEvent (plain_payload ChatRole.Assistant "lo")] ∧
  outcome2 = Returned (Ok tt) ∧ length (emitted d2) = 3.
Proof.
  cbv zeta.
  pose proof (sent_message_forwarded toy_env id demo_load demo_write demo_commits demo_sends
    demo_desktop demo_manager (demo_entry_of "main") " hi " 7%N
    [Ok (LlmChunk.Text "hel"); Ok (LlmChunk.Text "lo"); Ok LlmChunk.Done] eq_refl eq_refl
    ltac:(vm_compute; discriminate) eq_refl eq_refl) as H.
  destruct (send_message _ _ _ _ _ _ _ " hi " demo_desktop) as [o d1] eqn:E1. cbn in H.
  destruct H as (_ & _ & Hw & _). destruct (Hw eq_refl eq_refl) as [-> _].
  vm_compute in E1. injection E1 as <-. by vm_compute.
Defined.
