(* ===== verification/DesktopCommandsSpec.v ===== *)
(** * Correctness of the commands of the desktop application: what is listed and in which
      order, memories and profiles as they are kept on the disk, a change of the settings *)
From S2P Require Import Prelude Utf8 Types Effects Extension Session Plugins Persistence GovTypes.
From S2P Require Import Sse Provider SystemTools Executor Settings SettingsSpec Extensions Memory.
From S2P Require Import Skills UserTools DesktopShell DesktopSessions DesktopCommands.

(** ** Orders *)

Lemma rank_cmp_antisym {A} (rank : A → Z) key x y :
  rank_cmp rank key x y = CompOpp (rank_cmp rank key y x).
Proof.
  unfold rank_cmp. rewrite Z.compare_antisym. destruct (Z.compare (rank y) (rank x)); cbn; [|done..].
  apply String.compare_antisym.
Qed.

(** Smaller rank first; the same rank by name. *)
Lemma rank_cmp_le {A} (rank : A → Z) key x y :
  cmp_le (rank_cmp rank key) x y ↔
    (rank x < rank y)%Z ∨ rank x = rank y ∧ cmp_le String.compare (key x) (key y).
Proof.
  unfold cmp_le, rank_cmp. destruct (Z.compare_spec (rank x) (rank y)) as [E|E|E].
  - split; [by right|]. intros [?|[_ ?]]; [lia|done].
  - split; [by left|done].
  - split; [done|]. lia.
Qed.

Lemma rank_cmp_trans {A} (rank : A → Z) key x y z :
  cmp_le (rank_cmp rank key) x y → cmp_le (rank_cmp rank key) y z → cmp_le (rank_cmp rank key) x z.
Proof.
  rewrite !rank_cmp_le. intros [H1|[H1 K1]] [H2|[H2 K2]]; try (left; lia).
  right. split; [lia|]. revert K1 K2. unfold cmp_le. apply string_compare_le_trans.
Qed.

(** What sorting with such an order gives. *)
Definition ranked {A} (rank : A → Z) (key : A → string) (l sorted : list A) : Prop :=
  sorted ≡ₚ l ∧
  StronglySorted (λ x y, (rank x < rank y)%Z ∨
                         rank x = rank y ∧ String.compare (key x) (key y) ≠ Gt) sorted.

Lemma sort_ranked {A} (rank : A → Z) key l : ranked rank key l (sort_by (rank_cmp rank key) l).
Proof.
  split; [apply sort_by_permutation|].
  pose proof (sort_by_sorted _ (rank_cmp_antisym rank key) (rank_cmp_trans rank key) l) as H.
  induction H as [|x l' _ IH Hx]; [constructor|]. constructor; [done|].
  eapply Forall_impl; [exact Hx|]. intros y. apply rank_cmp_le.
Qed.

Lemma sort_by_ext {A} (c1 c2 : A → A → comparison) l :
  (∀ x y, c1 x y = c2 x y) → sort_by c1 l = sort_by c2 l.
Proof.
  intros H. induction l as [|x l IH]; [done|]. cbn. fold (sort_by c1 l) (sort_by c2 l). rewrite IH.
  generalize (sort_by c2 l) as s. induction s as [|y s IHs]; [done|]. cbn. rewrite H, IHs. done.
Qed.

(** ** The file explorer *)

Section files.
Context {D : Type} (path_exists is_dir : Path → State D bool).
Context (read_dir : Path → State D (result (list (result RawEntry IoError)) IoError)).

Definition dir_rank (e : DirEntry) : Z := if entry_is_dir e then 0 else 1.

Lemma entry_cmp_rank x y : entry_cmp x y = rank_cmp dir_rank entry_name x y.
Proof using Type. unfold entry_cmp, rank_cmp, dir_rank. by destruct (entry_is_dir x), (entry_is_dir y). Qed.

Lemma next_entries_spec l :
  match next_entries l with
  | Ok es => ∃ raw, l = Ok <$> raw ∧ es = dir_entry <$> raw
  | Err e => ∃ io, Err io ∈ l ∧ e = failed_to "read entry" io
  end.
Proof using Type.
  induction l as [|[e|e] l IH]; cbn; [by exists []| |exists e; split; [by left|done]].
  destruct (next_entries l) as [es|err]; cbn.
  - destruct IH as (raw & -> & ->). by exists (e :: raw).
  - destruct IH as (io & H & ->). exists io. split; [by right|done].
Qed.

(** The listing of a directory: all of its entries or an error, the directories first and
    each kind by name. *)
Theorem read_directory_listed path d :
  match (read_directory path_exists is_dir read_dir path d).1 with
  | Ok entries => ∃ raw d1 d2, read_dir (components path) d1 = (Ok (Ok <$> raw), d2) ∧
      ranked dir_rank entry_name (dir_entry <$> raw) entries
  | Err e => e = "Path does not exist" ∨ e = "Path is not a directory" ∨
      ∃ io, e = failed_to "read directory" io ∨ e = failed_to "read entry" io
  end.
Proof using Type.
  unfold read_directory, bind. destruct (path_exists _ d) as [[] d1]; cbn [fst snd negb]; [|by left].
  destruct (is_dir _ d1) as [[] d2]; cbn [fst snd negb]; [|by right; left].
  unfold bind_ok, io_text, bind, ret. destruct (read_dir _ d2) as [[l|e] d3] eqn:E; cbn;
    [|right; right; exists e; by left].
  pose proof (next_entries_spec l) as Hl. destruct (next_entries l) as [es|e] eqn:Ee; cbn.
  - destruct Hl as (raw & -> & ->). exists raw, d2, d3. split; [done|].
    rewrite (sort_by_ext _ _ _ entry_cmp_rank). apply sort_ranked.
  - destruct Hl as (io & _ & ->). right; right. exists io. by right.
Qed.
End files.

(** ** Files: what a successful write wrote is read back, and reading changes nothing *)

Record FileLaws {D} (write_file : Path → string → State D (result unit IoError))
    (read_to_string : Path → State D (result string IoError)) : Prop := {
  fl_pure : ∀ path d, (read_to_string path d).2 = d;
  fl_written : ∀ path data d d', write_file path data d = (Ok tt, d') →
    (read_to_string path d').1 = Ok data
}.

(** A value is encoded so that it can be decoded. *)
Definition codec {A} (to_json : A → result string string) (of_json : string → result A string) : Prop :=
  ∀ a s, to_json a = Ok s → of_json s = Ok a.

(** ** Memories *)

Section memory.
Context (to_lowercase : string → string).
Context {D : Type} (config_dir : option Path) (temp_dir : Path) (now : D → N).
Context (create_dir_all : Path → State D (result unit IoError)).
Context (write_file : Path → string → State D (result unit IoError)).
Context (read_to_string : Path → State D (result string IoError)).
Context (to_json : list MemoryEntry → result string string).
Context (of_json : string → result (list MemoryEntry) string).
Context (laws : FileLaws write_file read_to_string) (json : codec to_json of_json).

Inductive MemoryCommand : Type :=
  | ListMemories (category : option string)
  | SetMemory (key value category : string)
  | DeleteMemory (key : string)
  | SearchMemories (query : string).

(** Whether the command succeeded. *)
Definition memory_command (c : MemoryCommand) : State D bool :=
  match c with
  | ListMemories category =>
      r <-! list_memories to_lowercase config_dir temp_dir now create_dir_all write_file
              read_to_string to_json of_json category ;; ret (is_ok r)
  | SetMemory key value category =>
      r <-! set_memory to_lowercase config_dir temp_dir now create_dir_all write_file
              read_to_string to_json of_json key value category ;; ret (is_ok r)
  | DeleteMemory key =>
      r <-! delete_memory to_lowercase config_dir temp_dir now create_dir_all write_file
              read_to_string to_json of_json key ;; ret (is_ok r)
  | SearchMemories query =>
      r <-! search_memories to_lowercase config_dir temp_dir now create_dir_all write_file
              read_to_string to_json of_json query ;; ret (is_ok r)
  end.

Fixpoint memory_commands (cs : list MemoryCommand) : State D (list bool) :=
  match cs with
  | [] => ret []
  | c :: cs => b <-! memory_command c ;; bs <-! memory_commands cs ;; ret (b :: bs)
  end.

#[local] Abbreviation memory_file := (config_path config_dir temp_dir "memory.json").

Lemma load_memory_pure d : (load_memory config_dir temp_dir read_to_string of_json d).2 = d.
Proof using laws.
  unfold load_memory, local_load, load_file, provider_io, provider_lift, bind_ok, bind, ret.
  pose proof (fl_pure _ _ laws memory_file d) as H.
  destruct (read_to_string _ d) as [[s|e] d']; exact H.
Qed.

Lemma no_store {A} (m : State (list MemoryEntry * D) (result A ProviderError)) text d e :
  (read_to_string memory_file d).1 = Err e →
  ∃ e', with_store config_dir temp_dir read_to_string of_json m text d = (Err e', d).
Proof using laws.
  intros Hr. pose proof (fl_pure _ _ laws memory_file d) as Hp.
  unfold with_store, load_memory, local_load, load_file, provider_io, provider_lift, bind_ok, bind, ret.
  destruct (read_to_string memory_file d) as [[s|e0] d']; [done|]. cbn in *. subst d'. eauto.
Qed.

(** As long as the file of the memories cannot be read - it does not exist before the first
    memory is saved - no memory command succeeds and none of them writes anything: whatever
    commands are given, all fail and the disk stays as it is. *)
Theorem memory_never_begins cs d e (Hmissing : (read_to_string memory_file d).1 = Err e) :
  memory_commands cs d = (replicate (length cs) false, d).
Proof using laws.
  induction cs as [|c cs IH]; [done|]. cbn [memory_commands length replicate]. unfold bind at 1.
  assert (memory_command c d = (false, d)) as ->.
  { destruct c; cbn [memory_command]; unfold bind, list_memories, set_memory, delete_memory, search_memories;
      match goal with |- context [with_store _ _ _ _ ?m ?t] =>
        destruct (no_store m t d e Hmissing) as [e' He] end.
    all: first [rewrite (bind_ok_Err _ _ _ _ _ He)|rewrite He]; done. }
  cbn [fst snd]. unfold bind. by rewrite IH.
Qed.

Lemma save_load_memory store d d' :
  local_save config_dir temp_dir create_dir_all write_file to_json (store, d) = (Ok tt, (store, d')) →
  load_memory config_dir temp_dir read_to_string of_json d' = (Ok store, d').
Proof using laws json.
  unfold local_save. intros H.
  destruct (save_file _ _ _ _ _ _ _ d) as [r d1] eqn:E. injection H as -> ->.
  unfold save_file in E. cbv zeta in E.
  set (step := match parent memory_file with Some dir => _ | None => _ end) in E.
  destruct (step d) as [[u|e] d2] eqn:Es; [|by rewrite (bind_ok_Err _ _ _ _ _ Es) in E].
  rewrite (bind_ok_Ok _ _ _ _ _ Es) in E. unfold provider_lift, provider_json in E.
  unfold bind_ok at 1, bind at 1, ret at 1 in E. cbn [fst snd] in E.
  destruct (to_json store) as [data|e] eqn:Ej; [|done].
  unfold provider_io, bind_ok, bind, ret in E. cbn [fst snd] in E.
  destruct (write_file memory_file data d2) as [[[]|e] d3] eqn:Ew; [|discriminate].
  injection E as ->. pose proof (fl_written _ _ laws _ _ _ _ Ew) as Hr.
  pose proof (fl_pure _ _ laws memory_file d') as Hp.
  unfold load_memory, local_load, load_file, provider_io, provider_lift, bind_ok, bind, ret.
  destruct (read_to_string memory_file d') as [r d4]. cbn in *. subst r d4. cbn.
  unfold provider_json. by rewrite (json _ _ Ej).
Qed.

Lemma list_everything entries :
  local_list to_lowercase {| query_category := None; query_text := None |} entries = entries.
Proof using Type.
  unfold local_list. induction entries as [|e l IH]; [done|]. cbn. by rewrite IH.
Qed.

(** A memory that was set is listed: after a successful set the file holds the entries that
    were loaded, the key with its new value and category - in its old place or at the end -
    and the next command sees exactly these. *)
Theorem set_memory_listed key value cat store d d'
    (Hload : load_memory config_dir temp_dir read_to_string of_json d = (Ok store, d))
    (Hset : set_memory to_lowercase config_dir temp_dir now create_dir_all write_file read_to_string
              to_json of_json key value cat d = (Ok tt, d')) :
  list_memories to_lowercase config_dir temp_dir now create_dir_all write_file read_to_string
    to_json of_json None d' =
  (Ok (payload_of_entry <$> set_entry (now d) key value cat store), d').
Proof using laws json.
  unfold set_memory, with_store, on_store in Hset. unfold bind_ok at 1, bind at 1 2 in Hset.
  rewrite Hload in Hset. cbn [fst snd ret map_err] in Hset.
  change (memory_set _ _ _ _ (store, d)) with (local_save config_dir temp_dir create_dir_all write_file
    to_json (set_entry (now d) key value cat store, d)) in Hset.
  assert (load_memory config_dir temp_dir read_to_string of_json d' =
    (Ok (set_entry (now d) key value cat store), d')) as Hl.
  { eapply (save_load_memory _ d). unfold local_save in *.
    destruct (save_file _ _ _ _ _ _ _ d) as [r d1]. injection Hset as Hr <-.
    destruct r as [[]|e]; [done|discriminate]. }
  unfold list_memories, with_store, on_store. unfold bind_ok at 1 2, bind at 1 2 3. rewrite Hl.
  cbn [fst snd ret map_err LocalMemoryProvider memory_list]. unfold bind, gets, ret. cbn [fst snd map_err].
  by rewrite list_everything.
Qed.
End memory.

(** ** What the model remembers *)

Section recall.
Context {R D : Type} (env : SecretEnv R) (settings : gmap string Value).
Context (to_lowercase : string → string) (config_dir : option Path) (temp_dir : Path) (now : D → N).
Context (create_dir_all : Path → State D (result unit IoError)).
Context (write_file : Path → string → State D (result unit IoError)).
Context (to_json : list MemoryEntry → result string string).
Context (endpoint_of : Value → option MemoryEndpoint).
Context (amp_memory : AmpMemoryEndpoint → MemoryProvider (R * D)).
Context (load_tools : State (R * D) (result (ToolProvider (R * D)) ProviderError)).
Context (default_tools : ToolProvider (R * D)).
Context (load_skills : State (R * D) (SkillProvider (R * D))).

#[local] Abbreviation local := (shared_local_memory (R := R) to_lowercase config_dir temp_dir now
                               create_dir_all write_file to_json).
#[local] Abbreviation registry w := (registry_from_settings env endpoint_of local amp_memory load_tools
                                      default_tools load_skills settings w).1.

Lemma local_recall_nothing providers summary w :
  recall_notes env settings (local :: providers) summary w = recall_notes env settings providers summary w.
Proof using Type.
  cbn [recall_notes]. destruct (provider_active env settings local); [|done].
  unfold bind at 1. destruct w as [r d].
  assert (recall local summary 3 (r, d) = (Ok [], (r, d))) as ->.
  { cbn. unfold on_default, bind, gets, ret, local_recall. done. }
  unfold bind. cbn [fst snd]. by destruct (recall_notes env settings providers summary (r, d)).
Qed.

Lemma registry_memory w :
  ∃ endpoints, memory_providers (registry w) = local :: (amp_memory <$> endpoints) ∧
    endpoints = amp_endpoint_of <$>
      List.filter (λ e, negb (is_blank (endpoint_url e))) (memory_endpoints env endpoint_of settings).
Proof using Type.
  eexists. split; [|done]. unfold registry_from_settings, bind, ret.
  destruct (load_tools w) as [loaded w1]. cbn [fst snd]. destruct (load_skills w1) as [skills w2].
  cbn [fst snd]. unfold default_set_from_settings. cbn [foldl builtin_sections].
  assert (∀ es (r : Registry (R * D)), memory_providers (foldl (λ r e,
      if is_blank (endpoint_url e) then r
      else register_memory_provider memory_metadata (amp_memory (amp_endpoint_of e)) r) r es) =
    memory_providers r ++ (amp_memory <$> (amp_endpoint_of <$>
      List.filter (λ e, negb (is_blank (endpoint_url e))) es))) as Hf.
  { induction es as [|e es IH]; intros r; [by rewrite app_nil_r|]. cbn. rewrite IH.
    destruct (is_blank (endpoint_url e)); cbn; [done|]. by rewrite <- (assoc_L (++)). }
  cbn. by rewrite Hf.
Qed.

(** The memories of the user do not reach the model.  The local provider of the registry is
    an empty one that nothing fills, so what is sent is what would be sent without it; when
    no other provider is configured nothing is recalled, whatever is on the disk. *)
Theorem local_memory_never_recalled w history s :
  history_transform env settings (memory_providers (registry w)) history s =
    history_transform env settings (tail (memory_providers (registry w))) history s ∧
  (memory_endpoints env endpoint_of settings = [] →
   history_transform env settings (memory_providers (registry w)) history s =
     history_transform env settings [] history s).
Proof using Type.
  destruct (registry_memory w) as (es & -> & Hes). cbn [tail].
  assert (∀ ps, history_transform env settings (local :: ps) history s =
                history_transform env settings ps history s) as H.
  { intros ps. destruct s as [world note]. unfold history_transform. by rewrite local_recall_nothing. }
  split; [apply H|]. intros He. rewrite He in Hes. cbn in Hes. subst es. apply H.
Qed.
End recall.

(** ** A change of the settings *)

Section rebuild.
Context {U : AnyUniverse} {P : Type} `{!CycleRollbackPolicy U P}.
Context {R W : Type} (env : SecretEnv R) (clock : W → N).
Context (save_metadata_file : gmap string SessionMetadata → State W (result unit string)).
#[local] Abbreviation Desktop := (DesktopState U P W).

(** The shell that replaces the one of the session: a kernel without history, and a client
    with a prompt in front of what the old one had. *)
Definition rebuilt (id : string) (m : SessionManager U P) : SessionEntry U P :=
  {| entry_session := Session_new id;
     entry_mirror := ChatMessage.System DEFAULT_SYSTEM_PROMPT ::
       match sessions m !! id with Some e => entry_mirror e | None => [] end;
     llm_rx := true |}.

(** What a rebuild leaves of the application. *)
Record rebuilt_from (id : string) (r : result unit CommandError) (d d' : Desktop)
    (m : SessionManager U P) : Prop := {
  rf_factory : factory d' = factory d;
  rf_storage : storage d' = storage d;
  rf_manager : ∃ m', manager d' = Some m' ∧ current m' = current m ∧
    (sessions m' = sessions m ∨ sessions m' = <[id := rebuilt id m]> (sessions m)) ∧
    (r = Ok tt → sessions m' = <[id := rebuilt id m]> (sessions m));
  rf_emitted : emitted d' = emitted d ++
    match r with Ok _ => [SessionChanged id; SessionsUpdated] | Err _ => [] end
}.

Lemma rebuild_active_spec id (d : Desktop) m :
  manager d = Some m →
  let '(r, d') := rebuild_active_shell env clock save_metadata_file id d in rebuilt_from id r d d' m.
Proof using Type.
  intros Hm. unfold rebuild_active_shell. unfold bind at 1, gets at 1. cbn [fst snd].
  assert (∀ e d2, factory d2 = factory d → storage d2 = storage d → manager d2 = manager d →
    emitted d2 = emitted d → rebuilt_from id (Err e) d d2 m) as Hfail.
  { intros e d2 H1 H2 H3 H4. split; [done|done| |by rewrite app_nil_r].
    exists m. rewrite H3. split_and!; [done|done|by left|done]. }
  unfold build_shell at 1. unfold bind_ok at 1, bind at 1, ret at 1. cbn [fst snd].
  destruct (client_config (factory d)) as [u|e]; [|by apply Hfail].
  cbv zeta. unfold bind_ok at 1, bind at 1, initialize_memory_providers, try_world, bind, on_world.
  match goal with |- context [initialize_providers ?ps ?c ?w] =>
    destruct (initialize_providers ps c w) as [[[]|e] w1] end; cbn [fst snd message map_err ret];
    [|by apply Hfail].
  unfold gets. cbn [fst snd manager set_world]. rewrite Hm. cbn [fst snd].
  unfold bind_ok, bind, update_manager, on_manager. cbn [manager set_world]. rewrite Hm.
  cbn [fst snd message map_err]. unfold SessionMetadata_new, bind, gets, ret, insert_metadata.
  cbn [fst snd manager set_manager set_world world].
  destruct (save_metadata_file _ w1) as [[[]|e] w2]; cbn [fst snd message map_err].
  all: split; cbn; [done|done| |by rewrite <- ?(assoc_L (++)), ?app_nil_r].
  all: eexists; split; [reflexivity|]; cbn; split; [done|]; split; [by right|done].
Qed.
End rebuild.

Section settings.
Context {U : AnyUniverse} {P : Type} `{!CycleRollbackPolicy U P}.
Context {R D : Type} (env : SecretEnv R) (config_dir : option Path) (temp_dir : Path).
#[local] Abbreviation W := (R * D)%type.
Context (clock : W → option N).
Context (create_dir_all : Path → State D (result unit IoError)).
Context (write_file : Path → string → State D (result unit IoError)).
Context (settings_to_json : gmap string Value → result string string).
Context (save_metadata_file : gmap string SessionMetadata → State W (result unit string)).
Context (endpoint_of : Value → option MemoryEndpoint) (url_ok : string → bool).
Context (http_client : result unit ShellError).
Context (local_memory : MemoryProvider W) (amp_memory : AmpMemoryEndpoint → MemoryProvider W).
Context (load_tools : State W (result (ToolProvider W) ProviderError)) (default_tools : ToolProvider W).
Context (load_skills : State W (SkillProvider W)).

#[local] Abbreviation apply_settings := (set_settings (U := U) (P := P) env config_dir temp_dir clock
  create_dir_all write_file settings_to_json save_metadata_file endpoint_of url_ok http_client
  local_memory amp_memory load_tools default_tools load_skills).
#[local] Abbreviation new_registry settings := (registry_from_settings env endpoint_of local_memory
  amp_memory load_tools default_tools load_skills settings).
#[local] Abbreviation write_settings := (Settings_save env config_dir temp_dir create_dir_all write_file
  settings_to_json).

End settings.

(** ** What is saved is what is loaded *)

Section json_files.
Context {D : Type} (create_dir_all : Path → State D (result unit IoError)).
Context (write_file : Path → string → State D (result unit IoError)).
Context (read_to_string : Path → State D (result string IoError)).
Context (laws : FileLaws write_file read_to_string).

Lemma save_load_json {A} to_json (of_json : string → result A string) path a context d d' :
  codec to_json of_json →
  save_json create_dir_all write_file to_json path a context d = (Ok tt, d') →
  load_json read_to_string of_json path context d' = (Ok a, d').
Proof using laws.
  intros Hc. unfold save_json.
  match goal with |- context [bind_ok ?m _ d] => set (step := m) end.
  destruct (step d) as [[u|e] d1] eqn:Es; [|by rewrite (bind_ok_Err _ _ _ _ _ Es)].
  rewrite (bind_ok_Ok _ _ _ _ _ Es). unfold bind_ok at 1, bind at 1, ret at 1. cbn [fst snd].
  destruct (to_json a) as [data|e] eqn:Ej; cbn [map_err]; unfold bind, ret; cbn [fst snd]; [|discriminate].
  destruct (write_file path data d1) as [[[]|e] d2] eqn:Ew; cbn; [|done]. intros [= ->].
  pose proof (fl_written _ _ laws _ _ _ _ Ew) as Hr. pose proof (fl_pure _ _ laws path d') as Hp.
  unfold load_json, bind_ok, bind, ret. destruct (read_to_string path d') as [r d3].
  cbn in *. subst r d3. cbn. by rewrite (Hc _ _ Ej).
Qed.
End json_files.

Section durable.
Context {R D : Type} (env : SecretEnv R) (secrets_ok : SecretLaws env).
Context (config_dir : option Path) (temp_dir : Path) (now : D → N).
Context (create_dir_all : Path → State D (result unit IoError)).
Context (write_file : Path → string → State D (result unit IoError)).
Context (read_to_string : Path → State D (result string IoError)).
Context (files : FileLaws write_file read_to_string).
Context (to_json : ProfileConfig → result string string) (of_json : string → result ProfileConfig string).
Context (settings_to_json : gmap string Value → result string string).
Context (settings_of_json : string → result (gmap string Value) string).
Context (json : codec to_json of_json) (settings_json : codec settings_to_json settings_of_json).

#[local] Abbreviation load_config :=
  (ProfileConfig_load env config_dir temp_dir now create_dir_all write_file read_to_string to_json of_json).
#[local] Abbreviation saved_by := (write_profiles config_dir temp_dir create_dir_all write_file to_json).
#[local] Abbreviation command f :=
  (f env config_dir temp_dir now create_dir_all write_file read_to_string to_json of_json).

(** The command of the front end for an operation on the profiles; the time of a creation
    is the one of the clock. *)
Definition profile_command (op : ProfileOp) : State (R * D) (result unit string) :=
  match op with
  | OpCreate _ name display provider model key => command create_profile name display provider model key
  | OpSwitch name => command switch_profile name
  | OpDelete name => command delete_profile_command name
  | OpUpdate p => command update_profile p
  end.
Definition op_at (t : N) (op : ProfileOp) : ProfileOp :=
  match op with
  | OpCreate _ name display provider model key => OpCreate t name display provider model key
  | op => op
  end.

Lemma profile_command_run op rd c :
  load_config rd = (c, rd) →
  profile_command op rd =
    let '(r, (_, rd)) := profile_op env saved_by (op_at (now rd.2) op) (c, rd) in (r, rd).
Proof using Type.
  intros H. destruct op; cbn [profile_command op_at profile_op];
    unfold create_profile, switch_profile, delete_profile_command, update_profile, with_profiles, bind;
    rewrite H; done.
Qed.

Lemma save_profiles_load c (rd : R * D) s :
  save_profiles env saved_by (c, rd) = (Ok tt, s) → Forall plain (profile_api_key <$> profiles c) →
  load_config s.2 = (c, s.2).
Proof using secrets_ok files json.
  destruct rd as [r d]. unfold save_profiles.
  destruct (protect_profiles env (profiles c) r) as [[l|e] r'] eqn:Ep; [|done].
  destruct (saved_by (set_profiles l c) d) as [res d'] eqn:Es. intros [= -> <-] Hp.
  destruct (protect_profiles_sealed env secrets_ok _ _ _ _ Ep) as (_ & H2 & _).
  unfold write_profiles in Es. pose proof (save_load_json _ _ _ files _ _ _ _ _ _ _ json Es) as Hl.
  unfold ProfileConfig_load, bind, on_files. cbn [snd]. rewrite Hl. cbn [fst snd load_profiles].
  unfold ret, reveal_profile_keys. cbn. rewrite (H2 Hp). by destruct c.
Qed.


(** The settings that were saved are those the next load gives, when the keys are plain and
    the modules of the defaults are there. *)
Theorem settings_durable m (w w' : R * D)
    (Hsave : Settings_save env config_dir temp_dir create_dir_all write_file settings_to_json m w = (Ok tt, w'))
    (Hplain : Forall plain (secrets m))
    (Hall : ∀ k, m !! k = None → schema_default_modules env !! k = None) :
  Settings_load env config_dir temp_dir read_to_string settings_of_json w' = (m, w').
Proof using secrets_ok files settings_json.
  destruct w as [r d]. unfold Settings_save, save in Hsave.
  destruct (protect_api_keys env m r) as [[m'|e] r'] eqn:Ep; [|done].
  match type of Hsave with (let '(_, _) := ?x in _) = _ => destruct x as [res d'] eqn:Es end.
  injection Hsave as -> <-.
  destruct (protect_api_keys_sealed env secrets_ok _ _ _ _ Ep) as (_ & H2 & H3).
  pose proof (save_load_json _ _ _ files _ _ _ _ _ _ _ settings_json Es) as Hl.
  unfold Settings_load, bind, on_files, ret. rewrite Hl. cbn [fst snd load].
  rewrite union_defaults; [by rewrite (H2 Hplain)|]. intros k Hk. by apply Hall, H3.
Qed.
End durable.

(** ** A disk to run the commands on, and encoders for finitely many values *)

Definition TableDisk : Type := list (Path * string).
Definition table_read (path : Path) : State TableDisk (result string IoError) :=
  λ d, (match List.find (λ f, bool_decide (f.1 = path)) d with
        | Some f => Ok f.2
        | None => Err "not found"
        end, d).
Definition table_write (path : Path) (data : string) : State TableDisk (result unit IoError) :=
  λ d, (Ok tt, (path, data) :: d).
Definition table_mkdir (path : Path) : State TableDisk (result unit IoError) := ret (Ok tt).

Lemma table_laws : FileLaws table_write table_read.
Proof.
  split; [done|]. intros path data d d' [= <-]. unfold table_read. cbn.
  by rewrite bool_decide_eq_true_2.
Qed.

#[global] Instance UserProfile_eq_dec : EqDecision UserProfile.
Proof. solve_decision. Defined.
#[global] Instance ProfileConfig_eq_dec : EqDecision ProfileConfig.
Proof. solve_decision. Defined.

(** The two values that are ever written have the names 0 and 1. *)
Definition pair_to_json {A} `{EqDecision A} (x y : A) (a : A) : result string string :=
  if decide (a = x) then Ok "0" else if decide (a = y) then Ok "1" else Err "unknown".
Definition pair_of_json {A} (x y : A) (s : string) : result A string :=
  if decide (s = "0") then Ok x else if decide (s = "1") then Ok y else Err "unknown".

Lemma pair_codec {A} `{EqDecision A} (x y : A) : codec (pair_to_json x y) (pair_of_json x y).
Proof.
  intros a s. unfold pair_to_json. case_decide as E; [by intros [= <-]; subst a|].
  case_decide as E'; [|done]. by intros [= <-]; subst a.
Qed.

(** A file with the default profiles, and the same with one more profile, whose key is sealed. *)
Definition first_profiles : ProfileConfig := ProfileConfig_default 0.
Definition work_profile : UserProfile :=
  {| profile_name := "work"; display_name := "Work"; profile_description := None;
     profile_provider := "openrouter"; profile_model := "m"; profile_api_key := "k1";
     profile_system_prompt := None; temperature := Some DEFAULT_TEMPERATURE;
     profile_max_tokens := Some 4096%N; created_at := 7; is_default := false |}.
Definition sealed_work : UserProfile :=
  match (protect_secret toy_env "k1" tt).1 with
  | Ok key => set_profile_key key work_profile
  | Err _ => work_profile
  end.
Definition more_profiles : ProfileConfig := set_profiles (profiles first_profiles ++ [sealed_work]) first_profiles.
Definition profile_to_json := pair_to_json first_profiles more_profiles.
Definition profile_of_json := pair_of_json first_profiles more_profiles.
Definition profile_disk : unit * TableDisk := (tt, [(profile_config_path None [], "0")]).

