(* ===== verification/EffectLoop.v ===== *)
(** * The effect loop of the shell (brioche-shell-runtime/src/shell.rs): the tasks, the
      permits, the rebuild barrier and the shutdown

    The loop, the tasks it spawns, the engine thread and the caller of [shutdown] run
    concurrently; one step of any of them is a label, and an interleaving is a list of
    labels.  A step that would wait is not enabled. *)
From S2P Require Import Prelude Types Effects Persistence GovTypes Executor.

(** ** Configuration *)

Inductive PersistenceMode : Type := Async | Sync.
Definition PersistenceMode_default : PersistenceMode := Async.
Definition is_sync (m : PersistenceMode) : bool := match m with Sync => true | Async => false end.
Definition is_async (m : PersistenceMode) : bool := match m with Sync => false | Async => true end.

Record ShellConfig := {
  engine_channel_capacity : nat;
  tick_interval_ms : N;
  max_concurrent_effects : nat;
  persistence_mode : PersistenceMode;
  transition_journal_enabled : bool
}.

Definition ShellConfig_default : ShellConfig :=
  {| engine_channel_capacity := 256; tick_interval_ms := 1000; max_concurrent_effects := 32;
     persistence_mode := Async; transition_journal_enabled := true |}.

(** ** [TaskTracker]: handles, and which of them are finished *)

Section tracker.
Context {H : Type} (is_finished : H → bool).

Definition TaskTracker_new : list H := [].
Definition unfinished (handles : list H) : list H := List.filter (λ h, negb (is_finished h)) handles.
Definition tracker_spawn (h : H) (handles : list H) : list H := unfinished handles ++ [h].
(** What is awaited, and what is left. *)
Definition wait_all (handles : list H) : list H * list H := (handles, []).
Definition tracker_health_check (handles : list H) : bool * list H :=
  (forallb (λ h, negb (is_finished h)) handles, unfinished handles).
End tracker.

(** ** [RebuildFlagGuard]: the flag, and whether the guard still has to lower it *)

Definition guard_new (flag : bool) : bool * bool := (true, true).
Definition guard_clear (active flag : bool) : bool := false.
Definition guard_drop (active flag : bool) : bool := if active then false else flag.

(** ** The loop *)

(** A spawned task: it holds a permit; [started] once it was polled, [awaited] once
    [wait_all] took its handle. *)
Record EffectTask := {
  task_effect : Effect;
  task_snapshot : StateSnapshot;
  started : bool;
  awaited : bool
}.

Record EffectLoop := {
  output_queue : list (list Effect * StateSnapshot);
  output_open : bool;
  dispatching : option (list Effect * StateSnapshot);
  permits : nat;
  tasks : list EffectTask;
  rebuild_in_progress : bool;
  cancelled : bool;
  loop_done : bool;
  shutdown_waits : bool;
  (** What happened so far, for the statements: the effects the engine sent, those that
      were spawned, and those whose task is over. *)
  sent : list Effect;
  spawned : list Effect;
  ended : list Effect
}.

Inductive TaskEnd : Type := Completed | TaskCancelled | Panicked.

Inductive LoopLabel : Type :=
  | EngineSends (effects : list Effect) (snapshot : StateSnapshot)
  | EngineStops
  | Shutdown
  | ShutdownWaits
  | LoopReceives
  | LoopStops
  | LoopSpawns
  | LoopBatchEnds
  | LoopBreaks
  | TaskStarts (i : nat)
  | TaskEnds (i : nat) (how : TaskEnd).

Definition is_rebuild (e : Effect) : bool := match e with Effect.RebuildRoutes => true | _ => false end.
Definition is_execute_tools (e : Effect) : bool :=
  match e with Effect.ExecuteTools _ => true | _ => false end.

Definition EffectLoop_new (c : ShellConfig) : EffectLoop :=
  {| output_queue := []; output_open := true; dispatching := None;
     permits := max_concurrent_effects c; tasks := []; rebuild_in_progress := false;
     cancelled := false; loop_done := false; shutdown_waits := false; sent := []; spawned := []; ended := [] |}.

Definition set_dispatching (d : option (list Effect * StateSnapshot)) (s : EffectLoop) : EffectLoop :=
  {| output_queue := output_queue s; output_open := output_open s; dispatching := d;
     permits := permits s; tasks := tasks s; rebuild_in_progress := rebuild_in_progress s;
     cancelled := cancelled s; loop_done := loop_done s; shutdown_waits := shutdown_waits s; sent := sent s; spawned := spawned s;
     ended := ended s |}.
Definition set_queue (q : list (list Effect * StateSnapshot)) (s : EffectLoop) : EffectLoop :=
  {| output_queue := q; output_open := output_open s; dispatching := dispatching s;
     permits := permits s; tasks := tasks s; rebuild_in_progress := rebuild_in_progress s;
     cancelled := cancelled s; loop_done := loop_done s; shutdown_waits := shutdown_waits s; sent := sent s; spawned := spawned s;
     ended := ended s |}.
Definition set_tasks (p : nat) (l : list EffectTask) (flag : bool) (s : EffectLoop) : EffectLoop :=
  {| output_queue := output_queue s; output_open := output_open s; dispatching := dispatching s;
     permits := p; tasks := l; rebuild_in_progress := flag; cancelled := cancelled s;
     loop_done := loop_done s; shutdown_waits := shutdown_waits s; sent := sent s; spawned := spawned s; ended := ended s |}.

(** The engine thread: [blocking_send] waits for room, and ends the thread when the loop is
    gone. *)
Definition engine_sends (c : ShellConfig) (effects : list Effect) (snapshot : StateSnapshot)
    (s : EffectLoop) : option EffectLoop :=
  if output_open s && negb (loop_done s) && (length (output_queue s) <? engine_channel_capacity c)
  then Some {| output_queue := output_queue s ++ [(effects, snapshot)]; output_open := true;
               dispatching := dispatching s; permits := permits s; tasks := tasks s;
               rebuild_in_progress := rebuild_in_progress s; cancelled := cancelled s;
               loop_done := loop_done s; shutdown_waits := shutdown_waits s; sent := sent s ++ effects; spawned := spawned s;
               ended := ended s |}
  else None.

Definition engine_stops (s : EffectLoop) : option EffectLoop :=
  if output_open s then
    Some {| output_queue := output_queue s; output_open := false; dispatching := dispatching s;
            permits := permits s; tasks := tasks s; rebuild_in_progress := rebuild_in_progress s;
            cancelled := cancelled s; loop_done := loop_done s; shutdown_waits := shutdown_waits s; sent := sent s;
            spawned := spawned s; ended := ended s |}
  else None.

Definition shell_shutdown (s : EffectLoop) : option EffectLoop :=
  Some {| output_queue := output_queue s; output_open := output_open s;
          dispatching := dispatching s; permits := permits s; tasks := tasks s;
          rebuild_in_progress := rebuild_in_progress s; cancelled := true;
          loop_done := loop_done s; shutdown_waits := shutdown_waits s; sent := sent s; spawned := spawned s; ended := ended s |}.

(** After the cancellation [wait_all] takes the handles there are, once; [shutdown] waits for
    the loop and for those. *)
Definition await_task (t : EffectTask) : EffectTask :=
  {| task_effect := task_effect t; task_snapshot := task_snapshot t; started := started t;
     awaited := true |}.

Definition shutdown_takes (s : EffectLoop) : option EffectLoop :=
  if cancelled s then
    Some {| output_queue := output_queue s; output_open := output_open s;
            dispatching := dispatching s; permits := permits s;
            tasks := await_task <$> (wait_all (tasks s)).1;
            rebuild_in_progress := rebuild_in_progress s; cancelled := true;
            loop_done := loop_done s; shutdown_waits := true; sent := sent s;
            spawned := spawned s; ended := ended s |}
  else None.

Definition wait_all_over (s : EffectLoop) : bool :=
  shutdown_waits s && loop_done s && forallb (λ t, negb (awaited t)) (tasks s).

(** Between two batches: a batch is received, or the loop ends, on cancellation or when the
    channel is closed and empty. *)
Definition loop_receives (s : EffectLoop) : option EffectLoop :=
  match loop_done s, dispatching s, output_queue s with
  | false, None, batch :: queue => Some (set_dispatching (Some batch) (set_queue queue s))
  | _, _, _ => None
  end.

Definition loop_stops (s : EffectLoop) : option EffectLoop :=
  match loop_done s, dispatching s with
  | false, None =>
      if cancelled s || (negb (output_open s) && bool_decide (length (output_queue s) = 0)) then
        Some {| output_queue := output_queue s; output_open := output_open s; dispatching := None;
                permits := permits s; tasks := tasks s;
                rebuild_in_progress := rebuild_in_progress s; cancelled := cancelled s;
                loop_done := true; shutdown_waits := shutdown_waits s; sent := sent s; spawned := spawned s; ended := ended s |}
      else None
  | _, _ => None
  end.

(** Inside a batch: the next effect takes a permit and is spawned; on cancellation the rest
    of the batch is left. *)
Definition loop_spawns (s : EffectLoop) : option EffectLoop :=
  match dispatching s, permits s with
  | Some (effect :: effects, snapshot), S p =>
      Some {| output_queue := output_queue s; output_open := output_open s;
              dispatching := Some (effects, snapshot); permits := p;
              tasks := tasks s ++ [{| task_effect := effect; task_snapshot := snapshot; started := false;
                          awaited := false |}];
              rebuild_in_progress := rebuild_in_progress s; cancelled := cancelled s;
              loop_done := loop_done s; shutdown_waits := shutdown_waits s; sent := sent s; spawned := spawned s ++ [effect];
              ended := ended s |}
  | _, _ => None
  end.

Definition loop_batch_ends (s : EffectLoop) : option EffectLoop :=
  match dispatching s with
  | Some ([], _) => Some (set_dispatching None s)
  | _ => None
  end.

Definition loop_breaks (s : EffectLoop) : option EffectLoop :=
  match dispatching s, cancelled s with
  | Some (_ :: _, _), true => Some (set_dispatching None s)
  | _, _ => None
  end.

(** A task is polled for the first time: a rebuild raises the flag. *)
Definition start (t : EffectTask) : EffectTask :=
  {| task_effect := task_effect t; task_snapshot := task_snapshot t; started := true;
     awaited := awaited t |}.

Definition task_starts (i : nat) (s : EffectLoop) : option EffectLoop :=
  match tasks s !! i with
  | Some t =>
      if started t then None
      else Some (set_tasks (permits s) (<[i := start t]> (tasks s))
                   (if is_rebuild (task_effect t) then (guard_new (rebuild_in_progress s)).1
                    else rebuild_in_progress s) s)
  | None => None
  end.

(** A task is over: its guard lowers the flag, cleared or dropped, and its permit is free.
    Tool calls are not cancelled here. *)
Definition task_ends (i : nat) (how : TaskEnd) (s : EffectLoop) : option EffectLoop :=
  match tasks s !! i with
  | Some t =>
      let allowed := match how with
                     | Completed | Panicked => true
                     | TaskCancelled => cancelled s && negb (is_execute_tools (task_effect t))
                     end in
      if started t && allowed then
        let flag :=
          if is_rebuild (task_effect t) then
            match how with
            | Panicked => guard_drop true (rebuild_in_progress s)
            | _ => guard_clear true (rebuild_in_progress s)
            end
          else rebuild_in_progress s in
        let s' := set_tasks (S (permits s)) (delete i (tasks s)) flag s in
        Some {| output_queue := output_queue s'; output_open := output_open s';
                dispatching := dispatching s'; permits := permits s'; tasks := tasks s';
                rebuild_in_progress := rebuild_in_progress s'; cancelled := cancelled s';
                loop_done := loop_done s'; shutdown_waits := shutdown_waits s'; sent := sent s'; spawned := spawned s';
                ended := ended s' ++ [task_effect t] |}
      else None
  | None => None
  end.

Definition loop_step (c : ShellConfig) (l : LoopLabel) (s : EffectLoop) : option EffectLoop :=
  match l with
  | EngineSends effects snapshot => engine_sends c effects snapshot s
  | EngineStops => engine_stops s
  | Shutdown => shell_shutdown s
  | ShutdownWaits => shutdown_takes s
  | LoopReceives => loop_receives s
  | LoopStops => loop_stops s
  | LoopSpawns => loop_spawns s
  | LoopBatchEnds => loop_batch_ends s
  | LoopBreaks => loop_breaks s
  | TaskStarts i => task_starts i s
  | TaskEnds i how => task_ends i how s
  end.

Fixpoint run_loop (c : ShellConfig) (labels : list LoopLabel) (s : EffectLoop) : option EffectLoop :=
  match labels with
  | [] => Some s
  | l :: labels => match loop_step c l s with Some s' => run_loop c labels s' | None => None end
  end.

(** The steps of the shell itself, once nothing comes from outside. *)
Definition internal (l : LoopLabel) : bool :=
  match l with EngineSends _ _ | EngineStops | Shutdown | ShutdownWaits => false | _ => true end.
