(* ===== verification/EffectExecutor.v ===== *)
(** * The default effect executor and the telemetry channel (brioche-shell-runtime/src/:
      effect_executor.rs, shell.rs, telemetry.rs)

    What the executor does with each effect, over the state of the persistence layer, the
    callbacks of the projection and the channels back to the shell.  Calls to the model and
    tool batches are those of Executor.v.  Background saves are kept in one list, with the
    place their handle is in, so that what becomes of each can be followed. *)
From S2P Require Import Prelude Utf8 Types Effects Journal Extension Session Plugins Router.
From S2P Require Import Persistence Engine GovTypes Signals Trace Sse Executor EngineThread EffectLoop.

(** ** effect_executor.rs: [Persistence] *)

Record PersistenceLayer (S : Type) := {
  layer_save_session : string → State S (result unit ShellError);
  layer_save_plugin_blob : string → bytes → State S (result unit ShellError);
  layer_gc : string → State S (result N ShellError)
}.
Arguments layer_save_session {S}.
Arguments layer_save_plugin_blob {S}.
Arguments layer_gc {S}.

Definition NoopPersistence {S} : PersistenceLayer S := {|
  layer_save_session _ := ret (Ok tt);
  layer_save_plugin_blob _ _ := ret (Ok tt);
  layer_gc _ := ret (Ok 0%N)
|}.

(** ** effect_executor.rs: background saves *)

(** Where the handle of a save is: in the shared list, taken by [shutdown], or dropped. *)
Inductive HandlePlace : Type := InList | Taken | DroppedHandle.
#[global] Instance HandlePlace_eq_dec : EqDecision HandlePlace.
Proof. solve_decision. Defined.

Record SaveTask := { save_id : string; save_finished : bool; place : HandlePlace }.

Definition move_handle (p : HandlePlace) (t : SaveTask) : SaveTask :=
  {| save_id := save_id t; save_finished := save_finished t; place := p |}.

(** [retain(|h| !h.is_finished())] *)
Definition prune (t : SaveTask) : SaveTask :=
  if save_finished t && bool_decide (place t = InList) then move_handle DroppedHandle t else t.

Definition spawn_save (id : string) (saves : list SaveTask) : list SaveTask :=
  (prune <$> saves) ++ [{| save_id := id; save_finished := false; place := InList |}].

(** [shutdown] takes the list, and waits for what it took. *)
Definition take_handles (saves : list SaveTask) : list SaveTask :=
  (λ t, if decide (place t = InList) then move_handle Taken t else t) <$> saves.
Definition shutdown_over (saves : list SaveTask) : bool :=
  forallb (λ t, save_finished t || negb (bool_decide (place t = Taken))) saves.

(** A background task saves and is finished, whatever the save answers. *)
Definition save_runs {S} (layer : PersistenceLayer S) (i : nat) :
    State (S * list SaveTask) (option (result unit ShellError)) :=
  λ '(s, saves),
    match saves !! i with
    | Some t =>
        if save_finished t then (None, (s, saves))
        else let '(r, s) := layer_save_session layer (save_id t) s in
             (Some r, (s, <[i := {| save_id := save_id t; save_finished := true; place := place t |}]> saves))
    | None => (None, (s, saves))
    end.

(** ** effect_executor.rs: [DefaultEffectExecutor] *)

Record DefaultEffectExecutor := {
  executor_mode : PersistenceMode;
  has_ui_forwarder : bool;
  has_subroutine_callback : bool;
  executor_history : option (list ChatMessage);
  cpu_task_registry : option CpuTaskRegistry
}.

Definition DefaultEffectExecutor_new : DefaultEffectExecutor :=
  {| executor_mode := Async; has_ui_forwarder := false; has_subroutine_callback := false;
     executor_history := None; cpu_task_registry := None |}.
Definition with_persistence_mode (m : PersistenceMode) (x : DefaultEffectExecutor) :=
  {| executor_mode := m; has_ui_forwarder := has_ui_forwarder x;
     has_subroutine_callback := has_subroutine_callback x;
     executor_history := executor_history x; cpu_task_registry := cpu_task_registry x |}.
Definition with_ui_forwarder (x : DefaultEffectExecutor) :=
  {| executor_mode := executor_mode x; has_ui_forwarder := true;
     has_subroutine_callback := has_subroutine_callback x;
     executor_history := executor_history x; cpu_task_registry := cpu_task_registry x |}.
Definition with_subroutine_restored_callback (x : DefaultEffectExecutor) :=
  {| executor_mode := executor_mode x; has_ui_forwarder := has_ui_forwarder x;
     has_subroutine_callback := true;
     executor_history := executor_history x; cpu_task_registry := cpu_task_registry x |}.
Definition with_history (h : list ChatMessage) (x : DefaultEffectExecutor) :=
  {| executor_mode := executor_mode x; has_ui_forwarder := has_ui_forwarder x;
     has_subroutine_callback := has_subroutine_callback x;
     executor_history := Some h; cpu_task_registry := cpu_task_registry x |}.
Definition with_cpu_task_registry (r : CpuTaskRegistry) (x : DefaultEffectExecutor) :=
  {| executor_mode := executor_mode x; has_ui_forwarder := has_ui_forwarder x;
     has_subroutine_callback := has_subroutine_callback x;
     executor_history := executor_history x; cpu_task_registry := Some r |}.

(** What an effect can touch: the persistence layer, the background saves, what the callbacks
    of the projection were given, and the channels back to the engine thread, which are closed
    once it is gone. *)
Record ExecutorWorld {S : Type} := {
  layer_state : S;
  background_saves : list SaveTask;
  ui_widgets : list UiWidget;
  restored_handles : list SubRoutineHandle;
  task_results : list AsyncTaskResult;
  notifications : list GovernanceNotification;
  engine_gone : bool
}.
Arguments ExecutorWorld S : clear implicits.

Section perform.
Context {S : Type} (layer : PersistenceLayer S) (x : DefaultEffectExecutor).
(** The calls that have definitions of their own, and the summary of the client. *)
Context (call_llm : State (ExecutorWorld S) (result unit ShellError)).
Context (execute_tools : list ActiveToolCall → N → State (ExecutorWorld S) (result unit ShellError)).
Context (summarize : list ChatMessage → result ChatMessage ShellError).
(** Whether the engine thread confirms a rebuild. *)
Context (rebuild_confirmed : bool).
#[local] Abbreviation M := (State (ExecutorWorld S) (result unit ShellError)).

Definition on_layer {A} (m : State S A) : State (ExecutorWorld S) A :=
  λ w, let '(a, s) := m (layer_state w) in
       (a, {| layer_state := s; background_saves := background_saves w; ui_widgets := ui_widgets w;
              restored_handles := restored_handles w; task_results := task_results w;
              notifications := notifications w; engine_gone := engine_gone w |}).

(** [send_async_task_result], [send_governance_notification] *)
Definition send_async_task_result (r : AsyncTaskResult) : M := λ w,
  if engine_gone w then (Err ShellError.ChannelSend, w)
  else (Ok tt, {| layer_state := layer_state w; background_saves := background_saves w;
                  ui_widgets := ui_widgets w; restored_handles := restored_handles w;
                  task_results := task_results w ++ [r]; notifications := notifications w;
                  engine_gone := false |}).

Definition send_governance_notification (n : GovernanceNotification) : M := λ w,
  if engine_gone w then (Err ShellError.ChannelSend, w)
  else (Ok tt, {| layer_state := layer_state w; background_saves := background_saves w;
                  ui_widgets := ui_widgets w; restored_handles := restored_handles w;
                  task_results := task_results w; notifications := notifications w ++ [n];
                  engine_gone := false |}).

Definition send_rebuild_command (active_mask : list bool) : M := λ w,
  (if engine_gone w then Err ShellError.ChannelSend
   else if rebuild_confirmed then Ok tt else Err ShellError.EngineDisconnected, w).

Definition forward_to_ui (widget : UiWidget) : M := λ w,
  (Ok tt, {| layer_state := layer_state w; background_saves := background_saves w;
             ui_widgets := ui_widgets w ++ (if has_ui_forwarder x then [widget] else []);
             restored_handles := restored_handles w; task_results := task_results w;
             notifications := notifications w; engine_gone := engine_gone w |}).

Definition sub_routine_restored (h : SubRoutineHandle) : M := λ w,
  (Ok tt, {| layer_state := layer_state w; background_saves := background_saves w;
             ui_widgets := ui_widgets w;
             restored_handles :=
               restored_handles w ++ (if has_subroutine_callback x then [h] else []);
             task_results := task_results w; notifications := notifications w;
             engine_gone := engine_gone w |}).

Definition executor_save_session (id : string) : M :=
  match executor_mode x with
  | Async => λ w,
      (Ok tt, {| layer_state := layer_state w; background_saves := spawn_save id (background_saves w);
                 ui_widgets := ui_widgets w; restored_handles := restored_handles w;
                 task_results := task_results w; notifications := notifications w;
                 engine_gone := engine_gone w |})
  | Sync => on_layer (layer_save_session layer id)
  end.

(** One arm of [execute_effect] and the method behind it. *)
Definition perform (call : ExecutorCall) : M :=
  match call with
  | ExecutorCall.CallLlm => call_llm
  | ExecutorCall.ExecuteTools calls generation_id => execute_tools calls generation_id
  | ExecutorCall.ForwardToUi widget => forward_to_ui widget
  | ExecutorCall.LogError _ _ => ret (Ok tt)
  | ExecutorCall.SaveSession id => executor_save_session id
  | ExecutorCall.SavePluginBlob id data => on_layer (layer_save_plugin_blob layer id data)
  | ExecutorCall.TriggerSummarization =>
      match trigger_summarization (executor_history x) summarize with
      | Err e => ret (Err e)
      | Ok None => ret (Ok tt)
      | Ok (Some r) => send_async_task_result r
      end
  | ExecutorCall.ExecuteCpuTask id payload =>
      match execute_cpu_task (cpu_task_registry x) id payload with
      | Err e => ret (Err e)
      | Ok r => send_async_task_result r
      end
  | ExecutorCall.TriggerGc id =>
      r <-! on_layer (layer_gc layer id) ;;
      ret match r with Ok _ => Ok tt | Err e => Err e end
  | ExecutorCall.OnSystemIdle _ => ret (Ok tt)
  | ExecutorCall.SendGovernanceNotification n => send_governance_notification n
  | ExecutorCall.SendRebuildCommand active_mask => send_rebuild_command active_mask
  | ExecutorCall.SubRoutineRestored h => sub_routine_restored h
  end.

Definition run_effect (snapshot : StateSnapshot) (effect : Effect) : M :=
  perform (execute_effect snapshot effect).

Definition executor_shutdown : State (ExecutorWorld S) unit :=
  modify (λ w, {| layer_state := layer_state w; background_saves := take_handles (background_saves w);
                  ui_widgets := ui_widgets w; restored_handles := restored_handles w;
                  task_results := task_results w; notifications := notifications w;
                  engine_gone := engine_gone w |}).
End perform.

(** ** shell.rs: [ready], [EchoToolExecutor], [TickEmitter] *)

Definition shell_ready (shutdown : bool) (c : InputChannel) : result unit ShellError :=
  if shutdown || closed c then Err ShellError.EngineDisconnected else Ok tt.

Definition echo_execute (call : ActiveToolCall) : ToolResultDTO :=
  {| result_tool_id := active_tool_id call; result_tool_name := active_tool_name call;
     outcome := ToolOutcome.Success (active_arguments call) |}.

(** The elapsed times of the ticks, with whether the channel takes the signal; milliseconds
    are cut to 64 bits.  The loop ends at the first refusal. *)
Fixpoint tick_run (ticks : list (N * bool)) : list SystemSignal :=
  match ticks with
  | [] => []
  | (elapsed, sent) :: ticks =>
      if sent : bool then SystemSignal.Tick (elapsed mod u64_modulus)%N :: tick_run ticks else []
  end.

(** ** telemetry.rs *)

Inductive TelemetryLevel : Type := LevelDebug | LevelInfo | LevelWarn | LevelError.

(** [Secret<T>]: [Debug] and [Serialize] print the same text for every value. *)
Record Secret (T : Type) := { expose : T }.
Arguments expose {T}.
Definition REDACTED : string := "[REDACTED]".

Inductive TelemetryPayload : Type :=
  | PlainPayload (v : Value)
  | SecretPayload (s : Secret Value).

Definition payload_plain (v : Value) : TelemetryPayload := PlainPayload v.
Definition payload_secret (v : Value) : TelemetryPayload := SecretPayload {| expose := v |}.
Definition expose_secret (p : TelemetryPayload) : option Value :=
  match p with SecretPayload s => Some (expose s) | PlainPayload _ => None end.
(** The untagged serialisation. *)
Definition serialize_payload (p : TelemetryPayload) : Value :=
  match p with PlainPayload v => v | SecretPayload _ => Str REDACTED end.

Record TelemetryEvent := {
  event_payload : option TelemetryPayload;
  event_level : TelemetryLevel;
  event_source : string;
  event_message : string
}.

(** The default subscriber: what it logs, from the answers of its receiver; [None] stands for
    an error of the receiver, closed or lagging. *)
Fixpoint default_subscriber (answers : list (option TelemetryEvent)) : list TelemetryEvent :=
  match answers with
  | Some e :: answers => e :: default_subscriber answers
  | _ => []
  end.

(** ** shell.rs: [BriocheShell::new]

    What is running when it returns: the engine thread, the tasks the tracker holds, and the
    channels, by their capacities. *)

Inductive ShellTask : Type :=
  | EffectConsumption
  | TickEmission (interval_ms : N)
  | Monitoring (w : EngineWatchdog).

Section shell.
Context {U : AnyUniverse} {P : Type} `{!CycleRollbackPolicy U P, !KernelTypes U, !GovernanceTypes U}.
Context {C : Type}.

Record BriocheShell := {
  shell_thread : EngineThread U P C;
  shell_effects : EffectLoop;
  shell_watchdog : WatchdogRun;
  shell_tasks : list ShellTask;
  shell_input : InputChannel;
  shell_signals : SystemSignalAdapter;
  shell_notifications : GovernanceNotificationAdapter;
  shell_results : AsyncTaskResultAdapter;
  shell_rebuilds : InputChannel;
  journal_on : bool
}.

Definition empty_channel (n : nat) : InputChannel :=
  {| channel_len := 0; channel_capacity := n; closed := false |}.

(** [engine_factory] runs on the engine thread. *)
Definition BriocheShell_new (engine_factory : BriocheEngine U P * Session U P) (config : ShellConfig)
    (session_callback : C) : BriocheShell :=
  let '(engine, session) := engine_factory in
  let n := engine_channel_capacity config in
  {| shell_thread := engine_thread_start engine session session_callback;
     shell_effects := EffectLoop_new config;
     shell_watchdog := WatchdogRun_new;
     shell_tasks := [EffectConsumption; TickEmission (tick_interval_ms config);
                     Monitoring EngineWatchdog_default];
     shell_input := empty_channel n;
     shell_signals := SystemSignalAdapter_new n;
     shell_notifications := GovernanceNotificationAdapter_new n;
     shell_results := AsyncTaskResultAdapter_new n;
     shell_rebuilds := empty_channel 4;
     journal_on := transition_journal_enabled config |}.
End shell.
Arguments BriocheShell U P C : clear implicits.
