(* ===== verification/PluginKit.v ===== *)
(** * The plugin kit (brioche-plugin-kit/src/: builder.rs, lib.rs), and the session factories
      and the shell builder of brioche-shell-builder/src/builder.rs

    [PluginBuilder] is a builder of Builder.v in its final type state, to which a governance
    profile was applied first; its setters are those of the builder. *)
From S2P Require Import Prelude Utf8 Types Effects Extension Session Plugins Router Engine GovTypes.
From S2P Require Import Transition Persistence Signals Sse Provider DesktopSessions Executor.
From S2P Require Import EngineThread EffectLoop EffectExecutor.
From S2P Require Import Builder Guards Aggregators Subroutines Tools Rollback Telemetry Profile.

Section kit.
Context {U : AnyUniverse} `{!KernelTypes U, !GovernanceTypes U, !TelemetryTypes U}.
Context (debug_handle : string → string) (debug_input : EngineInput → string).
Context (to_json : TruncatedToolResult → result string string).
(** Whether [Permissive] is allowed in this build. *)
Context (opted_in : bool).

Definition PluginBuilder : Type := BriocheEngineBuilder U (BoxedPolicy U) Present Present.

Definition kit_profile (p : GovernanceProfile) : PluginBuilder :=
  apply debug_handle debug_input to_json opted_in p builder_new.
Definition PluginBuilder_standard : PluginBuilder := kit_profile Standard.
Definition PluginBuilder_permissive : PluginBuilder := kit_profile Permissive.
Definition PluginBuilder_strict : PluginBuilder := kit_profile Strict.

(** The setters that only forward: one of the calls of the builder, or a replacement of one
    of the two mandatory traits. *)
Definition kit_call (c : BuilderCall U (BoxedPolicy U)) (b : PluginBuilder) : PluginBuilder :=
  apply_call c b.
Definition kit_with_decision_aggregator (a : DecisionAggregatorPlugin U (BoxedPolicy U))
    (b : PluginBuilder) : PluginBuilder := with_decision_aggregator a b.
Definition kit_with_subroutine_lifecycle_guard
    (g : SubRoutineLifecycleGuardPlugin U (BoxedPolicy U)) (b : PluginBuilder) : PluginBuilder :=
  with_subroutine_lifecycle_guard g b.

Definition kit_build (b : PluginBuilder) : BriocheEngine U (BoxedPolicy U) := build b.
Definition build_with_session (id : string) (b : PluginBuilder) :
    BriocheEngine U (BoxedPolicy U) * Session U (BoxedPolicy U) :=
  (kit_build b, Session_new id).

(** ** [MockEngine] *)

Record MockEngine := {
  mock_engine : BriocheEngine U (BoxedPolicy U);
  mock_session : Session U (BoxedPolicy U)
}.

Definition mock_of (b : PluginBuilder) : MockEngine :=
  {| mock_engine := (build_with_session "test" b).1; mock_session := (build_with_session "test" b).2 |}.
Definition MockEngine_new : MockEngine := mock_of PluginBuilder_permissive.
Definition MockEngine_standard : MockEngine := mock_of PluginBuilder_standard.
Definition MockEngine_strict : MockEngine := mock_of PluginBuilder_strict.

Definition mock_transition (input : EngineInput) (m : MockEngine) : list Effect * MockEngine :=
  let '(effects, en, s) := transition input (mock_engine m) (mock_session m) in
  (effects, {| mock_engine := en; mock_session := s |}).

(** ** What every shell runs *)

Definition with_hydrator (hydrator : SubRoutineHydratorPlugin U (BoxedPolicy U)) : PluginBuilder :=
  kit_call (with_subroutine_hydrator hydrator) PluginBuilder_standard.

(** [hydrator]: the one of the persistence crate over the storage of the shell. *)
Definition default_session_factory (hydrator : SubRoutineHydratorPlugin U (BoxedPolicy U))
    (session_id : string) : BriocheEngine U (BoxedPolicy U) * Session U (BoxedPolicy U) :=
  build_with_session session_id (with_hydrator hydrator).

Definition restored_session_factory (hydrator : SubRoutineHydratorPlugin U (BoxedPolicy U))
    (session_id : string) (initial_history : option (list ChatMessage))
    (initial_head : option SessionHeadDTO) :
    BriocheEngine U (BoxedPolicy U) * Session U (BoxedPolicy U) :=
  let '(engine, session) := build_with_session session_id (with_hydrator hydrator) in
  (engine, match initial_head with
           | Some head => to_session head (match initial_history with Some h => h | None => [] end)
           | None => match initial_history with
                     | Some h => set_history (λ _, h) session
                     | None => session
                     end
           end).
End kit.

(** ** [ShellBuilder]

    How both applications build their shells.  The callback of the engine thread is
    [Persistence.session_callback]; [C] is what it works on. *)

Section shell_builder.
Context {U : AnyUniverse} `{!KernelTypes U, !GovernanceTypes U, !TelemetryTypes U}.
Context (debug_handle : string → string) (debug_input : EngineInput → string).
Context (to_json : TruncatedToolResult → result string string) (opted_in : bool).
Let Policy := BoxedPolicy U.

Definition HistoryTransform : Type := list ChatMessage → list ChatMessage.

Record ShellBuilder := {
  sb_client : result unit ShellError;   (* [OpenAiLlmClient::new] on the configuration *)
  sb_tick_interval_ms : N;
  sb_hydrator : SubRoutineHydratorPlugin U Policy;   (* over the storage *)
  sb_schemas : list Value;   (* of the tool executor *)
  sb_transform : option HistoryTransform;
  sb_factory : BriocheEngine U Policy * Session U Policy
}.

Definition ShellBuilder_new (id : string) (client : result unit ShellError)
    (hydrator : SubRoutineHydratorPlugin U Policy) (schemas : list Value) : ShellBuilder :=
  {| sb_client := client; sb_tick_interval_ms := 1000; sb_hydrator := hydrator;
     sb_schemas := schemas; sb_transform := None;
     sb_factory := default_session_factory debug_handle debug_input to_json opted_in hydrator id |}.

Definition with_tick_interval_ms (n : N) (b : ShellBuilder) : ShellBuilder :=
  {| sb_client := sb_client b; sb_tick_interval_ms := n; sb_hydrator := sb_hydrator b;
     sb_schemas := sb_schemas b; sb_transform := sb_transform b; sb_factory := sb_factory b |}.
Definition with_history_transform (t : option HistoryTransform) (b : ShellBuilder) : ShellBuilder :=
  {| sb_client := sb_client b; sb_tick_interval_ms := sb_tick_interval_ms b;
     sb_hydrator := sb_hydrator b; sb_schemas := sb_schemas b; sb_transform := t;
     sb_factory := sb_factory b |}.
Definition with_engine_factory (f : BriocheEngine U Policy * Session U Policy) (b : ShellBuilder) :
    ShellBuilder :=
  {| sb_client := sb_client b; sb_tick_interval_ms := sb_tick_interval_ms b;
     sb_hydrator := sb_hydrator b; sb_schemas := sb_schemas b; sb_transform := sb_transform b;
     sb_factory := f |}.

Definition built_config (b : ShellBuilder) : ShellConfig :=
  {| engine_channel_capacity := 256; tick_interval_ms := sb_tick_interval_ms b;
     max_concurrent_effects := 32; persistence_mode := Async; transition_journal_enabled := false |}.

(** The client with its transform and the schemas it offers, and the executor beside the
    shell, whose history is the mirror the client shares. *)
Record BuiltShell {C : Type} := {
  built_shell : BriocheShell U Policy C;
  built_client : OpenAiLlmClient;
  built_transform : option HistoryTransform;
  built_schemas : list Value;
  built_executor : DefaultEffectExecutor
}.
Arguments BuiltShell C : clear implicits.

Definition build_with {C : Type} (session_callback : C) (b : ShellBuilder) :
    result (BuiltShell C) ShellError :=
  result_bind (sb_client b) (λ _,
    let client := (push_message (ChatMessage.System DEFAULT_SYSTEM_PROMPT) OpenAiLlmClient_new).2 in
    Ok {| built_shell := BriocheShell_new (sb_factory b) (built_config b) session_callback;
          built_client := client; built_transform := sb_transform b; built_schemas := sb_schemas b;
          built_executor := with_history (mirror client) DefaultEffectExecutor_new |}).
End shell_builder.
Arguments ShellBuilder U : clear implicits.
