(* ===== verification/Tooling.v ===== *)
(** * Development tools (infra/brioche-lint-core, infra/cargo-brioche-lint,
      infra/cargo-brioche-lint-invariants, ecosystem/brioche-docgen and
      ecosystem/brioche-playground, under crates/)

    What the tools compute from the files they read: the violations and references they
    report, with the code they exit with, the documents they write, the engine the playground
    runs.  The walk of the directory, the regular expressions and JSON are parameters. *)
From S2P Require Import Prelude Utf8 Types Effects Extension Session Plugins Router Engine.
From S2P Require Import GovTypes Transition Builder Guards Rollback Telemetry Instances Profile Persistence.
From S2P Require Import PluginKit Sse Provider SystemTools Settings Extensions Skills Derive.

(** ** brioche-lint-core/src/walk.rs *)

(** [Path::extension]: behind the last dot of the last name, unless that dot leads it. *)
Definition name_extension (name : string) : option string :=
  match rev (split_on "." name) with
  | [_; ""] => None
  | ext :: _ :: _ => Some ext
  | _ => None
  end.
Definition extension (p : Path) : option string :=
  match last p with Some (Normal name) => name_extension name | _ => None end.

Definition excluded (c : Component) : bool :=
  match c with Normal name => bool_decide (name = "target") || bool_decide (name = ".git") | _ => false end.

(** The entries of the walk, those that could not be read left out. *)
Definition source_file (extensions : list string) (p : Path) : bool :=
  match extension p with Some e => bool_decide (e ∈ extensions) | None => false end &&
  negb (existsb excluded p).
Definition source_files (extensions : list string) (walk : list (option Path)) : list Path :=
  List.filter (source_file extensions) (omap id walk).

(** [contents.lines().enumerate()], counted from one. *)
Definition numbered_lines (contents : string) : list (N * string) :=
  imap (λ i line, (N.of_nat (S i), line)) (lines contents).

(** ** cargo-brioche-lint *)

Record Violation := { violation_file : string; violation_line : N; violation_message : string }.

Definition forbidden_fields : list string := ["session.history"; "session.state"].
Definition unwrap_message : string := "Found unwrap/expect. Use explicit error handling instead.".
Definition hash_message : string :=
  "HashMap/HashSet in BriocheExtensionType state. Use BTreeMap/BTreeSet for determinism.".
Definition field_message (field : string) : string :=
  "Direct `" +:+ field +:+ "` access in plugin code. Use `ExtensionStorage` and `SessionSnapshot` instead.".

Definition lint_line (has_extension_type : bool) (line : string) : list string :=
  if str_starts "//" (trim_string line) then []
  else
    flat_map (λ field, if str_contains field line then [field_message field] else []) forbidden_fields ++
    (if str_contains ".unwrap()" line || str_contains ".expect(" line then [unwrap_message] else []) ++
    (if has_extension_type && (str_contains "HashMap" line || str_contains "HashSet" line)
     then [hash_message] else []).

Section files.
(** [read_to_string] and [Path::display]. *)
Context (read : Path → option string) (display : Path → string).

Definition lint_file_contents (path : Path) (contents : string) : list Violation :=
  let has_extension_type := str_contains "BriocheExtensionType" contents in
  flat_map (λ '(n, line),
    (λ m, {| violation_file := display path; violation_line := n; violation_message := m |}) <$>
      lint_line has_extension_type line) (numbered_lines contents).

Definition lint_directory (walk : list (option Path)) : list Violation :=
  flat_map (λ path, match read path with Some contents => lint_file_contents path contents | None => [] end)
    (source_files ["rs"] walk).

(** The exit code. *)
Definition lint_main (walk : list (option Path)) : N :=
  match lint_directory walk with [] => 0 | _ => 1 end%N.

(** ** cargo-brioche-lint-invariants *)

Definition KNOWN_CATEGORIES : list string :=
  ["I-Core"; "I-Gov"; "I-Shell"; "I-UI"; "I-Persist"; "I-Comp"; "I-Eco"].
Definition KNOWN_CANONICAL_REFS : list string := ["SPECS"; "docs/SPECS"; "SCIFI"].

Definition has_known_category (inv : string) : bool :=
  existsb (λ cat, str_starts cat inv) KNOWN_CATEGORIES.

Definition strip_md (inv : string) : string :=
  if ends_with ".md" inv then substring 0 (String.length inv - 3) inv else inv.
Definition is_known_canonical_ref (inv : string) : bool :=
  bool_decide (strip_md inv ∈ KNOWN_CANONICAL_REFS).

Record RefEntry := { ref_file : string; ref_line : N; invariant : string; valid : bool }.
Record FileResult := { result_file : string; refs : list RefEntry; unknown_refs : list string }.

(** The first groups of the matches of the pattern of references in a line, and whether a
    text matches the pattern of invariants. *)
Context (captures : string → list string) (is_match : string → bool).

Definition valid_ref (inv : string) : bool :=
  is_match inv && has_known_category inv || is_known_canonical_ref inv.

Definition line_refs (file : string) (n : N) (line : string) : list RefEntry :=
  flat_map (λ inv_str,
    (λ inv, {| ref_file := file; ref_line := n; invariant := inv; valid := valid_ref inv |}) <$>
      (trim_string <$> split_on "," inv_str)) (captures line).

Definition file_refs (path : Path) (contents : string) : list RefEntry :=
  flat_map (λ '(n, line), line_refs (display path) n line) (numbered_lines contents).

(** [Vec::dedup]: of equal neighbours the first is kept. *)
Fixpoint dedup (l : list string) : list string :=
  match l with
  | x :: (y :: _) as l => if decide (x = y) then dedup l else x :: dedup l
  | l => l
  end.

Definition unknown_of (refs : list RefEntry) : list string :=
  invariant <$> List.filter (λ r, negb (valid r)) refs.

Definition check_refs (walk : list (option Path)) : list FileResult :=
  flat_map (λ path,
    match read path with
    | Some contents =>
        let refs := file_refs path contents in
        let unknown := unknown_of refs in
        if negb (match refs with [] => true | _ => false end) ||
           negb (match unknown with [] => true | _ => false end)
        then [{| result_file := display path; refs := refs;
                 unknown_refs := dedup (sort_by String.compare unknown) |}]
        else []
    | None => []
    end) (source_files ["rs"; "md"] walk).

Definition check_refs_main (walk : list (option Path)) : N :=
  if existsb (λ r, negb (match unknown_refs r with [] => true | _ => false end)) (check_refs walk)
  then 1%N else 0%N.
End files.

(** What is wrong with the entries of the matrix; [{:?}] is a parameter. *)
Definition matrix_key (e : CompatibilityEntry) : string * string * string * string :=
  (trait_a e, impl_a e, trait_b e, impl_b e).
Definition matrix_pair (e : CompatibilityEntry) : string :=
  trait_a e +:+ "::" +:+ impl_a e +:+ " x " +:+ trait_b e +:+ "::" +:+ impl_b e.

Section matrix.
Context (debug : CompatibilityEntry → string).

Definition is_empty (s : string) : bool := bool_decide (s = "").

Definition check_entry (e : CompatibilityEntry) : list string :=
  (if is_empty (trait_a e) || is_empty (impl_a e) || is_empty (trait_b e) || is_empty (impl_b e)
   then ["empty trait/impl name in compatibility entry: " +:+ debug e] else []) ++
  (match level e, compatibility_note e with
   | Incompatible, None => ["Incompatible entry without note: " +:+ matrix_pair e]
   | _, _ => []
   end).

Fixpoint check_entries (seen : gset (string * string * string * string))
    (entries : list CompatibilityEntry) : list string :=
  match entries with
  | [] => []
  | e :: entries =>
      check_entry e ++
      (if decide (matrix_key e ∈ seen) then ["duplicate compatibility entry: " +:+ matrix_pair e] else []) ++
      check_entries ({[matrix_key e]} ∪ seen) entries
  end.

Definition check_matrix : list string := check_entries ∅ matrix_entries.
End matrix.

(** ** brioche-docgen *)

Record TraitNode := { node_name : string; methods : list string; supertraits : list string }.
Record TraitGraph := { nodes : list TraitNode; edges : list (string * string) }.
Inductive TraitGraphFormat : Type := Markdown | Html | Json.

Definition TraitGraphFormat_parse (format : string) : TraitGraphFormat :=
  if decide (format = "json") then Json else if decide (format = "html") then Html else Markdown.
Definition format_extension (f : TraitGraphFormat) : string :=
  match f with Json => "json" | Html => "html" | Markdown => "md" end.

Definition documented_traits : list (string * list string) :=
  [("OnInput", ["name"; "priority"; "on_input"]);
   ("BeforePrediction", ["name"; "priority"; "before_prediction"]);
   ("OnStreamEvent", ["name"; "priority"; "on_stream_event"]);
   ("AfterPrediction", ["name"; "priority"; "after_prediction"]);
   ("OnToolCalls", ["name"; "priority"; "on_tool_calls"]);
   ("OnToolResult", ["name"; "priority"; "on_tool_result"]);
   ("OnError", ["name"; "priority"; "on_error"]);
   ("PluginPersistence", ["owned_state_keys"; "default_state_blob"]);
   ("EpochInterceptor", ["intercept_epoch"]);
   ("SubRoutineHandler", ["handle_subroutine"]);
   ("ConsistencyVerifier", ["verify_consistency"]);
   ("DecisionAggregator", ["aggregate_decisions"]);
   ("SignalDrainOrder", ["drain"]);
   ("HookEffectConstraint", ["is_allowed_fast"; "is_allowed_fallback"]);
   ("CycleRollbackPolicy", ["begin_hook"; "on_mutation"; "commit_hook"; "rollback_hook"]);
   ("SubRoutineLifecycleGuard", ["on_exit"]);
   ("GovernanceFailoverHandler", ["handle_failure"]);
   ("CowBudgetPolicy", ["max_cow_bytes"])].

Definition build_trait_graph : TraitGraph :=
  {| nodes := (λ '(name, methods), {| node_name := name; methods := methods; supertraits := [] |}) <$>
                documented_traits;
     edges := [("CowBudgetPolicy", "CycleRollbackPolicy")] |}.

Definition newline : string := String "010" EmptyString.
Definition unlines (l : list string) : string := foldr (λ line rest, line +:+ newline +:+ rest) "" l.

Definition graph_to_markdown (g : TraitGraph) : string :=
  unlines
    (["# Brioche Trait Dependency Graph"; ""; "```mermaid"; "graph TD"] ++
     ((λ n, "    " +:+ node_name n +:+ "[" +:+ node_name n +:+ "]") <$> nodes g) ++
     ((λ '(from, to), "    " +:+ from +:+ " --> " +:+ to) <$> edges g) ++
     ["```"; ""; "## Traits"; ""] ++
     flat_map (λ n,
       ["### `" +:+ node_name n +:+ "`"; ""; "Methods:"] ++
       ((λ m, "- `" +:+ m +:+ "()`") <$> methods n) ++ [""]) (nodes g)).

Definition concat_strings : list string → string := foldr String.append "".

Definition graph_to_html (g : TraitGraph) : string :=
  "<html><head><title>Brioche Trait Graph</title></head><body>" +:+
  "<h1>Brioche Trait Dependency Graph</h1>" +:+ "<ul>" +:+
  concat_strings ((λ n, "<li><strong>" +:+ node_name n +:+ "</strong> — " +:+
                    pretty (N.of_nat (length (methods n))) +:+ " method(s)</li>") <$> nodes g) +:+
  "</ul>" +:+ "</body></html>".

Definition graph_to_json (to_string_pretty : TraitGraph → result string string) (g : TraitGraph) : string :=
  match to_string_pretty g with Ok json => json | Err _ => "{}" end.

Definition render_trait_graph (to_string_pretty : TraitGraph → result string string)
    (g : TraitGraph) (f : TraitGraphFormat) : string :=
  match f with
  | Json => graph_to_json to_string_pretty g
  | Html => graph_to_html g
  | Markdown => graph_to_markdown g
  end.

Definition SEQUENCE_DIAGRAM_VARIANTS : list string :=
  ["UserMessage"; "LlmStream"; "ToolCallsResult"; "RestoreSubRoutine"].

(** The arrows drawn for a variant. *)
Definition diagram_arrows (variant : string) : list string :=
  if decide (variant = "UserMessage") then
      ["Shell->>Engine: EngineInput::UserMessage";
       "Engine->>Plugins: EpochInterceptor::intercept_epoch";
       "Engine->>Plugins: on_input hooks";
       "Engine->>Engine: push_state(Predicting)";
       "Engine->>Plugins: before_prediction hooks";
       "Engine->>Plugins: DecisionAggregator::aggregate_decisions";
       "Engine-->>Shell: Effect::CallLlmNetwork";
       "Engine-->>Shell: Effect::SaveSession"]
  else if decide (variant = "LlmStream") then
      ["Shell->>Engine: EngineInput::LlmStream(TextChunk)";
       "Engine->>Plugins: on_stream_event hooks";
       "Engine-->>Shell: StreamAction::Pass / Hold / OffloadTask"]
  else if decide (variant = "ToolCallsResult") then
      ["Shell->>Engine: EngineInput::ToolCallsResult";
       "Engine->>Engine: pop_state()";
       "Engine->>Plugins: on_tool_result hooks";
       "Engine->>Engine: push_history(ToolResult)";
       "Engine->>Engine: push_state(Predicting)";
       "Engine-->>Shell: Effect::CallLlmNetwork"]
  else if decide (variant = "RestoreSubRoutine") then
      ["Shell->>Engine: EngineInput::RestoreSubRoutine";
       "Engine->>SessionRegistry: insert(handle, session)";
       "Engine-->>Shell: Effect::SubRoutineRestored"]
  else ["Note over Shell,Engine: Unknown variant `" +:+ variant +:+ "`"].

Definition build_sequence_diagram (variant : string) : string :=
  unlines
    (["# Sequence Diagram: `" +:+ variant +:+ "`"; ""; "```mermaid"; "sequenceDiagram";
      "    participant Shell"; "    participant Engine"; "    participant Plugins";
      "    participant SessionRegistry"; ""] ++
     ((λ a, "    " +:+ a) <$> diagram_arrows variant) ++ ["```"]).

(** The documents that are written in full, in order, and the exit code.  [can_create] and
    [can_write] are the outcomes of creating and of writing a file of the output directory. *)
Section documents.
Context (can_create can_write : string → bool).

Fixpoint write_documents (documents : list (string * string)) : list (string * string) * N :=
  match documents with
  | [] => ([], 0%N)
  | (file, content) :: rest =>
      if negb (can_create file) || negb (can_write file) then ([], 1%N)
      else let '(written, code) := write_documents rest in ((file, content) :: written, code)
  end.

Definition generate_trait_graph (to_string_pretty : TraitGraph → result string string)
    (format : string) : list (string * string) * N :=
  let f := TraitGraphFormat_parse format in
  write_documents [("trait_graph." +:+ format_extension f,
                    render_trait_graph to_string_pretty build_trait_graph f)].

Definition sequence_variants (variant : option string) : list string :=
  match variant with Some v => [v] | None => SEQUENCE_DIAGRAM_VARIANTS end.
Definition generate_sequence_diagram (variant : option string) : list (string * string) * N :=
  write_documents ((λ v, ("sequence_" +:+ v +:+ ".md", build_sequence_diagram v)) <$>
                     sequence_variants variant).
End documents.

(** ** brioche-playground

    The two plugins; what they print is left out. *)

Section playground.
Context {U : AnyUniverse} `{!KernelTypes U, !GovernanceTypes U, !TelemetryTypes U}.
Context (debug_handle : string → string) (debug_input : EngineInput → string).
Context (to_json : TruncatedToolResult → result string string) (opted_in : bool).
Let Policy := BoxedPolicy U.

Definition MockLlmBackend : AfterPredictionPlugin U Policy :=
  {| name := "mock_llm_backend"; priority := 0; hook := λ ext, (Ok tt, ext) |}.

Definition EffectLogger_input : OnInputPlugin U Policy :=
  {| name := "effect_logger"; priority := 0; hook := λ _ ext, (Ok PolicyDecision.Allow, ext) |}.
Definition EffectLogger_before : BeforePredictionPlugin U Policy :=
  {| name := "effect_logger"; priority := 0; hook := λ _ ext, (Ok PolicyDecision.Allow, ext) |}.
Definition EffectLogger_after : AfterPredictionPlugin U Policy :=
  {| name := "effect_logger"; priority := 0; hook := λ ext, (Ok tt, ext) |}.
Definition EffectLogger_calls : OnToolCallsPlugin U Policy :=
  {| name := "effect_logger"; priority := 0; hook := λ s, (Ok tt, s) |}.
Definition EffectLogger_result : OnToolResultPlugin U Policy :=
  {| name := "effect_logger"; priority := 0; hook := λ s, (Ok tt, s) |}.
Definition EffectLogger_error : OnErrorPlugin U Policy :=
  {| name := "effect_logger"; priority := 0; hook := λ _ ext, (Ok PolicyDecision.Allow, ext) |}.

Definition playground_builder : PluginBuilder (U := U) :=
  foldl (λ b c, kit_call c b) (PluginBuilder_permissive debug_handle debug_input to_json opted_in)
    [with_on_input EffectLogger_input; with_before_prediction EffectLogger_before;
     with_after_prediction EffectLogger_after; with_on_tool_calls EffectLogger_calls;
     with_on_tool_result EffectLogger_result; with_on_error EffectLogger_error;
     with_after_prediction MockLlmBackend].

(** [main]: the effects of the one message it sends. *)
Definition playground : list Effect :=
  let '(engine, session) := build_with_session "playground" playground_builder in
  (transition (EngineInput.UserMessage "hello") engine session).1.1.
End playground.

(** * What the tools promise *)

Lemma flat_map_all_nil {A B} (f : A → list B) l : flat_map f l = [] ↔ ∀ x, x ∈ l → f x = [].
Proof.
  induction l as [|x l IH]; cbn; [set_solver|]. rewrite app_nil, IH. set_solver.
Qed.

Lemma source_files_elem exts walk p :
  p ∈ source_files exts walk ↔ Some p ∈ walk ∧ source_file exts p = true.
Proof.
  unfold source_files. rewrite list_elem_of_In, filter_In, <- list_elem_of_In, list_elem_of_omap.
  cbn. naive_solver.
Qed.

Lemma numbered_lines_elem contents n line : (n, line) ∈ numbered_lines contents → line ∈ lines contents.
Proof.
  unfold numbered_lines. intros (i & x & [= -> ->] & Hx)%elem_of_lookup_imap.
  by eapply list_elem_of_lookup_2.
Qed.

Lemma numbered_line contents line : line ∈ lines contents → ∃ n, (n, line) ∈ numbered_lines contents.
Proof.
  intros [i Hi]%list_elem_of_lookup. exists (N.of_nat (S i)). unfold numbered_lines.
  apply (list_elem_of_lookup_2 _ i). by rewrite list_lookup_imap, Hi.
Qed.

(** Every file of the walk is under a directory that the tools skip. *)
Lemma excluded_files exts walk :
  Forall (λ p : Path, existsb excluded p = true) (omap id walk) → source_files exts walk = [].
Proof.
  unfold source_files. generalize (omap id walk). intros l H. induction H as [|p l Hp _ IH]; [done|].
  assert (source_file exts p = false) as E by (unfold source_file; by rewrite Hp, andb_false_r).
  cbn [List.filter]. rewrite E. exact IH.
Qed.

Section tools.
Context (read : Path → option string) (display : Path → string).
Context (captures : string → list string) (is_match : string → bool).

(** A line the lint has nothing to say about. *)
Definition clean_line (has_extension_type : bool) (line : string) : Prop :=
  str_starts "//" (trim_string line) = true ∨
  ((∀ field, field ∈ forbidden_fields → str_contains field line = false) ∧
   str_contains ".unwrap()" line = false ∧ str_contains ".expect(" line = false ∧
   (has_extension_type = true →
    str_contains "HashMap" line = false ∧ str_contains "HashSet" line = false)).

Lemma lint_line_clean ext line : lint_line ext line = [] ↔ clean_line ext line.
Proof using Type.
  clear. unfold lint_line, clean_line. destruct (str_starts "//" (trim_string line)); [naive_solver|].
  rewrite !app_nil, flat_map_all_nil.
  assert (Hf : (∀ field, field ∈ forbidden_fields →
      (if str_contains field line then [field_message field] else []) = []) ↔
    (∀ field, field ∈ forbidden_fields → str_contains field line = false)).
  { split; intros H field Hin; specialize (H field Hin); destruct (str_contains field line); done. }
  rewrite Hf. destruct (str_contains ".unwrap()" line), (str_contains ".expect(" line), ext,
    (str_contains "HashMap" line), (str_contains "HashSet" line); cbn; naive_solver.
Qed.

(** The lint passes exactly when every line of every source file it can read is clean. *)
Theorem lint_passes walk :
  lint_main read display walk = 0%N ↔
  ∀ path contents line, path ∈ source_files ["rs"] walk → read path = Some contents →
    line ∈ lines contents → clean_line (str_contains "BriocheExtensionType" contents) line.
Proof using Type.
  assert (lint_main read display walk = 0%N ↔ lint_directory read display walk = []) as ->.
  { unfold lint_main. destruct (lint_directory _ _ _); done. }
  unfold lint_directory. rewrite flat_map_all_nil. split.
  - intros H path contents line Hp Hr Hl. specialize (H path Hp). cbn beta in H. rewrite Hr in H.
    unfold lint_file_contents in H. rewrite flat_map_all_nil in H.
    destruct (numbered_line _ _ Hl) as [n Hn]. specialize (H _ Hn). cbn beta iota in H.
    apply fmap_nil_inv in H. by apply lint_line_clean.
  - intros H path Hp. destruct (read path) as [contents|] eqn:Hr; [|done].
    unfold lint_file_contents. apply flat_map_all_nil. intros [n line] Hn.
    rewrite (proj2 (lint_line_clean _ _)); [done|]. apply (H path contents); [done..|].
    by eapply numbered_lines_elem.
Qed.

Lemma unknown_of_nil l : unknown_of l = [] ↔ ∀ r, r ∈ l → valid r = true.
Proof using Type.
  clear read display captures is_match.
  unfold unknown_of. split.
  - intros H%fmap_nil_inv r Hr. destruct (valid r) eqn:E; [done|exfalso].
    apply (elem_of_nil r). rewrite <- H. apply list_elem_of_In, filter_In. rewrite E.
    by split; [apply list_elem_of_In|].
  - intros H. replace (List.filter _ l) with (@nil RefEntry); [done|]. symmetry. apply elem_of_nil_inv.
    intros r. rewrite list_elem_of_In, filter_In, <- list_elem_of_In. intros [Hr Hv]. by rewrite H in Hv.
Qed.

Lemma dedup_elem x l : x ∈ dedup l ↔ x ∈ l.
Proof using Type.
  clear read display captures is_match.
  induction l as [|y [|z l] IH]; [done..|]. cbn [dedup]. fold (dedup (z :: l)).
  case_decide as E; [|set_solver]. subst. rewrite IH. set_solver.
Qed.

Lemma dedup_nil l : dedup l = [] → l = [].
Proof using Type.
  clear read display captures is_match.
  intros H. apply elem_of_nil_inv. intros x Hx. apply dedup_elem in Hx. rewrite H in Hx.
  by apply elem_of_nil in Hx.
Qed.

(** Of a sorted list every text is kept once. *)
Lemma dedup_sorted l :
  StronglySorted (λ a b, String.compare a b ≠ Gt) l →
  StronglySorted (λ a b, String.compare a b = Lt) (dedup l).
Proof using Type.
  clear read display captures is_match.
  induction 1 as [|x l Hl IH Hx]; [constructor|]. destruct l as [|y l]; [by repeat constructor|].
  change (dedup (x :: y :: l)) with (if decide (x = y) then dedup (y :: l) else x :: dedup (y :: l)).
  case_decide as E; [done|]. constructor; [done|].
  apply Forall_forall. intros z Hz. rewrite dedup_elem in Hz. pose proof (proj1 (Forall_forall _ _) Hx z Hz) as Hxz.
  cbn beta in Hxz. destruct (String.compare x z) eqn:Ec; [|done|done].
  apply String.compare_eq_iff in Ec as ->. exfalso.
  apply elem_of_cons in Hz as [->|Hz]; [done|].
  apply StronglySorted_inv in Hl as [_ Hy]. pose proof (proj1 (Forall_forall _ _) Hy z Hz) as Hyz.
  pose proof (proj1 (Forall_forall _ _) Hx y ltac:(by left)) as Hzy. cbn beta in Hyz, Hzy.
  apply E. apply String.compare_eq_iff. rewrite String.compare_antisym in Hyz.
  destruct (String.compare z y); done.
Qed.

(** What the reference checker reports of a file: its references, and, sorted and without
    repetition, exactly those that are not valid. *)
Theorem check_refs_report walk r :
  r ∈ check_refs read display captures is_match walk →
  ∃ path contents, path ∈ source_files ["rs"; "md"] walk ∧ read path = Some contents ∧
    refs r = file_refs display captures is_match path contents ∧ refs r ≠ [] ∧
    StronglySorted (λ a b, String.compare a b = Lt) (unknown_refs r) ∧
    ∀ inv, inv ∈ unknown_refs r ↔ ∃ e, e ∈ refs r ∧ invariant e = inv ∧ valid e = false.
Proof using Type.
  unfold check_refs. rewrite list_elem_of_In, in_flat_map. setoid_rewrite <- list_elem_of_In.
  intros (path & Hp & Hr). destruct (read path) as [contents|] eqn:Er; [|by apply elem_of_nil in Hr].
  destruct (negb _ || negb _) eqn:En; [|by apply elem_of_nil in Hr].
  apply list_elem_of_singleton in Hr as ->. exists path, contents. cbn [refs unknown_refs].
  split; [done|]. split; [done|]. split; [done|]. split; [|split].
  - intros E. rewrite E in En. done.
  - apply dedup_sorted, sort_by_sorted; [apply String.compare_antisym|apply string_compare_le_trans].
  - intros inv. rewrite dedup_elem, sort_by_permutation. unfold unknown_of.
    rewrite list_elem_of_fmap. setoid_rewrite list_elem_of_In. setoid_rewrite filter_In.
    setoid_rewrite negb_true_iff. naive_solver.
Qed.

(** The checker passes exactly when every reference it finds is valid. *)
Theorem refs_pass walk :
  check_refs_main read display captures is_match walk = 0%N ↔
  ∀ path contents e, path ∈ source_files ["rs"; "md"] walk → read path = Some contents →
    e ∈ file_refs display captures is_match path contents → valid e = true.
Proof using Type.
  unfold check_refs_main. destruct (existsb _ _) eqn:E.
  - split; [done|]. intros H. apply existsb_exists in E as (r & Hr & Hn).
    apply list_elem_of_In in Hr. destruct (check_refs_report _ _ Hr) as (p & c & Hp & Hc & Hrefs & _ & _ & Hu).
    destruct (unknown_refs r) as [|inv l] eqn:Eu; [done|].
    destruct (proj1 (Hu inv) ltac:(by left)) as (e & He & _ & Hv). rewrite Hrefs in He.
    by rewrite (H p c e Hp Hc He) in Hv.
  - split; [|done]. intros _ p c e Hp Hc He.
    destruct (valid e) eqn:Ev; [done|exfalso].
    set (rs := file_refs display captures is_match p c) in *.
    assert (Hu : unknown_of rs ≠ []).
    { intros H. rewrite unknown_of_nil in H. by rewrite (H e He) in Ev. }
    apply not_true_iff_false in E. apply E, existsb_exists.
    exists {| result_file := display p; refs := rs;
              unknown_refs := dedup (sort_by String.compare (unknown_of rs)) |}. split.
    + unfold check_refs. apply in_flat_map. exists p. split; [by apply list_elem_of_In|].
      rewrite Hc. fold rs. destruct (unknown_of rs); [done|]. rewrite orb_true_r. by left.
    + cbn. destruct (dedup _) eqn:Ed; [|done]. apply dedup_nil in Ed. exfalso. apply Hu.
      apply Permutation_nil. rewrite <- Ed. apply sort_by_permutation.
Qed.

(** Below a directory called [target], such as a checkout in a build directory, both tools
    pass whatever the files hold. *)
Theorem tools_pass_below_target walk :
  Forall (λ p : Path, existsb excluded p = true) (omap id walk) →
  lint_main read display walk = 0%N ∧ check_refs_main read display captures is_match walk = 0%N.
Proof using Type.
  intros H. unfold lint_main, lint_directory, check_refs_main, check_refs.
  by rewrite !excluded_files.
Qed.
End tools.

(** A file that is only references, one of which names no category. *)
Lemma tools_pass_below_target_witness :
  let file := [RootDir; Normal "target"; Normal "brioche"; Normal "lib.rs"] in
  lint_main (λ _, Some "x.unwrap()") (λ _, "") [Some file] = 0%N ∧
  check_refs_main (λ _, Some "Refs: nowhere") (λ _, "") (λ _, ["nowhere"]) (λ _, false) [Some file] = 0%N.
Proof.
  intros file.
  assert (Forall (λ p : Path, existsb excluded p = true) (omap id [Some file])) as H by by repeat constructor.
  split.
  - exact (proj1 (tools_pass_below_target (λ _, Some "x.unwrap()") (λ _, "") (λ _, []) (λ _, true) [Some file] H)).
  - exact (proj2 (tools_pass_below_target (λ _, Some "Refs: nowhere") (λ _, "") (λ _, ["nowhere"]) (λ _, false)
                    [Some file] H)).
Defined.

(** Elsewhere both are reported. *)
Example tools_report :
  let file := [RootDir; Normal "brioche"; Normal "lib.rs"] in
  lint_main (λ _, Some "x.unwrap()") (λ _, "") [Some file] = 1%N ∧
  check_refs_main (λ _, Some "Refs: nowhere") (λ _, "") (λ _, ["nowhere"]) (λ _, false) [Some file] = 1%N.
Proof. by vm_compute. Qed.

(** A category is a prefix, with or without what separates it from the rest. *)
Example category_prefix : has_known_category "I-Corex-Pure" = true ∧ has_known_category "I-UIx-A" = true.
Proof. by vm_compute. Qed.

(** ** The compatibility matrix *)

Section matrix_facts.
Context (debug : CompatibilityEntry → string).

Definition entry_ok (e : CompatibilityEntry) : Prop :=
  trait_a e ≠ "" ∧ impl_a e ≠ "" ∧ trait_b e ≠ "" ∧ impl_b e ≠ "" ∧
  (level e = Incompatible → compatibility_note e ≠ None).

Lemma check_entry_ok e : check_entry debug e = [] ↔ entry_ok e.
Proof using Type.
  unfold check_entry, entry_ok, is_empty. rewrite app_nil.
  destruct (decide (trait_a e = "")) as [->|H1]; [rewrite bool_decide_true by done; naive_solver|].
  destruct (decide (impl_a e = "")) as [->|H2];
    [rewrite (bool_decide_true ("" = "")) by done; rewrite orb_true_r; naive_solver|].
  destruct (decide (trait_b e = "")) as [->|H3];
    [rewrite (bool_decide_true ("" = "")) by done; rewrite orb_true_r; naive_solver|].
  destruct (decide (impl_b e = "")) as [->|H4];
    [rewrite (bool_decide_true ("" = "")) by done; rewrite orb_true_r; naive_solver|].
  rewrite !bool_decide_false by done. cbn [orb].
  destruct (level e), (compatibility_note e); naive_solver.
Qed.

(** The check finds nothing exactly when no entry is repeated and each is complete. *)
Theorem check_entries_ok seen entries :
  check_entries debug seen entries = [] ↔
  Forall entry_ok entries ∧ NoDup (matrix_key <$> entries) ∧
  Forall (λ e, matrix_key e ∉ seen) entries.
Proof using Type.
  revert seen. induction entries as [|e entries IH]; intros seen.
  - cbn. split; [intros _; split_and!; constructor|done].
  - cbn [check_entries]. rewrite !app_nil, check_entry_ok, IH, fmap_cons, NoDup_cons, !Forall_cons.
    assert ((if decide (matrix_key e ∈ seen) then ["duplicate compatibility entry: " +:+ matrix_pair e] else [])
      = [] ↔ matrix_key e ∉ seen) as -> by (case_decide; naive_solver).
    rewrite !Forall_forall, list_elem_of_fmap. split.
    + intros (He & Hs & Ho & Hn & Hf). split_and!; [done..| |done|done|].
      * intros (e' & E & He'). apply (Hf e' He'). rewrite <- E. set_solver.
      * intros e' He' Hin. apply (Hf e' He'). set_solver.
    + intros ((He & Ho) & (Hni & Hn) & Hs & Hf). split_and!; [done..|].
      intros e' He' [E%elem_of_singleton|Hin]%elem_of_union; [|by apply (Hf e')].
      apply Hni. by exists e'.
Qed.

(** It finds nothing in the matrix of the repository. *)
Theorem matrix_passes : check_matrix debug = [].
Proof using Type. reflexivity. Qed.
End matrix_facts.

(** ** Documents *)

Lemma format_roundtrip f : TraitGraphFormat_parse (format_extension f) = f.
Proof. by destruct f. Qed.

(** The documents are written up to the first that fails, and the code tells whether all
    were. *)
Theorem documents_written can_create can_write documents written code :
  write_documents can_create can_write documents = (written, code) →
  written `prefix_of` documents ∧
  Forall (λ d, can_create d.1 = true ∧ can_write d.1 = true) written ∧
  (code = 0%N ↔ written = documents) ∧
  (code ≠ 0%N → ∃ d rest, documents = written ++ d :: rest ∧
     (can_create d.1 = false ∨ can_write d.1 = false)).
Proof.
  revert written code. induction documents as [|[file content] rest IH]; intros written code; cbn.
  - intros [= <- <-]. split_and!; [done|constructor|done|done].
  - destruct (can_create file) eqn:Ec, (can_write file) eqn:Ew; cbn.
    + destruct (write_documents can_create can_write rest) as [w c]. intros [= <- <-].
      destruct (IH w c eq_refl) as (Hp & Hf & Hc & Hn). split_and!.
      * by apply prefix_cons.
      * by constructor.
      * rewrite Hc. split; [by intros ->|by intros [= ->]].
      * intros Hz. destruct (Hn Hz) as (d & r & -> & Hd). by exists d, r.
    + intros [= <- <-]. split_and!; [apply prefix_nil|constructor|done|]. intros _.
      exists (file, content), rest. auto.
    + intros [= <- <-]. split_and!; [apply prefix_nil|constructor|done|]. intros _.
      exists (file, content), rest. auto.
    + intros [= <- <-]. split_and!; [apply prefix_nil|constructor|done|]. intros _.
      exists (file, content), rest. auto.
Qed.

Lemma documents_written_witness :
  generate_sequence_diagram (λ _, true) (λ f, negb (bool_decide (f = "sequence_LlmStream.md"))) None =
    ([("sequence_UserMessage.md", build_sequence_diagram "UserMessage")], 1%N) ∧
  [("sequence_UserMessage.md", build_sequence_diagram "UserMessage")] `prefix_of`
    ((λ v, ("sequence_" +:+ v +:+ ".md", build_sequence_diagram v)) <$> SEQUENCE_DIAGRAM_VARIANTS).
Proof.
  assert (generate_sequence_diagram (λ _, true) (λ f, negb (bool_decide (f = "sequence_LlmStream.md"))) None =
    ([("sequence_UserMessage.md", build_sequence_diagram "UserMessage")], 1%N)) as H by by vm_compute.
  split; [exact H|]. exact (proj1 (documents_written _ _ _ _ _ H)).
Defined.

(** ** The playground

    The mock backend is documented to answer the call to the model; the effects of a message
    are those without it.  The documented diagram shows the call before the save. *)
Example playground_effects :
  playground (U := concrete_universe) (λ s, s) (λ _, "") (λ _, Ok "") true =
    [Effect.SaveSession; Effect.CallLlmNetwork] ∧
  last (diagram_arrows "UserMessage") = Some "Engine-->>Shell: Effect::SaveSession".
Proof. by vm_compute. Qed.
