(* ===== verification/ProfileSpec.v ===== *)
(** * The governance profiles as wholes, and the plugin kit on top of them *)
From S2P Require Import Prelude Utf8 Types Effects Extension Session Plugins Router Persistence.
From S2P Require Import Engine GovTypes Trace Hooks Finalize Dispatch Transition Builder Guards.
From S2P Require Import Aggregators Subroutines Tools Telemetry Instances.
From S2P Require Import Frames Termination Invariants Lifecycle Ordering TransitionSpec Rollback.
From S2P Require Import GuardSpec Profile PluginKit.

(** ** What a profile puts in an engine *)

Section profile.
Context {U : AnyUniverse} `{!KernelTypes U, !GovernanceTypes U, !TelemetryTypes U}.
Context (debug_handle : string → string) (debug_input : EngineInput → string).
Context (to_json : TruncatedToolResult → result string string).
Let B := BriocheEngineBuilder U (BoxedPolicy U).
Let apply := apply debug_handle debug_input to_json.
Let try_apply := try_apply debug_handle debug_input to_json.

Lemma built_calls {DA LG} (cs : list (BuilderCall U (BoxedPolicy U))) (b : B DA LG) :
  built b → built (calls cs b).
Proof using Type.
  unfold calls. revert b. induction cs as [|c cs IH]; intros b Hb; [done|].
  cbn [foldl]. apply IH. by constructor.
Qed.

Lemma apply_built opted_in p (b : B Missing Missing) : built b → built (apply opted_in p b).
Proof using Type.
  intros Hb. unfold apply, Profile.apply.
  assert (∀ cs ds g a, built (calls cs (with_subroutine_lifecycle_guard g
            (with_decision_aggregator a (calls ds b))))) as H.
  { intros. by apply built_calls, built_guard, built_aggregator, built_calls. }
  destruct p; [destruct opted_in| |]; apply H.
Qed.

(** What the three profiles have in common. *)
Definition guarded (g : GovernanceKernel U (BoxedPolicy U)) : Prop :=
  subroutine_handler g = Some SubRoutineOrchestrator ∧
  consistency_verifier g = Some StateConsistencyGuard ∧
  decision_aggregator g = Some LexicographicDecisionAggregator ∧
  subroutine_lifecycle_guard g = Some SubRoutineCleanupGuard ∧
  (governance_failover_handler g = Some SystemFailoverGuard ∨
   governance_failover_handler g = Some NoopGovernanceFailoverHandler).

Lemma apply_guarded opted_in p (b : B Missing Missing) :
  guarded (governance (build (apply opted_in p b))) ∧
  ∃ rest, epoch_interceptors (governance (build (apply opted_in p b)))
          = b_epoch_interceptors b ++ EpochGuard :: rest.
Proof using Type.
  unfold apply, Profile.apply.
  destruct p; [destruct opted_in| |]; (split; [split_and!; try done; cbn; eauto|]);
    unfold apply_standard, apply_strict, build_permissive; cbn;
    rewrite ?app_nil_r, <- ?(assoc_L (++)); by eexists.
Qed.

(** Profile selection.  [try_apply] refuses exactly a Permissive profile that
    was not opted into, [apply] then silently gives Standard, and otherwise the two
    agree.  Whatever was set before, the engine of any profile is complete, has
    the orchestrator, the consistency guard, the lexicographic aggregator and the
    cleanup guard, and its interceptors are those set before followed by
    [EpochGuard]. *)
Theorem profile_selection opted_in p (b : B Missing Missing) :
  built b →
  (try_apply opted_in p b = Err PermissiveRequiresOptIn ↔ p = Permissive ∧ opted_in = false) ∧
  apply opted_in p b = match try_apply opted_in p b with
                       | Ok b' => b'
                       | Err _ => apply opted_in GovernanceProfile_default b
                       end ∧
  let en := build (apply opted_in p b) in
  guarded (governance en) ∧ router_wf (router en) ∧
  routing_table (router en) = initial_table (router en) ∧
  (∃ rest, epoch_interceptors (governance en) = b_epoch_interceptors b ++ EpochGuard :: rest) ∧
  (b_cycle_rollback_policy b = None → b_cow_budget_policy b = None →
   cycle_rollback_policy (governance en) =
     Some match p with
          | Permissive => if opted_in then NoopPolicy else AdaptivePolicy Adaptive.new
          | Standard => AdaptivePolicy Adaptive.new
          | Strict => TieredPolicy Tiered.new
          end).
Proof using Type.
  intros Hb. split; [|split].
  - unfold try_apply, Profile.try_apply. destruct p, opted_in; (split; [intros [=]|intros [[=] [=]]]); done.
  - unfold try_apply, apply, Profile.try_apply, Profile.apply, GovernanceProfile_default.
    by destruct p, opted_in.
  - intros en. destruct (apply_guarded opted_in p b) as [Hg Hi]. split_and!; [exact Hg| |done|exact Hi|].
    + pose proof (masked_wf [] (router en)) as H. by rewrite masked_nil in H.
    + intros Hp Hc. unfold en, apply, Profile.apply.
      destruct p; [destruct opted_in| |]; cbn; by rewrite Hc.
Qed.

(** Strict differs from Standard in three places only.  On the same builder,
    the two engines have the same interceptors, plugins, effect constraint,
    guards, time-out and aggregator, except for the rollback policy, the bound of
    the depth guard (5 for 10) and the default tool time-out (10 s for 30 s). *)
Theorem strict_versus_standard opted_in (b : B Missing Missing) :
  let standard := apply opted_in Standard b in
  let strict := apply opted_in Strict b in
  b_on_input standard = b_on_input b ++ [RecoveryPolicy_new debug_input; DepthGuard 10] ∧
  b_on_input strict = b_on_input b ++ [RecoveryPolicy_new debug_input; DepthGuard 5] ∧
  b_on_tool_calls standard
    = b_on_tool_calls b ++ [ToolTimeoutPolicy_plugin (with_default_timeout 30000)] ∧
  b_on_tool_calls strict
    = b_on_tool_calls b ++ [ToolTimeoutPolicy_plugin (with_default_timeout 10000)] ∧
  b_cycle_rollback_policy standard = Some (AdaptivePolicy Adaptive.new) ∧
  b_cycle_rollback_policy strict = Some (TieredPolicy Tiered.new) ∧
  b_on_stream_event strict = b_on_stream_event standard ∧
  b_before_prediction strict = b_before_prediction standard ∧
  b_after_prediction strict = b_after_prediction standard ∧
  b_on_tool_result strict = b_on_tool_result standard ∧
  b_on_error strict = b_on_error standard ∧
  b_epoch_interceptors strict = b_epoch_interceptors standard ∧
  b_hook_effect_constraint strict = b_hook_effect_constraint standard ∧
  b_consistency_verifier strict = b_consistency_verifier standard ∧
  b_subroutine_handler strict = b_subroutine_handler standard ∧
  b_subroutine_hydrator strict = b_subroutine_hydrator standard ∧
  b_decision_aggregator strict = b_decision_aggregator standard ∧
  b_subroutine_lifecycle_guard strict = b_subroutine_lifecycle_guard standard ∧
  b_governance_failover_handler strict = b_governance_failover_handler standard ∧
  b_cow_budget_policy strict = b_cow_budget_policy standard ∧
  b_default_tool_timeout_ms strict = b_default_tool_timeout_ms standard.
Proof using Type.
  unfold apply, Profile.apply, apply_standard, apply_strict. cbn.
  rewrite !app_nil_r, <- !(assoc_L (++)). split_and!; reflexivity.
Qed.
End profile.

(** ** Tool results under a profile *)

Section stale.
Context {U : AnyUniverse} `{!KernelTypes U, !GovernanceTypes U, !TelemetryTypes U}.
Context (debug_handle : string → string) (debug_input : EngineInput → string).
Context (to_json : TruncatedToolResult → result string string).

Lemma guarded_policy (g g' : GovernanceKernel U (BoxedPolicy U)) :
  set_policy None g = set_policy None g' → guarded g' → guarded g.
Proof using Type.
  destruct g, g'. unfold guarded. cbn. intros [= -> -> -> -> -> -> -> -> ->]. done.
Qed.

(** Finalization has nothing to do: no sub-routine was left, the session is not
    stranded and no effect is a fault or [RebuildRoutes]. *)
Lemma finish_quiet (en : BriocheEngine U (BoxedPolicy U)) (s0 : Session U (BoxedPolicy U))
    (k : Kernel U (BoxedPolicy U)) :
  engine k = en → guarded (governance en) →
  (∀ h, state s0 ≠ AgentState.SubRoutine h) → stranded (session k) = false →
  no_rebuild (effects k) → existsb is_fault (effects k) = false →
  finish (capture_pre_transition_state s0) k = (effects k, en, session k).
Proof using All.
  intros He (_ & Hv & _ & _ & Hf) Hs Hst Hnr Hfl.
  assert (existsb is_rebuild (effects k) = false) as Hr by exact Hnr.
  unfold finish, finalize_transition.
  assert (was_subroutine (capture_pre_transition_state s0) = false) as Hw.
  { unfold capture_pre_transition_state. destruct (state s0); try done. exfalso. by eapply Hs. }
  assert (apply_subroutine_lifecycle_guard (capture_pre_transition_state s0) k = (tt, k)) as Hl.
  { unfold apply_subroutine_lifecycle_guard. rewrite bind_pair. cbn [gets fst snd id]. by rewrite Hw. }
  rewrite bind_pair, Hl. cbn [snd]. rewrite bind_pair.
  replace (map_effects ensure_rebuildroutes_last k) with (tt, k).
  2: { unfold map_effects, modify. rewrite (ensure_none _ Hnr). by destruct k. }
  cbn [snd]. rewrite bind_pair.
  replace (apply_consistency_check k) with (tt, k).
  2: { unfold apply_consistency_check. rewrite bind_pair. cbn [gets fst snd id].
       rewrite He, Hv, Hr, consistency_guard_verdict, Hst. done. }
  cbn [snd]. unfold apply_governance_failover. rewrite bind_pair. cbn [gets fst snd id].
  rewrite Hr, Hfl. cbn [orb negb]. rewrite He.
  destruct (governance_failover_handler (governance en)); cbn; by rewrite He.
Qed.

Lemma guarded_rejects_stale en (s : Session U (BoxedPolicy U)) g g0 results ep rest :
  guarded (governance en) → epoch_interceptors (governance en) = EpochGuard :: rest →
  state s = AgentState.ExecutingTools g0 → state_stack s ≠ [] → ext_wf (extensions s) →
  is_ok (insert_ext (snapshot s) (extensions s)).1 = true →
  get_ext EpochState (extensions s) = Some ep → g ≠ current_generation ep →
  ∃ s', transition (EngineInput.ToolCallsResult g results) en s =
          ([Effect.Error ErrorCode.EpochMismatch
              (ErrorDetail.EpochGuardRejected (epoch_mismatch (current_generation ep) g));
            Effect.SystemIdle], en, s') ∧
        ext_only s s' ∧ get_ext EpochState (extensions s') = Some ep.
Proof using All.
  intros Hgd Hi Hs Hst Hwf Hok Hep Hne.
  destruct (epoch_guard_stops en s g results rest ep) as (k & Ht & He & Hx & Hep' & Hef);
    try done; [by rewrite Hs|].
  exists (session k). split_and!; [|done|done].
  rewrite Ht, (finish_quiet en s k He Hgd).
  - by rewrite Hef.
  - by rewrite Hs.
  - destruct Hx as [e ->]. unfold stranded. cbn. rewrite Hs. by apply bool_decide_eq_false.
  - rewrite Hef. by repeat constructor.
  - by rewrite Hef.
Qed.

(** C37: under any profile a session waiting for its tools keeps waiting.  In any
    engine with the governance of a profile (whatever frame its rollback policy
    holds), a tool result whose generation id is
    not the one [EpochState] records is answered by the [EpochMismatch] error and
    [SystemIdle] alone; the engine, the session's state, stack, tools and history
    are as before and the epoch has not moved. *)
Theorem profile_rejects_stale_results opted_in p en (s : Session U (BoxedPolicy U)) g g0
    results ep :
  set_policy None (governance en) =
    set_policy None (governance (build (apply debug_handle debug_input to_json opted_in p
      (builder_new (U := U) (P := BoxedPolicy U))))) →
  state s = AgentState.ExecutingTools g0 → state_stack s ≠ [] → ext_wf (extensions s) →
  is_ok (insert_ext (snapshot s) (extensions s)).1 = true →
  get_ext EpochState (extensions s) = Some ep → g ≠ current_generation ep →
  ∃ s', transition (EngineInput.ToolCallsResult g results) en s =
          ([Effect.Error ErrorCode.EpochMismatch
              (ErrorDetail.EpochGuardRejected (epoch_mismatch (current_generation ep) g));
            Effect.SystemIdle], en, s') ∧
        ext_only s s' ∧ get_ext EpochState (extensions s') = Some ep.
Proof using All.
  intros Hg. destruct (apply_guarded debug_handle debug_input to_json opted_in p builder_new)
    as [Hgd [rest Hi]].
  apply (guarded_policy _ _ Hg) in Hgd.
  pose proof (f_equal epoch_interceptors Hg : epoch_interceptors (governance en) = _) as Hg'.
  cbn [epoch_interceptors set_policy] in Hg'. rewrite <- Hg' in Hi.
  by apply (guarded_rejects_stale en s g g0 results ep rest).
Qed.
End stale.

(** A whole tool round of the Standard engine. *)
Definition no_debug : string → string := λ _, "".
Definition no_debug_input : EngineInput → string := λ _, "".
Definition no_json : TruncatedToolResult → result string string := λ _, Ok "".

Definition standard_engine : BriocheEngine concrete_universe (BoxedPolicy concrete_universe) :=
  build (apply no_debug no_debug_input no_json false Standard builder_new).

Definition standard_session : Session concrete_universe (BoxedPolicy concrete_universe) :=
  Session_new "session".

Definition standard_run :
    list Effect * BriocheEngine concrete_universe (BoxedPolicy concrete_universe) *
    Session concrete_universe (BoxedPolicy concrete_universe) :=
  run_inputs tool_round standard_engine standard_session.

Lemma standard_governance :
  set_policy None (governance standard_run.1.2) = set_policy None (governance standard_engine).
Proof.
  exact (f_equal snd (run_inputs_config tool_round standard_engine standard_session)).
Qed.

Lemma standard_wf : ext_wf (extensions standard_run.2).
Proof.
  split.
  - assert (map_Forall (λ tid a, type_id_of a = tid) (hot_map (extensions standard_run.2))) as H
      by (apply (bool_decide_unpack _); vm_compute; exact I).
    intros tid a Ha. exact (H tid a Ha).
  - assert (registry (extensions standard_run.2) =
      registry (ensure_registered RollbackTelemetryState (ensure_registered ToolCallDetectorState
        (ensure_registered DepthState (ensure_registered SupersededTransitionTraceLog
        (ensure_registered StreamToolAccumulator (ensure_registered SubRoutineTimerState
        (ensure_registered RollbackEventLog (ensure_registered RecoveryState
        (ensure_registered EpochState (ensure_registered SessionSnapshot
        (ExtensionStorage_new (U := concrete_universe)
          (P := BoxedPolicy concrete_universe))))))))))))) as ->.
    { vm_compute. reflexivity. }
    apply wf_registry. repeat apply ext_wf_ensure. apply ext_new_wf.
Qed.

Lemma profile_rejects_stale_results_witness :
  state standard_run.2 = AgentState.ExecutingTools 1 ∧
  ∃ s', transition (EngineInput.ToolCallsResult 1 []) standard_run.1.2 standard_run.2 =
    ([Effect.Error ErrorCode.EpochMismatch
        (ErrorDetail.EpochGuardRejected "epoch mismatch: expected 0, got 1");
      Effect.SystemIdle], standard_run.1.2, s').
Proof.
  split; [vm_compute; reflexivity|].
  destruct (profile_rejects_stale_results no_debug no_debug_input no_json false Standard
    standard_run.1.2 standard_run.2 1 1 [] {| current_generation := 0 |}) as (s' & Ht & _).
  - exact standard_governance.
  - vm_compute. reflexivity.
  - vm_compute. discriminate.
  - exact standard_wf.
  - vm_compute. reflexivity.
  - vm_compute. reflexivity.
  - discriminate.
  - exists s'. exact Ht.
Defined.

Lemma profile_selection_witness :
  try_apply no_debug no_debug_input no_json false Permissive
    (builder_new (U := concrete_universe) (P := BoxedPolicy concrete_universe))
  = Err PermissiveRequiresOptIn.
Proof.
  apply (profile_selection no_debug no_debug_input no_json false Permissive builder_new).
  - constructor.
  - by split.
Defined.

(** ** The plugin kit: what its setters can and cannot override *)

Section kit.
Context {U : AnyUniverse} `{!KernelTypes U, !GovernanceTypes U, !TelemetryTypes U}.
Context (debug_handle : string → string) (debug_input : EngineInput → string).
Context (to_json : TruncatedToolResult → result string string).
Context (opted_in : bool).
#[local] Abbreviation profile := (kit_profile debug_handle debug_input to_json opted_in).

(** The calls that replace one of the three guards a profile sets. *)
Definition replaces_guard (c : BuilderCall U (BoxedPolicy U)) : bool :=
  match c with
  | with_subroutine_handler _ | with_consistency_verifier _ | with_governance_failover_handler _ => true
  | _ => false
  end.

Lemma kit_calls_guarded cs (b : PluginBuilder (U := U)) rest :
  forallb (λ c, negb (replaces_guard c)) cs = true →
  guarded (governance (build b)) → b_epoch_interceptors b = EpochGuard :: rest →
  guarded (governance (build (foldl (λ b c, kit_call c b) b cs))) ∧
  ∃ rest', b_epoch_interceptors (foldl (λ b c, kit_call c b) b cs) = EpochGuard :: rest'.
Proof using Type.
  revert b rest. induction cs as [|c cs IH]; intros b rest; cbn [foldl forallb]; [by eauto|].
  rewrite andb_true_iff. intros [Hc Hcs] Hg Hi. eapply (IH _ (rest ++ _) Hcs).
  - revert Hg. by destruct c.
  - unfold kit_call, apply_call. cbn. by rewrite Hi.
Qed.

(** No chain of setters takes the epoch guard away.  Whatever plugins,
    interceptors, policies and constraints are given to a builder of the kit after its
    profile, short of replacing the three guards themselves, the engine
    answers every tool result whose generation id is not the one of [EpochState] with the
    mismatch error: [with_epoch_interceptor] adds an interceptor behind the guard of the
    profile. *)
Theorem kit_keeps_epoch_guard p cs (s : Session U (BoxedPolicy U)) g g0 results ep
    (Hcs : forallb (λ c, negb (replaces_guard c)) cs = true) :
  state s = AgentState.ExecutingTools g0 → state_stack s ≠ [] → ext_wf (extensions s) →
  is_ok (insert_ext (snapshot s) (extensions s)).1 = true →
  get_ext EpochState (extensions s) = Some ep → g ≠ current_generation ep →
  let en := kit_build (foldl (λ b c, kit_call c b) (profile p) cs) in
  ∃ s', transition (EngineInput.ToolCallsResult g results) en s =
          ([Effect.Error ErrorCode.EpochMismatch
              (ErrorDetail.EpochGuardRejected (epoch_mismatch (current_generation ep) g));
            Effect.SystemIdle], en, s') ∧
        ext_only s s' ∧ get_ext EpochState (extensions s') = Some ep.
Proof using All.
  intros Hs Hst Hwf Hok Hep Hne en.
  destruct (apply_guarded debug_handle debug_input to_json opted_in p builder_new) as [Hg [rest Hi]].
  destruct (kit_calls_guarded cs (profile p) rest Hcs Hg Hi) as [Hgd [rest' Hi']].
  by apply (guarded_rejects_stale debug_handle debug_input to_json en s g g0 results ep rest').
Qed.

(** The factories build what they say: a fresh session under the identifier,
    the restored one when there is a head, the history alone when there is none; both on the
    same engine, of the Standard profile with the hydrator. *)
Theorem session_factories hydrator id history head :
  let fresh := default_session_factory debug_handle debug_input to_json opted_in hydrator id in
  let restored := restored_session_factory debug_handle debug_input to_json opted_in hydrator id
                    history head in
  fresh.2 = Session_new id ∧ restored.1 = fresh.1 ∧
  restored.2 = session_factory_with_head id history head ∧
  subroutine_hydrator (governance fresh.1) = Some hydrator ∧
  ∃ rest, epoch_interceptors (governance fresh.1) = EpochGuard :: rest.
Proof using Type.
  cbv zeta. unfold restored_session_factory, session_factory_with_head, default_session_factory.
  cbn. split_and!; try done. by eexists.
Qed.
End kit.

(** ** The shells of the applications *)

From S2P Require Import Journal Signals Sse Provider DesktopSessions Executor EngineThread ThreadSpec.
From S2P Require Import EffectLoop EffectExecutor.

Section shells.
Context {U : AnyUniverse} `{!KernelTypes U, !GovernanceTypes U, !TelemetryTypes U}.
Context (debug_handle : string → string) (debug_input : EngineInput → string).
Context (to_json : TruncatedToolResult → result string string) (opted_in : bool).
Context (to_allocvec : EngineInput → result bytes string).
Context (from_bytes : bytes → result EngineInput string).
Context {C : Type} (callback : Session U (BoxedPolicy U) → C → Session U (BoxedPolicy U) * C).

(** What the shell builder hands over: the session and engine of its factory, a client that
    starts with the prompt, the tools and the transform it was given. *)
Lemma built_shell_parts (c : C) b sh :
  build_with c b = Ok sh →
  th_session (shell_thread (built_shell sh)) = (sb_factory b).2 ∧
  th_engine (shell_thread (built_shell sh)) = (sb_factory b).1 ∧
  mirror (built_client sh) = [ChatMessage.System DEFAULT_SYSTEM_PROMPT] ∧
  built_transform sh = sb_transform b ∧ built_schemas sh = sb_schemas b ∧
  journal_on (built_shell sh) = false.
Proof using Type.
  unfold build_with. destruct (sb_client b) as [[]|e]; [|done]. cbn [result_bind]. intros [= <-].
  cbn [built_shell]. unfold BriocheShell_new. by destruct (sb_factory b).
Qed.

(** The journal that keeps an input in flight is off in every shell the applications build:
    whatever such a shell processed, there is nothing to recover from. *)
Theorem built_shells_do_not_journal (c : C) b sh log t :
  build_with c b = Ok sh →
  loop_run to_allocvec (journal_on (built_shell sh)) callback (shell_thread (built_shell sh)) log t →
  th_journal t = TransitionJournal_new ∧ read_unacknowledged from_bytes 1 (th_journal t) = Some [].
Proof using Type.
  intros Hb Hr. destruct (built_shell_parts c b sh Hb) as (_ & _ & _ & _ & _ & Hj).
  assert (th_journal t = TransitionJournal_new) as ->.
  { rewrite (unjournaled_run _ _ _ _ _ _ Hj Hr). unfold build_with in Hb.
    destruct (sb_client b) as [[]|e]; [|done]. cbn [result_bind] in Hb. injection Hb as <-.
    cbn [built_shell]. unfold BriocheShell_new. by destruct (sb_factory b). }
  split; reflexivity.
Qed.
End shells.
