(* ===== verification/EffectLoopSpec.v ===== *)
(** * Correctness of the effect loop: bounded concurrency, nothing lost, the barrier, shutdown;
      and of the effect executor: background saves *)
From S2P Require Import Prelude Utf8 Types Effects Extension Session Persistence Engine GovTypes.
From S2P Require Import Signals Executor EngineThread Sse EffectLoop EffectExecutor.

(** ** The invariant *)

(** What the loop has taken from the engine, or has still to take, and not spawned yet. *)
Definition waiting (s : EffectLoop) : list Effect :=
  match dispatching s with Some (effects, _) => effects | None => [] end ++ (output_queue s ≫= fst).

(** A rebuild that was started and is not over. *)
Definition rebuild_running (s : EffectLoop) : Prop :=
  ∃ t, t ∈ tasks s ∧ started t = true ∧ is_rebuild (task_effect t) = true.

Record loop_ok (c : ShellConfig) (s : EffectLoop) : Prop := {
  ok_permits : permits s + length (tasks s) = max_concurrent_effects c;
  ok_tasks : spawned s ≡ₚ ended s ++ (task_effect <$> tasks s);
  ok_sublist : spawned s ++ waiting s `sublist_of` sent s;
  ok_sent : cancelled s = false → sent s = spawned s ++ waiting s;
  ok_flag : rebuild_in_progress s = true → rebuild_running s;
  ok_queue : length (output_queue s) ≤ engine_channel_capacity c;
  ok_done : loop_done s = true → dispatching s = None
}.

Lemma loop_ok_new c : loop_ok c (EffectLoop_new c).
Proof. split; cbn; try done; lia. Qed.

Lemma delete_effects (i : nat) t (l : list EffectTask) :
  l !! i = Some t → task_effect <$> l ≡ₚ task_effect t :: (task_effect <$> delete i l).
Proof. intros H. exact (fmap_Permutation task_effect _ _ (delete_Permutation l i t H)). Qed.

Lemma insert_effects (i : nat) t (l : list EffectTask) :
  l !! i = Some t → task_effect <$> <[i := start t]> l = task_effect <$> l.
Proof.
  intros H. rewrite list_fmap_insert. apply list_insert_id. by rewrite list_lookup_fmap, H.
Qed.

Lemma engine_sends_ok c effects snapshot s s' :
  engine_sends c effects snapshot s = Some s' → loop_ok c s → loop_ok c s'.
Proof.
  unfold engine_sends. destruct (output_open s && negb (loop_done s)); [|done].
  destruct (length (output_queue s) <? engine_channel_capacity c) eqn:E; [|done].
  apply Nat.ltb_lt in E. intros [= <-] [H1 H2 H3 H4 H5 H6 H7].
  assert (∀ d : option (list Effect * StateSnapshot),
    (match d with Some (e, _) => e | None => [] end : list Effect) ++
    ((output_queue s ++ [(effects, snapshot)]) ≫= fst) =
    (match d with Some (e, _) => e | None => [] end ++ (output_queue s ≫= fst)) ++ effects) as Hw.
  { intros d. rewrite bind_app. cbn. by rewrite app_nil_r, (assoc_L (++)). }
  split; unfold waiting in *; cbn; try done.
  - rewrite Hw, (assoc_L (++)). by apply sublist_app.
  - intros Hc. rewrite Hw, (H4 Hc). by rewrite !(assoc_L (++)).
  - rewrite length_app. cbn. lia.
Qed.

Lemma loop_steps_ok c l s s' :
  match l with LoopReceives | LoopStops | LoopSpawns | LoopBatchEnds | LoopBreaks
             | EngineStops | Shutdown | ShutdownWaits => True | _ => False end →
  loop_step c l s = Some s' → loop_ok c s → loop_ok c s'.
Proof.
  destruct l; try done; intros _ Hs [H1 H2 H3 H4 H5 H6 H7]; cbn in Hs.
  - unfold engine_stops in Hs. destruct (output_open s); [|done]. by injection Hs as <-.
  - injection Hs as <-. by split.
  - unfold shutdown_takes in Hs. destruct (cancelled s); [|done]. injection Hs as <-.
    split; cbn; try done.
    + by rewrite length_fmap.
    + rewrite <- list_fmap_compose. done.
    + intros Hf. destruct (H5 Hf) as (t & Ht & Hst). exists (await_task t). split; [|done].
      by apply list_elem_of_fmap_2.
  - unfold loop_receives in Hs. destruct (loop_done s) eqn:Ed; [done|].
    destruct (dispatching s) eqn:Edi; [done|]. destruct (output_queue s) as [|b q] eqn:Eq; [done|].
    injection Hs as <-. unfold waiting in *. rewrite Edi, Eq in *. destruct b as [effects snap].
    cbn in *. split; unfold waiting; cbn; try done; [lia|congruence].
  - unfold loop_stops in Hs. destruct (loop_done s) eqn:Ed; [done|].
    destruct (dispatching s) eqn:Edi; [done|].
    destruct (cancelled s || _); [|done]. injection Hs as <-.
    unfold waiting in *. rewrite Edi in *. by split.
  - unfold loop_spawns in Hs. destruct (dispatching s) as [[[|e es] snap]|] eqn:Edi; try done.
    destruct (permits s) as [|p] eqn:Ep; [done|]. injection Hs as <-.
    unfold waiting in *. rewrite Edi in *. split; unfold waiting; cbn; try done.
    + rewrite length_app. cbn. lia.
    + rewrite fmap_app. cbn. rewrite H2. by rewrite (assoc_L (++)).
    + by rewrite <- (assoc_L (++)).
    + by rewrite <- (assoc_L (++)).
    + intros Hf. destruct (H5 Hf) as (t & Ht & Hst). exists t. split; [|done].
      cbn. apply elem_of_app. by left.
    + intros Hd. by specialize (H7 Hd).
  - unfold loop_batch_ends in Hs. destruct (dispatching s) as [[[|e es] snap]|] eqn:Edi; try done.
    injection Hs as <-. unfold waiting in *. rewrite Edi in *. by split.
  - unfold loop_breaks in Hs. destruct (dispatching s) as [[[|e es] snap]|] eqn:Edi; try done.
    destruct (cancelled s) eqn:Ec; [|done]. injection Hs as <-. unfold waiting in *. rewrite Edi in *.
    split; unfold waiting; cbn; try done; [|congruence].
    etransitivity; [|exact H3]. apply sublist_app; [done|]. by apply sublist_inserts_l.
Qed.

Lemma task_starts_ok c i s s' : task_starts i s = Some s' → loop_ok c s → loop_ok c s'.
Proof.
  unfold task_starts. destruct (tasks s !! i) as [t|] eqn:Et; [|done].
  destruct (started t) eqn:Es; [done|]. intros [= <-] [H1 H2 H3 H4 H5 H6 H7].
  split; cbn; try done.
  - by rewrite length_insert.
  - by rewrite insert_effects.
  - intros Hf. destruct (is_rebuild (task_effect t)) eqn:Er.
    + exists (start t). split; [|done]. cbn. apply list_elem_of_lookup. exists i.
      apply list_lookup_insert_eq. by apply lookup_lt_Some in Et.
    + destruct (H5 Hf) as (t' & Ht' & Hst & Hr). exists t'. split; [|done]. cbn.
      apply list_elem_of_lookup in Ht' as [j Hj]. apply list_elem_of_lookup. exists j.
      rewrite list_lookup_insert_ne; [done|]. intros ->. congruence.
Qed.

Lemma task_ends_ok c i how s s' : task_ends i how s = Some s' → loop_ok c s → loop_ok c s'.
Proof.
  unfold task_ends. destruct (tasks s !! i) as [t|] eqn:Et; [|done].
  destruct (started t && _) eqn:Ea; [|done]. intros [= <-] [H1 H2 H3 H4 H5 H6 H7].
  pose proof (delete_Permutation _ _ _ Et) as Hp.
  split; cbn; try done.
  - rewrite Hp in H1. cbn in H1. lia.
  - rewrite H2, (delete_effects _ _ _ Et), <- (assoc_L (++)). done.
  - intros Hf. destruct (is_rebuild (task_effect t)) eqn:Er; [by destruct how|].
    destruct (H5 Hf) as (t' & Ht' & Hst & Hr). exists t'. split; [|done]. cbn.
    rewrite Hp in Ht'. apply elem_of_cons in Ht' as [->|Ht']; [congruence|done].
Qed.

Lemma loop_step_ok c l s s' : loop_step c l s = Some s' → loop_ok c s → loop_ok c s'.
Proof.
  destruct l; intros Hs Hok.
  1: by eapply engine_sends_ok.
  9: by eapply task_starts_ok.
  9: by eapply task_ends_ok.
  all: by eapply loop_steps_ok; [|exact Hs|exact Hok].
Qed.

Lemma run_loop_ok c labels s s' : run_loop c labels s = Some s' → loop_ok c s → loop_ok c s'.
Proof.
  revert s. induction labels as [|l labels IH]; intros s; cbn; [by intros [= <-]|].
  destruct (loop_step c l s) as [s1|] eqn:E; [|done]. intros H Hok. eapply IH; [done|].
  by eapply loop_step_ok.
Qed.

(** C7: the contract of the effect loop.  In every interleaving of the engine thread, the loop,
    its tasks and a shutdown: at most [max_concurrent_effects] tasks are alive; every effect
    is spawned at most once and in the order the engine sent it; until a shutdown nothing is
    dropped, what was sent being what was spawned followed by what waits; every spawned
    effect is alive or over; and while the rebuild flag is up, so that inputs are refused,
    a rebuild is really running. *)
Theorem effect_loop_contract (c : ShellConfig) labels s
    (Hrun : run_loop c labels (EffectLoop_new c) = Some s) :
  length (tasks s) ≤ max_concurrent_effects c ∧
  spawned s ++ waiting s `sublist_of` sent s ∧
  (cancelled s = false → sent s = spawned s ++ waiting s) ∧
  spawned s ≡ₚ ended s ++ (task_effect <$> tasks s) ∧
  (rebuild_in_progress s = true → rebuild_running s ∧
     ∀ ch, send_input (cancelled s) true ch =
       Refused (if cancelled s then ShellError.EngineDisconnected else ShellError.RebuildInProgress)).
Proof.
  destruct (run_loop_ok _ _ _ _ Hrun (loop_ok_new c)) as [H1 H2 H3 H4 H5 H6 H7].
  split_and!; [lia|done|done|done|]. intros Hf. split; [by apply H5|].
  intros ch. unfold send_input. by destruct (cancelled s).
Qed.

(** ** Shutdown and quiescence *)

(** How many steps the loop and its tasks have left. *)
Definition batch_work (batch : list Effect * StateSnapshot) : nat := 2 + 3 * length batch.1.
Definition task_work (t : EffectTask) : nat := if started t then 1 else 2.
Definition work (s : EffectLoop) : nat :=
  sum_list_with batch_work (output_queue s) +
  match dispatching s with Some (effects, _) => 1 + 3 * length effects | None => 0 end +
  sum_list_with task_work (tasks s) + if loop_done s then 0 else 1.

Lemma sum_delete {A} (f : A → nat) (i : nat) t (l : list A) :
  l !! i = Some t → sum_list_with f l = f t + sum_list_with f (delete i l).
Proof.
  revert i. induction l as [|x l IH]; intros [|i] H; try done.
  - by injection H as ->.
  - change (f x + sum_list_with f l = f t + (f x + sum_list_with f (delete i l))).
    rewrite (IH i H). lia.
Qed.

Lemma sum_insert {A} (f : A → nat) (i : nat) t u (l : list A) :
  l !! i = Some t → sum_list_with f (<[i := u]> l) + f t = sum_list_with f l + f u.
Proof.
  revert i. induction l as [|x l IH]; intros [|i] H; try done.
  - injection H as ->. cbn. lia.
  - change (f x + sum_list_with f (<[i := u]> l) + f t = f x + sum_list_with f l + f u).
    specialize (IH i H). lia.
Qed.

Lemma internal_step_work c l s s' :
  internal l = true → loop_step c l s = Some s' → work s' < work s.
Proof.
  unfold work. destruct l; try done; intros _ Hs; cbn in Hs.
  - unfold loop_receives in Hs. destruct (loop_done s) eqn:Ed; [done|].
    destruct (dispatching s) eqn:Edi; [done|]. destruct (output_queue s) as [|[es snap] q] eqn:Eq; [done|].
    injection Hs as <-. cbn. rewrite Ed. unfold batch_work. cbn. lia.
  - unfold loop_stops in Hs. destruct (loop_done s) eqn:Ed; [done|].
    destruct (dispatching s) eqn:Edi; [done|]. destruct (cancelled s || _); [|done].
    injection Hs as <-. cbn. lia.
  - unfold loop_spawns in Hs. destruct (dispatching s) as [[[|e es] snap]|] eqn:Edi; try done.
    destruct (permits s) as [|p] eqn:Ep; [done|]. injection Hs as <-. cbn.
    rewrite sum_list_with_app. cbn. lia.
  - unfold loop_batch_ends in Hs. destruct (dispatching s) as [[[|e es] snap]|] eqn:Edi; try done.
    injection Hs as <-. cbn. lia.
  - unfold loop_breaks in Hs. destruct (dispatching s) as [[[|e es] snap]|] eqn:Edi; try done.
    destruct (cancelled s) eqn:Ec; [|done]. injection Hs as <-. cbn. lia.
  - unfold task_starts in Hs. destruct (tasks s !! i) as [t|] eqn:Et; [|done].
    destruct (started t) eqn:Es; [done|]. injection Hs as <-. cbn.
    pose proof (sum_insert task_work i t (start t) _ Et) as H.
    assert (task_work t = 2) as Ht by (unfold task_work; by rewrite Es). cbn in H. lia.
  - unfold task_ends in Hs. destruct (tasks s !! i) as [t|] eqn:Et; [|done].
    destruct (started t && _) eqn:Ea; [|done]. injection Hs as <-. cbn.
    rewrite (sum_delete task_work i t _ Et). apply andb_true_iff in Ea as [Es _].
    assert (task_work t = 1) as -> by (unfold task_work; by rewrite Es). lia.
Qed.

Lemma internal_run_bounded c labels s s' :
  forallb internal labels = true → run_loop c labels s = Some s' → length labels + work s' ≤ work s.
Proof.
  revert s. induction labels as [|l labels IH]; intros s; cbn; [by intros _ [= <-]|].
  rewrite andb_true_iff. intros [Hl Hls]. destruct (loop_step c l s) as [s1|] eqn:E; [|done].
  intros H. specialize (IH _ Hls H). pose proof (internal_step_work _ _ _ _ Hl E). lia.
Qed.

(** No step of the shell itself is enabled. *)
Definition quiet (c : ShellConfig) (s : EffectLoop) : Prop :=
  ∀ l, internal l = true → loop_step c l s = None.

Lemma quiet_tasks c s : quiet c s → tasks s = [].
Proof.
  intros Hq. destruct (tasks s) as [|t l] eqn:Et; [done|]. exfalso.
  pose proof (Hq (TaskStarts 0) eq_refl) as H1. pose proof (Hq (TaskEnds 0 Completed) eq_refl) as H2.
  cbn in H1, H2. unfold task_starts in H1. unfold task_ends in H2. rewrite Et in H1, H2. cbn in H1, H2.
  by destruct (started t).
Qed.

Lemma quiet_dispatching c s :
  quiet c s → cancelled s = true ∨ 0 < permits s → dispatching s = None.
Proof.
  intros Hq Hp. destruct (dispatching s) as [[[|e es] snap]|] eqn:Ed; [| |done]; exfalso.
  - pose proof (Hq LoopBatchEnds eq_refl) as H. cbn in H. unfold loop_batch_ends in H. by rewrite Ed in H.
  - destruct Hp as [Hc|Hp].
    + pose proof (Hq LoopBreaks eq_refl) as H. cbn in H. unfold loop_breaks in H. by rewrite Ed, Hc in H.
    + pose proof (Hq LoopSpawns eq_refl) as H. cbn in H. unfold loop_spawns in H. rewrite Ed in H.
      destruct (permits s); [lia|done].
Qed.


(** ** Runs *)

Definition two_at_once : ShellConfig :=
  {| engine_channel_capacity := 4; tick_interval_ms := 1000; max_concurrent_effects := 2;
     persistence_mode := PersistenceMode_default; transition_journal_enabled := true |}.
Definition idle_snapshot : StateSnapshot :=
  {| state_tag := AgentStateTag.Idle; snap_generation_id := None; stack_depth := 0;
     snap_session_id := "s" |}.

(** A batch of three effects, two of them rebuilds, two permits: the first rebuild is started. *)
Definition rebuild_run : list LoopLabel :=
  [EngineSends [Effect.RebuildRoutes; Effect.RebuildRoutes; Effect.TriggerGc] idle_snapshot;
   LoopReceives; LoopSpawns; LoopSpawns; TaskStarts 0].

Lemma effect_loop_contract_witness :
  ∃ s, run_loop two_at_once rebuild_run (EffectLoop_new two_at_once) = Some s ∧
    rebuild_in_progress s = true ∧ waiting s = [Effect.TriggerGc] ∧ length (tasks s) ≤ 2 ∧
    sent s = spawned s ++ waiting s ∧ rebuild_running s.
Proof.
  eexists. split; [vm_compute; reflexivity|].
  match goal with |- context [rebuild_in_progress ?s] =>
    destruct (effect_loop_contract two_at_once rebuild_run s eq_refl) as (H1 & _ & H2 & _ & H3) end.
  split; [reflexivity|]. split; [reflexivity|]. split; [exact H1|].
  split; [by apply H2|]. by apply H3.
Defined.

(** The same, run until nothing is left. *)
Definition rebuild_run_end : list LoopLabel :=
  [TaskStarts 1; TaskEnds 0 Completed; LoopSpawns; TaskStarts 1; LoopBatchEnds;
   TaskEnds 1 Completed; TaskEnds 0 Panicked].


(** The flag is one bit: the end of the first of two concurrent rebuilds lowers it while
    the second is still running, and inputs are let through. *)
Example barrier_lifted_early :
  ∃ s, run_loop two_at_once (rebuild_run ++ [TaskStarts 1; TaskEnds 0 Completed])
         (EffectLoop_new two_at_once) = Some s ∧
    rebuild_in_progress s = false ∧ rebuild_running s.
Proof.
  eexists. split; [vm_compute; reflexivity|]. split; [reflexivity|].
  eexists. split; [by left|]. done.
Qed.

(** Until the spawned rebuild is polled the flag is down. *)
Example barrier_raised_late :
  ∃ s, run_loop two_at_once [EngineSends [Effect.RebuildRoutes] idle_snapshot; LoopReceives; LoopSpawns]
         (EffectLoop_new two_at_once) = Some s ∧
    rebuild_in_progress s = false ∧ length (tasks s) = 1.
Proof. eexists. split; [vm_compute; reflexivity|]. by split. Qed.

(** [wait_all] takes the handles once: a task the loop spawns after that, before it sees the
    cancellation, is alive when [shutdown] has waited for everything it waits for. *)
Example task_outlives_shutdown :
  ∃ s, run_loop two_at_once
         [EngineSends [Effect.TriggerGc; Effect.SaveSession] idle_snapshot; LoopReceives; LoopSpawns;
          Shutdown; ShutdownWaits; LoopSpawns; LoopBatchEnds; LoopStops; TaskStarts 0; TaskEnds 0 Completed]
         (EffectLoop_new two_at_once) = Some s ∧
    wait_all_over s = true ∧ map task_effect (tasks s) = [Effect.SaveSession].
Proof. eexists. split; [vm_compute; reflexivity|]. by split. Qed.

(** With no permits at all the first effect waits for ever. *)
Definition none_at_once : ShellConfig :=
  {| engine_channel_capacity := 4; tick_interval_ms := 1000; max_concurrent_effects := 0;
     persistence_mode := PersistenceMode_default; transition_journal_enabled := true |}.
Example no_permits_no_effects :
  ∃ s, run_loop none_at_once [EngineSends [Effect.SaveSession] idle_snapshot; LoopReceives]
         (EffectLoop_new none_at_once) = Some s ∧
    quiet none_at_once s ∧ ended s = [] ∧ sent s = [Effect.SaveSession].
Proof.
  eexists. split; [vm_compute; reflexivity|]. split; [intros l Hl; by destruct l|]. by split.
Qed.

(** A task that ended the normal way makes the next health check fail, the one after that not. *)
Example finished_task_unhealthy :
  let handles := tracker_spawn fst (true, 1) (tracker_spawn fst (false, 2) TaskTracker_new) in
  tracker_health_check fst handles = (false, [(false, 2)]) ∧
  tracker_health_check fst (tracker_health_check fst handles).2 = (true, [(false, 2)]).
Proof. by split. Qed.

(** ** The effect executor: background saves are durable once the shutdown is over *)

(** ** The saves as a machine *)

Inductive SaveLabel : Type :=
  | SaveSpawned (id : string)
  | SaveRuns (i : nat)
  | HandlesTaken.

(** The state of the layer, the saves, and what the layer was asked to save, in order. *)
Record Saves (S : Type) := { saves_layer : S; save_tasks : list SaveTask; asked : list string }.
Arguments saves_layer {S}.
Arguments save_tasks {S}.
Arguments asked {S}.

Section saves.
Context {S : Type} (layer : PersistenceLayer S).

Definition save_step (l : SaveLabel) (s : Saves S) : option (Saves S) :=
  match l with
  | SaveSpawned id =>
      Some {| saves_layer := saves_layer s; save_tasks := spawn_save id (save_tasks s);
              asked := asked s |}
  | HandlesTaken =>
      Some {| saves_layer := saves_layer s; save_tasks := take_handles (save_tasks s);
              asked := asked s |}
  | SaveRuns i =>
      match save_tasks s !! i, save_runs layer i (saves_layer s, save_tasks s) with
      | Some t, (Some _, (s', tasks)) =>
          Some {| saves_layer := s'; save_tasks := tasks; asked := asked s ++ [save_id t] |}
      | _, _ => None
      end
  end.

Fixpoint run_saves (labels : list SaveLabel) (s : Saves S) : option (Saves S) :=
  match labels with
  | [] => Some s
  | l :: labels => match save_step l s with Some s' => run_saves labels s' | None => None end
  end.

Definition saves_new (s : S) : Saves S := {| saves_layer := s; save_tasks := []; asked := [] |}.
Definition spawned_ids (labels : list SaveLabel) : list string :=
  labels ≫= λ l, match l with SaveSpawned id => [id] | _ => [] end.

(** What the layer becomes when it is asked to save [ids], one after the other. *)
Definition save_all (ids : list string) (s : S) : S :=
  foldl (λ s id, (layer_save_session layer id s).2) s ids.

(** ** The invariant *)

Definition finished_ids (tasks : list SaveTask) : list string :=
  tasks ≫= λ t, if save_finished t then [save_id t] else [].

Record saves_ok (s0 : S) (ids : list string) (s : Saves S) : Prop := {
  sv_ids : save_id <$> save_tasks s = ids;
  sv_asked : asked s ≡ₚ finished_ids (save_tasks s);
  sv_layer : saves_layer s = save_all (asked s) s0;
  sv_dropped : Forall (λ t, place t = DroppedHandle → save_finished t = true) (save_tasks s)
}.

Lemma finished_fmap (f : SaveTask → SaveTask) tasks :
  (∀ t, save_id (f t) = save_id t ∧ save_finished (f t) = save_finished t) →
  finished_ids (f <$> tasks) = finished_ids tasks ∧ save_id <$> (f <$> tasks) = save_id <$> tasks.
Proof.
  intros Hf. unfold finished_ids. induction tasks as [|t tasks [IH1 IH2]]; [done|].
  destruct (Hf t) as [E1 E2]. cbn in *. rewrite E1, E2. split; congruence.
Qed.

Lemma prune_keeps t : save_id (prune t) = save_id t ∧ save_finished (prune t) = save_finished t.
Proof. unfold prune. by destruct (_ && _). Qed.

Definition take_handle (t : SaveTask) : SaveTask :=
  if decide (place t = InList) then move_handle Taken t else t.
Lemma take_keeps t :
  save_id (take_handle t) = save_id t ∧ save_finished (take_handle t) = save_finished t.
Proof. unfold take_handle. by case_decide. Qed.

Lemma run_finishes (i : nat) t tasks :
  tasks !! i = Some t → save_finished t = false →
  finished_ids (<[i := {| save_id := save_id t; save_finished := true; place := place t |}]> tasks)
    ≡ₚ finished_ids tasks ++ [save_id t].
Proof.
  intros Hi Hf. unfold finished_ids.
  rewrite <- (take_drop_middle tasks i t Hi) at 2.
  rewrite insert_take_drop by (by eapply lookup_lt_Some).
  rewrite !bind_app. cbn. rewrite Hf. cbn. solve_Permutation.
Qed.

(** The shape of an enabled run. *)
Lemma save_runs_step i s s' :
  save_step (SaveRuns i) s = Some s' →
  ∃ t, save_tasks s !! i = Some t ∧ save_finished t = false ∧
    s' = {| saves_layer := (layer_save_session layer (save_id t) (saves_layer s)).2;
            save_tasks := <[i := {| save_id := save_id t; save_finished := true; place := place t |}]> (save_tasks s);
            asked := asked s ++ [save_id t] |}.
Proof.
  cbn. unfold save_runs. destruct (save_tasks s !! i) as [t|] eqn:Hi; [|done].
  destruct (save_finished t) eqn:Hf; [done|].
  destruct (layer_save_session layer (save_id t) (saves_layer s)) as [r s1] eqn:E.
  intros [= <-]. exists t. by rewrite E.
Qed.

Lemma save_step_ok s0 ids l s s' :
  saves_ok s0 ids s → save_step l s = Some s' → saves_ok s0 (ids ++ spawned_ids [l]) s'.
Proof.
  intros [H1 H2 H3 H4] Hs. destruct l as [id|i|].
  - injection Hs as <-.
    destruct (finished_fmap prune (save_tasks s) prune_keeps) as [E1 E2].
    split; cbn.
    + unfold spawn_save. by rewrite fmap_app, E2, H1.
    + unfold spawn_save, finished_ids in *. rewrite bind_app. cbn. by rewrite app_nil_r, E1.
    + done.
    + apply Forall_app; split; [|repeat constructor; cbn; intros [=]].
      apply Forall_fmap. eapply Forall_impl; [exact H4|]. intros t Ht. cbn.
      unfold prune. destruct (save_finished t) eqn:E; cbn; [by case_match|done].
  - apply save_runs_step in Hs as (t & Hi & Hf & ->). split; cbn.
    + rewrite list_fmap_insert. rewrite list_insert_id; [by rewrite app_nil_r|].
      by rewrite list_lookup_fmap, Hi.
    + rewrite (run_finishes i t) by done. by rewrite H2.
    + unfold save_all. by rewrite foldl_app, H3.
    + by apply Forall_insert.
  - injection Hs as <-. destruct (finished_fmap take_handle (save_tasks s) take_keeps) as [E1 E2].
    split; cbn; [| |done|].
    + change (save_id <$> (take_handle <$> save_tasks s) = ids ++ []). by rewrite E2, app_nil_r.
    + change (asked s ≡ₚ finished_ids (take_handle <$> save_tasks s)). by rewrite E1.
    + apply Forall_fmap. eapply Forall_impl; [exact H4|]. intros t Ht. cbn. by case_decide.
Qed.

Lemma run_saves_ok s0 labels ids s s' :
  saves_ok s0 ids s → run_saves labels s = Some s' → saves_ok s0 (ids ++ spawned_ids labels) s'.
Proof.
  revert ids s. induction labels as [|l labels IH]; intros ids s Hok Hr; cbn in Hr.
  - injection Hr as <-. by rewrite app_nil_r.
  - destruct (save_step l s) as [s1|] eqn:E; [|done].
    assert (spawned_ids (l :: labels) = spawned_ids [l] ++ spawned_ids labels) as ->.
    { unfold spawned_ids. cbn. by rewrite app_nil_r. }
    rewrite (assoc_L (++)). eapply IH; [|exact Hr]. by eapply save_step_ok.
Qed.

Lemma saves_new_ok s0 : saves_ok s0 [] (saves_new s0).
Proof. split; cbn; done || constructor. Qed.

Lemma run_saves_app l1 l2 s : run_saves (l1 ++ l2) s = run_saves l1 s ≫= run_saves l2.
Proof.
  revert s. induction l1 as [|l l1 IH]; intros s; [done|]. cbn. by destruct (save_step l s).
Qed.

(** ** After the handles are taken *)

(** The first [n] saves are in nobody's list any more. *)
Definition out_of_list (n : nat) (tasks : list SaveTask) : Prop :=
  Forall (λ t, place t ≠ InList) (take n tasks).

Lemma out_of_list_step n l s s' :
  n ≤ length (save_tasks s) → out_of_list n (save_tasks s) → save_step l s = Some s' →
  n ≤ length (save_tasks s') ∧ out_of_list n (save_tasks s').
Proof.
  intros Hn Ho Hs. unfold out_of_list in *. destruct l as [id|i|].
  - injection Hs as <-. cbn. unfold spawn_save. rewrite length_app, length_fmap. split; [lia|].
    rewrite take_app_le by (by rewrite length_fmap). rewrite <- fmap_take. apply Forall_fmap.
    eapply Forall_impl; [exact Ho|]. intros t Ht. cbn. unfold prune.
    rewrite (bool_decide_eq_false_2 (place t = InList)) by done. by rewrite andb_false_r.
  - apply save_runs_step in Hs as (t & Hi & Hf & ->). cbn. rewrite length_insert. split; [lia|].
    rewrite Forall_lookup in Ho |- *. intros k u Hk.
    apply lookup_take_Some in Hk as [Hk Hlt]. destruct (decide (k = i)) as [->|Hne].
    + rewrite list_lookup_insert_eq in Hk by (by eapply lookup_lt_Some). injection Hk as <-. cbn.
      apply (Ho i t). by apply lookup_take_Some.
    + rewrite list_lookup_insert_ne in Hk by done. apply (Ho k u). by apply lookup_take_Some.
  - injection Hs as <-. cbn. unfold take_handles. rewrite length_fmap. split; [lia|].
    rewrite <- fmap_take. apply Forall_fmap. eapply Forall_impl; [exact Ho|].
    intros t Ht. cbn. by case_decide.
Qed.

Lemma out_of_list_run n labels s s' :
  n ≤ length (save_tasks s) → out_of_list n (save_tasks s) → run_saves labels s = Some s' →
  n ≤ length (save_tasks s') ∧ out_of_list n (save_tasks s').
Proof.
  revert s. induction labels as [|l labels IH]; intros s Hn Ho Hr; cbn in Hr; [by injection Hr as <-|].
  destruct (save_step l s) as [s1|] eqn:E; [|done].
  destruct (out_of_list_step n l s s1 Hn Ho E) as [Hn1 Ho1]. by eapply IH.
Qed.

(** A save that is in nobody's list is finished once [shutdown] is over. *)
Lemma all_finished n s0 ids s :
  saves_ok s0 ids s → out_of_list n (save_tasks s) → shutdown_over (save_tasks s) = true →
  Forall (λ t, save_finished t = true) (take n (save_tasks s)).
Proof.
  intros [_ _ _ H4] Ho Hover. unfold shutdown_over in Hover. rewrite forallb_forall in Hover.
  unfold out_of_list in Ho. rewrite Forall_forall in Ho, H4 |- *. intros t Ht.
  assert (t ∈ save_tasks s) as Hin.
  { apply list_elem_of_lookup in Ht as [k Hk]. apply lookup_take_Some in Hk as [Hk _].
    by eapply list_elem_of_lookup_2. }
  specialize (Hover t (proj1 (list_elem_of_In _ _) Hin)). specialize (H4 t Hin). specialize (Ho t Ht).
  destruct (save_finished t) eqn:E; [done|]. cbn in Hover.
  destruct (place t) eqn:Ep; [done| |by rewrite H4].
  by rewrite bool_decide_eq_true_2 in Hover.
Qed.

Lemma finished_take n tasks :
  Forall (λ t, save_finished t = true) (take n tasks) →
  take n (save_id <$> tasks) ⊆+ finished_ids tasks.
Proof.
  intros H. unfold finished_ids. rewrite <- (take_drop n tasks) at 2. rewrite bind_app.
  apply submseteq_inserts_r. rewrite <- fmap_take.
  induction H as [|t tasks' Hf _ IH]; [done|]. cbn. rewrite Hf. cbn. by apply submseteq_skip.
Qed.

End saves.

(** A layer that keeps what it saved and refuses one session. *)
Definition log_layer : PersistenceLayer (list string) := {|
  layer_save_session id := λ log,
    if decide (id = "bad") then (Err (ShellError.EffectExecution "disk"), log) else (Ok tt, log ++ [id]);
  layer_save_plugin_blob _ _ := ret (Ok tt);
  layer_gc _ := ret (Ok 0%N)
|}.


(** A save spawned after [shutdown] took the handles is awaited by nobody: the waiting is over
    while it has not run. *)
Example late_save_not_awaited :
  ∃ s, run_saves log_layer [HandlesTaken; SaveSpawned "late"] (saves_new []) = Some s ∧
       shutdown_over (save_tasks s) = true ∧ asked s = [].
Proof. eexists. split; [reflexivity|done]. Qed.

(** [shutdown] is never stuck: running the unfinished saves ends its waiting. *)
Lemma shutdown_ends {S} (layer : PersistenceLayer S) s :
  ∃ labels s', Forall (λ l, ∃ i, l = SaveRuns i) labels ∧
    run_saves layer labels s = Some s' ∧ shutdown_over (save_tasks s') = true.
Proof.
  remember (length (List.filter (λ t, negb (save_finished t)) (save_tasks s))) as n eqn:En.
  revert s En. induction n as [n IH] using lt_wf_ind. intros s ->.
  destruct (forallb save_finished (save_tasks s)) eqn:E.
  - exists [], s. split_and!; [constructor|done|]. unfold shutdown_over.
    rewrite forallb_forall in *. intros t Ht. by rewrite (E t Ht).
  - assert (∃ i t, save_tasks s !! i = Some t ∧ save_finished t = false) as (i & t & Hi & Hf).
    { clear IH. revert E. induction (save_tasks s) as [|t ts IHl]; [done|]. cbn.
      destruct (save_finished t) eqn:Ht; [|by exists 0, t].
      intros E. destruct (IHl E) as (i & u & Hi & Hu). by exists (Datatypes.S i), u. }
    destruct (layer_save_session layer (save_id t) (saves_layer s)) as [r l1] eqn:El.
    set (s1 := {| saves_layer := l1;
                  save_tasks := <[i := {| save_id := save_id t; save_finished := true;
                                          place := place t |}]> (save_tasks s);
                  asked := asked s ++ [save_id t] |}).
    assert (save_step layer (SaveRuns i) s = Some s1) as Hs.
    { cbn. unfold save_runs. by rewrite Hi, Hf, El. }
    destruct (IH (length (List.filter (λ t, negb (save_finished t)) (save_tasks s1)))
                ltac:(cbn [s1 save_tasks];
                      rewrite <- (take_drop_middle (save_tasks s) i t Hi) at 2;
                      rewrite insert_take_drop by (by eapply lookup_lt_Some);
                      rewrite !List.filter_app; cbn; rewrite Hf; cbn;
                      rewrite !length_app; cbn; lia) s1 eq_refl)
      as (labels & s' & Hl & Hr & Ho).
    exists (SaveRuns i :: labels), s'. split_and!; [by constructor; [exists i|]| |done].
    cbn [run_saves]. by rewrite Hs.
Qed.

(** ** The other effects *)

(** In [Async] mode the save's effect succeeds at once and says nothing of the save; in [Sync]
    mode its answer is that of the layer. *)
Lemma save_session_modes {S} (layer : PersistenceLayer S) x llm tools summarize confirmed snapshot w :
  let '(r, w') := run_effect layer x llm tools summarize confirmed snapshot Effect.SaveSession w in
  match executor_mode x with
  | Async => r = Ok tt ∧ layer_state w' = layer_state w ∧
             background_saves w' = spawn_save (snap_session_id snapshot) (background_saves w)
  | Sync => (r, layer_state w') =
              layer_save_session layer (snap_session_id snapshot) (layer_state w) ∧
            background_saves w' = background_saves w
  end.
Proof.
  unfold run_effect. cbn. unfold executor_save_session. destruct (executor_mode x); [done|].
  unfold on_layer. by destruct (layer_save_session _ _ _).
Qed.

(** [ready] answers for a full channel too: it looks at whether the channel is closed. *)
Example ready_when_full c : closed c = false → shell_ready false c = Ok tt.
Proof. intros H. unfold shell_ready. by rewrite H. Qed.

(** The default subscriber stops at the first error of its receiver, a lag included. *)
Example subscriber_stops_at_a_lag e1 e2 : default_subscriber [Some e1; None; Some e2] = [e1].
Proof. done. Qed.

(** A secret payload serialises to the same text whatever it holds. *)
Example secrets_redacted v1 v2 :
  serialize_payload (payload_secret v1) = serialize_payload (payload_secret v2) ∧
  expose_secret (payload_secret v1) = Some v1.
Proof. done. Qed.

(** A shell starts with an empty loop and journal, and takes inputs when its channels have
    room; whatever the configuration its watchdog only ever reports [NotifyAndDegrade]: the
    handler that is installed for the other procedure cannot run. *)
Lemma shell_starts {U : AnyUniverse} {P : Type} `{!CycleRollbackPolicy U P, !KernelTypes U,
    !GovernanceTypes U} {C} (factory : BriocheEngine U P * Session U P) config (cb : C) :
  let sh := BriocheShell_new factory config cb in
  (0 < engine_channel_capacity config → send_input false false (shell_input sh) = Sent) ∧
  permits (shell_effects sh) = max_concurrent_effects config ∧
  th_session (shell_thread sh) = factory.2 ∧ th_engine (shell_thread sh) = factory.1 ∧
  (∀ w r r', Monitoring w ∈ shell_tasks sh → watchdog_timeout w r = Some r' →
     recoveries r' = recoveries r ++ [SystemSignal.EngineUnresponsive "NotifyAndDegrade"]).
Proof.
  destruct factory as [engine session]. intros sh. split_and!; try done.
  - intros Hn. unfold send_input, channel_send, sh, empty_channel. cbn. by rewrite decide_True.
  - intros w r r' Hw Hr. unfold sh in Hw. cbn in Hw.
    apply elem_of_cons in Hw as [[=]|Hw]. apply elem_of_cons in Hw as [[=]|Hw].
    apply list_elem_of_singleton in Hw as [= ->]. unfold watchdog_timeout in Hr.
    destruct (wd_phase r), (pongs (link r)); by simplify_eq.
Qed.
