(* ===== verification/ConversationSpec.v ===== *)
(** * The conversation of the kernel and the one of the model client

    The kernel keeps the history of a session, the client of the provider keeps a mirror of
    it, from which the next request is built; no code compares them.  A turn is a user
    message, which is pushed to the mirror and dispatched by the kernel, and the call it asks
    for, whose outputs the kernel dispatches. *)
From S2P Require Import Prelude Utf8 Types Effects Extension Session Plugins Router Engine Trace.
From S2P Require Import Hooks Finalize Dispatch Transition Frames Termination Invariants Lifecycle.
From S2P Require Import Persistence GovTypes Sse Provider Instances StreamSpec ProviderSpec.

(** ** A user message, when the aggregator neither edits the history nor stops the turn *)

Section kernel.
Context {U : AnyUniverse} {P : Type} `{!CycleRollbackPolicy U P, !KernelTypes U}.

Definition goes_on (d : PluginResult PolicyDecision) : Prop :=
  match d with
  | Ok PolicyDecision.Allow | Ok (PolicyDecision.RequestEffect _) | Err _ => True
  | _ => False
  end.

Definition only_asks (g : GovernanceKernel U P) : Prop :=
  ∀ a, decision_aggregator g = Some a → ∀ ds e, goes_on (a ds e).1.

Lemma only_asks_config (k k' : Kernel U P) :
  config_frame k k' → only_asks (governance (engine k)) → only_asks (governance (engine k')).
Proof using Type.
  intros Hc H a Ha. apply H. apply (f_equal snd) in Hc. cbn in Hc.
  apply (f_equal decision_aggregator) in Hc. cbn in Hc. congruence.
Qed.

Lemma apply_decision_goes_on d (k : Kernel U P) :
  goes_on d → ∃ k', apply_decision d k = (Ok true, k') ∧ text_view k' = text_view k.
Proof using All.
  intros Hd. pose proof (λ e, push_effect_frame (same text_view) e k) as Hp.
  pose proof (λ es, extend_effects_frame (same text_view) es k) as He.
  destruct d as [[| | |eff|]|err]; try done; unfold apply_decision, bind; cbn; eexists;
    (split; [reflexivity|]); [done|apply He|apply Hp].
Qed.

Lemma append_asks g (k : Kernel U P) :
  state (session k) = AgentState.Predicting g →
  text_view (append_state_effects k).2 = text_view k ∧
  Effect.CallLlmNetwork ∈ effects (append_state_effects k).2.
Proof using All.
  intros Hs. rewrite append_state_effects_spec. split; [done|]. cbn [snd with_effects effects].
  rewrite Hs. apply elem_of_app. right. cbn. set_solver.
Qed.

Lemma user_message_view content (k : Kernel U P) :
  only_asks (governance (engine k)) → length (state_stack (session k)) < MAX_STATE_STACK_DEPTH →
  let k' := (dispatch_input (EngineInput.UserMessage content) k).2 in
  text_view k' = (history (session k) ++ [ChatMessage.User content],
                  pending_assistant_text (session k),
                  (AgentState.Predicting (generation (engine k)),
                   state_stack (session k) ++ [state (session k)])) ∧
  Effect.CallLlmNetwork ∈ effects k'.
Proof using All.
  intros Hg Hl. cbn [dispatch_input]. unfold dispatch_user_message, push_history.
  set (k1 := with_engine
    (set_routines {| subroutines := subroutines (routines (engine k));
                     next_generation_id := wrapping_add (generation (engine k)) 1 |} (engine k))
    (with_session (set_history (λ h, h ++ [ChatMessage.User content]) (session k)) k)).
  lazymatch goal with
  | |- context [bind (modify_session ?f) (λ _, bind fresh_generation_id ?body) k] =>
      change (bind (modify_session f) (λ _, bind fresh_generation_id body) k)
        with (body (generation (engine k)) k1)
  end. cbv beta.
  destruct (on_push_ok (AgentState.Predicting (generation (engine k))) k1)
    as (k2 & Hp & Ha & Hk2); [done..|]. rewrite (bind_ok_Ok _ _ _ _ _ Hp).
  assert (text_view k2 = (history (session k) ++ [ChatMessage.User content],
    pending_assistant_text (session k),
    (AgentState.Predicting (generation (engine k)), state_stack (session k) ++ [state (session k)])))
    as Hv2.
  { unfold text_view. rewrite Ha. unfold on_session, push_state in Hp.
    case_decide; [done|]. cbn in Hp. injection Hp as <-. done. }
  assert (only_asks (governance (engine k2))) as Hg2 by (rewrite Hk2; exact Hg).
  clear Hp Ha Hk2. rewrite (bind_pair _ _ k2). cbn [gets fst snd].
  rewrite (bind_pair _ _ k2). set (k3 := (run_hooks _ _ k2).2).
  assert (∀ R : relation (Kernel U P), KernelFrame R → R k2 k3) as H3.
  { intros R HR. apply run_hooks_frame; [exact HR|]. apply eval_route_frame. intros h sw.
    apply run_ext_frame. }
  pose proof (H3 (same text_view) _) as Hv3. clear H3.
  set (ds := (run_hooks _ _ k2).1) in *. clearbody k3 ds.
  rewrite (bind_pair _ _ k3). set (k4 := (report_faults _ k3).2).
  pose proof (report_faults_frame (same text_view) ds.1 k3) as Hv4. fold k4 in Hv4. clearbody k4.
  assert (text_view k4 = text_view k2) as Hv by (unfold same in *; congruence).
  assert (state (session k4) = AgentState.Predicting (generation (engine k))) as Hs4.
  { rewrite Hv2 in Hv. by injection Hv. }
  rewrite Hv2 in Hv. rewrite <- Hv. clear Hv2 Hv3 Hv4 Hv.
  destruct (decision_aggregator (governance (engine k2))) as [a|] eqn:Ea.
  - rewrite (bind_pair _ _ k4). pose proof (on_session_ext_frame (same text_view) (a ds.2) k4) as Hv5.
    pose proof (Hg2 a Ea ds.2 (extensions (session k4))) as Hd.
    assert ((on_session (on_ext (a ds.2)) k4).1 = (a ds.2 (extensions (session k4))).1) as ->.
    { unfold on_session, on_ext. by destruct (a ds.2 (extensions (session k4))). }
    set (k5 := (on_session _ k4).2) in *. clearbody k5.
    destruct (apply_decision_goes_on _ k5 Hd) as (k6 & He6 & Hv6).
    rewrite (bind_ok_Ok _ _ _ _ _ He6). rewrite (bind_pair _ _ k6). cbn [snd ret].
    assert (text_view k6 = text_view k4) as Hv by (unfold same in *; congruence).
    rewrite <- Hv. apply (append_asks (generation (engine k))). injection Hv as _ _ -> _. exact Hs4.
  - rewrite (bind_pair _ _ k4). cbn [snd ret]. by apply (append_asks (generation (engine k))).
Qed.
End kernel.

(** ** Turns *)

Section conversation.
Context {U : AnyUniverse} {P : Type} `{!CycleRollbackPolicy U P, !KernelTypes U}.
Context (from_str : bytes → option Value) (debug : option string → string).
Context (extract_text : ChunkExtractor) (detect_error : StreamErrorDetector).
Context (retry : RetryConfig) (timeout : N) (show_status show_duration : N → string).
#[local] Abbreviation call_llm :=
  (call_llm accept from_str debug extract_text detect_error retry timeout show_status show_duration).

Definition kernel_inputs (l : list ClientOut) : list EngineInput :=
  omap (λ o, match o with Input i => Some i | _ => None end) l.

(** What the model said, as the kernel is handed it. *)
Definition spoken (l : list ClientOut) : string := string_of_bytes (mjoin (ProviderSpec.text_chunks l)).

(** A turn: the outputs of the call, and what it leaves of the kernel and of the client. *)
Definition turn (content line : string) (answer : N → HttpAnswer) (k : Kernel U P)
    (c : OpenAiLlmClient) : option (list ClientOut * Kernel U P * OpenAiLlmClient) :=
  match call_llm (Ok tt) line answer with
  | None => None
  | Some m =>
      let k := (dispatch_input (EngineInput.UserMessage content) k).2 in
      let c := (push_message (ChatMessage.User content) c).2 in
      let c' := (m c).2 in
      let l := drop (length (outs c)) (outs c') in
      Some (l, dispatch_all (kernel_inputs l) k, c')
  end.

(** Text and no tools, in chunks that are UTF-8 on their own. *)
Definition plain_input (i : EngineInput) : bool :=
  match i with
  | EngineInput.LlmStream (StreamEvent.TextChunk _ b) => valid_utf8 b
  | EngineInput.LlmStream StreamEvent.Done => true
  | _ => false
  end.

(** The stream was read to its end, and said something the mirror does not cut. *)
Definition plain_turn (l : list ClientOut) (c : OpenAiLlmClient) : bool :=
  forallb plain_input (kernel_inputs l) && bool_decide (spoken l ≠ "") &&
  (char_count (spoken l) <=? N.of_nat MAX_ASSISTANT_CHARS)%N && bool_decide (pending_text c = "").

Inductive conversation (k : Kernel U P) (c : OpenAiLlmClient) :
    list (string * string) → Kernel U P → OpenAiLlmClient → Prop :=
  | conversation_start : conversation k c [] k c
  | conversation_turn turns k1 c1 content line answer l k2 c2 :
      conversation k c turns k1 c1 →
      turn content line answer k1 c1 = Some (l, k2, c2) → plain_turn l c2 = true →
      conversation k c (turns ++ [(content, spoken l)]) k2 c2.

Lemma conversation_more k c turns k1 c1 content line answer l k2 c2 t :
  conversation k c turns k1 c1 → turn content line answer k1 c1 = Some (l, k2, c2) →
  spoken l = t → plain_turn l c2 = true → conversation k c (turns ++ [(content, t)]) k2 c2.
Proof using Type. intros H1 H2 <- H3. by eapply conversation_turn. Qed.

(** A message without what only the mirror keeps. *)
Definition speech (m : ChatMessage) : ChatMessage :=
  match m with ChatMessage.Assistant t _ _ => ChatMessage.Assistant t None [] | m => m end.

(** The inputs of a plain turn. *)
Lemma plain_inputs l :
  Forall not_done l → forallb plain_input (kernel_inputs l) = true →
  ∃ cs, kernel_inputs l = StreamSpec.text_chunks cs ∧ cs.*2 = ProviderSpec.text_chunks l ∧
    Forall (λ b, valid_utf8 b = true) cs.*2.
Proof using Type.
  induction 1 as [|o l Ho _ IH]; [by exists []|].
  destruct o as [i| | |]; [|exact IH..].
  change (kernel_inputs (Input i :: l)) with (i :: kernel_inputs l).
  cbn [forallb]. rewrite andb_true_iff. intros [Hi Hl].
  destruct (IH Hl) as (cs & E1 & E2 & E3). destruct i as [|[idx b| | | | |]| |]; try done.
  exists ((idx, b) :: cs). rewrite E1. split_and!; [done| |by constructor].
  cbn. by rewrite E2.
Qed.

Lemma kernel_inputs_done l :
  kernel_inputs (l ++ stream_done) = kernel_inputs l ++ [EngineInput.LlmStream StreamEvent.Done].
Proof using Type. unfold kernel_inputs. by rewrite omap_app. Qed.

Lemma spoken_done l : spoken (l ++ stream_done) = spoken l.
Proof using Type. unfold spoken, ProviderSpec.text_chunks. by rewrite omap_app, app_nil_r. Qed.

Lemma dispatch_all_app l1 l2 (k : Kernel U P) :
  dispatch_all (l1 ++ l2) k = dispatch_all l2 (dispatch_all l1 k).
Proof using Type. apply foldl_app. Qed.

(** Nothing of the configuration changes in a turn. *)
Lemma dispatch_all_config l (k : Kernel U P) : config_frame k (dispatch_all l k).
Proof using Type.
  revert k. induction l as [|i l IH]; intros k; [done|].
  etrans; [apply (dispatch_config i)|apply IH].
Qed.

(** One turn keeps the two in step. *)
Lemma turn_in_step content line answer (k : Kernel U P) c l k' c' :
  only_asks (governance (engine k)) → length (state_stack (session k)) < MAX_STATE_STACK_DEPTH →
  pending_assistant_text (session k) = "" → pending_text c = "" →
  turn content line answer k c = Some (l, k', c') → plain_turn l c' = true →
  text_view k' = (history (session k) ++
                    [ChatMessage.User content; ChatMessage.Assistant (spoken l) None []], "",
                  automaton (session k)) ∧
  config_frame k k' ∧ pending_text c' = "" ∧
  speech <$> mirror c' = (speech <$> mirror c) ++
    [ChatMessage.User content; ChatMessage.Assistant (spoken l) None []].
Proof using Type.
  intros Hg Hl Hpk Hpc Ht Hp. unfold turn in Ht.
  destruct (call_llm_log from_str debug extract_text detect_error retry timeout show_status
              show_duration line answer) as (m & Hm & Hc).
  rewrite Hm in Ht. cbn zeta in Ht.
  set (c1 := (push_message (ChatMessage.User content) c).2) in Ht.
  destruct (Hc c1) as (t & l0 & c2 & Hr & Ho & Htext & Hnd & _ & Hmirror).
  rewrite Hr in Ht. cbn [snd] in Ht. rewrite Ho, drop_app_length in Ht. injection Ht as <- <- <-.
  assert (pending_text c1 = "") as Hpc1 by exact Hpc.
  unfold plain_turn in Hp. rewrite !andb_true_iff, !bool_decide_eq_true, N.leb_le in Hp.
  destruct Hp as [[[Hin Hne] Hlen] Hpend]. rewrite spoken_done in *.
  rewrite kernel_inputs_done, forallb_app, andb_true_iff in Hin. destruct Hin as [Hin _].
  assert (spoken l0 = t) as Hsp.
  { unfold spoken. by rewrite Htext, string_of_bytes_of_string. }
  destruct (plain_inputs l0 Hnd Hin) as (cs & E1 & E2 & E3).
  destruct (user_message_view content k Hg Hl) as [Hv1 _].
  set (k1 := (dispatch_input (EngineInput.UserMessage content) k).2) in *.
  injection Hv1 as Hh1 Ht1 Hs1 Hstk1.
  destruct (streamed_text_reaches_history k1 (generation (engine k)) (state_stack (session k))
    (state (session k)) cs) as (_ & Hh & Htx & Hst & Hstk & _); [done|done|by apply Forall_fmap in E3|].
  rewrite E2 in Hh. rewrite concat_mjoin, Htext, Ht1, Hpk, Hh1, string_of_bytes_of_string in Hh.
  change ("" +:+ t) with t in Hh.
  change ((dispatch_user_message content k).2) with k1.
  assert (dispatch_all (kernel_inputs (l0 ++ stream_done)) k1 =
    (dispatch_input (EngineInput.LlmStream StreamEvent.Done)
       (dispatch_all (StreamSpec.text_chunks cs) k1)).2) as ->.
  { by rewrite kernel_inputs_done, dispatch_all_app, E1. }
  set (k2 := (dispatch_input (EngineInput.LlmStream StreamEvent.Done) _).2) in *. split_and!.
  - unfold text_view, automaton. rewrite Hh, Htx, Hst, Hstk, Hsp. unfold persisted.
    rewrite decide_False by congruence. by rewrite <- (assoc_L (++)).
  - etrans; [apply (dispatch_config (EngineInput.UserMessage content))|]. fold k1.
    unfold k2. etrans; [apply dispatch_all_config|]. apply (dispatch_config (EngineInput.LlmStream _)).
  - done.
  - destruct Hmirror as [[_ Hpt]|(ms & Hms & _ & Happ)].
    + exfalso. rewrite Hpend, Hpc1 in Hpt. change ("" +:+ t) with t in Hpt. congruence.
    + rewrite Hpc1 in Happ. change ("" +:+ t) with t in Happ.
      rewrite Hms, fmap_app. change (mirror c1) with (mirror c ++ [ChatMessage.User content]).
      rewrite fmap_app, <- (assoc_L (++)).
      f_equal. destruct Happ as [[_ Hx]|(rs & calls & ->)]; [congruence|].
      cbn. unfold truncate_assistant_text.
      assert ((N.of_nat MAX_ASSISTANT_CHARS <? char_count t)%N = false) as -> by (apply N.ltb_ge; congruence).
      by rewrite Hsp.
Qed.

End conversation.

(** ** Two turns, and what a failed stream does *)

Definition talk_from_str (b : bytes) : option Value :=
  match string_of_bytes b with
  | "1" => Some (delta_event "ab")
  | "2" => Some (delta_event "cd")
  | _ => None
  end.
Definition talk_turn (content : string) (items : list StreamItem) (k : Kernel concrete_universe unit)
    (c : OpenAiLlmClient) :=
  turn talk_from_str (λ _, "") StandardExtractor NoOpErrorDetector RetryConfig_default 1000
    (λ _, "") (λ _, "") content "" (λ _, Success 200 items) k c.
Definition talk_client : OpenAiLlmClient := (push_message (ChatMessage.System "prompt") OpenAiLlmClient_new).2.


(** After a failed stream they are out of step for good: the kernel has two messages, the
    mirror one that joins them. *)
Example failed_stream_out_of_step :
  match talk_turn "hello" [demo_chunk "1"; Failed "reset"] plain_kernel talk_client with
  | Some (l1, k1, c1) =>
      match talk_turn "go on" [demo_chunk "2"] k1 c1 with
      | Some (l2, k2, c2) =>
          (spoken l1, spoken l2) = ("ab", "cd") ∧
          mirror c2 = [ChatMessage.System "prompt"; ChatMessage.User "hello";
                       ChatMessage.User "go on"; ChatMessage.Assistant "abcd" None []]
      | None => False
      end
  | None => False
  end.
Proof. split; vm_compute; reflexivity. Qed.

(** ** The mock client *)

Section mock.
Context {U : AnyUniverse} {P : Type} `{!CycleRollbackPolicy U P, !KernelTypes U}.

(** Where every input is taken, the mock hands over its chunks and [Done]. *)
Lemma mock_hands_over {W} (send : EngineInput → State W (result unit ShellError)) (log : W → list EngineInput) m w :
  (∀ i w, (send i w).1 = Ok tt ∧ log (send i w).2 = log w ++ [i]) →
  (mock_call_llm send m w).1 = Ok tt ∧ log (mock_call_llm send m w).2 = log w ++ mock_inputs m.
Proof using Type.
  intros Hs. unfold mock_call_llm. generalize (mock_inputs m). intros inputs.
  revert w. induction inputs as [|i inputs IH]; intros w; cbn [send_inputs].
  - by rewrite app_nil_r.
  - destruct (Hs i w) as [H1 H2]. rewrite (bind_ok_Ok _ _ _ tt (send i w).2) by (rewrite <- H1; by destruct (send i w)).
    destruct (IH (send i w).2) as [H3 H4]. split; [done|]. by rewrite H4, H2, <- (assoc_L (++)).
Qed.

Lemma mock_fragments_short m :
  Forall (λ chunk, String.length chunk ≤ MAX_INLINE_CHUNK) (mock_chunks m) →
  mock_fragments m = bytes_of_string <$> mock_chunks m.
Proof using Type.
  unfold mock_fragments. induction 1 as [|chunk l Hc _ IH]; [done|]. cbn [flat_map fmap list_fmap].
  rewrite IH. unfold segment_bytes. rewrite decide_True; [done|]. by rewrite length_bytes_of_string.
Qed.

(** With chunks of at most 4096 bytes the mock's answer is the message the kernel persists. *)
Lemma mock_answer m (k : Kernel U P) g stack prev :
  Forall (λ chunk, String.length chunk ≤ MAX_INLINE_CHUNK) (mock_chunks m) →
  Forall (λ chunk, valid_utf8 (bytes_of_string chunk) = true) (mock_chunks m) →
  state (session k) = AgentState.Predicting g → state_stack (session k) = stack ++ [prev] →
  let k' := dispatch_all (mock_inputs m) k in
  let text := pending_assistant_text (session k) +:+
                string_of_bytes (concat (bytes_of_string <$> mock_chunks m)) in
  history (session k') = history (session k) ++ persisted text ∧
  pending_assistant_text (session k') = "" ∧ state (session k') = prev ∧ state_stack (session k') = stack.
Proof using Type.
  intros Hl Hv Hs Hst k' text.
  set (cs := (λ f, (empty_path, f)) <$> mock_fragments m).
  assert (mock_inputs m = StreamSpec.text_chunks cs ++ [EngineInput.LlmStream StreamEvent.Done]) as Hi.
  { unfold mock_inputs, StreamSpec.text_chunks, cs. by rewrite <- list_fmap_compose. }
  assert (cs.*2 = bytes_of_string <$> mock_chunks m) as Hcs.
  { unfold cs. rewrite <- list_fmap_compose, (mock_fragments_short m Hl).
    change (snd ∘ _) with (@id bytes). by rewrite list_fmap_id. }
  destruct (streamed_text_reaches_history k g stack prev cs Hs Hst) as (_ & Hh & Hp & H1 & H2 & _).
  { apply (proj1 (Forall_fmap snd (λ b, valid_utf8 b = true) cs)). rewrite Hcs. by apply Forall_fmap. }
  unfold k', text. rewrite Hi, dispatch_all_app, <- Hcs. cbn [dispatch_all foldl]. done.
Qed.
End mock.
