(* ===== verification/Terminal.v ===== *)
(** * The terminal application (apps/agent-terminal/src/, infra/brioche-reedline/src/) and the
      configuration of the shell builder (brioche-shell-builder/src/config.rs)

    Text is laid out by [char]s, the elements of [chars].  What is printed is the list of the
    printed lines; colours are functions on text.  Lines typed, chunks received and signals of
    the line editor are given as lists. *)
From S2P Require Import Prelude Utf8 Types Effects Extension Session Plugins Router Engine.
From S2P Require Import Persistence GovTypes Sse Provider SystemTools Executor Settings Extensions.
From S2P Require Import Memory Skills DesktopShell DesktopSessions.

(** ** config.rs of the shell builder *)

Section config.
Context {R : Type} (env : SecretEnv R) (parse_u32 : string → option N).

Definition DEFAULT_MODEL : string := "gpt-4o-mini".
Definition DEFAULT_BASE_URL : string := "https://api.openai.com/v1".
Definition DEFAULT_MAX_TOKENS : N := 4096.
Definition DEFAULT_TIMEOUT_MS : N := 120000.

Definition allow_local_llm_endpoint : bool :=
  bool_decide (env_var env "BRIOCHE_ALLOW_LOCAL_LLM" = Some "1").

(** The first source that has a value. *)
Definition or_env (given : option string) (name default : string) : string :=
  match given with
  | Some v => v
  | None => match env_var env name with Some v => v | None => default end
  end.

Definition assemble_openai_config_from_env (api_key model base_url : option string) : OpenAiConfig :=
  {| Provider.api_key := or_env api_key "BRIOCHE_API_KEY" "";
     Provider.model := or_env model "BRIOCHE_MODEL" DEFAULT_MODEL;
     Provider.base_url := or_env base_url "BRIOCHE_BASE_URL" DEFAULT_BASE_URL;
     Provider.max_tokens := match env_var env "BRIOCHE_MAX_TOKENS" ≫= parse_u32 with
                            | Some n => n | None => DEFAULT_MAX_TOKENS end;
     request_timeout_ms := DEFAULT_TIMEOUT_MS;
     allow_loopback := allow_local_llm_endpoint;
     Provider.reasoning_effort := env_var env "BRIOCHE_REASONING_EFFORT" |}.

Definition assemble_openai_config_from_settings (settings : gmap string Value) : OpenAiConfig :=
  {| Provider.api_key := if decide (settings_api_key env settings = "")
                         then or_env None "BRIOCHE_API_KEY" "" else settings_api_key env settings;
     Provider.model := or_env None "BRIOCHE_MODEL" (chat_model env settings);
     Provider.base_url := or_env None "BRIOCHE_BASE_URL" (settings_base_url env settings);
     Provider.max_tokens := settings_max_tokens env settings;
     request_timeout_ms := DEFAULT_TIMEOUT_MS;
     allow_loopback := allow_local_llm_endpoint;
     Provider.reasoning_effort :=
       if reasoning_enabled env settings then Some (settings_reasoning_effort env settings)
       else env_var env "BRIOCHE_REASONING_EFFORT" |}.

(** lib.rs *)
Record UserConfig := {
  user_api_key : option string;
  user_model : option string;
  user_base_url : option string;
  user_permissive_shell : bool
}.
Record CliConfig := { openai : OpenAiConfig; tick_interval : N; permissive_shell : bool }.

Definition from_env_and_args (user : UserConfig) : CliConfig :=
  {| openai := assemble_openai_config_from_env (user_api_key user) (user_model user)
                 (user_base_url user);
     tick_interval := 1000;
     permissive_shell := user_permissive_shell user
       || bool_decide (env_var env "BRIOCHE_TERMINAL_PERMISSIVE" = Some "1") |}.
End config.

(** ** shell_builder.rs: what a command may do *)

Inductive ShellMode : Type := Interactive | Headless.

Definition sandbox_policy_for (cli_config : CliConfig) (mode : ShellMode) : SandboxPolicy :=
  if permissive_shell cli_config then SandboxPolicy.Permissive
  else SandboxPolicy.AllowList AllowList_default.

(** The line the user answers with; [None] when it cannot be read. *)
Definition prompt_confirm (to_lowercase : string → string) (answer : option string) : bool :=
  match answer with
  | Some input => bool_decide (to_lowercase (trim_string input) ∈ ["y"; "yes"])
  | None => false
  end.

(** [None] is [unreachable!]. *)
Definition terminal_exec_tool (prompt : ConfirmHandler) (cli_config : CliConfig)
    (mode : ShellMode) : option ExecuteCommandTool :=
  match sandbox_policy_for cli_config mode with
  | SandboxPolicy.Permissive => Some (with_policy SandboxPolicy.Permissive ExecuteCommandTool_new)
  | SandboxPolicy.AllowList list =>
      let tool := with_policy (SandboxPolicy.AllowList list) ExecuteCommandTool_new in
      Some (match mode with
            | Interactive => with_confirm_handler prompt tool
            | Headless => tool
            end)
  | SandboxPolicy.Interactive => None
  end.

(** ** ui.rs: layout *)

Definition text_chars (s : string) : list bytes := chars (bytes_of_string s).
Definition text_of_chars (l : list bytes) : string := string_of_bytes (mjoin l).
Definition width (s : string) : nat := length (text_chars s).
Definition BOX_WIDTH : nat := 50.
Definition blank : bytes := ["032"%byte].

(** The loop that cuts a long word; [max_width] is never 0, and the length of the word is
    fuel enough. *)
Fixpoint break_word (fuel max_width : nat) (w : list bytes) : list (list bytes) * list bytes :=
  match fuel with
  | S fuel =>
      if max_width <? length w then
        let '(pieces, rest) := break_word fuel max_width (drop max_width w) in
        (take max_width w :: pieces, rest)
      else ([], w)
  | 0 => ([], w)
  end.

Definition flush_line (result : list (list bytes)) (current : list bytes) : list (list bytes) :=
  match current with [] => result | _ => result ++ [current] end.

Definition wrap_word (max_width : nat) (acc : list (list bytes) * list bytes) (word : list bytes) :
    list (list bytes) * list bytes :=
  let '(result, current) := acc in
  if max_width <? length word then
    let '(pieces, rest) := break_word (length word) max_width word in
    (flush_line result current ++ pieces, rest)
  else if max_width <? length current + 1 + length word then (flush_line result current, word)
  else (result, match current with [] => word | _ => current ++ blank :: word end).

Definition wrap_line (line : string) (max_width : nat) : list string :=
  if width line <=? max_width then [line]
  else let '(result, current) :=
         foldl (wrap_word max_width) ([], []) (split_words [] (text_chars line)) in
       text_of_chars <$> flush_line result current.

Definition clamp (lo hi n : nat) : nat := if n <? lo then lo else if hi <? n then hi else n.
Definition max_width_of (ls : list string) : nat := foldr Nat.max 0 (width <$> ls).
Definition repeated (n : nat) (c : string) : string := foldr String.append "" (repeat c n).

(** A line between two borders, filled up to [inner_w]; [left] is the left border with its
    margin. *)
Definition bordered (left : string) (inner_w : nat) (line : string) : string :=
  left +:+ line +:+ repeated (inner_w - (width line + 2)) " " +:+ " │".

Definition box_width (label_chars content_max : nat) : nat :=
  Nat.min (Nat.max (clamp 28 BOX_WIDTH (label_chars + 4)) (content_max + 2)) BOX_WIDTH.

Definition box_lines (label content : string) : list string :=
  let label_chars := width label in
  let content_max := max_width_of (lines content ≫= λ l, wrap_line l (BOX_WIDTH - 2)) in
  let inner_w := box_width label_chars content_max in
  [("╭─ " +:+ label +:+ " " +:+ repeated (inner_w - (label_chars + 3)) "─" +:+ "╮")]
  ++ (bordered "│ " inner_w <$> (lines content ≫= λ l, wrap_line l (inner_w - 2)))
  ++ [("╰" +:+ repeated inner_w "─" +:+ "╯")].

Definition error_lines (code message source : string) (recoverable : bool)
    (suggestion : option string) : list string :=
  let severity := if recoverable then "ERROR" else "FATAL" in
  let wrapped_header := wrap_line (code +:+ ": " +:+ message) (BOX_WIDTH - 2) in
  let wrapped_suggestion := (λ h, wrap_line ("→ " +:+ h) (BOX_WIDTH - 4)) <$> suggestion in
  let content_max :=
    max_width_of (wrapped_header ++ match wrapped_suggestion with Some l => l | None => [] end) in
  let top_label_len := width severity + width source + 7 in
  let inner_w :=
    Nat.min (Nat.max (clamp 28 BOX_WIDTH top_label_len) (content_max + 2)) BOX_WIDTH in
  [("┌─ " +:+ severity +:+ " ─ [" +:+ source +:+ "] "
     +:+ repeated (inner_w - top_label_len) "─" +:+ "┐")]
  ++ (bordered "│ " inner_w <$> wrapped_header)
  ++ match wrapped_suggestion with
     | Some sugg_lines => "│" :: (bordered "│   " inner_w <$> sugg_lines)
     | None => []
     end
  ++ [("└" +:+ repeated inner_w "─" +:+ "┘")].

(** ** ui.rs: text *)

(** [split(delim)] for a text that is not empty; the length of [s] is fuel enough. *)
Fixpoint split_delim (fuel : nat) (delim s : string) : list string :=
  match fuel with
  | S fuel => match find_split delim s with
              | Some (a, b) => a :: split_delim fuel delim b
              | None => [s]
              end
  | 0 => [s]
  end.
Definition split_str (delim s : string) : list string := split_delim (S (String.length s)) delim s.

(** The parts at odd places are opened in front, those at even places are closed in front. *)
Fixpoint delimited (open close : string) (inside : bool) (parts : list string) : string :=
  match parts with
  | [] => if inside then close else ""
  | part :: parts =>
      (if inside then close else open) +:+ part +:+ delimited open close (negb inside) parts
  end.
Definition render_delimited (text delim open close : string) : string :=
  match split_str delim text with
  | part :: _ :: _ as parts => part +:+ delimited open close false (tail parts)
  | _ => text
  end.

Definition ESC : string := String "027" "".
Definition render_markdown (text : string) : string :=
  let result := render_delimited text "`" (ESC +:+ "[36m") (ESC +:+ "[0m") in
  let result := render_delimited result "**" (ESC +:+ "[1m") (ESC +:+ "[0m") in
  render_delimited result "*" (ESC +:+ "[3m") (ESC +:+ "[0m").

Definition render_heading (r : string) : string :=
  match str_strip_prefix "# " r with
  | Some rest => ESC +:+ "[1m" +:+ ESC +:+ "[4m" +:+ rest +:+ ESC +:+ "[0m"
  | None =>
      match str_strip_prefix "## " r with
      | Some rest => ESC +:+ "[1m" +:+ rest +:+ ESC +:+ "[0m"
      | None =>
          match str_strip_prefix "### " r with
          | Some rest => ESC +:+ "[1m" +:+ rest +:+ ESC +:+ "[0m"
          | None => r
          end
      end
  end.
Definition render_line (line : string) : string :=
  let r := render_heading (render_markdown line) in
  match str_strip_prefix "- " r with Some rest => "  • " +:+ rest | None => r end.
Definition render_block (text : string) : string := join_lines (render_line <$> lines text).

Definition truncate_output (output : string) : string :=
  let trimmed := trim_string output in
  if 10 <? length (lines trimmed) then
    join_lines (take 10 (lines trimmed)) +:+ String "010" "… (truncated)"
  else trimmed.

Section ui.
Context (from_str : string → option Value) (grey : string → string).

Definition str_or (v : Value) (key default : string) : string :=
  match get key v ≫= as_str with Some s => s | None => default end.
Definition render_error_block (error : string) : list string :=
  match from_str error with
  | Some json =>
      error_lines (str_or json "code" "ProviderError") (str_or json "message" error)
        (str_or json "source" "openai_provider")
        (match get "recoverable" json with Some (Bool b) => b | _ => true end)
        (get "suggestion" json ≫= as_str)
  | None => error_lines "ProviderError" error "openai_provider" true None
  end.

(** [ReasoningBuffer] *)
Record ReasoningBuffer := { reasoning_text : string; show : bool }.
Definition reasoning_push (text : string) (b : ReasoningBuffer) : ReasoningBuffer :=
  {| reasoning_text := reasoning_text b +:+ text; show := show b |}.
(** Shown, unless it is blank, or discarded; empty afterwards. *)
Definition reasoning_flush (b : ReasoningBuffer) : list string * ReasoningBuffer :=
  (if show b && negb (is_blank (reasoning_text b))
   then ["  " +:+ grey "💭" +:+ " " +:+ grey (trim_string (reasoning_text b))] else [],
   {| reasoning_text := ""; show := show b |}).

(** *** The render loop *)

Record TerminalUi := { full_response : string; reasoning : ReasoningBuffer; printed : list string }.

Definition print (ls : list string) (u : TerminalUi) : TerminalUi :=
  {| full_response := full_response u; reasoning := reasoning u; printed := printed u ++ ls |}.
Definition flush_reasoning (u : TerminalUi) : TerminalUi :=
  let '(ls, b) := reasoning_flush (reasoning u) in
  {| full_response := full_response u; reasoning := b; printed := printed u ++ ls |}.
Definition print_response_block (u : TerminalUi) : TerminalUi :=
  if decide (full_response u = "") then u
  else {| full_response := ""; reasoning := reasoning u;
          printed := printed u ++ [render_block (full_response u)] |}.

Definition ui_chunk (chunk : LlmChunk) (u : TerminalUi) : TerminalUi :=
  match chunk with
  | LlmChunk.Text content =>
      let u := flush_reasoning u in
      {| full_response := full_response u +:+ content; reasoning := reasoning u; printed := printed u |}
  | LlmChunk.Reasoning content =>
      {| full_response := full_response u; reasoning := reasoning_push content (reasoning u);
         printed := printed u |}
  | LlmChunk.ToolCallStart _ name =>
      print (box_lines name "pending…") (print_response_block (flush_reasoning u))
  | LlmChunk.ToolArgument _ _ => u
  | LlmChunk.ToolCallDone _ => print ["  … done"] u
  | LlmChunk.ToolResult name output =>
      print (box_lines ("Result: " +:+ name) (truncate_output output)) u
  | LlmChunk.Done => print_response_block (flush_reasoning u)
  | LlmChunk.Error error =>
      print (render_error_block error) (print_response_block (flush_reasoning u))
  | LlmChunk.Warning message => print ["⚠  " +:+ message] u
  | LlmChunk.Status message => print ["◐  " +:+ message] u
  end.

(** What is received until the loop is cancelled; the loop ends at the first error of the
    receiver. *)
Fixpoint ui_run (answers : list (result LlmChunk RecvError)) (u : TerminalUi) : TerminalUi :=
  match answers with
  | Ok chunk :: answers => ui_run answers (ui_chunk chunk u)
  | _ => u
  end.
Definition ui_new (show_reasoning : bool) : TerminalUi :=
  {| full_response := ""; reasoning := {| reasoning_text := ""; show := show_reasoning |};
     printed := [] |}.
End ui.

(** ** repl.rs: the sessions *)

Module Cli.
Section manager.
Context {Shell : Type}.

Record SessionManager := { current : string; shells : gmap string Shell }.

Definition SessionManager_new (initial_id : string) (initial_shell : Shell) : SessionManager :=
  {| current := initial_id; shells := {[initial_id := initial_shell]} |}.
Definition current_shell (m : SessionManager) : option Shell := shells m !! current m.
Definition switch (id : string) (m : SessionManager) : SessionManager :=
  match shells m !! id with
  | Some _ => {| current := id; shells := shells m |}
  | None => m
  end.
Definition insert_shell (id : string) (shell : Shell) (m : SessionManager) : SessionManager :=
  {| current := current m; shells := <[id := shell]> (shells m) |}.
Definition list_sessions (m : SessionManager) : list string := btree_keys (shells m).
Definition get_shell (id : string) (m : SessionManager) : option Shell := shells m !! id.
End manager.
Arguments SessionManager : clear implicits.
End Cli.

(** ** repl.rs: completion *)

Record Suggestion := { value : string; description : option string; span : nat * nat;
                       append_whitespace : bool }.

Definition SLASH_COMMANDS : list (string * string) :=
  [("/help", "Show help"); ("/quit", "Exit the CLI"); ("/session", "Show the current session");
   ("/session new", "Create a new session"); ("/session list", "List sessions");
   ("/session load", "Load a persisted session")].

Definition complete_slash (line : string) (pos : nat) : list Suggestion :=
  (λ '(cmd, desc), {| value := cmd; description := Some desc; span := (0, pos);
                      append_whitespace := true |})
    <$> filter (λ '(cmd, _), str_starts line cmd = true) SLASH_COMMANDS.

Section completion.
(** [Path::parent] and [Path::file_name] on text, and the entries of a directory with
    whether they are directories; [None] when it cannot be read. *)
Context (parent file_name : string → option string).
Context (read_dir : string → option (list (string * bool))).

Definition ends_with_slash (s : string) : bool :=
  match last (list_ascii_of_string s) with Some "/"%char => true | _ => false end.

Definition complete_path (last_word : string) (pos word_start : nat) : list Suggestion :=
  let '(dir, prefix) :=
    if ends_with_slash last_word then (last_word, "")
    else (match parent last_word with Some p => p | None => "." end,
          match file_name last_word with Some n => n | None => "" end) in
  match read_dir dir with
  | None => []
  | Some entries =>
      (λ '(name, is_dir), {| value := if is_dir : bool then name +:+ "/" else name;
                             description := None; span := (word_start, pos);
                             append_whitespace := false |})
        <$> filter (λ '(name, _), str_starts prefix name = true) entries
  end.

(** The bytes behind the last blank, and where they begin. *)
Fixpoint last_word_from (start at_ : nat) (word s : string) : nat * string :=
  match s with
  | EmptyString => (start, word)
  | String " " s => last_word_from (S at_) (S at_) "" s
  | String a s => last_word_from start (S at_) (word +:+ String a "") s
  end.

Definition complete (line : string) (pos : nat) : list Suggestion :=
  let prefix := string_of_list_ascii (take pos (list_ascii_of_string line)) in
  if str_starts "/" prefix then complete_slash prefix pos
  else
    let '(last_word_start, last_word) := last_word_from 0 0 "" prefix in
    if str_starts "/" last_word || str_starts "." last_word || str_starts "~" last_word
    then complete_path last_word pos last_word_start else [].
End completion.

(** ** repl.rs: the line editor's loop *)

Inductive EditorSignal : Type :=
  | Success (line : string)
  | CtrlC
  | CtrlD
  | OtherSignal
  | EditorError.

(** The signals read, each with whether the channel of the bridge takes a line.  What is
    sent, and whether the program was cancelled. *)
Fixpoint repl_run (signals : list (EditorSignal * bool)) : list string * bool :=
  match signals with
  | [] => ([], false)
  | (Success line, taken) :: signals =>
      let trimmed := trim_string line in
      if bool_decide (trimmed ∈ ["/quit"; "/q"]) then ([], true)
      else if bool_decide (trimmed = "") then repl_run signals
      else if taken : bool then let '(sent, cancelled) := repl_run signals in (line :: sent, cancelled)
      else ([], true)
  | (OtherSignal, _) :: signals => repl_run signals
  | _ => ([], true)
  end.

(** ** bridge.rs *)

Section bridge.
Context `{!PersistCodec} {U : AnyUniverse} {P : Type} `{!CycleRollbackPolicy U P}.
Context (red green bold : string → string).
(** Whether the client accepts the configuration, and what a shell answers to an input. *)
Context (client_config : result unit ShellError).
Context (send_input : nat → string → result unit ShellError).

(** A shell: the session its engine thread was given, the mirror of its client, the messages
    it was sent, and whether it was shut down.  Shells are shared, and known by their place. *)
Record TerminalShell := {
  kernel_session : Session U P;
  client_mirror : list ChatMessage;
  sent_messages : list string;
  shut_down : bool
}.

Record Bridge := {
  cli : Cli.SessionManager nat;
  all_shells : list TerminalShell;
  (** The client [run] was started with. *)
  bridge_llm : nat;
  redb : RedbStorage;
  console : list string;
  bridge_cancelled : bool
}.

Definition set_cli (m : Cli.SessionManager nat) (b : Bridge) : Bridge :=
  {| cli := m; all_shells := all_shells b; bridge_llm := bridge_llm b; redb := redb b;
     console := console b; bridge_cancelled := bridge_cancelled b |}.
Definition set_shells (l : list TerminalShell) (b : Bridge) : Bridge :=
  {| cli := cli b; all_shells := l; bridge_llm := bridge_llm b; redb := redb b;
     console := console b; bridge_cancelled := bridge_cancelled b |}.
Definition cancel_bridge (b : Bridge) : Bridge :=
  {| cli := cli b; all_shells := all_shells b; bridge_llm := bridge_llm b; redb := redb b;
     console := console b; bridge_cancelled := true |}.
Definition say (line : string) (b : Bridge) : Bridge :=
  {| cli := cli b; all_shells := all_shells b; bridge_llm := bridge_llm b; redb := redb b;
     console := console b ++ [line]; bridge_cancelled := bridge_cancelled b |}.
Definition complain (text : string) : Bridge → Bridge := say (red "!" +:+ " " +:+ text).

(** [push_message] on a client, [send_input] and [shutdown] on a shell. *)
Definition push_to_client (i : nat) (m : ChatMessage) : Bridge → Bridge := λ b,
  set_shells (alter (λ s, {| kernel_session := kernel_session s;
                             client_mirror := client_mirror s ++ [m];
                             sent_messages := sent_messages s; shut_down := shut_down s |})
                i (all_shells b)) b.
Definition send_to_shell (i : nat) (text : string) : Bridge → Bridge := λ b,
  match send_input i text with
  | Ok _ =>
      set_shells (alter (λ s, {| kernel_session := kernel_session s;
                                 client_mirror := client_mirror s;
                                 sent_messages := sent_messages s ++ [text];
                                 shut_down := shut_down s |}) i (all_shells b)) b
  | Err err => say ("Send error: " +:+ ShellError_to_string err) b
  end.
Definition shutdown_shell (i : nat) : Bridge → Bridge := λ b,
  set_shells (alter (λ s, {| kernel_session := kernel_session s; client_mirror := client_mirror s;
                             sent_messages := sent_messages s; shut_down := true |})
                i (all_shells b)) b.

(** [build_shell]: the factory restores the session, the client holds the prompt. *)
Definition build_terminal_shell (id : string) (initial_history : option (list ChatMessage))
    (initial_head : option SessionHeadDTO) : result TerminalShell ShellError :=
  match client_config with
  | Err e => Err e
  | Ok _ =>
      Ok {| kernel_session :=
              match initial_head with
              | Some head => to_session head (match initial_history with Some h => h | None => [] end)
              | None => match initial_history with
                        | Some h => set_history (λ _, h) (Session_new id)
                        | None => Session_new id
                        end
              end;
            client_mirror := [ChatMessage.System DEFAULT_SYSTEM_PROMPT];
            sent_messages := []; shut_down := false |}
  end.

(** A new shell becomes the current one; its client is dropped. *)
Definition adopt (id : string) (shell : TerminalShell) (b : Bridge) : Bridge :=
  set_cli (Cli.switch id (Cli.insert_shell id (length (all_shells b)) (cli b)))
    (set_shells (all_shells b ++ [shell]) b).

Definition session_command_new (clock_secs : N) (b : Bridge) : Bridge :=
  let new_id := "session-" +:+ pretty clock_secs in
  match build_terminal_shell new_id None None with
  | Ok shell => say ("New session: " +:+ green new_id) (adopt new_id shell b)
  | Err err => complain ("Failed to build session: " +:+ ShellError_to_string err) b
  end.

Definition session_command_list (b : Bridge) : Bridge :=
  say (join_lines (bold "Sessions:" ::
         ((λ id, (if decide (id = Cli.current (cli b)) then " → " else "   ") +:+ id)
            <$> Cli.list_sessions (cli b)))) b.

Definition session_command_load (id : string) (b : Bridge) : Bridge :=
  match load_session id (redb b) with
  | Err err => complain ("Load error: " +:+ PersistenceError_to_string err) b
  | Ok None => complain ("Session '" +:+ id +:+ "' not found.") b
  | Ok (Some head) =>
      match load_messages_for_session id (redb b) with
      | Err err => complain ("Load messages error: " +:+ PersistenceError_to_string err) b
      | Ok msgs =>
          match build_terminal_shell id (Some msgs.*2) (Some head) with
          | Err err => complain ("Failed to load session: " +:+ ShellError_to_string err) b
          | Ok shell => say ("Session '" +:+ green id +:+ "' loaded.") (adopt id shell b)
          end
      end
  end.

Definition handle_session_command (clock_secs : N) (args : list string) (b : Bridge) : Bridge :=
  match args with
  | [] => complain "/session requires a sub-command" b
  | "new" :: _ => session_command_new clock_secs b
  | "list" :: _ => session_command_list b
  | ["load"] => complain "/session load requires a session id" b
  | "load" :: id :: _ => session_command_load id b
  | other :: _ => complain ("Unknown /session " +:+ other +:+ " command") b
  end.

Definition print_repl_help : string :=
  join_lines
    [bold "Commands:";
     "  <text>               Send a message to the LLM";
     "  /help                Show this help";
     "  /quit                Exit";
     "  /session             Current session";
     "  /session new         Create a new session";
     "  /session list        List sessions";
     "  /session load <id>   Load a persisted session";
     "";
     bold "Shortcuts:";
     "  Ctrl+C               Cancel (send /quit to exit)";
     "  Ctrl+D               Exit";
     "";
     bold "Environment variables:";
     "  BRIOCHE_API_KEY      API key (can be passed via --api-key)";
     "  BRIOCHE_MODEL        LLM model (default: gpt-4o-mini)";
     "  BRIOCHE_BASE_URL     API endpoint (default: https://api.openai.com/v1)"].

Definition bridge_slash (clock_secs : N) (cmd full_line : string) (b : Bridge) :
    Bridge :=
  match split_whitespace cmd with
  | "quit" :: _ | "q" :: _ =>
      let ids := Cli.list_sessions (cli b) in
      cancel_bridge
        (foldl (λ b i, shutdown_shell i b) (say (green "Goodbye.") b)
           (omap (λ id, Cli.get_shell id (cli b)) ids))
  | "help" :: _ | "h" :: _ => say print_repl_help b
  | ["session"] => say ("Current session: " +:+ green (Cli.current (cli b))) b
  | "session" :: args => handle_session_command clock_secs args b
  | _ => complain ("Unknown command " +:+ full_line) b
  end.

Definition bridge_line (clock_secs : N) (line : string) (b : Bridge) : Bridge :=
  let trimmed := trim_string line in
  if decide (trimmed = "") then b
  else match str_strip_prefix "/" trimmed with
       | Some cmd => bridge_slash clock_secs cmd trimmed b
       | None =>
           match Cli.current_shell (cli b) with
           | None => complain "Invalid current session." b
           | Some shell =>
               send_to_shell shell trimmed
                 (push_to_client (bridge_llm b) (ChatMessage.User trimmed) b)
           end
       end.

(** The lines received, each with the clock, until the bridge is cancelled. *)
Fixpoint bridge_run (ls : list (N * string)) (b : Bridge) : Bridge :=
  match ls with
  | [] => b
  | (clock_secs, line) :: ls =>
      if bridge_cancelled b then b else bridge_run ls (bridge_line clock_secs line b)
  end.

(** interactive.rs: the first shell, whose client the bridge and the display get. *)
Definition interactive_start (storage : RedbStorage) : result Bridge ShellError :=
  match build_terminal_shell "cli-session" None None with
  | Err e => Err e
  | Ok shell =>
      Ok {| cli := Cli.SessionManager_new "cli-session" 0; all_shells := [shell]; bridge_llm := 0;
            redb := storage; console := []; bridge_cancelled := false |}
  end.
End bridge.
Arguments TerminalShell : clear implicits.
Arguments Bridge : clear implicits.

(** ** headless.rs *)

(** What the receiver gives within 30 seconds. *)
Inductive HeadlessRecv : Type :=
  | Received (chunk : LlmChunk)
  | BroadcastError
  | Elapsed.

Record HeadlessRun := {
  answer_text : string;
  reasoning_buffer : string;
  done_received : bool;
  in_tool_call : bool;
  consecutive_timeouts : N;
  stderr : list string
}.

Inductive HeadlessEnd : Type :=
  | Exited (code : N) (stdout : option string) (stderr : list string)
  | Waiting (h : HeadlessRun).

Section headless.
Context (show_reasoning : bool).

Definition Headless_new : HeadlessRun :=
  {| answer_text := ""; reasoning_buffer := ""; done_received := false; in_tool_call := false;
     consecutive_timeouts := 0; stderr := [] |}.

Definition headless_update (text reasoning : string) (done tool : bool) (timeouts : N)
    (err : list string) (h : HeadlessRun) : HeadlessRun :=
  {| answer_text := text; reasoning_buffer := reasoning; done_received := done;
     in_tool_call := tool; consecutive_timeouts := timeouts; stderr := stderr h ++ err |}.

Definition shown_reasoning (h : HeadlessRun) : list string :=
  if show_reasoning && negb (is_blank (reasoning_buffer h))
  then ["💭  " +:+ trim_string (reasoning_buffer h)] else [].

(** One chunk; [None] is the exit with code 1 on an error of the model. *)
Definition headless_chunk (chunk : LlmChunk) (h : HeadlessRun) : result HeadlessRun string :=
  let keep := headless_update (answer_text h) (reasoning_buffer h) (done_received h)
                (in_tool_call h) 0 in
  match chunk with
  | LlmChunk.Text content =>
      Ok (headless_update (answer_text h +:+ content) "" false (in_tool_call h) 0 (shown_reasoning h) h)
  | LlmChunk.Reasoning content =>
      Ok (headless_update (answer_text h) (reasoning_buffer h +:+ content) (done_received h)
            (in_tool_call h) 0 [] h)
  | LlmChunk.ToolCallStart _ _ =>
      Ok (headless_update (answer_text h) "" false true 0 (shown_reasoning h) h)
  | LlmChunk.ToolCallDone _ =>
      Ok (headless_update (answer_text h) (reasoning_buffer h) (done_received h) false 0 [] h)
  | LlmChunk.ToolResult name output =>
      Ok (headless_update
            (answer_text h +:+ String "010" ("[tool " +:+ name +:+ ": " +:+ output +:+ "]" +:+ String "010" ""))
            (reasoning_buffer h) (done_received h) (in_tool_call h) 0 [] h)
  | LlmChunk.Done => Ok (headless_update (answer_text h) "" true (in_tool_call h) 0 (shown_reasoning h) h)
  | LlmChunk.Error error => Err ("LLM error: " +:+ error)
  | LlmChunk.Warning message => Ok (keep ["⚠  " +:+ message] h)
  | LlmChunk.Status message => Ok (keep ["◐  " +:+ message] h)
  | LlmChunk.ToolArgument _ _ => Ok (keep [] h)
  end.

Definition headless_exit (h : HeadlessRun) : HeadlessEnd :=
  Exited 0 (Some (trim_string (answer_text h))) (stderr h).

Definition timeout_warning (n : N) : list string :=
  if (n =? 1)%N then
    [String "010" "⚠  No response after 30s — model may be reasoning slowly or provider is queuing…"]
  else if (3 <=? n)%N then
    [String "010" "✗  Model unresponsive after " +:+ pretty (n * 30)%N +:+ "s. Aborting."]
  else [].

Definition headless_elapsed (h : HeadlessRun) : HeadlessRun * bool :=
  let n := (consecutive_timeouts h + 1)%N in
  (headless_update (answer_text h) (reasoning_buffer h) (done_received h) (in_tool_call h) n
     (timeout_warning n) h, (3 <=? n)%N).

Fixpoint headless_loop (answers : list HeadlessRecv) (h : HeadlessRun) : HeadlessEnd :=
  match answers with
  | [] => Waiting h
  | Received chunk :: answers =>
      match headless_chunk chunk h with
      | Ok h => headless_loop answers h
      | Err e => Exited 1 None (stderr h ++ [e])
      end
  | BroadcastError :: _ => headless_exit h
  | Elapsed :: answers =>
      let '(h, aborted) := headless_elapsed h in
      if aborted : bool then Exited 1 None (stderr h)
      else if done_received h && negb (in_tool_call h) then headless_exit h
      else headless_loop answers h
  end.
End headless.
