(* ===== verification/TerminalSpec.v ===== *)
(** * Correctness of the terminal application: the layout of boxes, what the display shows, which
      client the bridge speaks to, how a headless run ends *)
From S2P Require Import Prelude Utf8 Types Effects Extension Session Plugins Router Engine.
From S2P Require Import Persistence GovTypes Sse Provider SystemTools Executor Settings Extensions.
From S2P Require Import Memory Skills DesktopShell Instances PersistenceSpec.
From S2P Require Import ProviderSpec SystemToolsSpec UserTools UserToolsSpec DesktopSessions Terminal.

(** ** Widths *)

Definition valid (s : string) : Prop := valid_utf8 (bytes_of_string s) = true.

Lemma text_chars_app a b : valid a → text_chars (a +:+ b) = text_chars a ++ text_chars b.
Proof. intros H. unfold text_chars. by rewrite bytes_of_string_app, chars_app. Qed.

Lemma width_app a b : valid a → width (a +:+ b) = width a + width b.
Proof. intros H. unfold width. by rewrite text_chars_app, length_app. Qed.

Lemma valid_string_app a b : valid a → valid b → valid (a +:+ b).
Proof. unfold valid. intros Ha Hb. by rewrite bytes_of_string_app, valid_app. Qed.

Lemma repeated_spec n c : valid c → valid (repeated n c) ∧ width (repeated n c) = n * width c.
Proof.
  intros Hc. unfold repeated. induction n as [|n [IH1 IH2]]; [done|].
  cbn [repeat foldr]. split; [by apply valid_string_app|]. rewrite width_app by done. lia.
Qed.

Lemma text_of_chars_spec cs :
  Forall is_char cs → text_chars (text_of_chars cs) = cs ∧ valid (text_of_chars cs).
Proof.
  intros H. unfold text_chars, text_of_chars, valid. rewrite bytes_of_string_of_bytes.
  split; [by apply chars_mjoin|]. induction H as [|c cs [_ Hv] _ IH]; [done|].
  change (valid_utf8 (c ++ mjoin cs) = true). by rewrite valid_app.
Qed.

Lemma text_chars_valid s :
  valid s → Forall is_char (text_chars s) ∧ text_of_chars (text_chars s) = s.
Proof.
  intros H. destruct (chars_valid _ H) as [H1 H2]. split; [done|].
  unfold text_of_chars, text_chars. by rewrite H2, string_of_bytes_of_string.
Qed.

(** A valid text can be cut at an ASCII character. *)
Lemma valid_cut l1 b l2 :
  is_ascii_byte b → valid_utf8 (l1 ++ b :: l2) = true →
  valid_utf8 l1 = true ∧ valid_utf8 l2 = true.
Proof.
  intros Hb. remember (length l1) as n eqn:Hn. revert l1 Hn.
  induction n as [n IH] using lt_wf_ind. intros [|b0 l1] Hn Hv.
  - split; [done|]. change (valid_utf8 ([b] ++ l2) = true) in Hv. rewrite valid_app in Hv; [done|].
    unfold is_ascii_byte in Hb. rewrite valid_cons. unfold next_seq, char_width.
    by replace (byte_in 0 127 b) with true by (symmetry; apply byte_in_spec; lia).
  - rewrite <- app_comm_cons, valid_cons in Hv. apply andb_prop in Hv as [Hg Hv].
    destruct (next_seq b0 (l1 ++ b :: l2)) as [g m] eqn:E. cbn [fst snd] in *. subst g.
    pose proof (next_seq_pos b0 (l1 ++ b :: l2)) as Hp. rewrite E in Hp. cbn in Hp.
    assert (m ≤ S (length l1)) as Hm.
    { destruct (decide (is_ascii_byte b0)) as [Ha|Ha].
      - unfold next_seq, char_width in E.
        replace (byte_in 0 127 b0) with true in E
          by (symmetry; apply byte_in_spec; unfold is_ascii_byte in Ha; lia).
        injection E as <-. lia.
      - pose proof (next_seq_high b0 (l1 ++ b :: l2) Ha) as Hh. rewrite E in Hh. cbn [snd] in Hh.
        destruct (decide (m ≤ S (length l1))) as [|Hgt]; [done|]. exfalso.
        rewrite Forall_forall in Hh. apply (Hh b); [|done].
        apply list_elem_of_lookup. exists (S (length l1)). apply lookup_take_Some. split; [|lia].
        cbn. by apply list_lookup_middle. }
    rewrite app_comm_cons, drop_app_le in Hv by (cbn; lia).
    destruct (IH (length (drop m (b0 :: l1)))
                ltac:(rewrite length_drop, Hn; cbn; lia) (drop m (b0 :: l1)) eq_refl Hv) as [H1 H2].
    split; [|done]. rewrite valid_cons.
    pose proof (next_seq_prefix b0 _ m (drop (m - 1) l1) E) as E'.
    rewrite take_app_le, take_drop in E' by lia. by rewrite E'.
Qed.

Lemma valid_cut_string a c b :
  is_ascii_byte (byte_of_ascii c) → valid (a +:+ String c b) → valid a ∧ valid b.
Proof.
  unfold valid. rewrite bytes_of_string_app. intros Hc H. by apply (valid_cut _ (byte_of_ascii c)).
Qed.

Lemma split_char_spec c s :
  let '(piece, rest) := split_char c s in
  match rest with
  | [] => piece = s
  | p :: ps => ∃ s', s = piece +:+ String c s' ∧ split_char c s' = (p, ps)
  end.
Proof.
  induction s as [|a s IH]; [done|]. cbn. destruct (split_char c s) as [piece rest] eqn:E.
  case_decide as Ha.
  - subst a. by exists s.
  - destruct rest as [|p ps]; [by subst|]. destruct IH as (s' & -> & Hs). by exists s'.
Qed.

Lemma split_on_valid c s :
  is_ascii_byte (byte_of_ascii c) → valid s → Forall valid (split_on c s).
Proof.
  intros Hc. unfold split_on. remember (String.length s) as n eqn:Hn. revert s Hn.
  induction n as [n IH] using lt_wf_ind. intros s Hn Hv. pose proof (split_char_spec c s) as Hs.
  destruct (split_char c s) as [piece rest]. destruct rest as [|p ps]; [subst; by repeat constructor|].
  destruct Hs as (s' & -> & Hs). destruct (valid_cut_string _ _ _ Hc Hv) as [H1 H2].
  constructor; [done|]. specialize (IH (String.length s')).
  assert (String.length s' < n) as Hlt.
  { rewrite Hn, string_length_app. cbn. lia. }
  specialize (IH Hlt s' eq_refl H2). by rewrite Hs in IH.
Qed.

Lemma strip_cr_valid s : valid s → valid (strip_cr s).
Proof.
  assert (strip_cr s = s ∨ s = strip_cr s +:+ String "013" "") as [->|E]; [|done|].
  { induction s as [|a s IH]; [by left|]. destruct s as [|a' s'].
    - destruct (decide (a = "013"%char)) as [->|Ha]; [by right|left].
      cbn. repeat case_match; done.
    - assert (strip_cr (String a (String a' s')) = String a (strip_cr (String a' s'))) as ->.
      { cbn. by repeat case_match. }
      destruct IH as [->|IH]; [by left|right]. by rewrite IH at 1. }
  intros H. rewrite E in H. by destruct (valid_cut_string (strip_cr s) "013" "" ltac:(done) H).
Qed.

Lemma lines_valid s : valid s → Forall valid (lines s).
Proof.
  intros H. unfold lines. pose proof (split_on_valid "010" s ltac:(done) H) as Hp.
  apply Forall_app. split.
  - apply Forall_fmap. assert (Forall valid (removelast (split_on "010" s))) as Hr.
    { clear -Hp. induction Hp as [|y l Hy Hl IH]; [constructor|].
      destruct l as [|z l]; [constructor|]. by constructor. }
    eapply Forall_impl; [exact Hr|]. intros x. apply strip_cr_valid.
  - destruct (last (split_on "010" s)) as [[|a l]|] eqn:E; try by constructor.
    repeat constructor. rewrite Forall_forall in Hp. apply Hp. by apply last_Some_elem_of.
Qed.

(** ** Wrapping *)

Definition solid (cs : list bytes) : list bytes := filter (λ c, is_whitespace c = false) cs.

Lemma solid_app a b : solid (a ++ b) = solid a ++ solid b.
Proof. apply filter_app. Qed.

(** The words have the characters that are not blank. *)
Lemma split_words_solid word l :
  solid word = word → mjoin (split_words word l) = rev word ++ solid l ∧
  Forall (λ w, solid w = w) (split_words word l) ∧
  (∀ (Q : bytes → Prop), Forall Q word → Forall Q l → Forall (Forall Q) (split_words word l)).
Proof.
  assert (∀ w : list bytes, solid w = w → solid (rev w) = rev w) as Hrev.
  { intros w Hw. unfold solid. rewrite <- Hw at 2. induction w as [|c w IH]; [done|].
    unfold solid in *. rewrite filter_cons in Hw |- *. case_decide as Hc.
    - cbn [rev]. injection Hw as Hw. rewrite filter_app, IH by done.
      rewrite filter_cons_True by done. done.
    - exfalso. pose proof (length_filter (λ c, is_whitespace c = false) w) as Hlen.
      rewrite Hw in Hlen. cbn in Hlen. lia. }
  assert (∀ w : list bytes, solid w = w →
    let r := match w with [] => [] | _ => [rev w] end in
    mjoin r = rev w ∧ Forall (λ w, solid w = w) r ∧ ∀ Q : bytes → Prop, Forall Q w → Forall (Forall Q) r)
    as Hrest.
  { intros w Hw. destruct w as [|c w]; [by split_and!|]. split_and!.
    - change (rev (c :: w) ++ [] = rev (c :: w)). apply app_nil_r.
    - repeat constructor. by apply Hrev.
    - intros Q HQ. repeat constructor. by apply Forall_rev. }
  revert word. induction l as [|c l IH]; intros word Hw.
  - destruct (Hrest word Hw) as (H1 & H2 & H3). cbn. rewrite H1, app_nil_r.
    split_and!; [done|done|intros Q HQ _; by apply H3].
  - cbn [split_words]. destruct (is_whitespace c) eqn:Ec.
    + destruct (Hrest word Hw) as (H1 & H2 & H3). destruct (IH [] eq_refl) as (I1 & I2 & I3).
      rewrite mjoin_app, H1, I1. unfold solid. rewrite filter_cons_False by (by rewrite Ec).
      split_and!; [done|by apply Forall_app|].
      intros Q HQ [_ Hl]%Forall_cons. apply Forall_app. split; [by apply H3|by apply I3].
    + assert (solid (c :: word) = c :: word) as Hcw.
      { unfold solid. rewrite filter_cons_True by done. by f_equal. }
      destruct (IH (c :: word) Hcw) as (I1 & I2 & I3). rewrite I1. split_and!.
      * unfold solid. rewrite (filter_cons_True _ c) by done. cbn [rev]. by rewrite <- app_assoc.
      * done.
      * intros Q HQ [Hc Hl]%Forall_cons. apply I3; [by constructor|done].
Qed.

Lemma break_word_spec max_width fuel w :
  0 < max_width → length w ≤ fuel →
  let '(pieces, rest) := break_word fuel max_width w in
  mjoin pieces ++ rest = w ∧ Forall (λ p, length p = max_width) pieces ∧ length rest ≤ max_width ∧
  (∀ Q : bytes → Prop, Forall Q w → Forall (Forall Q) pieces ∧ Forall Q rest).
Proof.
  intros Hm. revert w. induction fuel as [|fuel IH]; intros w Hl; cbn [break_word].
  - destruct w; [|cbn in Hl; lia]. split_and!; [done|done|cbn; lia|done].
  - destruct (max_width <? length w) eqn:E.
    + apply Nat.ltb_lt in E. specialize (IH (drop max_width w)). rewrite length_drop in IH.
      destruct (break_word fuel max_width (drop max_width w)) as [pieces rest].
      destruct IH as (I1 & I2 & I3 & I4); [lia|]. cbv beta iota. split_and!.
      * change ((take max_width w ++ mjoin pieces) ++ rest = w).
        by rewrite <- (assoc_L (++)), I1, take_drop.
      * constructor; [rewrite length_take; lia|done].
      * done.
      * intros Q HQ. destruct (I4 Q) as [J1 J2]; [by apply Forall_drop|].
        split; [constructor; [by apply Forall_take|done]|done].
    + apply Nat.ltb_ge in E. by split_and!.
Qed.

(** What the fold over the words keeps. *)
Record wrapping (max_width : nat) (acc : list (list bytes) * list bytes) (text : list bytes) : Prop := {
  wr_solid : solid (mjoin acc.1 ++ acc.2) = text;
  wr_lines : Forall (λ l, length l ≤ max_width) acc.1;
  wr_current : length acc.2 ≤ max_width;
  wr_chars : Forall (Forall is_char) acc.1 ∧ Forall is_char acc.2
}.

Lemma flush_line_spec result current :
  mjoin (flush_line result current) = mjoin result ++ current ∧
  ∀ Q : list bytes → Prop, Forall Q result → Q current → Forall Q (flush_line result current).
Proof.
  destruct current as [|c current]; cbn; [by rewrite app_nil_r|]. rewrite mjoin_app. cbn.
  rewrite app_nil_r. split; [done|]. intros Q H1 H2. apply Forall_app. by repeat constructor.
Qed.

Lemma wrap_word_spec max_width acc text word :
  0 < max_width → wrapping max_width acc text → solid word = word → Forall is_char word →
  wrapping max_width (wrap_word max_width acc word) (text ++ word).
Proof.
  intros Hm [H1 H2 H3 [H4 H5]] Hw Hc. destruct acc as [result current].
  cbn [fst snd] in *. unfold wrap_word.
  destruct (flush_line_spec result current) as [F1 F2].
  assert (is_char blank) as Hb by done.
  destruct (max_width <? length word) eqn:E1; [|destruct (max_width <? length current + 1 + length word) eqn:E2].
  - pose proof (break_word_spec max_width (length word) word Hm (le_n _)) as Hbr.
    destruct (break_word (length word) max_width word) as [pieces rest].
    destruct Hbr as (B1 & B2 & B3 & B4). destruct (B4 _ Hc) as [B5 B6].
    split; cbn [fst snd]; [|apply Forall_app; split; [by apply F2|]|done|].
    + rewrite mjoin_app, F1, <- (assoc_L (++)), B1, solid_app, H1. by rewrite Hw.
    + eapply Forall_impl; [exact B2|]. cbn. lia.
    + split; [|done]. apply Forall_app. split; [by apply F2|done].
  - apply Nat.ltb_ge in E1. split; cbn [fst snd]; [|by apply F2|done|split; [by apply F2|done]].
    by rewrite F1, solid_app, H1, Hw.
  - apply Nat.ltb_ge in E1, E2. destruct current as [|c current].
    + split; cbn [fst snd]; [|done|done|done]. rewrite app_nil_r in H1. by rewrite solid_app, H1, Hw.
    + split; cbn [fst snd]; [|done| |].
      * change (c :: current ++ blank :: word) with ((c :: current) ++ blank :: word).
        rewrite (assoc_L (++)), solid_app, H1. unfold solid at 1. rewrite filter_cons_False by done.
        change (text ++ solid word = text ++ word). by rewrite Hw.
      * rewrite length_app. cbn in *. lia.
      * split; [done|]. change (Forall is_char ((c :: current) ++ blank :: word)).
        apply Forall_app. split; [done|by constructor].
Qed.

Lemma wrap_line_spec line max_width :
  valid line → 0 < max_width →
  Forall (λ l, width l ≤ max_width ∧ valid l) (wrap_line line max_width) ∧
  solid (wrap_line line max_width ≫= text_chars) = solid (text_chars line).
Proof.
  intros Hv Hm. unfold wrap_line. destruct (width line <=? max_width) eqn:E.
  { apply Nat.leb_le in E. cbn. rewrite app_nil_r. split; [by repeat constructor|done]. }
  destruct (text_chars_valid line Hv) as [Hc _].
  destruct (split_words_solid [] (text_chars line) eq_refl) as (S1 & S2 & S3).
  specialize (S3 is_char ltac:(constructor) Hc). cbn in S1.
  assert (∀ ws acc text, wrapping max_width acc text → Forall (λ w, solid w = w) ws →
    Forall (Forall is_char) ws →
    wrapping max_width (foldl (wrap_word max_width) acc ws) (text ++ mjoin ws)) as Hfold.
  { induction ws as [|w ws IH]; intros acc text Ha Hs Hcs; cbn; [by rewrite app_nil_r|].
    apply Forall_cons in Hs as [Hs1 Hs2]. apply Forall_cons in Hcs as [Hc1 Hc2].
    rewrite (assoc_L (++)). apply IH; [by apply wrap_word_spec|done|done]. }
  specialize (Hfold (split_words [] (text_chars line)) ([], []) []).
  destruct (foldl _ _ _) as [result current].
  destruct Hfold as [H1 H2 H3 [H4 H5]]; [split; cbn; (done || lia)|done|done|].
  cbn in *. rewrite S1 in H1. destruct (flush_line_spec result current) as [F1 F2].
  assert (Forall (Forall is_char) (flush_line result current)) as Hcs by (by apply F2).
  assert (Forall (λ l, length l ≤ max_width) (flush_line result current)) as Hls by (by apply F2).
  split.
  - apply Forall_fmap. rewrite Forall_forall in *. intros l Hl. cbn.
    destruct (text_of_chars_spec l (Hcs l Hl)) as [T1 T2]. split; [|done].
    unfold width. rewrite T1. by apply Hls.
  - rewrite <- H1, <- F1. f_equal. clear -Hcs. induction Hcs as [|l ls Hl _ IH]; [done|].
    cbn. destruct (text_of_chars_spec l Hl) as [-> _]. by rewrite IH.
Qed.

(** ** Boxes *)

Lemma bordered_spec left inner_w line :
  valid left → valid line →
  width (bordered left inner_w line) = width left + width line + (inner_w - (width line + 2)) + 2.
Proof.
  intros Hl Hv. unfold bordered. destruct (repeated_spec (inner_w - (width line + 2)) " ") as [R1 R2];
    [done|]. rewrite !width_app by done. rewrite R2. change (width " ") with 1.
  change (width " │") with 2. lia.
Qed.

Lemma wrapped_widths n content :
  0 < n → valid content →
  Forall (λ l, width l ≤ n ∧ valid l) (lines content ≫= λ l, wrap_line l n).
Proof.
  intros Hn Hv. pose proof (lines_valid content Hv) as Hl.
  induction Hl as [|l ls Hl _ IH]; [done|]. cbn. apply Forall_app. split; [|exact IH].
  by apply wrap_line_spec.
Qed.

(** Text in a box: with a label of at most 47 characters the borders and all the lines of the
    box are equally wide, between 30 and 52 characters, and nothing but blanks is lost of the
    content, however long its lines and words are. *)
Theorem box_lines_aligned label content (Hl : valid label) (Hc : valid content)
    (Hw : width label ≤ 47) :
  ∃ inner_w, 28 ≤ inner_w ≤ 50 ∧ Forall (λ l, width l = inner_w + 2) (box_lines label content) ∧
    ∃ texts, box_lines label content =
      box_lines label content !!! 0 :: (bordered "│ " inner_w <$> texts) ++
        [("╰" +:+ repeated inner_w "─" +:+ "╯")] ∧
      solid (texts ≫= text_chars) = solid (lines content ≫= text_chars).
Proof.
  unfold box_lines. set (cm := max_width_of _). set (w := box_width (width label) cm).
  assert (28 ≤ w ≤ 50 ∧ width label + 3 ≤ w) as [Hw1 Hw2].
  { unfold w, box_width, clamp, BOX_WIDTH. destruct (width label + 4 <? 28) eqn:E1;
      [apply Nat.ltb_lt in E1; lia|apply Nat.ltb_ge in E1]. destruct (50 <? width label + 4) eqn:E2;
      [apply Nat.ltb_lt in E2|apply Nat.ltb_ge in E2]; lia. }
  exists w. split; [done|]. clearbody w. clear cm.
  destruct (repeated_spec (w - (width label + 3)) "─") as [R1 R2]; [done|].
  destruct (repeated_spec w "─") as [R3 R4]; [done|]. split.
  - apply Forall_cons. split; [|apply Forall_app; split].
    + rewrite !width_app by done. rewrite R2. change (width "╭─ ") with 3. change (width " ") with 1.
      change (width "─") with 1. change (width "╮") with 1. lia.
    + apply Forall_fmap. pose proof (wrapped_widths (w - 2) content ltac:(lia) Hc) as Hl'.
      eapply Forall_impl; [exact Hl'|]. intros l [H1 H2]. cbn.
      rewrite bordered_spec by done. change (width "│ ") with 2. lia.
    + repeat constructor. rewrite !width_app by done. rewrite R4. change (width "╰") with 1.
      change (width "─") with 1. change (width "╯") with 1. lia.
  - eexists. split; [reflexivity|]. pose proof (lines_valid content Hc) as Hv.
    induction Hv as [|l ls Hl' _ IH]; [done|]. cbn. rewrite bind_app, !solid_app, IH.
    f_equal. by apply wrap_line_spec; [|lia].
Qed.

(** The boxes of errors are not aligned: the upper border is one character too wide, a
    suggestion two, and the line before it has no right border. *)
Example error_box_misaligned :
  width <$> error_lines "Timeout" "no answer" "openai" true (Some "check the network") =
    [31; 30; 1; 32; 30].
Proof. vm_compute. reflexivity. Qed.

(** A label of 48 characters is wider than its box. *)
Example long_label_sticks_out :
  width <$> box_lines (repeated 48 "x") "pending" = [53; 52; 52].
Proof. vm_compute. reflexivity. Qed.

(** ** The display *)

Section display.
Context (from_str : string → option Value) (grey : string → string).

(** The text of the answers. *)
Fixpoint answered (chunks : list LlmChunk) : string :=
  match chunks with
  | [] => ""
  | LlmChunk.Text s :: chunks => s +:+ answered chunks
  | _ :: chunks => answered chunks
  end.

Lemma answered_app l1 l2 : answered (l1 ++ l2) = answered l1 +:+ answered l2.
Proof using Type.
  induction l1 as [|c l1 IH]; [done|]. cbn. destruct c; rewrite IH; try done.
  apply string_app_assoc.
Qed.

(** What was printed of the text [t], and what is still to be printed. *)
Definition shown (t : string) (u : TerminalUi) : Prop :=
  ∃ blocks, foldr String.append "" blocks +:+ full_response u = t ∧
    render_block <$> blocks `sublist_of` printed u.

Lemma shown_more t u u' ls :
  full_response u' = full_response u → printed u' = printed u ++ ls → shown t u → shown t u'.
Proof using Type.
  intros E1 E2 (blocks & H1 & H2). exists blocks. rewrite E1, E2. split; [done|].
  by apply sublist_inserts_r.
Qed.

Lemma flush_shown t u : shown t u → shown t (flush_reasoning grey u).
Proof using Type. intros Hs. by eapply (shown_more t u); [| |exact Hs]. Qed.

Lemma foldr_append_snoc blocks s :
  foldr String.append "" (blocks ++ [s]) = foldr String.append "" blocks +:+ s.
Proof using Type.
  induction blocks as [|b blocks IH]; [apply string_app_nil_r|]. cbn. rewrite IH.
  apply string_app_assoc.
Qed.

Lemma block_shown t u :
  shown t u → shown t (print_response_block u) ∧ full_response (print_response_block u) = "".
Proof using Type.
  intros (blocks & H1 & H2). unfold print_response_block. case_decide as Hf.
  - split; [by exists blocks|done].
  - split; [|done]. exists (blocks ++ [full_response u]). cbn. rewrite foldr_append_snoc, string_app_nil_r.
    split; [done|]. rewrite fmap_app. by apply sublist_app.
Qed.

Lemma chunk_shown t c u :
  shown t u → shown (t +:+ answered [c]) (ui_chunk from_str grey c u).
Proof using Type.
  intros Hs. assert (∀ ls u', shown t u' → shown (t +:+ "") (print ls u')) as Hp.
  { intros ls u' H'. rewrite string_app_nil_r. by eapply (shown_more t u' _ ls). }
  pose proof (block_shown t _ (flush_shown t u Hs)) as [Hb _].
  destruct c; cbn [ui_chunk answered]; rewrite ?string_app_nil_r; try (rewrite <- (string_app_nil_r t); by apply Hp).
  - destruct (flush_shown t u Hs) as (blocks & H1 & H2). exists blocks. cbn in *.
    by rewrite string_app_assoc, H1.
  - by eapply (shown_more t u _ []); [| |exact Hs]; [done|cbn; by rewrite app_nil_r].
  - exact Hs.
  - exact Hb.
Qed.

(** What the display shows: when an answer is done, all its text was printed, in blocks and in
    order, whatever tool calls, warnings and reasoning came in between. *)
Theorem display_shows_answers (chunks : list LlmChunk) reasoning :
  let u := ui_run from_str grey ((Ok <$> chunks) ++ [Ok LlmChunk.Done]) (ui_new reasoning) in
  full_response u = "" ∧
  ∃ blocks, foldr String.append "" blocks = answered chunks ∧
    render_block <$> blocks `sublist_of` printed u.
Proof using Type.
  cbv zeta. assert (∀ t u, shown t u →
    let u' := ui_run from_str grey ((Ok <$> chunks) ++ [Ok LlmChunk.Done]) u in
    full_response u' = "" ∧ ∃ blocks, foldr String.append "" blocks = t +:+ answered chunks ∧
      render_block <$> blocks `sublist_of` printed u') as Hrun.
  { induction chunks as [|c chunks IH]; intros t u Hs; cbv zeta;
      cbn [fmap list_fmap app ui_run ui_chunk].
    - pose proof (block_shown t _ (flush_shown t u Hs)) as [(blocks & H1 & H2) H3].
      split; [done|]. exists blocks. rewrite H3, string_app_nil_r in H1.
      by rewrite string_app_nil_r.
    - destruct (IH _ _ (chunk_shown t c u Hs)) as (H1 & blocks & H2 & H3). split; [done|].
      exists blocks. split; [|done]. by rewrite H2, <- string_app_assoc, <- answered_app. }
  apply (Hrun ""). by exists [].
Qed.
End display.

(** ** The bridge *)

Section bridge.
Context `{!PersistCodec} {U : AnyUniverse} {P : Type} `{!CycleRollbackPolicy U P}.
Context (red green bold : string → string) (client_config : result unit ShellError).
Context (send_input : nat → string → result unit ShellError).
#[local] Abbreviation Bridge := (Bridge U P).
#[local] Abbreviation bridge_line := (bridge_line red green bold client_config send_input).
#[local] Abbreviation bridge_run := (bridge_run red green bold client_config send_input).

Definition all_sent (b : Bridge) : list string := all_shells b ≫= sent_messages.

(** What the client of a shell that the bridge does not speak to has. *)
Definition prompt_only (s : TerminalShell U P) : Prop :=
  client_mirror s = [ChatMessage.System DEFAULT_SYSTEM_PROMPT].

Record bridge_ok (msgs : list string) (b : Bridge) : Prop := {
  bo_llm : bridge_llm b = 0;
  bo_first : ∃ s rest, all_shells b = s :: rest ∧ Forall prompt_only rest ∧
    client_mirror s = ChatMessage.System DEFAULT_SYSTEM_PROMPT :: (ChatMessage.User <$> msgs);
  bo_sent : all_sent b ⊆+ msgs;
  bo_current : is_Some (Cli.current_shell (cli b));
  bo_shells : map_Forall (λ _ i, i < length (all_shells b)) (Cli.shells (cli b))
}.

(** Only the console, or whether it was cancelled, changed. *)
Definition same_bridge (b b' : Bridge) : Prop :=
  cli b' = cli b ∧ all_shells b' = all_shells b ∧ bridge_llm b' = bridge_llm b.

Lemma same_bridge_ok msgs b b' : same_bridge b b' → bridge_ok msgs b → bridge_ok msgs b'.
Proof using Type.
  intros (E1 & E2 & E3) [H1 H2 H3 H4 H5]. split; unfold all_sent in *; rewrite ?E1, ?E2, ?E3; done.
Qed.

Lemma shutdown_ok msgs i b : bridge_ok msgs b → bridge_ok msgs (shutdown_shell i b).
Proof using Type.
  intros [H1 (s & rest & E & Hrest & Hs) H3 H4 H5]. unfold shutdown_shell. split; cbn; try done.
  - rewrite E. destruct i as [|i]; cbn; eexists _, _; split_and!; try done.
    apply Forall_alter; [done|]. by intros x Hx.
  - unfold all_sent in *. cbn.
    assert ((alter (λ s0, {| kernel_session := kernel_session s0; client_mirror := client_mirror s0;
              sent_messages := sent_messages s0; shut_down := true |}) i (all_shells b)
              ≫= sent_messages) = all_shells b ≫= sent_messages) as ->; [|done].
    clear. revert i. induction (all_shells b) as [|x l IH]; intros [|i]; cbn; try done.
    by rewrite IH.
  - eapply map_Forall_impl; [exact H5|]. intros j x Hx. cbn in *. by rewrite length_alter.
Qed.

Lemma adopt_ok msgs id shell b :
  bridge_ok msgs b → prompt_only shell → sent_messages shell = [] → bridge_ok msgs (adopt id shell b).
Proof using Type.
  intros [H1 (s & rest & E & Hrest & Hs) H3 H4 H5] Hp Hsent. unfold adopt. split; cbn; try done.
  - exists s, (rest ++ [shell]). rewrite E. split_and!; [done| |done].
    apply Forall_app. by repeat constructor.
  - unfold all_sent in *. cbn. rewrite bind_app. cbn. by rewrite Hsent, !app_nil_r.
  - unfold Cli.switch, Cli.current_shell. cbn. rewrite lookup_insert_eq. cbn. by rewrite lookup_insert_eq.
  - assert (map_Forall (λ _ i, i < length (all_shells b ++ [shell]))
      (<[id := length (all_shells b)]> (Cli.shells (cli b)))) as Hall.
    { apply map_Forall_insert_2; [rewrite length_app; cbn; lia|].
      eapply map_Forall_impl; [exact H5|]. intros j x Hx. cbn in *. rewrite length_app. cbn. lia. }
    unfold Cli.switch. cbn. by rewrite lookup_insert_eq.
Qed.

Lemma build_prompt_only id h hd (s : TerminalShell U P) :
  build_terminal_shell client_config id h hd = Ok s → prompt_only s ∧ sent_messages s = [].
Proof using Type. unfold build_terminal_shell. destruct client_config; [|done]. by intros [= <-]. Qed.

Lemma say_same t b : same_bridge b (say t b).
Proof using Type. done. Qed.

Lemma session_command_ok msgs clock args b :
  bridge_ok msgs b → bridge_ok msgs (handle_session_command red green bold client_config clock args b).
Proof using Type.
  intros Hbr. assert (∀ t b', bridge_ok msgs b' → bridge_ok msgs (say t b')) as Hsay
    by (intros t b'; by apply same_bridge_ok).
  assert (∀ id h hd s, build_terminal_shell client_config id h hd = Ok s →
    bridge_ok msgs (adopt id s b)) as Hadopt.
  { intros id h hd s Hs. destruct (build_prompt_only _ _ _ _ Hs). by apply adopt_ok. }
  unfold handle_session_command, session_command_new, session_command_list, session_command_load,
    complain.
  repeat case_match; try (apply Hsay; exact Hbr); apply Hsay; by eapply Hadopt.
Qed.

Lemma bridge_slash_ok msgs clock cmd line b :
  bridge_ok msgs b →
  bridge_ok msgs (bridge_slash red green bold client_config clock cmd line b).
Proof using Type.
  intros Hbr. assert (∀ t b', bridge_ok msgs b' → bridge_ok msgs (say t b')) as Hsay
    by (intros t b'; by apply same_bridge_ok).
  assert (∀ js b', bridge_ok msgs b' → bridge_ok msgs (foldl (λ b i, shutdown_shell i b) b' js)) as Hshut.
  { induction js as [|i js IH]; intros b' Hb; [done|]. cbn. by apply IH, shutdown_ok. }
  assert (∀ b', bridge_ok msgs b' → bridge_ok msgs (cancel_bridge b')) as Hcancel
    by (intros b'; by apply same_bridge_ok).
  pose proof (λ args, session_command_ok msgs clock args b Hbr) as Hcmd.
  unfold bridge_slash, complain. repeat case_match; try (apply Hsay; exact Hbr); try apply Hcmd;
    apply Hcancel, Hshut, Hsay, Hbr.
Qed.

Lemma alter_sent (i : nat) t (l : list (TerminalShell U P)) :
  (alter (λ s, {| kernel_session := kernel_session s; client_mirror := client_mirror s;
                  sent_messages := sent_messages s ++ [t]; shut_down := shut_down s |}) i l
     ≫= sent_messages) ⊆+ (l ≫= sent_messages) ++ [t].
Proof using Type.
  revert i. induction l as [|s l IH]; intros i; [cbn; apply submseteq_nil_l|]. destruct i as [|i]; cbn.
  - rewrite <- !(assoc_L (++)). apply submseteq_app; [done|]. by rewrite (comm (++)).
  - rewrite <- (assoc_L (++)). by apply submseteq_app, IH.
Qed.

(** A line for the model is pushed to the first client, and sent to the current shell. *)
Lemma bridge_message_ok msgs shell t b :
  bridge_ok msgs b →
  bridge_ok (msgs ++ [t]) (send_to_shell send_input shell t
                             (push_to_client (bridge_llm b) (ChatMessage.User t) b)).
Proof using Type.
  intros [H1 (s & rest & E & Hrest & Hs) H3 H4 H5].
  set (b1 := push_to_client (bridge_llm b) (ChatMessage.User t) b).
  assert (bridge_ok (msgs ++ [t]) b1) as Hb1.
  { unfold b1, push_to_client. rewrite H1, E. split; cbn; try done.
    - eexists _, rest. split_and!; [reflexivity|done|]. cbn. by rewrite Hs, fmap_app.
    - unfold all_sent in *. rewrite E in H3. cbn in *. rewrite H3. by apply submseteq_inserts_r.
    - by rewrite E in H5. }
  assert (all_sent b1 = all_sent b) as Hsent.
  { unfold b1, push_to_client, all_sent. rewrite H1, E. done. }
  clearbody b1. clear -Hb1 Hsent H3. destruct Hb1 as [H1 (s & rest & E & Hrest & Hs) _ H4 H5].
  unfold send_to_shell. destruct (send_input shell t) as [[]|err].
  - split; cbn; try done.
    + rewrite E. destruct shell as [|i]; cbn; eexists _, _; split_and!; try done.
      apply Forall_alter; [done|]. by intros x Hx.
    + unfold all_sent in *. cbn. rewrite alter_sent, Hsent. by apply submseteq_app.
    + eapply map_Forall_impl; [exact H5|]. intros j x Hx. cbn in *. by rewrite length_alter.
  - split; cbn; try done; [by exists s, rest|]. unfold all_sent in *. cbn.
    rewrite Hsent, H3. by apply submseteq_inserts_r.
Qed.

Lemma bridge_line_ok msgs clock line b :
  bridge_ok msgs b → ∃ more, bridge_ok (msgs ++ more) (bridge_line clock line b).
Proof using Type.
  intros Hbr. unfold Terminal.bridge_line. case_decide; [exists []; by rewrite app_nil_r|].
  destruct (str_strip_prefix "/" (trim_string line)).
  - exists []. rewrite app_nil_r. by apply bridge_slash_ok.
  - destruct (bo_current _ _ Hbr) as [shell ->]. eexists. by apply bridge_message_ok.
Qed.


(** A loaded session gets back what was saved, the watermark included; its client does not. *)
Lemma terminal_load_restores id head msgs (b : Bridge) :
  client_config = Ok tt → load_session id (redb b) = Ok (Some head) →
  load_messages_for_session id (redb b) = Ok msgs →
  let b' := session_command_load red green client_config id b in
  Cli.current (cli b') = id ∧
  ∃ s, all_shells b' = all_shells b ++ [s] ∧ kernel_session s = to_session head msgs.*2 ∧
    prompt_only s.
Proof using Type.
  intros Hc Hh Hmsgs. unfold session_command_load. rewrite Hh, Hmsgs, Hc. cbn. split.
  - unfold Cli.switch. cbn. by rewrite lookup_insert_eq.
  - by eexists.
Qed.
End bridge.

(** Three lines, two of them after a new session: they all reach the first client, and the
    model of the second session has only the prompt. *)
Definition terminal_lines : list (N * string) :=
  [(1%N, "hello"); (2%N, "/session new"); (3%N, "who am I?"); (4%N, "still there?")].

Definition terminal_run (b : Bridge concrete_universe unit) : Bridge concrete_universe unit :=
  bridge_run id id id (Ok tt) (λ _ _, Ok tt) terminal_lines b.

Definition terminal_storage : RedbStorage := 
  {| db := {| sessions_table := ∅; messages_table := ∅; blobs_table := ∅ |}; session_store := ∅ |}.


(** ** The line editor *)

(** [/quit] is answered by the line editor: the bridge, which shuts the shells down, never
    sees it. *)
Lemma quit_skips_shutdown signals :
  Forall (λ line, trim_string line ∉ ["/quit"; "/q"; ""]) (repl_run signals).1.
Proof.
  induction signals as [|[[line| | | |] taken] signals IH]; cbn; try done.
  case_bool_decide as H1; [done|]. case_bool_decide as H2; [done|].
  destruct taken; [|done]. destruct (repl_run signals) as [sent cancelled]. cbn in *.
  constructor; [|done]. set_solver.
Qed.

(** The completion of a path replaces the whole word by the name: the directory is lost. *)
Example path_completion_drops_directory :
  complete (λ _, Some "./src") (λ _, Some "ma") (λ _, Some [("main.rs", false); ("lib.rs", false)])
    "cat ./src/ma" 12 =
  [{| value := "main.rs"; description := None; span := (4, 12); append_whitespace := false |}].
Proof. vm_compute. reflexivity. Qed.

(** ** The headless run *)

(** What a run prints of the answers received. *)
Fixpoint said (answers : list HeadlessRecv) : string :=
  match answers with
  | [] => ""
  | Received (LlmChunk.Text s) :: answers => s +:+ said answers
  | Received (LlmChunk.ToolResult name output) :: answers =>
      String "010" ("[tool " +:+ name +:+ ": " +:+ output +:+ "]" +:+ String "010" "") +:+ said answers
  | _ :: answers => said answers
  end.

(** Three periods of silence in a row. *)
Fixpoint silent (n : nat) (answers : list HeadlessRecv) : bool :=
  match answers with
  | [] => false
  | Elapsed :: answers => (3 <=? S n) || silent (S n) answers
  | _ :: answers => silent 0 answers
  end.

Definition broadcast_closed (answers : list HeadlessRecv) : bool :=
  existsb (λ a, match a with BroadcastError => true | _ => false end) answers.

Lemma headless_loop_spec show_reasoning answers h :
  let over := broadcast_closed answers ||
              silent (N.to_nat (consecutive_timeouts h)) answers in
  match headless_loop show_reasoning answers h with
  | Waiting h' => over = false ∧ answer_text h' = answer_text h +:+ said answers
  | Exited code out err =>
      (code = 1%N ∧ out = None) ∨
      (code = 0%N ∧ ∃ before after, answers = before ++ after ∧ after ≠ [] ∧
         out = Some (trim_string (answer_text h +:+ said before)))
  end.
Proof.
  revert h. induction answers as [|a answers IH]; intros h.
  { cbn. split; [done|]. by rewrite string_app_nil_r. }
  cbn zeta in *. cbn [headless_loop].
  assert (∀ h' t, answer_text h' = answer_text h +:+ t → t +:+ said answers = said (a :: answers) →
    (∀ before, said (a :: before) = t +:+ said before) →
    silent (N.to_nat (consecutive_timeouts h)) (a :: answers)
      = silent (N.to_nat (consecutive_timeouts h')) answers → a ≠ BroadcastError →
    match headless_loop show_reasoning answers h' with
    | Waiting h'' =>
        broadcast_closed (a :: answers)
          || silent (N.to_nat (consecutive_timeouts h)) (a :: answers) = false ∧
        answer_text h'' = answer_text h +:+ said (a :: answers)
    | Exited code out err =>
        (code = 1%N ∧ out = None) ∨
        (code = 0%N ∧ ∃ before after, a :: answers = before ++ after ∧ after ≠ [] ∧
           out = Some (trim_string (answer_text h +:+ said before)))
    end) as Hstep.
  { intros h' t E1 E2 E3 E4 E5. specialize (IH h'). destruct (headless_loop _ answers h').
    - destruct IH as [?|(-> & before & after & -> & Ha & ->)]; [by left|right]. split; [done|].
      exists (a :: before), after. split_and!; [done..|]. by rewrite E3, E1, string_app_assoc.
    - destruct IH as [H1 H2]. apply orb_false_iff in H1 as [H1 H1'].
      split.
      + rewrite E4, H1', orb_false_r. unfold broadcast_closed in *. cbn [existsb]. rewrite H1. by destruct a.
      + by rewrite H2, E1, <- E2, string_app_assoc. }
  destruct a as [c| |].
  - destruct c; cbn [headless_chunk];
      first [by left
            |eapply (Hstep _ ""); [by rewrite string_app_nil_r|done..]
            |eapply Hstep; [reflexivity|done..]].
  - right. split; [done|]. exists [], (BroadcastError :: answers). split_and!; [done..|].
    by rewrite string_app_nil_r.
  - unfold headless_elapsed. destruct (3 <=? consecutive_timeouts h + 1)%N eqn:E; [by left|].
    destruct (done_received _ && _).
    + right. split; [done|]. exists [], (Elapsed :: answers). split_and!; [done..|].
      by rewrite string_app_nil_r.
    + eapply (Hstep _ ""); [by rewrite string_app_nil_r|done|done| |done].
      cbn [silent headless_update consecutive_timeouts].
      rewrite N2Nat.inj_add. apply N.leb_gt in E.
      replace (N.to_nat (consecutive_timeouts h) + N.to_nat 1) with (S (N.to_nat (consecutive_timeouts h))) by lia.
      assert ((3 <=? S (N.to_nat (consecutive_timeouts h))) = false) as -> by (apply Nat.leb_gt; lia).
      done.
Qed.

(** A headless run ends: once the broadcast is closed, or nothing came for three periods in a
    row, it has exited; with code 0 it printed the text and the tool results received up to
    some point, in order, and with code 1 nothing. *)
Theorem headless_run_ends show_reasoning answers
    (Hover : broadcast_closed answers = true ∨ silent 0 answers = true) :
  ∃ code out err, headless_loop show_reasoning answers Headless_new = Exited code out err ∧
    ((code = 1%N ∧ out = None) ∨
     (code = 0%N ∧ ∃ before after, answers = before ++ after ∧ after ≠ [] ∧
        out = Some (trim_string (said before)))).
Proof.
  pose proof (headless_loop_spec show_reasoning answers Headless_new) as H. cbn zeta in H.
  destruct (headless_loop _ _ _) as [code out err|h].
  - by exists code, out, err.
  - destruct H as [H _]. apply orb_false_iff in H as [H1 H2]. change (silent 0 answers = false) in H2. destruct Hover; congruence.
Qed.

(** Every call to the model ends with [Done], also one that asks for tools: when a tool takes
    longer than a period, the run ends before its result and the answer built on it. *)
Example headless_stops_during_tools :
  headless_loop false
    [Received (LlmChunk.Text "Let me look. "); Received (LlmChunk.ToolCallStart "1" "execute_command");
     Received (LlmChunk.ToolCallDone "1"); Received LlmChunk.Done; Elapsed;
     Received (LlmChunk.ToolResult "execute_command" "ok"); Received (LlmChunk.Text "Done.")]
    Headless_new =
  Exited 0 (Some "Let me look.") (timeout_warning 1).
Proof. vm_compute. reflexivity. Qed.
